(* ===== verification/_CoqProject ===== *)
-Q . S2P
Prelude.v
CxxString.v
Json.v
Records.v
Datastore.v
Instances.v
Md5.v
Resource.v
IoproxyMgr.v
User.v
Space.v
Zones.v
Mconf.v
Lru.v
FdManager.v
Op.v
Files.v
SyncIo.v
Replica.v
ProxyOp.v
Pages.v
Cluster.v
ClusterRuns.v
StatCache.v
ClientZone.v
Fuse.v
Pool.v
WriteQueue.v
ReadAhead.v
Stack.v
AsyncWrites.v
StackRuns.v
AsyncRuns.v
IoWorker.v
Registration.v
IoWorkerRuns.v
SelectNode.v
IpcMod.v
Commands.v
Ipc.v
Tools.v
ToolList.v
Service.v
CommandRuns.v
ToolRuns.v
Config.v
Log.v
OpQueue.v
UdtMessage.v
UdtWriter.v
UdtSession.v
UdtServer.v
UdtChannel.v
