(* ===== verification/Prelude.v ===== *)
(** * GVDS: a verification development

    GVDS is a virtual data space over several data centres. A _manager_ in each
    centre keeps zones, spaces, accounts and registries in a document database; an
    _I/O proxy_ in each centre serves the files of its spaces from a local directory
    and replicates them to the proxies of other centres; a _client_ mounts zones and
    spaces with FUSE and sends file operations to a proxy. The sources are under
    src/src; a name such as manager/zone/ZoneServer.cc is relative to it.

    ** What each file models

    Shared:
    - Prelude.v: integers of machine width, the effect [M W A] with its program
      logic [wp], the tactics [wp_step] and [wp_steps];
    - Pool.v: workers that are each in one place, queues side by side;
    - CxxString.v: [std::string], C strings, [snprintf];
    - Json.v, Records.v: common/JsonSerializer.h over the interface [Rapidjson],
      and the structs of include/gvds_struct.h, include/aggregation_struct.h,
      common/centerinfo.h and Account.h with their round trips;
    - Datastore.v, Instances.v: datastore/ over the interface [Couchbase], and one
      implementation of every interface, at which the witnesses are evaluated.

    The manager (HTTP handlers as functions from the body to the response and the
    database):
    - Md5.v, User.v: manager/usermodel;
    - Space.v, Zones.v: manager/space, manager/zone, the second calling the first;
    - Resource.v, IoproxyMgr.v, Mconf.v: manager/resaggregation_mgr.cc,
      manager/ioproxy_mgr.cc, manager/mconf.

    The I/O proxy:
    - Lru.v, FdManager.v: common/LRU.h and io_proxy/fd_mgr.cc, the cache of
      descriptors and the handlers of sparse files, over the interface [Posix];
    - Op.v, ProxyOp.v: common/pb/op.proto and io_proxy/proxy_op.cc, the handlers of
      requests, over the file system calls [Fs];
    - Replica.v: io_proxy/replica_mgr.cc, the queue and the transfer of data
      between centres, over the interface [Grpc];
    - Files.v, Pages.v, Cluster.v, ClusterRuns.v: the laws of file contents and a
      file system in memory, what the handlers of one proxy do to a file, the
      composition of two centres, and concrete runs of it;
    - IoWorker.v, IoWorkerRuns.v: io_proxy/io_worker.cc, the thread of
      io_proxy/grpc_impl.cc and the start of the workers in io_proxy/io_proxy.cc, as a
      transition system that serves many clients, and concrete runs;
    - Registration.v: the start of a proxy in io_proxy/io_proxy.cc, and its
      registration at the manager of IoproxyMgr.v;
    - SyncIo.v: io_proxy/sync_io.cc, msg/op.h and the rest of io_proxy/proxy_op.cc,
      operations as objects, over the interface [SyncCalls];
    - OpQueue.v: the queue of such operations in io_proxy/io_proxy.cc.

    Data over UDT, between a client and a proxy:
    - UdtMessage.v: the message of io_proxy/rpc_types.h, over the interface [Msgpack];
    - UdtWriter.v: msg/udt_writer.cc, the writing thread of a session;
    - UdtSession.v: msg/client_session.cc and msg/server_session.cc, and the two of
      them on a connection; the operations the server makes are those of SyncIo.v;
    - UdtServer.v: msg/udt_server.cc, the sessions of a proxy by their sockets;
    - UdtChannel.v: client/msg_mod.cc, the sessions of a client by proxy, over the
      interface [UdtSessions].

    The client:
    - StatCache.v, ClientZone.v: client/cache_mod.cc, client/zone_mod.cc and
      client/graph_mod.cc;
    - SelectNode.v: client/OPTNode/opt_node.cc, the list of centres and the ranking
      of managers by the time they take to answer, turn by turn, with the requests of
      client/msg_mod.cc; over the interfaces [Pistache] and [StdSort];
    - IpcMod.v, Commands.v, CommandRuns.v: client/ipc_mod.cc, the 45 commands of the
      command line tools and their dispatch, as computations over the client's
      modules and the outside; what they answer; concrete runs;
    - Service.v: the route tables of the managers, and commands in front of a
      manager on its database;
    - Fuse.v: client/gvds_fuse_impl.cc, one definition per callback;
    - WriteQueue.v: client/queue.cc, client/client_worker.cc and the asynchronous
      calls of msg/operator_client.hpp, as a transition system;
    - ReadAhead.v: client/readahead.cc;
    - Stack.v, StackRuns.v: a client in front of two centres;
    - AsyncWrites.v, AsyncRuns.v: the write queue in front of a remote file, and of
      two centres.

    The command line:
    - Ipc.v: common/ipc, the socket between a tool and the client as two streams of
      bytes, the message with its header, and the loops of both ends;
    - Tools.v, ToolList.v: cmdline/CmdLineProxy.cc and the 41 programs of cmdline/,
      one [tool] for each: its options, its checks, the request it makes of them and
      the lines it prints;
    - ToolRuns.v: a tool, the socket, the dispatch of IpcMod.v and its command.

    Every process:
    - Config.v: config/ConfigureSettings.cc and its defaults, over the interface
      [Libconfig]; it gives the texts the others ask of [Host];
    - Log.v: log/Log.cc and log/Entry.h, the lines, the buffer and the threads.

    ** How state and effects correspond

    A function of the source that touches the outside is a term of [M W A]: the
    world [W] is the database, the disks or the network, and the outcome is a value
    or [UB]. [UB] is undefined behaviour (a null dereference, an index out of range,
    control at the end of a function that must return); in ClientZone.v also a call
    that never returns. Member variables are an explicit record that the operation
    takes and returns. Objects with identity (list iterators, descriptors) are
    modelled by their identity, so that dangling ones show.
    Threads: a method that runs under one lock is one step. The write queue is a
    transition system whose actions are its critical sections; the callback of the
    read-ahead is cut where it releases its lock. In Ipc.v a step is a completion
    handler of boost::asio or the arrival of bytes, in any number; in Log.v it is what
    a thread does between taking and releasing a mutex; so it is in OpQueue.v, UdtWriter.v
    and UdtSession.v, where the arrival of bytes is a step too. A request of a proxy
    is one step, in Cluster.v with the flusher of its queue after it. In IoWorker.v
    that is exact where ioproxy.scher is 1, since one thread then runs all requests;
    with more schedulers (the default is 6) the system calls of two requests may
    interleave, which is not modelled. Calls, completions, events and replies
    interleave freely.

    Code outside the repository is an interface: [Couchbase], [Host] (commands,
    UUIDs, configuration), [Rapidjson], [Posix], [Fs], [Roaring], [Grpc],
    [Protobuf], [Udt], [Pistache], [ManagerHttp], [ProxyProcess], [StdSort],
    [ProgramOptions], [Libconfig], [LocalTime], [SyncCalls], [Msgpack],
    [RapidjsonErrors] (texts that are no JSON), [Indet] (uninitialised values),
    [Allocator]. Classes that end in [Laws] state what its documentation promises, and
    each has an instance: the map database of Instances.v, the file system [mem] of
    Files.v. [CouchbaseUp], [FaultFreeDisk] and the like are hypotheses of runs in
    which nothing fails (a [pwrite] then writes its whole range), and the theorems that
    need them say so. [RemoteFile] (AsyncWrites.v) is what the queue needs of the
    proxies, where calls may fail; [centres_file] proves it of two centres, and
    [lossy_file] of such centres behind a network that loses calls and replies.
    [FdManager::open] of a path that is cached reads a list node that was just freed.
    What it finds is decided by [reuses_freed_block] of [Allocator], which no allocator
    documents: no theorem assumes either value. Those about the files of a proxy have
    two halves, what the code does where the block was handed out again for the node
    put in its place, and that the process ends where it was not.
    [WriteQueue] and [ReadAhead] (Fuse.v) are what the callbacks use of two modules
    with threads of their own; [client_readahead] is the second's implementation, and
    [Udt] what they use of a channel; [UdtSessions] is what a channel uses of a session.

    ** What the theorems show

    - The file, end to end: two centres are one file for every history of writes
      and page reads ([history_refines]), also through the client's callbacks and
      across changes of the centre visited ([fuse_refines]), as far as the freed node
      of [FdManager::open] lets them; through the write queue, but for the calls that
      fail ([async_writes_settle]); where the bounds matter,
      [partial_read_loses_data], [empty_replica_crashes], [truncate_empties],
      [writes_reorder].
    - The workers of a proxy: every call is answered ([every_call_answered]), with a
      number of schedulers that leaves a worker ([no_worker_answers_nobody]); with one
      scheduler the answer is that of its own request, carried out once
      ([one_scheduler_answers_own]).
    - The replication queue: sections are delivered to every other centre
      ([flush_delivers]), requests settle ([replication_settles]) or bounce for ever
      ([bounces_for_ever]).
    - The write queue: counters, places of the workers, limits, channels, and that
      it comes to rest ([accounts_balance], [queue_bounded], [channels_starve],
      [queue_comes_to_rest], [few_workers_never_send]).
    - The read-ahead: what is served after any history of the buffers is the file
      ([status_faithful]), and where it is not ([past_end_is_answered],
      [late_store_serves_other_file], [random_read_undefined], [vain_wait_undefined]).
    - Commands, end to end: sharing a zone by names and logging in, from the text of
      the command to the documents of the manager ([share_end_to_end],
      [login_end_to_end]); which command runs and on what ([dispatch_spec],
      [login_required], [domapdeduct_spec]), and where the answer is not what happened
      ([no_response_is_success], [exit_is_not_logout]).
    - The command line, end to end: what a tool prints is what the command of its name
      answers to the request the options describe ([tool_runs_its_command]), it gets
      that answer in a bounded number of steps ([tool_gets_its_answer]), and for two
      tools what that means ([zonelist_shows], [silence_deletes_centre]). Below that
      the socket: requests are served in order, the client dies only of a command
      without a result or of an answer too long ([requests_served_in_order]), and every
      request is answered ([every_request_answered]).
    - Data over UDT: a call gets the result of its own operation, however bytes are cut,
      delayed and reordered ([answered_by_own_operation]), because messages reach the wire
      whole and in order ([wire_in_order]), because answers find their requests
      ([answers_find_requests]) and because the server keeps its sessions apart
      ([every_socket_has_its_session], [rounds_keep_apart]); and where it breaks: callbacks
      that come late ([late_callback_is_lost]), writers that wait for ever
      ([waits_for_ever], [sleeps_with_room]), sessions that cannot be made again
      ([failed_reconnect]), a server that does not stop ([stop_is_ignored]).
    - Operations as objects: what is written is read back ([write_then_read]); the queue
      hands them out in order and once ([dispatched_in_order]), had it a worker
      ([nothing_without_workers]).
    - The configuration: where an addition comes to its end, and that what is added is
      read and nothing else changes ([added_is_read]); what a process starts with ([configured], [default_texts]).
    - The log: entries are written once, whole and in order, within the buffer, until
      a write of the file fails ([log_in_order]), and the log thread catches up
      ([log_catches_up]).
    - The start of a proxy: it meets the proxies that are registered
      ([start_meets_registered]) and never those that start later, whatever it does
      afterwards ([later_proxy_is_unknown]).
    - The choice of a manager: the fastest of the last turn, after the clock of the
      measurement, with what becomes of centres of one name ([get_manager_fastest]); a centre added on the manager is one the
      client knows ([added_centre_is_seen]), until a failure is taken for a list
      ([fail_answer_loses_managers]).
    - The manager: capacity of storage resources, authorisation, every branch of
      the zone and space operations, accounts, registries, the MD5 digest.
    - Round trips: records, database documents, bitmaps in extended attributes,
      zones sent to a client.
    - The caches: the recency list refines a list of recent keys ([lru_refines]),
      descriptors are tracked, attributes are never stale, nor forgotten while there
      is room.

    ** Fuel

    Loops over a string have its length as fuel ([split_loop]); the loops over data
    and holes one unit per byte of the range ([loop_fuel]), which is enough because
    each turn advances; the loop of the read-ahead one per sector of its buffer.
    [walk_fuel] bounds the depth of a directory tree, which is unbounded in the
    source where a symbolic link closes a cycle, and [ra_fuel] the turns of a read
    with read-ahead, which asks again after each task it sets: both are parameters,
    and running out is [UB]. A path of the configuration has its length
    ([path_of]), the sixteen digits of a thread identifier are those of 64 bits ([hex]).
    A session of the server takes out one message per byte at most ([do_read]). The
    retries of [swrite] after a descriptor went bad are unbounded in the source; their
    fuel is a parameter and running out is [None].

    ** Not modelled

    Transport itself (websocketpp, UDT, rpclib, Pistache) and start-up, route
    tables and threads: calls into third-party libraries, with little between them;
    the synchronous calls of io_proxy/rpc_bindings.hpp, which nothing registers and all
    of which go through a function without a return; the measurement of round
    trips by raw sockets (client/OPTNode/myping.cc), which nothing calls; the client's
    copy of the account records, which are those of Records.v; the vendored
    include/libcouchbase. In modelled files: monitoring counters, commented-out code,
    what is printed besides an answer, and of the tools the time at which they lose
    patience: an answer comes in time or not. Connecting and accepting are not
    modelled either.
    The interleaving of the system calls of requests on several schedulers is left
    open. *)

From Stdlib Require Export ZArith Lia Ascii String.
From stdpp Require Export base tactics option list gmap strings sorting pretty.

Open Scope string_scope.
Open Scope list_scope.
Open Scope Z_scope.

(** ** [errno] values the program returns (Linux numbering) *)
Definition ENOENT : Z := 2.
Definition E2BIG : Z := 7.
Definition EAGAIN : Z := 11.
Definition ENOMEM : Z := 12.
Definition EACCES : Z := 13.
Definition EINVAL : Z := 22.
Definition ENOSPC : Z := 28.
Definition ECONNRESET : Z := 104.
Definition ETIMEDOUT : Z := 110.
Definition ECONNREFUSED : Z := 111.

(** ** What an HTTP handler sends: [res.send(code, body)] *)
Record response : Type := Response {
  http_code : Z;
  http_body : string;
}.
Definition Code_Ok : Z := 200.
Definition Code_Accepted : Z := 202.
Definition Code_Bad_Request : Z := 400.

(** ** Machine integers *)

Definition in_i32 (z : Z) : bool := (- 2 ^ 31 <=? z) && (z <? 2 ^ 31).
Definition in_i64 (z : Z) : bool := (- 2 ^ 63 <=? z) && (z <? 2 ^ 63).
Definition in_u32 (z : Z) : bool := (0 <=? z) && (z <? 2 ^ 32).
Definition in_u64 (z : Z) : bool := (0 <=? z) && (z <? 2 ^ 64).

(** Conversion of an integer to the [int] type: the value modulo 2^32 that fits
    (what every compiler of this code does, and C++20 prescribes). *)
Definition to_i32 (z : Z) : Z := (z + 2 ^ 31) mod 2 ^ 32 - 2 ^ 31.
Definition to_i64 (z : Z) : Z := (z + 2 ^ 63) mod 2 ^ 64 - 2 ^ 63.
Definition to_u32 (z : Z) : Z := z mod 2 ^ 32.
Definition to_u64 (z : Z) : Z := z mod 2 ^ 64.

Lemma to_i32_id z : in_i32 z = true → to_i32 z = z.
Proof. unfold in_i32, to_i32. intros. rewrite Z.mod_small; lia. Qed.

Lemma to_i32_range z : in_i32 (to_i32 z) = true.
Proof.
  unfold in_i32, to_i32.
  pose proof (Z.mod_pos_bound (z + 2 ^ 31) (2 ^ 32) ltac:(lia)). lia.
Qed.

Lemma to_i64_id z : in_i64 z = true → to_i64 z = z.
Proof. unfold in_i64, to_i64. intros. rewrite Z.mod_small; lia. Qed.

Lemma to_i64_range z : in_i64 (to_i64 z) = true.
Proof.
  unfold in_i64, to_i64.
  pose proof (Z.mod_pos_bound (z + 2 ^ 63) (2 ^ 64) ltac:(lia)). lia.
Qed.

Lemma to_u32_id z : in_u32 z = true → to_u32 z = z.
Proof. unfold in_u32, to_u32. intros. rewrite Z.mod_small; lia. Qed.

Lemma to_u64_id z : in_u64 z = true → to_u64 z = z.
Proof. unfold in_u64, to_u64. intros. rewrite Z.mod_small; lia. Qed.

(** ** The effect of running a piece of the program

    A computation takes the state of the outside world and either returns a
    value or reaches undefined behaviour (a null dereference, an out of range
    index, a signed overflow, control flowing off the end of a function that
    must return a value); the world is kept in both cases, because what was
    already written to the database stays written. *)
Inductive outcome (A : Type) : Type :=
| Val (a : A)
| UB.
Arguments Val {A} a.
Arguments UB {A}.

Definition M (W A : Type) : Type := W → outcome A * W.

#[export] Instance M_ret {W} : MRet (M W) := λ A a w, (Val a, w).
#[export] Instance M_bind {W} : MBind (M W) := λ A B k m w,
  match m w with
  | (Val a, w') => k a w'
  | (UB, w') => (UB, w')
  end.

#[export] Typeclasses Opaque M.
Arguments M_ret : simpl never.
Arguments M_bind : simpl never.
Arguments mret {_ _ _} _ : simpl never.
Arguments mbind {_ _ _ _} _ _ : simpl never.

(** Undefined behaviour. *)
Definition undefined {W A} : M W A := λ w, (UB, w).

(** A call of code outside the repository: a function of the world. *)
Definition extern {W A} (f : W → A * W) : M W A := λ w,
  let '(a, w') := f w in (Val a, w').

(** [*p] for a pointer that may be null. *)
Definition deref {W A} (p : option A) : M W A :=
  match p with
  | Some a => mret a
  | None => undefined
  end.

(** Signed 64-bit and [int] arithmetic, undefined on overflow. *)
Definition checked_i64 {W} (z : Z) : M W Z := if in_i64 z then mret z else undefined.
Definition checked_i32 {W} (z : Z) : M W Z := if in_i32 z then mret z else undefined.

(** [a || b] with its short circuit. *)
Definition orM {W} (a : bool) (b : M W bool) : M W bool := if a then mret true else b.

(** ** Program logic

    [wp m Q E w]: from [w] the computation returns a value satisfying [Q], or
    reaches undefined behaviour in a world satisfying [E]. Total correctness
    takes [E := λ _, False]; a persistent invariant takes it on both sides. *)
Definition wp {W A} (m : M W A) (Q : A → W → Prop) (E : W → Prop) (w : W) : Prop :=
  match m w with
  | (Val a, w') => Q a w'
  | (UB, w') => E w'
  end.

Arguments wp {W A} _ _ _ _ : simpl never.

Definition never {W} : W → Prop := λ _, False.

Section wp.
Context {W : Type}.
Implicit Types (E : W → Prop) (w : W).

Lemma wp_ret {A} (a : A) Q E w : Q a w → wp (mret a) Q E w.
Proof. done. Qed.

Lemma wp_bind {A B} (m : M W A) (k : A → M W B) Q E w :
  wp m (λ a w', wp (k a) Q E w') E w → wp (m ≫= k) Q E w.
Proof.
  unfold wp, mbind, M_bind. destruct (m w) as [[a|] w']; done.
Qed.

Lemma wp_mono {A} (m : M W A) (Q Q' : A → W → Prop) E E' w :
  (∀ a w', Q a w' → Q' a w') → (∀ w', E w' → E' w') →
  wp m Q E w → wp m Q' E' w.
Proof. unfold wp. destruct (m w) as [[a|] w']; auto. Qed.

(** Two facts about the same run. *)
Lemma wp_and {A} (m : M W A) (Q R : A → W → Prop) E w :
  wp m Q never w → wp m R E w → wp m (λ a w', Q a w' ∧ R a w') never w.
Proof. unfold wp, never. destruct (m w) as [[a|] w']; naive_solver. Qed.

(** Framing: what holds of a run because of the run itself. *)
Lemma wp_consequence {A} (m : M W A) (Q R : A → W → Prop) E w :
  wp m R never w → (∀ a w', R a w' → Q a w') → wp m Q E w.
Proof. unfold wp, never. destruct (m w) as [[a|] w']; naive_solver. Qed.

Lemma wp_undefined {A} (Q : A → W → Prop) E w : E w → wp undefined Q E w.
Proof. done. Qed.

Lemma wp_extern {A} (f : W → A * W) Q E w :
  Q (f w).1 (f w).2 → wp (extern f) Q E w.
Proof. unfold wp, extern. by destruct (f w). Qed.

Lemma wp_deref {A} (p : option A) Q E w :
  (∀ a, p = Some a → Q a w) → (p = None → E w) → wp (deref p) Q E w.
Proof. destruct p; intros HQ HE; [by apply wp_ret, HQ | by apply wp_undefined, HE]. Qed.

Lemma wp_if {A} (b : bool) (m1 m2 : M W A) Q E w :
  (b = true → wp m1 Q E w) → (b = false → wp m2 Q E w) →
  wp (if b then m1 else m2) Q E w.
Proof. destruct b; auto. Qed.

Lemma wp_orM (b : bool) (m : M W bool) Q E w :
  (b = true → Q true w) → (b = false → wp m Q E w) → wp (orM b m) Q E w.
Proof. destruct b; [|by eauto]. intros H _. by apply wp_ret, H. Qed.

Lemma wp_checked_i64 z Q E w :
  (in_i64 z = true → Q z w) → (in_i64 z = false → E w) → wp (checked_i64 z) Q E w.
Proof. unfold checked_i64. destruct (in_i64 z); intros; [apply wp_ret | apply wp_undefined]; auto. Qed.

Lemma wp_run {A} (m : M W A) Q w :
  wp m Q never w → ∃ a w', m w = (Val a, w') ∧ Q a w'.
Proof. unfold wp, never. destruct (m w) as [[a|] w'] eqn:?; naive_solver. Qed.

Lemma wp_val {A} (m : M W A) Q E w a w' :
  wp m Q E w → m w = (Val a, w') → Q a w'.
Proof. unfold wp. intros H Hm. by rewrite Hm in H. Qed.

(** Reading the final world off, whatever the outcome. *)
Lemma wp_final {A} (m : M W A) (I : W → Prop) w : wp m (λ _ w', I w') I w → I (m w).2.
Proof. unfold wp. by destruct (m w) as [[a|] w']. Qed.

(** A persistent invariant: kept whether the run returns or crashes. *)
Definition preserves {A} (I : W → Prop) (m : M W A) : Prop :=
  ∀ w, I w → I (m w).2.

Lemma preserves_wp {A} (I : W → Prop) (m : M W A) :
  (∀ w, I w → wp m (λ _ w', I w') I w) → preserves I m.
Proof. intros H w Hw. specialize (H w Hw). unfold wp in H. by destruct (m w) as [[a|] w']. Qed.
End wp.

(** One symbolic step through a computation. *)
Ltac wp_step :=
  lazymatch goal with
  | |- wp (mbind _ _) _ _ _ => apply wp_bind
  | |- wp (mret _) _ _ _ => apply wp_ret
  | |- wp undefined _ _ _ => apply wp_undefined
  | |- wp (if ?b then _ else _) _ _ _ => apply wp_if; intro
  | |- wp (orM _ _) _ _ _ => apply wp_orM; intro
  | |- wp (deref (Some _)) _ _ _ => apply wp_ret
  | |- wp (deref _) _ _ _ => apply wp_deref; intros
  | |- wp (match ?x with _ => _ end) _ _ _ => destruct x eqn:?
  end.

(** Decide the tests of an error code that is known to be zero or not. *)
Ltac err_simpl :=
  match goal with
  | H : ?e ≠ 0 |- context [bool_decide (?e = 0)] => rewrite (bool_decide_false (e = 0)) by exact H
  | |- context [bool_decide (0 = 0)] => rewrite (bool_decide_true (0 = 0)) by reflexivity
  end; cbn [negb].
Ltac wp_steps := repeat (first [err_simpl | wp_step]; cbn beta iota).

(** A key both present and absent. *)
Ltac lookup_contra :=
  match goal with
  | H1 : ?x = None, H2 : is_Some ?x |- _ => exfalso; rewrite H1 in H2; destruct H2; discriminate
  | H1 : ?x = None, H2 : ?x = Some _ |- _ => exfalso; congruence
  end.
