(* ===== verification/CxxString.v ===== *)
(** * std::string and C string operations

    The part of the C++ standard library that the modelled code uses on
    strings: [size], [substr], [find], [find_first_of], [operator<],
    [std::sort] on a vector of strings, [c_str()] as a NUL terminated string,
    and [snprintf] into a bounded buffer, [std::stoi] and [atoi]. Positions are [nat]; [npos] is
    [None]. *)
From S2P Require Import Prelude.

Definition size (s : string) : Z := Z.of_nat (String.length s).

Fixpoint str_take (n : nat) (s : string) : string :=
  match n, s with
  | S n', String c s' => String c (str_take n' s')
  | _, _ => EmptyString
  end.

Fixpoint str_drop (n : nat) (s : string) : string :=
  match n, s with
  | S n', String _ s' => str_drop n' s'
  | _, _ => s
  end.

(** [s.substr(pos, len)] for [pos <= s.size()]. *)
Definition substr (pos len : nat) (s : string) : string := str_take len (str_drop pos s).
(** [s.substr(pos)]. *)
Definition substr_from (pos : nat) (s : string) : string := str_drop pos s.

(** The bytes a [%s] conversion or a [const char*] parameter sees. *)
Fixpoint c_str (s : string) : string :=
  match s with
  | EmptyString => EmptyString
  | String c s' => if Ascii.eqb c zero then EmptyString else String c (c_str s')
  end.

(** [snprintf(buf, n, ...)]: at most [n - 1] bytes of the formatted text. *)
Definition snprintf (n : nat) (text : string) : string := str_take (n - 1) text.

(** A text between double quotes, as the query formats write it. *)
Definition quoted (s : string) : string := String "034" s +:+ String "034" EmptyString.

(** [v.size()] of a vector. *)
Definition size_of {A} (l : list A) : Z := Z.of_nat (length l).

(** Index of the first occurrence of a character at or after [pos]. *)
Fixpoint find_char (c : ascii) (s : string) : option nat :=
  match s with
  | EmptyString => None
  | String c' s' => if Ascii.eqb c c' then Some 0%nat else S <$> find_char c s'
  end.
Definition find_from (c : ascii) (pos : nat) (s : string) : option nat :=
  Nat.add pos <$> find_char c (str_drop pos s).

(** The value of a byte. *)
Definition byte_of (c : ascii) : Z := Z.of_N (N_of_ascii c).

(** [std::stoi] and [atoi]: leading blanks, a sign, digits. [None] is an exception
    for the first; the second is 0 without digits, and undefined out of range. *)
Definition digit (c : ascii) : option Z :=
  let n := byte_of c in if (48 <=? n) && (n <=? 57) then Some (n - 48) else None.
Fixpoint digits (acc : Z) (s : string) : Z :=
  match s with
  | String c s => match digit c with Some d => digits (10 * acc + d) s | None => acc end
  | "" => acc
  end.
Definition is_space (c : ascii) : bool :=
  let n := byte_of c in (n =? 32) || ((9 <=? n) && (n <=? 13)).
Fixpoint skip_spaces (s : string) : string :=
  match s with String c s' => if is_space c then skip_spaces s' else s | "" => "" end.
Definition sign_split (s : string) : bool * string :=
  match skip_spaces (c_str s) with
  | String "-" s => (true, s)
  | String "+" s => (false, s)
  | s => (false, s)
  end.
Definition signed_digits (s : string) : option Z :=
  let '(neg, s) := sign_split s in
  let n := if neg then - digits 0 s else digits 0 s in
  if in_i32 n then Some n else None.
Definition stoi (s : string) : option Z :=
  match (sign_split s).2 with
  | String c _ => _ ← digit c; signed_digits s
  | "" => None
  end.
Definition atoi (s : string) : option Z := signed_digits s.

Definition str_lt (a b : string) : bool := String.ltb a b.
Definition str_le (a b : string) : Prop := String.leb a b = true.

Lemma c_str_drop n s : c_str s = s → c_str (str_drop n s) = str_drop n s.
Proof.
  revert s. induction n as [|n IH]; intros [|c s]; try done. cbn.
  destruct (Ascii.eqb c zero); [done|]. intros [=]. auto.
Qed.

Lemma append_nil_l s : "" +:+ s = s.
Proof. reflexivity. Qed.

Lemma append_cons c s t : String c s +:+ t = String c (s +:+ t).
Proof. reflexivity. Qed.

Lemma str_take_drop n s : str_take n s +:+ str_drop n s = s.
Proof. revert s. induction n; intros [|c s]; cbn; try done.
  by rewrite append_cons, IHn. Qed.

Lemma str_take_all n s : (String.length s ≤ n)%nat → str_take n s = s.
Proof.
  revert s. induction n; intros [|c s] H; cbn in *; try done; try lia. rewrite IHn; [done|lia].
Qed.

Lemma str_drop_all n s : (String.length s ≤ n)%nat → str_drop n s = "".
Proof. revert s. induction n; intros [|c s] H; cbn in *; try done; try lia. apply IHn; lia. Qed.

Lemma length_str_take n s : String.length (str_take n s) = Nat.min n (String.length s).
Proof. revert s. induction n; intros [|c s]; cbn; try done. by rewrite IHn. Qed.

Lemma length_str_drop n s : String.length (str_drop n s) = (String.length s - n)%nat.
Proof. revert s. induction n; intros [|c s]; cbn; done. Qed.

Lemma length_append a b : String.length (a +:+ b) = (String.length a + String.length b)%nat.
Proof. induction a; [done | rewrite append_cons; cbn; by rewrite IHa]. Qed.

Lemma append_nil_r s : s +:+ "" = s.
Proof. induction s; [done | by rewrite append_cons, IHs]. Qed.

Lemma append_assoc a b c : a +:+ (b +:+ c) = (a +:+ b) +:+ c.
Proof. induction a; [done | by rewrite !append_cons, IHa]. Qed.

Lemma append_inj_l a b c : a +:+ b = a +:+ c → b = c.
Proof. induction a; [done | rewrite !append_cons; intros [=]; auto]. Qed.

Lemma str_drop_append a b : str_drop (String.length a) (a +:+ b) = b.
Proof. induction a; [by destruct b | by rewrite append_cons]. Qed.

Lemma str_take_append a b : str_take (String.length a) (a +:+ b) = a.
Proof. induction a; [by destruct b | rewrite append_cons; cbn; by rewrite IHa]. Qed.

Lemma find_char_Some c s i :
  find_char c s = Some i → ∃ s1 s2, s = s1 +:+ String c s2 ∧ String.length s1 = i ∧
    find_char c s1 = None.
Proof.
  revert i. induction s as [|c' s IH]; intros i; cbn; [done|].
  destruct (Ascii.eqb_spec c c') as [->|Hne].
  - intros [= <-]. by exists "", s.
  - destruct (find_char c s) as [j|] eqn:Hj; cbn; [|done]. intros [= <-].
    destruct (IH j eq_refl) as (s1 & s2 & -> & Hl & Hn).
    exists (String c' s1), s2. rewrite append_cons. cbn. rewrite Hn.
    destruct (Ascii.eqb_spec c c'); naive_solver.
Qed.

Lemma find_char_append_None c a b :
  find_char c a = None → find_char c (a +:+ b) = Nat.add (String.length a) <$> find_char c b.
Proof.
  induction a as [|c' a IH]; [rewrite append_nil_l; by destruct (find_char c b)|].
  rewrite append_cons; cbn.
  destruct (Ascii.eqb c c'); [done|].
  destruct (find_char c a); [done|]. intros _. rewrite IH; [|done].
  by destruct (find_char c b).
Qed.

(** ** Lexicographic order on byte strings *)

Lemma compare_refl s : String.compare s s = Eq.
Proof. induction s; cbn; [done|]. unfold Ascii.compare. by rewrite N.compare_refl. Qed.

Lemma str_leb_refl s : String.leb s s = true.
Proof. unfold String.leb. by rewrite compare_refl. Qed.

#[export] Instance str_le_dec : RelDecision str_le := λ a b, decide (String.leb a b = true).

Lemma compare_cons_lt a s b t :
  String.compare (String a s) (String b t) = Lt ↔
  (N_of_ascii a < N_of_ascii b)%N ∨ (a = b ∧ String.compare s t = Lt).
Proof.
  cbn. unfold Ascii.compare. destruct (N.compare_spec (N_of_ascii a) (N_of_ascii b)) as [He|Hl|Hg].
  - assert (a = b) as <-.
    { rewrite <-(ascii_N_embedding a), <-(ascii_N_embedding b). by rewrite He. }
    split; [intros; by right | intros [?|[_ ?]]; [lia|done]].
  - split; [intros; by left | done].
  - split; [done | intros [?|[-> _]]; lia].
Qed.

Lemma compare_lt_trans a b c :
  String.compare a b = Lt → String.compare b c = Lt → String.compare a c = Lt.
Proof.
  revert b c. induction a as [|x a IH]; intros [|y b] [|z c]; try done.
  rewrite !compare_cons_lt. intros [?|[-> ?]] [?|[-> ?]]; [left; lia|by left|by left|right; eauto].
Qed.

#[export] Instance str_le_preorder : PreOrder str_le.
Proof.
  split.
  - intros s. apply str_leb_refl.
  - unfold str_le, String.leb. intros a b c.
    destruct (String.compare a b) eqn:Hab; [apply String.compare_eq_iff in Hab as ->; done| |done].
    destruct (String.compare b c) eqn:Hbc; [|by rewrite (compare_lt_trans a b c)|done].
    apply String.compare_eq_iff in Hbc as <-. by rewrite Hab.
Qed.

#[export] Instance str_le_antisymm : AntiSymm (=) str_le.
Proof. intros a b Ha Hb. by apply String.leb_antisym. Qed.

#[export] Instance str_le_total : Total str_le.
Proof. intros a b. unfold str_le. destruct (String.leb_total a b); auto. Qed.

Lemma str_lt_le a b : str_lt a b = true → str_le a b.
Proof. unfold str_lt, str_le, String.ltb, String.leb. by destruct (String.compare a b). Qed.

Lemma str_lt_nle a b : str_lt a b = true ↔ ¬ str_le b a.
Proof.
  unfold str_lt, str_le, String.ltb, String.leb. rewrite String.compare_antisym.
  destruct (String.compare b a); cbn; naive_solver.
Qed.

(** [std::sort(v.begin(), v.end())] on strings: the sorted permutation, unique
    because the order is total and antisymmetric. *)
Definition sort_strings (l : list string) : list string := merge_sort str_le l.

Lemma sort_strings_perm l : sort_strings l ≡ₚ l.
Proof. apply merge_sort_Permutation. Qed.

Lemma sort_strings_sorted l : StronglySorted str_le (sort_strings l).
Proof. apply StronglySorted_merge_sort; apply _. Qed.

Create HintDb gvds discriminated.
#[export] Hint Resolve sort_strings_sorted sort_strings_perm : gvds.
Lemma size_app s t : CxxString.size (s +:+ t) = CxxString.size s + CxxString.size t.
Proof. unfold CxxString.size. rewrite length_append. lia. Qed.

Lemma size_nonneg s : 0 ≤ CxxString.size s.
Proof. unfold CxxString.size. lia. Qed.

#[export] Hint Rewrite length_str_take length_str_drop length_append append_nil_r
  str_take_drop str_drop_append str_take_append : gvds.
