(* ===== verification/Json.v ===== *)
(** * JsonSerializer (common/JsonSerializer.h, common/JsonSerializer.cc)

    The serializer is a thin layer over rapidjson. Rapidjson's text writer and
    parser are outside the repository: they are the interface [Rapidjson], with
    the documented behaviour the code relies on in [RapidjsonLaws]. What the
    repository adds, the choice of the JSON value for a C++ value ([encode]),
    the reading of a JSON value into an existing C++ object ([decode]) with its
    type checks, and [put]/[get], is defined here as [codec]s.

    [decode] into [dest] leaves [dest] unchanged when the JSON value has
    another type: the error code is returned, and every caller ignores it. *)
From S2P Require Import Prelude CxxString.

Inductive json : Type :=
| JNull
| JBool (b : bool)
| JInt (z : Z)
| JString (s : string)
| JArray (l : list json)
| JObject (l : list (string * json)).

(** Values rapidjson represents without loss: integers up to 64 bits. *)
Inductive json_wf : json → Prop :=
| wf_null : json_wf JNull
| wf_bool b : json_wf (JBool b)
| wf_int z : - 2 ^ 63 ≤ z < 2 ^ 64 → json_wf (JInt z)
| wf_string s : json_wf (JString s)
| wf_array l : Forall json_wf l → json_wf (JArray l)
| wf_object l : Forall (λ kv, json_wf kv.2) l → json_wf (JObject l).
#[export] Hint Constructors json_wf : gvds.

(** rapidjson: the text a [Writer] produces for a value, and the document
    [Document::Parse] builds from a NUL terminated text. *)
Class Rapidjson : Type := {
  rj_write : json → string;
  rj_parse : string → option json;
}.

Class RapidjsonLaws `{Rapidjson} : Prop := {
  (** parsing what was written gives the value back *)
  rj_parse_write j : json_wf j → rj_parse (rj_write j) = Some j;
  (** control characters are escaped: the text holds no NUL byte *)
  rj_write_c_str j : c_str (rj_write j) = rj_write j;
}.

(** ** Codecs: one C++ type's [encode] and [decode] *)
Record codec (A : Type) : Type := Codec {
  enc : A → json;
  dec : json → A → A;
  (** the values [enc] represents faithfully *)
  enc_wf : A → Prop;
}.
Arguments Codec {A} _ _ _.
Arguments enc {A} _ _.
Arguments dec {A} _ _ _.
Arguments enc_wf {A} _ _.

(** What makes a codec correct: its JSON values are representable, decoding
    them gives the value back whatever the destination held, and decoding any
    JSON value leaves a value of the wire format behind. *)
Class CodecOk {A} (c : codec A) : Prop := {
  enc_json_wf a : enc_wf c a → json_wf (enc c a);
  dec_enc a d : enc_wf c a → dec c (enc c a) d = a;
  dec_wf v d : enc_wf c d → enc_wf c (dec c v d);
}.

(** [encode(std::string&)] writes all [length()] bytes; [decode] assigns from
    [GetString()], a [const char*], and so stops at the first NUL. *)
Definition codec_string : codec string :=
  Codec JString
    (λ v d, match v with JString s => c_str s | _ => d end)
    (λ s, c_str s = s).

Definition codec_int : codec Z :=
  Codec JInt (λ v d, match v with JInt z => if in_i32 z then z else d | _ => d end)
    (λ z, in_i32 z = true).
Definition codec_unsigned : codec Z :=
  Codec JInt (λ v d, match v with JInt z => if in_u32 z then z else d | _ => d end)
    (λ z, in_u32 z = true).
Definition codec_int64 : codec Z :=
  Codec JInt (λ v d, match v with JInt z => if in_i64 z then z else d | _ => d end)
    (λ z, in_i64 z = true).
Definition codec_uint64 : codec Z :=
  Codec JInt (λ v d, match v with JInt z => if in_u64 z then z else d | _ => d end)
    (λ z, in_u64 z = true).
Definition codec_bool : codec bool :=
  Codec JBool (λ v d, match v with JBool b => b | _ => d end) (λ _, True).

(** [decode(Value*, std::vector<V>&)]: a fresh vector of value-initialised
    elements, each decoded in place, swapped in at the end. *)
Definition codec_vector {A} (c : codec A) (init : A) : codec (list A) :=
  Codec (λ l, JArray (enc c <$> l))
    (λ v d, match v with JArray l => (λ e, dec c e init) <$> l | _ => d end)
    (Forall (enc_wf c)).

(** [std::map<std::string, V>] iterates in key order. *)
Definition key_le {A} (x y : string * A) : Prop := str_le x.1 y.1.
#[export] Instance key_le_dec {A} : RelDecision (@key_le A) := λ x y, decide (str_le x.1 y.1).
#[export] Instance key_le_total {A} : Total (@key_le A).
Proof. intros x y. apply str_le_total. Qed.
#[export] Instance key_le_trans {A} : Transitive (@key_le A).
Proof. intros x y z. unfold key_le. intros ? ?. by transitivity (y.1). Qed.

Definition map_items {A} (m : gmap string A) : list (string * A) :=
  merge_sort key_le (map_to_list m).

Lemma map_items_perm {A} (m : gmap string A) : map_items m ≡ₚ map_to_list m.
Proof. apply merge_sort_Permutation. Qed.

Definition decode_members {A} (c : codec A) (init : A) (l : list (string * json)) : gmap string A :=
  foldl (λ m kv, <[c_str kv.1 := dec c kv.2 (default init (m !! c_str kv.1))]> m) ∅ l.

Definition codec_map {A} (c : codec A) (init : A) : codec (gmap string A) :=
  Codec (λ m, JObject ((λ kv, (c_str kv.1, enc c kv.2)) <$> map_items m))
    (λ v d, match v with JObject l => decode_members c init l | _ => d end)
    (λ m, map_Forall (λ k a, c_str k = k ∧ enc_wf c a) m).

Lemma c_str_idemp s : c_str (c_str s) = c_str s.
Proof.
  induction s as [|a s IH]; [done|]. cbn. destruct (Ascii.eqb a zero) eqn:Ha; cbn; [done|].
  by rewrite Ha, IH.
Qed.

#[export] Instance codec_string_ok : CodecOk codec_string.
Proof. split; cbn; auto with gvds. intros [] d ?; auto using c_str_idemp. Qed.
Ltac codec_num := split; cbn; unfold in_i32, in_u32, in_i64, in_u64; intros;
  [constructor; lia | by repeat case_match | by repeat case_match].
#[export] Instance codec_int_ok : CodecOk codec_int.
Proof. codec_num. Qed.
#[export] Instance codec_unsigned_ok : CodecOk codec_unsigned.
Proof. codec_num. Qed.
#[export] Instance codec_int64_ok : CodecOk codec_int64.
Proof. codec_num. Qed.
#[export] Instance codec_uint64_ok : CodecOk codec_uint64.
Proof. codec_num. Qed.
#[export] Instance codec_bool_ok : CodecOk codec_bool.
Proof. split; cbn; auto with gvds. Qed.

(** The value-initialised element of a container is a value of the format. *)
Class ElemOk {A} (c : codec A) (init : A) : Prop := elem_ok : enc_wf c init.
#[export] Instance elem_string : ElemOk codec_string "".
Proof. reflexivity. Qed.
#[export] Instance elem_int : ElemOk codec_int 0.
Proof. reflexivity. Qed.

#[export] Instance codec_vector_ok {A} (c : codec A) init :
  CodecOk c → ElemOk c init → CodecOk (codec_vector c init).
Proof.
  intros Hc Hi. split; cbn; intros l.
  - intros Hl. constructor. rewrite Forall_fmap. eapply Forall_impl; [exact Hl|].
    intros a. apply enc_json_wf.
  - intros d Hl. rewrite <-list_fmap_compose. induction Hl as [|a l Ha Hl IH]; [done|].
    cbn. by rewrite IH, dec_enc.
  - intros d Hd. destruct l; try done. rewrite Forall_fmap. apply Forall_true.
    intros j. by apply dec_wf.
Qed.

Lemma decode_members_spec {A} (c : codec A) init `{!CodecOk c} (l : list (string * A)) (m0 : gmap string A) :
  NoDup l.*1 → Forall (λ kv, c_str kv.1 = kv.1 ∧ enc_wf c kv.2) l →
  (∀ k, k ∈ l.*1 → m0 !! k = None) →
  foldl (λ m kv, <[c_str kv.1 := dec c kv.2 (default init (m !! c_str kv.1))]> m) m0
    ((λ kv, (c_str kv.1, enc c kv.2)) <$> l) = list_to_map l ∪ m0.
Proof.
  revert m0. induction l as [|[k a] l IH]; intros m0 Hnd Hwf Hm; cbn.
  { by rewrite (left_id_L ∅ (∪)). }
  inversion_clear Hnd. inversion_clear Hwf as [|?? [Hk Ha] Hwf']. cbn in *.
  rewrite !Hk, dec_enc by done. rewrite IH; [|done|done|].
  - rewrite <-insert_union_l, insert_union_r; [done|]. by apply not_elem_of_list_to_map_1.
  - intros k' Hk'. rewrite lookup_insert_ne; [apply Hm; by right|by intros <-].
Qed.

Lemma decode_members_wf {A} (c : codec A) init `{!CodecOk c} (Hi : ElemOk c init) l (m0 : gmap string A) :
  map_Forall (λ k a, c_str k = k ∧ enc_wf c a) m0 →
  map_Forall (λ k a, c_str k = k ∧ enc_wf c a)
    (foldl (λ m kv, <[c_str kv.1 := dec c kv.2 (default init (m !! c_str kv.1))]> m) m0 l).
Proof.
  revert m0. induction l as [|[k v] l IH]; intros m0 Hm; [done|]. cbn [foldl fst snd]. apply IH.
  apply map_Forall_insert_2; [|done]. split; [apply c_str_idemp|]. apply dec_wf.
  destruct (m0 !! c_str k) eqn:Hk; [|done]. by apply (Hm _ _ Hk).
Qed.

#[export] Instance codec_map_ok {A} (c : codec A) init :
  CodecOk c → ElemOk c init → CodecOk (codec_map c init).
Proof.
  intros Hc Hi. split; cbn; intros m.
  - intros Hm. constructor. rewrite Forall_fmap, (map_items_perm m). rewrite Forall_forall.
    intros [k a] Hin%elem_of_map_to_list. cbn. by apply enc_json_wf, (Hm k a).
  - intros d Hm. unfold decode_members.
    assert (Hnd : NoDup (map_items m).*1).
    { rewrite (map_items_perm m). apply NoDup_fst_map_to_list. }
    rewrite (decode_members_spec c init); [|done| |].
    + rewrite (right_id_L ∅ (∪)), <-(list_to_map_to_list m).
      symmetry. apply list_to_map_proper; [apply NoDup_fst_map_to_list|].
      by rewrite list_to_map_to_list, map_items_perm.
    + rewrite (map_items_perm m), Forall_forall.
      intros [k a] Hin%elem_of_map_to_list. by apply (Hm k a).
    + intros. apply lookup_empty.
  - intros d Hd. destruct m; try done. apply decode_members_wf; [done..|]. apply map_Forall_empty.
Qed.

(** ** Objects: [put], [get], [serialize], [deserialize] *)

Definition put {A} (key : string) (c : codec A) (a : A) : string * json := (key, enc c a).

Fixpoint member (key : string) (l : list (string * json)) : option json :=
  match l with
  | [] => None
  | (k, v) :: l' => if bool_decide (k = key) then Some v else member key l'
  end.

(** [get(key, dest)] on the object set by [setJsonValue]. *)
Definition get {A} (l : list (string * json)) (key : string) (c : codec A) (dest : A) : A :=
  match member key l with
  | Some v => dec c v dest
  | None => dest
  end.

Lemma get_wf {A} l key (c : codec A) `{!CodecOk c} d : enc_wf c d → enc_wf c (get l key c d).
Proof. intros Hd. unfold get. destruct (member key l); [by apply dec_wf | done]. Qed.

Section serializer.
Context `{Rapidjson}.

Definition serialize (fields : list (string * json)) : string := rj_write (JObject fields).

(** [deserialize] of a C string: a text that is not an object changes nothing. *)
Definition deserialize {A} (impl : list (string * json) → A → A) (dest : A) (text : string) : A :=
  match rj_parse (c_str text) with
  | Some (JObject l) => impl l dest
  | _ => dest
  end.

(** common/json.h: [json_encode] and [json_decode]. A document that does not
    parse is the null value, which no codec accepts. *)
Definition json_encode {A} (c : codec A) (a : A) : string := rj_write (enc c a).
Definition json_decode {A} (c : codec A) (text : string) (dest : A) : A :=
  match rj_parse (c_str text) with
  | Some v => dec c v dest
  | None => dec c JNull dest
  end.

Context `{!RapidjsonLaws}.

Lemma parse_serialize l :
  Forall (λ kv, json_wf kv.2) l → rj_parse (c_str (serialize l)) = Some (JObject l).
Proof.
  intros. unfold serialize. rewrite rj_write_c_str, rj_parse_write; [done|by constructor].
Qed.

Lemma deserialize_serialize {A} (impl : list (string * json) → A → A) d l :
  Forall (λ kv, json_wf kv.2) l → deserialize impl d (serialize l) = impl l d.
Proof. intros. unfold deserialize. by rewrite parse_serialize. Qed.

Lemma json_decode_encode {A} (c : codec A) `{!CodecOk c} a d :
  enc_wf c a → json_decode c (json_encode c a) d = a.
Proof.
  intros. unfold json_decode, json_encode.
  rewrite rj_write_c_str, rj_parse_write by (by apply enc_json_wf). by apply dec_enc.
Qed.
End serializer.

(** Solve a round trip of a record: look every member up, decode it. *)
Lemma get_cons_eq {A} (l : list (string * json)) key (c : codec A) v d :
  get ((key, v) :: l) key c d = dec c v d.
Proof. unfold get. cbn. by rewrite bool_decide_true. Qed.
Lemma get_cons_ne {A} (l : list (string * json)) key key' (c : codec A) v d :
  key' ≠ key → get ((key', v) :: l) key c d = get l key c d.
Proof. intros. unfold get. cbn. by rewrite bool_decide_false. Qed.
Lemma get_nil {A} key (c : codec A) d : get [] key c d = d.
Proof. done. Qed.

Lemma member_cons_eq key v l : member key ((key, v) :: l) = Some v.
Proof. cbn. by rewrite bool_decide_true. Qed.
Lemma member_cons_ne key key' v l : key' ≠ key → member key ((key', v) :: l) = member key l.
Proof. intros. cbn. by rewrite bool_decide_false. Qed.

Ltac json_get :=
  unfold put;
  repeat first [ rewrite get_cons_eq | rewrite get_cons_ne by done | rewrite get_nil
               | rewrite member_cons_eq | rewrite member_cons_ne by done ].
Ltac json_fields_wf :=
  unfold put; repeat (apply Forall_cons; split; [apply enc_json_wf; done|]); apply Forall_nil_2.

(** ** Structs derived from JsonSerializer

    A struct overrides [serialize_impl] and [deserialize_impl]; this is the
    interface the rest of the program uses them through. *)
Class JsonStruct (A : Type) : Type := {
  ser_impl : A → list (string * json);
  deser_impl : list (string * json) → A → A;
  (** the objects the wire format represents faithfully *)
  struct_wf : A → Prop;
}.

Class JsonStructOk (A : Type) `{JsonStruct A} : Prop := {
  ser_impl_wf (a : A) : struct_wf a → Forall (λ kv, json_wf kv.2) (ser_impl a);
  deser_ser_impl (a d : A) : struct_wf a → deser_impl (ser_impl a) d = a;
  deser_impl_wf l (d : A) : struct_wf d → struct_wf (deser_impl l d);
}.

Definition to_json `{Rapidjson} {A} `{JsonStruct A} (a : A) : string := serialize (ser_impl a).
Definition of_json `{Rapidjson} {A} `{JsonStruct A} (d : A) (text : string) : A :=
  deserialize deser_impl d text.

Lemma of_to_json `{RapidjsonLaws} {A} `{JsonStructOk A} (a d : A) :
  struct_wf a → of_json d (to_json a) = a.
Proof.
  intros Hwf. unfold of_json, to_json.
  rewrite deserialize_serialize by (by apply ser_impl_wf). by apply deser_ser_impl.
Qed.

Lemma to_json_inj `{RapidjsonLaws} {A} `{JsonStructOk A} (d a b : A) :
  struct_wf a → struct_wf b → to_json a = to_json b → a = b.
Proof. intros Ha Hb Heq. rewrite <-(of_to_json a d Ha), Heq. by apply of_to_json. Qed.

(** Whatever the text, what is read from it is a value of the format. *)
Lemma of_json_wf `{Rapidjson} {A} `{JsonStructOk A} (d : A) text :
  struct_wf d → struct_wf (of_json d text).
Proof.
  intros Hd. unfold of_json, deserialize. destruct (rj_parse _) as [[]|]; try done.
  by apply deser_impl_wf.
Qed.

(** [decode] of a [shared_ptr] to a struct: [deserialize(Value* )] asserts that
    the value is an object. *)
Definition json_decode_ptr `{Rapidjson} {A} `{JsonStruct A} (d : A) (text : string) : option A :=
  match rj_parse (c_str text) with
  | Some (JObject l) => Some (deser_impl l d)
  | _ => None
  end.

Lemma json_decode_ptr_to_json `{RapidjsonLaws} {A} `{JsonStructOk A} (a d : A) :
  struct_wf a → json_decode_ptr d (to_json a) = Some a.
Proof.
  intros Hwf. unfold json_decode_ptr, to_json.
  rewrite parse_serialize by (by apply ser_impl_wf). f_equal. by apply deser_ser_impl.
Qed.

Ltac solve_struct_ok :=
  split; cbn -[get put enc dec enc_wf codec_string codec_vector codec_map codec_int codec_int64
    codec_bool get];
  [ intros ? ?; destruct_and?; json_fields_wf
  | intros [] ? ?; destruct_and?;
    cbn -[get put enc dec enc_wf codec_string codec_vector codec_map codec_int codec_int64
      codec_bool] in *;
    json_get; by rewrite !dec_enc
  | intros ? [] ?; destruct_and?; split_and?; apply get_wf; first [done | solve [eauto with gvds] | solve [apply _]] ].

(** Well-formedness of a concrete struct. *)
Ltac ground_wf := split_and?; first [done | apply Forall_nil_2 | repeat constructor; fail].
