(* ===== verification/Records.v ===== *)
(** * Structs exchanged and stored as JSON

    The C++ structs of include/gvds_struct.h, include/aggregation_struct.h,
    common/centerinfo.h, manager/usermodel/Account.h and [AuthSearch] and
    [FEAuthModifygroupinfo] of client/clientuser/ClientAuth_struct.h: each Module holds the
    fields ([t]), the default-initialised object ([init]), [serialize_impl],
    [deserialize_impl], the values the wire format keeps ([wf]) and the round
    trip of the pair. A field without initialiser of an arithmetic type holds
    an indeterminate value after default initialisation: the interface [Indet]
    supplies it, and no theorem assumes anything of it. *)
From S2P Require Import Prelude CxxString Json.

(** Indeterminate values of uninitialised objects. *)
Class Indet : Type := {
  indet_int : Z;
  indet_int64 : Z;
  indet_bool : bool;
}.
Definition junk_int `{Indet} : Z := to_i32 indet_int.
Definition junk_int64 `{Indet} : Z := to_i64 indet_int64.
Definition junk_bool `{Indet} : bool := indet_bool.
Lemma junk_int_wf `{Indet} : enc_wf codec_int junk_int.
Proof. apply to_i32_range. Qed.
Lemma junk_int64_wf `{Indet} : enc_wf codec_int64 junk_int64.
Proof. apply to_i64_range. Qed.
#[export] Hint Resolve junk_int_wf junk_int64_wf : gvds.

(** gvds_struct.h: [struct Space] *)
Module Space.

Record t : Type := mk {
  spaceID : string;
  spaceName : string;
  spaceSize : Z;
  hostCenterID : string;
  storageSrcID : string;
  spacePath : string;
  hostCenterName : string;
  storageSrcName : string;
  status : bool;
  replica_spaces : list string;
}.

(** A default-initialised object. *)
Definition init `{Indet} : t := mk "" "" junk_int64 "" "" "" "" "" junk_bool [].

Definition serialize_impl (x : t) : list (string * json) := [
  put "UUID" codec_string x.(spaceID);
  put "name" codec_string x.(spaceName);
  put "capcity" codec_int64 x.(spaceSize);
  put "SC_UUID" codec_string x.(hostCenterID);
  put "Storage_UUID" codec_string x.(storageSrcID);
  put "root_location" codec_string x.(spacePath);
  put "hostCenterName" codec_string x.(hostCenterName);
  put "storageSrcName" codec_string x.(storageSrcName);
  put "Status" codec_bool x.(status);
  put "replica_spaces" (codec_vector codec_string "") x.(replica_spaces)].

Definition deserialize_impl (l : list (string * json)) (x : t) : t := {|
  spaceID := get l "UUID" codec_string x.(spaceID);
  spaceName := get l "name" codec_string x.(spaceName);
  spaceSize := get l "capcity" codec_int64 x.(spaceSize);
  hostCenterID := get l "SC_UUID" codec_string x.(hostCenterID);
  storageSrcID := get l "Storage_UUID" codec_string x.(storageSrcID);
  spacePath := get l "root_location" codec_string x.(spacePath);
  hostCenterName := get l "hostCenterName" codec_string x.(hostCenterName);
  storageSrcName := get l "storageSrcName" codec_string x.(storageSrcName);
  status := get l "Status" codec_bool x.(status);
  replica_spaces := get l "replica_spaces" (codec_vector codec_string "") x.(replica_spaces) |}.

(** Values the wire format represents faithfully. *)
Definition wf (x : t) : Prop :=
  enc_wf codec_string x.(spaceID) ∧
  enc_wf codec_string x.(spaceName) ∧
  enc_wf codec_int64 x.(spaceSize) ∧
  enc_wf codec_string x.(hostCenterID) ∧
  enc_wf codec_string x.(storageSrcID) ∧
  enc_wf codec_string x.(spacePath) ∧
  enc_wf codec_string x.(hostCenterName) ∧
  enc_wf codec_string x.(storageSrcName) ∧
  enc_wf codec_bool x.(status) ∧
  enc_wf (codec_vector codec_string "") x.(replica_spaces).

Definition set_spaceName (v : string) (x : t) : t := mk x.(spaceID) v x.(spaceSize)
  x.(hostCenterID) x.(storageSrcID) x.(spacePath) x.(hostCenterName) x.(storageSrcName)
  x.(status) x.(replica_spaces).
Definition set_spaceSize (v : Z) (x : t) : t := mk x.(spaceID) x.(spaceName) v x.(hostCenterID)
  x.(storageSrcID) x.(spacePath) x.(hostCenterName) x.(storageSrcName) x.(status)
  x.(replica_spaces).
Definition set_status (v : bool) (x : t) : t := mk x.(spaceID) x.(spaceName) x.(spaceSize)
  x.(hostCenterID) x.(storageSrcID) x.(spacePath) x.(hostCenterName) x.(storageSrcName) v
  x.(replica_spaces).
Definition set_hostCenterID (v : string) (x : t) : t := mk x.(spaceID) x.(spaceName)
  x.(spaceSize) v x.(storageSrcID) x.(spacePath) x.(hostCenterName) x.(storageSrcName)
  x.(status) x.(replica_spaces).
Definition set_storageSrcID (v : string) (x : t) : t := mk x.(spaceID) x.(spaceName)
  x.(spaceSize) x.(hostCenterID) v x.(spacePath) x.(hostCenterName) x.(storageSrcName)
  x.(status) x.(replica_spaces).

#[global] Instance struct : JsonStruct t := {|
  ser_impl := serialize_impl; deser_impl := deserialize_impl; struct_wf := wf |}.
#[global] Instance struct_ok : JsonStructOk t.
Proof. unfold struct, serialize_impl, deserialize_impl, wf. solve_struct_ok. Qed.

End Space.
(** gvds_struct.h: [struct SpaceRequest] *)
Module SpaceRequest.

Record t : Type := mk {
  spaceID : string;
  spaceIDs : list string;
  newSpaceSize : Z;
  newSpaceName : string;
}.

(** A default-initialised object. *)
Definition init `{Indet} : t := mk "" [] junk_int64 "".

Definition serialize_impl (x : t) : list (string * json) := [
  put "UUID" codec_string x.(spaceID);
  put "UUIDs" (codec_vector codec_string "") x.(spaceIDs);
  put "newSpaceSize" codec_int64 x.(newSpaceSize);
  put "newSpaceName" codec_string x.(newSpaceName)].

Definition deserialize_impl (l : list (string * json)) (x : t) : t := {|
  spaceID := get l "UUID" codec_string x.(spaceID);
  spaceIDs := get l "UUIDs" (codec_vector codec_string "") x.(spaceIDs);
  newSpaceSize := get l "newSpaceSize" codec_int64 x.(newSpaceSize);
  newSpaceName := get l "newSpaceName" codec_string x.(newSpaceName) |}.

(** Values the wire format represents faithfully. *)
Definition wf (x : t) : Prop :=
  enc_wf codec_string x.(spaceID) ∧
  enc_wf (codec_vector codec_string "") x.(spaceIDs) ∧
  enc_wf codec_int64 x.(newSpaceSize) ∧
  enc_wf codec_string x.(newSpaceName).

#[global] Instance struct : JsonStruct t := {|
  ser_impl := serialize_impl; deser_impl := deserialize_impl; struct_wf := wf |}.
#[global] Instance struct_ok : JsonStructOk t.
Proof. unfold struct, serialize_impl, deserialize_impl, wf. solve_struct_ok. Qed.

End SpaceRequest.
(** gvds_struct.h: [struct ZoneRequest] *)
Module ZoneRequest.

Record t : Type := mk {
  zoneID : string;
  clientID : string;
  memberID : list string;
  spaceID : list string;
  ownerID : string;
  zoneName : string;
  newZoneName : string;
  spaceSize : Z;
  spaceName : string;
  spacePathInfo : string;
}.

(** A default-initialised object. *)
Definition init `{Indet} : t := mk "" "" [] [] "" "" "" junk_int64 "" "".

Definition serialize_impl (x : t) : list (string * json) := [
  put "UUID" codec_string x.(zoneID);
  put "clientID" codec_string x.(clientID);
  put "memberID" (codec_vector codec_string "") x.(memberID);
  put "spaceID" (codec_vector codec_string "") x.(spaceID);
  put "ownerID" codec_string x.(ownerID);
  put "ZoneName" codec_string x.(zoneName);
  put "newZoneName" codec_string x.(newZoneName);
  put "spaceSize" codec_int64 x.(spaceSize);
  put "spaceName" codec_string x.(spaceName);
  put "spacePathInfo" codec_string x.(spacePathInfo)].

Definition deserialize_impl (l : list (string * json)) (x : t) : t := {|
  zoneID := get l "UUID" codec_string x.(zoneID);
  clientID := get l "clientID" codec_string x.(clientID);
  memberID := get l "memberID" (codec_vector codec_string "") x.(memberID);
  spaceID := get l "spaceID" (codec_vector codec_string "") x.(spaceID);
  ownerID := get l "ownerID" codec_string x.(ownerID);
  zoneName := get l "ZoneName" codec_string x.(zoneName);
  newZoneName := get l "newZoneName" codec_string x.(newZoneName);
  spaceSize := get l "spaceSize" codec_int64 x.(spaceSize);
  spaceName := get l "spaceName" codec_string x.(spaceName);
  spacePathInfo := get l "spacePathInfo" codec_string x.(spacePathInfo) |}.

(** Values the wire format represents faithfully. *)
Definition wf (x : t) : Prop :=
  enc_wf codec_string x.(zoneID) ∧
  enc_wf codec_string x.(clientID) ∧
  enc_wf (codec_vector codec_string "") x.(memberID) ∧
  enc_wf (codec_vector codec_string "") x.(spaceID) ∧
  enc_wf codec_string x.(ownerID) ∧
  enc_wf codec_string x.(zoneName) ∧
  enc_wf codec_string x.(newZoneName) ∧
  enc_wf codec_int64 x.(spaceSize) ∧
  enc_wf codec_string x.(spaceName) ∧
  enc_wf codec_string x.(spacePathInfo).

Definition set_zoneName (v : string) (x : t) : t := mk x.(zoneID) x.(clientID) x.(memberID)
  x.(spaceID) x.(ownerID) v x.(newZoneName) x.(spaceSize) x.(spaceName) x.(spacePathInfo).
Definition set_spaceName (v : string) (x : t) : t := mk x.(zoneID) x.(clientID) x.(memberID)
  x.(spaceID) x.(ownerID) x.(zoneName) x.(newZoneName) x.(spaceSize) v x.(spacePathInfo).

#[global] Instance struct : JsonStruct t := {|
  ser_impl := serialize_impl; deser_impl := deserialize_impl; struct_wf := wf |}.
#[global] Instance struct_ok : JsonStructOk t.
Proof. unfold struct, serialize_impl, deserialize_impl, wf. solve_struct_ok. Qed.

End ZoneRequest.
(** gvds_struct.h: [class struct_apply_info] *)
Module struct_apply_info.

Record t : Type := mk {
  id : string;
  data : string;
}.

(** A default-initialised object. *)
Definition init : t := mk "" "".

Definition serialize_impl (x : t) : list (string * json) := [
  put "id" codec_string x.(id);
  put "data" codec_string x.(data)].

Definition deserialize_impl (l : list (string * json)) (x : t) : t := {|
  id := get l "id" codec_string x.(id);
  data := get l "data" codec_string x.(data) |}.

(** Values the wire format represents faithfully. *)
Definition wf (x : t) : Prop :=
  enc_wf codec_string x.(id) ∧
  enc_wf codec_string x.(data).

#[global] Instance struct : JsonStruct t := {|
  ser_impl := serialize_impl; deser_impl := deserialize_impl; struct_wf := wf |}.
#[global] Instance struct_ok : JsonStructOk t.
Proof. unfold struct, serialize_impl, deserialize_impl, wf. solve_struct_ok. Qed.

End struct_apply_info.
(** common/centerinfo.h: [class CenterInfo] *)
Module CenterInfo.

Record t : Type := mk {
  centerID : list string;
  centerIP : gmap string string;
  centerPort : gmap string string;
  centerName : gmap string string;
}.

(** A default-initialised object. *)
Definition init : t := mk [] ∅ ∅ ∅.

Definition serialize_impl (x : t) : list (string * json) := [
  put "centerID" (codec_vector codec_string "") x.(centerID);
  put "centerIP" (codec_map codec_string "") x.(centerIP);
  put "centerPort" (codec_map codec_string "") x.(centerPort);
  put "centerName" (codec_map codec_string "") x.(centerName)].

Definition deserialize_impl (l : list (string * json)) (x : t) : t := {|
  centerID := get l "centerID" (codec_vector codec_string "") x.(centerID);
  centerIP := get l "centerIP" (codec_map codec_string "") x.(centerIP);
  centerPort := get l "centerPort" (codec_map codec_string "") x.(centerPort);
  centerName := get l "centerName" (codec_map codec_string "") x.(centerName) |}.

(** Values the wire format represents faithfully. *)
Definition wf (x : t) : Prop :=
  enc_wf (codec_vector codec_string "") x.(centerID) ∧
  enc_wf (codec_map codec_string "") x.(centerIP) ∧
  enc_wf (codec_map codec_string "") x.(centerPort) ∧
  enc_wf (codec_map codec_string "") x.(centerName).

#[global] Instance struct : JsonStruct t := {|
  ser_impl := serialize_impl; deser_impl := deserialize_impl; struct_wf := wf |}.
#[global] Instance struct_ok : JsonStructOk t.
Proof. unfold struct, serialize_impl, deserialize_impl, wf. solve_struct_ok. Qed.

End CenterInfo.
(** common/centerinfo.h: [class FECenterInfo] *)
Module FECenterInfo.

Record t : Type := mk {
  centerID : string;
  centerIP : string;
  centerPort : string;
  centerName : string;
}.

(** A default-initialised object. *)
Definition init : t := mk "" "" "" "".

Definition serialize_impl (x : t) : list (string * json) := [
  put "centerID" codec_string x.(centerID);
  put "centerIP" codec_string x.(centerIP);
  put "centerPort" codec_string x.(centerPort);
  put "centerName" codec_string x.(centerName)].

Definition deserialize_impl (l : list (string * json)) (x : t) : t := {|
  centerID := get l "centerID" codec_string x.(centerID);
  centerIP := get l "centerIP" codec_string x.(centerIP);
  centerPort := get l "centerPort" codec_string x.(centerPort);
  centerName := get l "centerName" codec_string x.(centerName) |}.

(** Values the wire format represents faithfully. *)
Definition wf (x : t) : Prop :=
  enc_wf codec_string x.(centerID) ∧
  enc_wf codec_string x.(centerIP) ∧
  enc_wf codec_string x.(centerPort) ∧
  enc_wf codec_string x.(centerName).

#[global] Instance struct : JsonStruct t := {|
  ser_impl := serialize_impl; deser_impl := deserialize_impl; struct_wf := wf |}.
#[global] Instance struct_ok : JsonStructOk t.
Proof. unfold struct, serialize_impl, deserialize_impl, wf. solve_struct_ok. Qed.

End FECenterInfo.
(** client/clientuser/ClientAuth_struct.h: [class AuthSearch] *)
Module AuthSearch.

Record t : Type := mk {
  gvdsID : string;
  vec_ZoneID : list string;
  read : gmap string string;
  write : gmap string string;
  exe : gmap string string;
  isowner : gmap string string;
  ownergroupR : gmap string string;
  ownergroupW : gmap string string;
  ownergroupE : gmap string string;
  zoneName : gmap string string;
}.

(** A default-initialised object. *)
Definition init : t := mk "" [] ∅ ∅ ∅ ∅ ∅ ∅ ∅ ∅.

Definition serialize_impl (x : t) : list (string * json) := [
  put "gvdsID" codec_string x.(gvdsID);
  put "vec_ZoneID" (codec_vector codec_string "") x.(vec_ZoneID);
  put "read" (codec_map codec_string "") x.(read);
  put "write" (codec_map codec_string "") x.(write);
  put "exe" (codec_map codec_string "") x.(exe);
  put "isowner" (codec_map codec_string "") x.(isowner);
  put "ownergroupR" (codec_map codec_string "") x.(ownergroupR);
  put "ownergroupW" (codec_map codec_string "") x.(ownergroupW);
  put "ownergroupE" (codec_map codec_string "") x.(ownergroupE);
  put "zoneName" (codec_map codec_string "") x.(zoneName)].

Definition deserialize_impl (l : list (string * json)) (x : t) : t := {|
  gvdsID := get l "gvdsID" codec_string x.(gvdsID);
  vec_ZoneID := get l "vec_ZoneID" (codec_vector codec_string "") x.(vec_ZoneID);
  read := get l "read" (codec_map codec_string "") x.(read);
  write := get l "write" (codec_map codec_string "") x.(write);
  exe := get l "exe" (codec_map codec_string "") x.(exe);
  isowner := get l "isowner" (codec_map codec_string "") x.(isowner);
  ownergroupR := get l "ownergroupR" (codec_map codec_string "") x.(ownergroupR);
  ownergroupW := get l "ownergroupW" (codec_map codec_string "") x.(ownergroupW);
  ownergroupE := get l "ownergroupE" (codec_map codec_string "") x.(ownergroupE);
  zoneName := get l "zoneName" (codec_map codec_string "") x.(zoneName) |}.

(** Values the wire format represents faithfully. *)
Definition wf (x : t) : Prop :=
  enc_wf codec_string x.(gvdsID) ∧
  enc_wf (codec_vector codec_string "") x.(vec_ZoneID) ∧
  enc_wf (codec_map codec_string "") x.(read) ∧
  enc_wf (codec_map codec_string "") x.(write) ∧
  enc_wf (codec_map codec_string "") x.(exe) ∧
  enc_wf (codec_map codec_string "") x.(isowner) ∧
  enc_wf (codec_map codec_string "") x.(ownergroupR) ∧
  enc_wf (codec_map codec_string "") x.(ownergroupW) ∧
  enc_wf (codec_map codec_string "") x.(ownergroupE) ∧
  enc_wf (codec_map codec_string "") x.(zoneName).

#[global] Instance struct : JsonStruct t := {|
  ser_impl := serialize_impl; deser_impl := deserialize_impl; struct_wf := wf |}.
#[global] Instance struct_ok : JsonStructOk t.
Proof. unfold struct, serialize_impl, deserialize_impl, wf. solve_struct_ok. Qed.

End AuthSearch.
(** client/clientuser/ClientAuth_struct.h: [class FEAuthModifygroupinfo] *)
Module FEAuthModifygroupinfo.

Record t : Type := mk {
  gvdsID : string;
  zonename : string;
  modify_groupauth : string;
}.

(** A default-initialised object. *)
Definition init : t := mk "" "" "".

Definition serialize_impl (x : t) : list (string * json) := [
  put "gvdsID" codec_string x.(gvdsID);
  put "zonename" codec_string x.(zonename);
  put "modify_groupauth" codec_string x.(modify_groupauth)].

Definition deserialize_impl (l : list (string * json)) (x : t) : t := {|
  gvdsID := get l "gvdsID" codec_string x.(gvdsID);
  zonename := get l "zonename" codec_string x.(zonename);
  modify_groupauth := get l "modify_groupauth" codec_string x.(modify_groupauth) |}.

(** Values the wire format represents faithfully. *)
Definition wf (x : t) : Prop :=
  enc_wf codec_string x.(gvdsID) ∧
  enc_wf codec_string x.(zonename) ∧
  enc_wf codec_string x.(modify_groupauth).

#[global] Instance struct : JsonStruct t := {|
  ser_impl := serialize_impl; deser_impl := deserialize_impl; struct_wf := wf |}.
#[global] Instance struct_ok : JsonStructOk t.
Proof. unfold struct, serialize_impl, deserialize_impl, wf. solve_struct_ok. Qed.

End FEAuthModifygroupinfo.
(** Account.h, Account.cc: [class Account] *)
Module Account.

Record t : Type := mk {
  accountName : string;
  Password : string;
  accountID : string;
  accountEmail : string;
  accountPhone : string;
  accountAddress : string;
  Department : string;
}.

(** A default-initialised object. *)
Definition init : t := mk "" "" "" "" "" "" "".

Definition serialize_impl (x : t) : list (string * json) := [
  put "GVDSAccountName" codec_string x.(accountName);
  put "GVDSPassword" codec_string x.(Password);
  put "GVDSAccountID" codec_string x.(accountID);
  put "AccountEMAIL" codec_string x.(accountEmail);
  put "AccountPHONE" codec_string x.(accountPhone);
  put "AccountAddress" codec_string x.(accountAddress);
  put "Department" codec_string x.(Department)].

Definition deserialize_impl (l : list (string * json)) (x : t) : t := {|
  accountName := get l "GVDSAccountName" codec_string x.(accountName);
  Password := get l "GVDSPassword" codec_string x.(Password);
  accountID := get l "GVDSAccountID" codec_string x.(accountID);
  accountEmail := get l "AccountEMAIL" codec_string x.(accountEmail);
  accountPhone := get l "AccountPHONE" codec_string x.(accountPhone);
  accountAddress := get l "AccountAddress" codec_string x.(accountAddress);
  Department := get l "Department" codec_string x.(Department) |}.

(** Values the wire format represents faithfully. *)
Definition wf (x : t) : Prop :=
  enc_wf codec_string x.(accountName) ∧
  enc_wf codec_string x.(Password) ∧
  enc_wf codec_string x.(accountID) ∧
  enc_wf codec_string x.(accountEmail) ∧
  enc_wf codec_string x.(accountPhone) ∧
  enc_wf codec_string x.(accountAddress) ∧
  enc_wf codec_string x.(Department).

Definition set_accountID (v : string) (x : t) : t := mk x.(accountName) x.(Password) v
  x.(accountEmail) x.(accountPhone) x.(accountAddress) x.(Department).

#[global] Instance struct : JsonStruct t := {|
  ser_impl := serialize_impl; deser_impl := deserialize_impl; struct_wf := wf |}.
#[global] Instance struct_ok : JsonStructOk t.
Proof. unfold struct, serialize_impl, deserialize_impl, wf. solve_struct_ok. Qed.

End Account.
(** Account.h, Account.cc: [class AccountPass] *)
Module AccountPass.

Record t : Type := mk {
  accountName : string;
  Password : string;
}.

(** A default-initialised object. *)
Definition init : t := mk "" "".

Definition serialize_impl (x : t) : list (string * json) := [
  put "GVDSAccountName" codec_string x.(accountName);
  put "GVDSPassword" codec_string x.(Password)].

Definition deserialize_impl (l : list (string * json)) (x : t) : t := {|
  accountName := get l "GVDSAccountName" codec_string x.(accountName);
  Password := get l "GVDSPassword" codec_string x.(Password) |}.

(** Values the wire format represents faithfully. *)
Definition wf (x : t) : Prop :=
  enc_wf codec_string x.(accountName) ∧
  enc_wf codec_string x.(Password).

#[global] Instance struct : JsonStruct t := {|
  ser_impl := serialize_impl; deser_impl := deserialize_impl; struct_wf := wf |}.
#[global] Instance struct_ok : JsonStructOk t.
Proof. unfold struct, serialize_impl, deserialize_impl, wf. solve_struct_ok. Qed.

End AccountPass.
(** Account.h, Account.cc: [class SCAccount] *)
Module SCAccount.

Record t : Type := mk {
  accountID : string;
  centerName : list string;
  localaccount : gmap string string;
  localpassword : gmap string string;
}.

(** A default-initialised object. *)
Definition init : t := mk "" [] ∅ ∅.

Definition serialize_impl (x : t) : list (string * json) := [
  put "accountID" codec_string x.(accountID);
  put "centerName" (codec_vector codec_string "") x.(centerName);
  put "localaccount" (codec_map codec_string "") x.(localaccount);
  put "localpassword" (codec_map codec_string "") x.(localpassword)].

Definition deserialize_impl (l : list (string * json)) (x : t) : t := {|
  accountID := get l "accountID" codec_string x.(accountID);
  centerName := get l "centerName" (codec_vector codec_string "") x.(centerName);
  localaccount := get l "localaccount" (codec_map codec_string "") x.(localaccount);
  localpassword := get l "localpassword" (codec_map codec_string "") x.(localpassword) |}.

(** Values the wire format represents faithfully. *)
Definition wf (x : t) : Prop :=
  enc_wf codec_string x.(accountID) ∧
  enc_wf (codec_vector codec_string "") x.(centerName) ∧
  enc_wf (codec_map codec_string "") x.(localaccount) ∧
  enc_wf (codec_map codec_string "") x.(localpassword).

#[global] Instance struct : JsonStruct t := {|
  ser_impl := serialize_impl; deser_impl := deserialize_impl; struct_wf := wf |}.
#[global] Instance struct_ok : JsonStructOk t.
Proof. unfold struct, serialize_impl, deserialize_impl, wf. solve_struct_ok. Qed.

End SCAccount.
(** Account.h, Account.cc: [class AccountSCPool] *)
Module AccountSCPool.

Record t : Type := mk {
  unuse_account : gmap string string;
  use_account : gmap string string;
}.

(** A default-initialised object. *)
Definition init : t := mk ∅ ∅.

Definition serialize_impl (x : t) : list (string * json) := [
  put "unuse_account" (codec_map codec_string "") x.(unuse_account);
  put "use_account" (codec_map codec_string "") x.(use_account)].

Definition deserialize_impl (l : list (string * json)) (x : t) : t := {|
  unuse_account := get l "unuse_account" (codec_map codec_string "") x.(unuse_account);
  use_account := get l "use_account" (codec_map codec_string "") x.(use_account) |}.

(** Values the wire format represents faithfully. *)
Definition wf (x : t) : Prop :=
  enc_wf (codec_map codec_string "") x.(unuse_account) ∧
  enc_wf (codec_map codec_string "") x.(use_account).

#[global] Instance struct : JsonStruct t := {|
  ser_impl := serialize_impl; deser_impl := deserialize_impl; struct_wf := wf |}.
#[global] Instance struct_ok : JsonStructOk t.
Proof. unfold struct, serialize_impl, deserialize_impl, wf. solve_struct_ok. Qed.

End AccountSCPool.
(** Account.h, Account.cc: [class struct_AdminList] *)
Module struct_AdminList.

Record t : Type := mk {
  namelist : list string;
}.

(** A default-initialised object. *)
Definition init : t := mk [].

Definition serialize_impl (x : t) : list (string * json) := [
  put "namelist" (codec_vector codec_string "") x.(namelist)].

Definition deserialize_impl (l : list (string * json)) (x : t) : t := {|
  namelist := get l "namelist" (codec_vector codec_string "") x.(namelist) |}.

(** Values the wire format represents faithfully. *)
Definition wf (x : t) : Prop :=
  enc_wf (codec_vector codec_string "") x.(namelist).

#[global] Instance struct : JsonStruct t := {|
  ser_impl := serialize_impl; deser_impl := deserialize_impl; struct_wf := wf |}.
#[global] Instance struct_ok : JsonStructOk t.
Proof. unfold struct, serialize_impl, deserialize_impl, wf. solve_struct_ok. Qed.

End struct_AdminList.
(** Account.h, Account.cc: [class struct_AdminAccountMap] *)
Module struct_AdminAccountMap.

Record t : Type := mk {
  adgvdsID : string;
  gvdsID : string;
  hostCenterName : string;
}.

(** A default-initialised object. *)
Definition init : t := mk "" "" "".

Definition serialize_impl (x : t) : list (string * json) := [
  put "adgvdsID" codec_string x.(adgvdsID);
  put "gvdsID" codec_string x.(gvdsID);
  put "hostCenterName" codec_string x.(hostCenterName)].

Definition deserialize_impl (l : list (string * json)) (x : t) : t := {|
  adgvdsID := get l "adgvdsID" codec_string x.(adgvdsID);
  gvdsID := get l "gvdsID" codec_string x.(gvdsID);
  hostCenterName := get l "hostCenterName" codec_string x.(hostCenterName) |}.

(** Values the wire format represents faithfully. *)
Definition wf (x : t) : Prop :=
  enc_wf codec_string x.(adgvdsID) ∧
  enc_wf codec_string x.(gvdsID) ∧
  enc_wf codec_string x.(hostCenterName).

#[global] Instance struct : JsonStruct t := {|
  ser_impl := serialize_impl; deser_impl := deserialize_impl; struct_wf := wf |}.
#[global] Instance struct_ok : JsonStructOk t.
Proof. unfold struct, serialize_impl, deserialize_impl, wf. solve_struct_ok. Qed.

End struct_AdminAccountMap.
(** Account.h, Account.cc: [class struct_infoAccountPool] *)
Module struct_infoAccountPool.

Record t : Type := mk {
  hostCenterName : list string;
  usecount : gmap string Z;
  unusecount : gmap string Z;
}.

(** A default-initialised object. *)
Definition init : t := mk [] ∅ ∅.

Definition serialize_impl (x : t) : list (string * json) := [
  put "hostCenterName" (codec_vector codec_string "") x.(hostCenterName);
  put "usecount" (codec_map codec_int 0) x.(usecount);
  put "unusecount" (codec_map codec_int 0) x.(unusecount)].

Definition deserialize_impl (l : list (string * json)) (x : t) : t := {|
  hostCenterName := get l "hostCenterName" (codec_vector codec_string "") x.(hostCenterName);
  usecount := get l "usecount" (codec_map codec_int 0) x.(usecount);
  unusecount := get l "unusecount" (codec_map codec_int 0) x.(unusecount) |}.

(** Values the wire format represents faithfully. *)
Definition wf (x : t) : Prop :=
  enc_wf (codec_vector codec_string "") x.(hostCenterName) ∧
  enc_wf (codec_map codec_int 0) x.(usecount) ∧
  enc_wf (codec_map codec_int 0) x.(unusecount).

#[global] Instance struct : JsonStruct t := {|
  ser_impl := serialize_impl; deser_impl := deserialize_impl; struct_wf := wf |}.
#[global] Instance struct_ok : JsonStructOk t.
Proof. unfold struct, serialize_impl, deserialize_impl, wf. solve_struct_ok. Qed.

End struct_infoAccountPool.
(** aggregation_struct.h: [struct StorageResource]. The [state] enumeration is
    kept as its integer: the code casts whatever integer it reads. *)
Module StorageResource.

Record t : Type := mk {
  storage_src_id : string;
  storage_src_name : string;
  host_center_id : string;
  host_center_name : string;
  total_capacity : Z;
  assign_capacity : Z;
  mgs_address : string;
  state : Z;
}.

Definition init `{Indet} : t := mk "" "" "" "" junk_int64 junk_int64 "" junk_int.

Definition serialize_impl (x : t) : list (string * json) := [
  put "storage_src_id" codec_string x.(storage_src_id);
  put "storage_src_name" codec_string x.(storage_src_name);
  put "host_center_id" codec_string x.(host_center_id);
  put "host_center_name" codec_string x.(host_center_name);
  put "total_capacity" codec_int64 x.(total_capacity);
  put "assign_capacity" codec_int64 x.(assign_capacity);
  put "mgs_address" codec_string x.(mgs_address);
  put "state" codec_int x.(state)].

(** [state] is read through an uninitialised local [int _state]. *)
Definition deserialize_impl `{Indet} (l : list (string * json)) (x : t) : t := {|
  storage_src_id := get l "storage_src_id" codec_string x.(storage_src_id);
  storage_src_name := get l "storage_src_name" codec_string x.(storage_src_name);
  host_center_id := get l "host_center_id" codec_string x.(host_center_id);
  host_center_name := get l "host_center_name" codec_string x.(host_center_name);
  total_capacity := get l "total_capacity" codec_int64 x.(total_capacity);
  assign_capacity := get l "assign_capacity" codec_int64 x.(assign_capacity);
  mgs_address := get l "mgs_address" codec_string x.(mgs_address);
  state := get l "state" codec_int junk_int |}.

Definition wf (x : t) : Prop :=
  enc_wf codec_string x.(storage_src_id) ∧
  enc_wf codec_string x.(storage_src_name) ∧
  enc_wf codec_string x.(host_center_id) ∧
  enc_wf codec_string x.(host_center_name) ∧
  enc_wf codec_int64 x.(total_capacity) ∧
  enc_wf codec_int64 x.(assign_capacity) ∧
  enc_wf codec_string x.(mgs_address) ∧
  enc_wf codec_int x.(state).

Definition set_assign_capacity (v : Z) (x : t) : t :=
  mk x.(storage_src_id) x.(storage_src_name) x.(host_center_id) x.(host_center_name)
    x.(total_capacity) v x.(mgs_address) x.(state).

Definition prefix : string := "STOR-".
Definition key (x : t) : string := prefix +:+ x.(storage_src_id).

#[global] Instance struct `{Indet} : JsonStruct t := {|
  ser_impl := serialize_impl; deser_impl := deserialize_impl; struct_wf := wf |}.
#[global] Instance struct_ok `{Indet} : JsonStructOk t.
Proof. unfold struct, serialize_impl, deserialize_impl, wf. solve_struct_ok. Qed.

End StorageResource.

(** gvds_struct.h: [struct IOProxyNode]; [status] is the integer of the
    enumeration Running, Stopped, Starting. The constructor draws a random
    UUID, which is its argument here. *)
Module IOProxyNode.

Definition Running : Z := 0.
Definition Stopped : Z := 1.
Definition Starting : Z := 2.

Record t : Type := mk {
  rpc_port : Z;
  data_port : Z;
  ip : string;
  name : string;
  status : Z;
  uuid : string;
  cid : string;
}.

Definition init `{Indet} (random_uuid : string) : t :=
  mk junk_int junk_int "" "" Stopped random_uuid "".

Definition serialize_impl (x : t) : list (string * json) := [
  put "uuid" codec_string x.(uuid);
  put "ip" codec_string x.(ip);
  put "name" codec_string x.(name);
  put "rpc_port" codec_int x.(rpc_port);
  put "data_port" codec_int x.(data_port);
  put "status" codec_int x.(status);
  put "cid" codec_string x.(cid)].

Definition deserialize_impl `{Indet} (l : list (string * json)) (x : t) : t := {|
  uuid := get l "uuid" codec_string x.(uuid);
  ip := get l "ip" codec_string x.(ip);
  name := get l "name" codec_string x.(name);
  rpc_port := get l "rpc_port" codec_int x.(rpc_port);
  data_port := get l "data_port" codec_int x.(data_port);
  status := get l "status" codec_int junk_int;
  cid := get l "cid" codec_string x.(cid) |}.

Definition wf (x : t) : Prop :=
  enc_wf codec_string x.(uuid) ∧
  enc_wf codec_string x.(ip) ∧
  enc_wf codec_string x.(name) ∧
  enc_wf codec_int x.(rpc_port) ∧
  enc_wf codec_int x.(data_port) ∧
  enc_wf codec_int x.(status) ∧
  enc_wf codec_string x.(cid).

Definition prefix : string := "IOPN-".
Definition set_status (v : Z) (x : t) : t :=
  mk x.(rpc_port) x.(data_port) x.(ip) x.(name) v x.(uuid) x.(cid).

#[global] Instance struct `{Indet} : JsonStruct t := {|
  ser_impl := serialize_impl; deser_impl := deserialize_impl; struct_wf := wf |}.
#[global] Instance struct_ok `{Indet} : JsonStructOk t.
Proof. unfold struct, serialize_impl, deserialize_impl, wf. solve_struct_ok. Qed.

End IOProxyNode.

(** gvds_struct.h: [struct Zone]. The space list and the three permission words
    travel only when [contains_spaceinfo] is set, on either side. *)
Module Zone.

Record t : Type := mk {
  zoneID : string;
  zoneName : string;
  ownerID : string;
  memberID : list string;
  spaceID : list string;
  spaceBicInfo : list Space.t;
  ownerAuth : Z;
  groupAuth : Z;
  otherAuth : Z;
  contains_spaceinfo : bool;
}.

(** [Zone() : contains_spaceinfo(true)]. *)
Definition init `{Indet} : t := mk "" "" "" [] [] [] junk_int junk_int junk_int true.

(** [encode(std::shared_ptr<V>)] of a non-null pointer: the object's text,
    spliced in as a raw value. *)
Definition encode_space (s : Space.t) : json := JObject (Space.serialize_impl s).

Definition serialize_impl (x : t) : list (string * json) :=
  [ put "UUID" codec_string x.(zoneID);
    put "name" codec_string x.(zoneName);
    put "owner" codec_string x.(ownerID);
    put "members" (codec_vector codec_string "") x.(memberID);
    put "spaces" (codec_vector codec_string "") x.(spaceID) ] ++
  (if x.(contains_spaceinfo)
   then [ ("spaceinfo", JArray (encode_space <$> x.(spaceBicInfo)));
          put "ownerAuth" codec_int x.(ownerAuth);
          put "groupAuth" codec_int x.(groupAuth);
          put "otherAuth" codec_int x.(otherAuth) ]
   else []).

(** A [shared_ptr<Space>] element: a fresh [Space], filled by
    [deserialize] from a JSON value, whose assertion fails on anything but an object. *)
Definition decode_space `{Indet} (v : json) : option Space.t :=
  match v with
  | JObject l => Some (Space.deserialize_impl l Space.init)
  | _ => None
  end.
Definition get_spaceinfo `{Indet} (l : list (string * json)) (d : list Space.t) : option (list Space.t) :=
  match member "spaceinfo" l with
  | Some (JArray vs) => mapM decode_space vs
  | _ => Some d
  end.

(** [None]: the assertion of a nested object failed. *)
Definition deserialize_impl `{Indet} (l : list (string * json)) (x : t) : option t :=
  let b := x.(contains_spaceinfo) in
  spaces ← (if b then get_spaceinfo l x.(spaceBicInfo) else Some x.(spaceBicInfo));
  Some {|
    zoneID := get l "UUID" codec_string x.(zoneID);
    zoneName := get l "name" codec_string x.(zoneName);
    ownerID := get l "owner" codec_string x.(ownerID);
    memberID := get l "members" (codec_vector codec_string "") x.(memberID);
    spaceID := get l "spaces" (codec_vector codec_string "") x.(spaceID);
    spaceBicInfo := spaces;
    ownerAuth := if b then get l "ownerAuth" codec_int x.(ownerAuth) else x.(ownerAuth);
    groupAuth := if b then get l "groupAuth" codec_int x.(groupAuth) else x.(groupAuth);
    otherAuth := if b then get l "otherAuth" codec_int x.(otherAuth) else x.(otherAuth);
    contains_spaceinfo := b |}.

Definition deserialize `{Rapidjson, Indet} (x : t) (text : string) : option t :=
  match rj_parse (c_str text) with
  | Some (JObject l) => deserialize_impl l x
  | _ => Some x
  end.
Definition serialize `{Rapidjson} (x : t) : string := Json.serialize (serialize_impl x).

Definition wf (x : t) : Prop :=
  enc_wf codec_string x.(zoneID) ∧
  enc_wf codec_string x.(zoneName) ∧
  enc_wf codec_string x.(ownerID) ∧
  enc_wf (codec_vector codec_string "") x.(memberID) ∧
  enc_wf (codec_vector codec_string "") x.(spaceID) ∧
  Forall Space.wf x.(spaceBicInfo) ∧
  enc_wf codec_int x.(ownerAuth) ∧
  enc_wf codec_int x.(groupAuth) ∧
  enc_wf codec_int x.(otherAuth).

Definition set_zoneName (v : string) (x : t) : t :=
  mk x.(zoneID) v x.(ownerID) x.(memberID) x.(spaceID) x.(spaceBicInfo) x.(ownerAuth)
    x.(groupAuth) x.(otherAuth) x.(contains_spaceinfo).
Definition set_memberID (v : list string) (x : t) : t :=
  mk x.(zoneID) x.(zoneName) x.(ownerID) v x.(spaceID) x.(spaceBicInfo) x.(ownerAuth)
    x.(groupAuth) x.(otherAuth) x.(contains_spaceinfo).
Definition set_spaceID (v : list string) (x : t) : t :=
  mk x.(zoneID) x.(zoneName) x.(ownerID) x.(memberID) v x.(spaceBicInfo) x.(ownerAuth)
    x.(groupAuth) x.(otherAuth) x.(contains_spaceinfo).
Definition set_contains_spaceinfo (v : bool) (x : t) : t :=
  mk x.(zoneID) x.(zoneName) x.(ownerID) x.(memberID) x.(spaceID) x.(spaceBicInfo)
    x.(ownerAuth) x.(groupAuth) x.(otherAuth) v.

(** What the database keeps of a zone. *)
Definition core (x : t) : string * string * string * list string * list string :=
  (x.(zoneID), x.(zoneName), x.(ownerID), x.(memberID), x.(spaceID)).

Lemma encode_spaces_wf l : Forall Space.wf l → Forall json_wf (encode_space <$> l).
Proof.
  intros Hl. rewrite Forall_fmap. eapply Forall_impl; [exact Hl|]. intros s Hs.
  constructor. exact (ser_impl_wf s Hs).
Qed.

Lemma decode_encode_spaces `{Indet} l :
  Forall Space.wf l → mapM decode_space (encode_space <$> l) = Some l.
Proof.
  induction 1 as [|s l Hs Hl IH]; [done|]. cbn [fmap list_fmap mapM].
  cbn [decode_space encode_space]. pose proof (deser_ser_impl s Space.init Hs) as Hrt. cbn in Hrt.
  rewrite Hrt. cbn. by rewrite IH.
Qed.

Lemma serialize_wf x : wf x → Forall (λ kv, json_wf kv.2) (serialize_impl x).
Proof.
  intros Hwf; unfold wf in Hwf; destruct_and?. unfold serialize_impl. apply Forall_app. split.
  - json_fields_wf.
  - destruct (contains_spaceinfo x); [|done]. apply Forall_cons; split.
    + constructor. by apply encode_spaces_wf.
    + json_fields_wf.
Qed.

(** Round trip: the stored part always survives; with [contains_spaceinfo] on
    both sides the whole object does. *)
Lemma zone_deserialize_serialize `{RapidjsonLaws, Indet} x d :
  wf x → ∃ y, deserialize d (serialize x) = Some y ∧ core y = core x ∧
    contains_spaceinfo y = contains_spaceinfo d ∧
    (contains_spaceinfo x = true → contains_spaceinfo d = true → y = x) ∧
    (wf d → wf y).
Proof.
  intros Hwf. unfold deserialize, serialize. rewrite parse_serialize by (by apply serialize_wf).
  unfold wf in Hwf; destruct_and?. unfold deserialize_impl, get_spaceinfo, serialize_impl.
  destruct x as [zi zn ow me sp si a1 a2 a3 b].
  cbn -[get put enc dec member codec_string codec_vector codec_int] in *.
  destruct b, (contains_spaceinfo d) eqn:Hd;
    cbn -[get put enc dec member codec_string codec_vector codec_int mapM]; json_get;
    rewrite ?decode_encode_spaces by done;
    cbn -[get put enc dec member codec_string codec_vector codec_int]; json_get;
    rewrite !dec_enc by done;
    (eexists; split; [done|]); unfold wf, core; cbn -[enc_wf]; naive_solver.
Qed.

Lemma space_init_wf `{Indet} : Space.wf Space.init.
Proof. unfold Space.wf, Space.init; split_and?; done || apply junk_int64_wf || apply Forall_nil_2. Qed.

Lemma decoded_spaces_wf `{Indet} vs l : mapM decode_space vs = Some l → Forall Space.wf l.
Proof.
  intros Hl. apply mapM_Some in Hl. induction Hl as [|v s vs l Hs _ IH]; constructor; [|done].
  destruct v; try done. injection Hs as <-. exact (deser_impl_wf _ Space.init space_init_wf).
Qed.

(** Whatever the text, what is read is a value of the format. *)
Lemma zone_deserialize_wf `{Rapidjson, Indet} d text y : deserialize d text = Some y → wf d → wf y.
Proof.
  unfold deserialize. destruct (rj_parse _) as [[]|]; try (by intros [= <-]).
  unfold deserialize_impl. intros Hy Hd. apply bind_Some in Hy as (spaces & Hsp & [= <-]).
  unfold wf in *. destruct_and?. cbn -[enc_wf get].
  split_and!; try (apply get_wf; first [done|apply _]);
    try (case_match; [apply get_wf; first [done|apply _]|done]).
  destruct (contains_spaceinfo d); [|by injection Hsp as <-].
  unfold get_spaceinfo in Hsp. destruct (member "spaceinfo" l) as [[]|];
    first [by injection Hsp as <-|by eapply decoded_spaces_wf].
Qed.

Lemma zone_init_wf `{Indet} : wf init.
Proof. unfold wf, init; split_and?; done || apply Forall_nil_2 || apply junk_int_wf. Qed.

End Zone.
