(* ===== verification/Datastore.v ===== *)
(** * The datastore layer (datastore/datastore.cc, datastore/couchbase_helper.cc)

    [CouchbaseDatastore] wraps the couchbase++ client, a library: its calls are
    the interface [Couchbase], functions of the outside world. [CouchbaseLaws]
    states what the manager relies on: the server is a map from keys to
    documents, a successful call has its effect, a failed write may or may not
    have reached the server, anything may fail at any time. [CouchbaseUp] adds
    a predicate of worlds in which no infrastructure fault happens. The
    machine the manager runs on is the interface [Host]. *)
From S2P Require Import Prelude CxxString Json.

(** What [Couchbase::Client] is built from. *)
Record client : Type := Client {
  connstr : string;
  passwd : string;
  username : string;
}.

(** Outcome of an N1QL query: [Status::errcode()], [q.meta().status()], the
    rows, and the body of the meta response. *)
Record query_result : Type := QueryResult {
  q_errcode : Z;
  q_meta_ok : bool;
  q_rows : list string;
  q_body : string;
}.

(** couchbase++; every integer is the [errcode()] of the status, zero for
    [success()]. *)
Class Couchbase (W : Type) : Type := {
  cb_connect : client → W → Z * W;
  cb_get : client → string → W → (Z * string) * W;
  cb_get_sub : client → string → string → W → (Z * string) * W;
  cb_insert : client → string → string → W → Z * W;
  cb_upsert : client → string → string → W → Z * W;
  cb_upsert_sub : client → string → string → string → W → Z * W;
  cb_arr_insert_uniq : client → string → string → string → W → Z * W;
  cb_remove : client → string → W → Z * W;
  cb_query : client → string → W → query_result * W;
}.

(** The machine: the loaded configuration file, a random UUID, [mkdir], a
    command whose output is read through [popen] ([None] when [popen] fails),
    a blocking HTTP POST to another manager ([None] when no answer comes and
    the caller waits for ever). *)
Class Host (W : Type) : Type := {
  config : string → option string;
  host_uuid : W → string * W;
  host_mkdir : string → Z → W → Z * W;
  host_popen : string → W → option string * W;
  host_post : string → string → W → option string * W;
}.

Record CouchbaseDatastore : Type := Datastore {
  ds_name : string;
  initilized : bool;
  ds_client : option client;
}.

Section datastore.
Context {W : Type} `{Couchbase W, Host W, Rapidjson}.

(** [N1qlResponse::status] after [deserialize]; the member is uninitialised
    and stays so for a status text other than the two tested. *)
Definition N1qlResponse_status (junk : Z) (body : string) : Z :=
  let impl l (_ : string) := Json.get l "status" codec_string "" in
  match rj_parse (c_str body) with
  | Some (JObject l) =>
      let status_s := impl l "" in
      if bool_decide (status_s = "fatal") then - EINVAL
      else if bool_decide (status_s = "success") then 0 else junk
  | _ => junk
  end.

(** [CouchbaseDatastore::_connect]: the new client, and the error code. *)
Definition _connect (bucket : string) : M W (option client * Z) :=
  match config "manager.couchbase_addr", config "manager.couchbase_user",
        config "manager.couchbase_passwd" with
  | Some server_address, Some user, Some pass =>
      let c := Client ("couchbase://" +:+ server_address +:+ "/" +:+ bucket) pass user in
      rc ← extern (cb_connect c);
      mret (Some c, if bool_decide (rc = 0) then 0 else -101)
  | _, _, _ => mret (None, - EINVAL)
  end.

(** [CouchbaseDatastore::init]. *)
Definition init (d : CouchbaseDatastore) : M W (CouchbaseDatastore * Z) :=
  if initilized d then mret (d, 0)
  else
    '(c, err) ← _connect (ds_name d);
    mret (Datastore (ds_name d) (bool_decide (err = 0)) c, err).

Definition make_datastore (bucket : string) : CouchbaseDatastore := Datastore bucket false None.

(** [DatastoreFactory::create_datastore] for the couchbase type: [reuse] is
    overwritten with [false], and a failed [init] gives the null pointer. *)
Definition create_datastore (name : string) : M W (option CouchbaseDatastore) :=
  '(d, err) ← init (make_datastore name);
  mret (if bool_decide (err = 0) then Some d else None).

(** The other way the code opens a bucket: [make_shared] and an unchecked
    [init()]. *)
Definition open_datastore (name : string) : M W (option CouchbaseDatastore) :=
  '(d, _) ← init (make_datastore name);
  mret (Some d).

(** [p->init()] on a datastore already opened. *)
Definition reinit (p : option CouchbaseDatastore) : M W (option CouchbaseDatastore) :=
  d ← deref p;
  '(d, _) ← init d;
  mret (Some d).

(** Calls through a [shared_ptr<Datastore>], then through its client. *)
Definition with_client {A} (p : option CouchbaseDatastore) (k : client → W → A * W) : M W A :=
  d ← deref p;
  c ← deref (ds_client d);
  extern (k c).

Definition ds_get (p : option CouchbaseDatastore) (key : string) : M W (option string * Z) :=
  '(rc, v) ← with_client p (λ c, cb_get c key);
  mret (if bool_decide (rc = 0) then Some v else None, rc).

Definition ds_get_sub (p : option CouchbaseDatastore) (key path : string) : M W (option string * Z) :=
  '(rc, v) ← with_client p (λ c, cb_get_sub c key path);
  mret (if bool_decide (rc = 0) then Some v else None, rc).

Definition ds_insert (p : option CouchbaseDatastore) (key doc : string) : M W Z :=
  with_client p (λ c, cb_insert c key doc).
Definition ds_set (p : option CouchbaseDatastore) (key doc : string) : M W Z :=
  with_client p (λ c, cb_upsert c key doc).
Definition ds_set_sub (p : option CouchbaseDatastore) (key path subdoc : string) : M W Z :=
  with_client p (λ c, cb_upsert_sub c key path subdoc).
Definition ds_remove (p : option CouchbaseDatastore) (key : string) : M W Z :=
  with_client p (λ c, cb_remove c key).
Definition ds_arr_insert_uniq (p : option CouchbaseDatastore) (key path v : string) : M W Z :=
  with_client p (λ c, cb_arr_insert_uniq c key path v).

(** [_n1ql]: rows only when both the call and the query succeeded; [junk] is
    the uninitialised [status] of the response object. *)
Definition ds_n1ql (junk : Z) (p : option CouchbaseDatastore) (query : string)
    : M W (list string * Z) :=
  q ← with_client p (λ c, cb_query c query);
  mret (if bool_decide (q_errcode q = 0) && q_meta_ok q then (q_rows q, 0)
        else if bool_decide (q_errcode q ≠ 0) then ([], q_errcode q)
        else ([], N1qlResponse_status junk (q_body q))).
End datastore.

(** ** What the manager relies on *)

Definition is_select (q : string) : bool := String.prefix "select" q.

Class CouchbaseLaws (W : Type) `{Couchbase W} : Type := {
  (** the documents, by connection string and key *)
  docs : W → gmap (string * string) string;
  docs_connect c w : docs (cb_connect c w).2 = docs w;
  docs_get c k w : docs (cb_get c k w).2 = docs w;
  get_found c k w v : (cb_get c k w).1 = (0, v) → docs w !! (connstr c, k) = Some v;
  docs_get_sub c k p w : docs (cb_get_sub c k p w).2 = docs w;
  docs_insert c k v w :
    docs (cb_insert c k v w).2 = <[(connstr c, k) := v]> (docs w) ∧ docs w !! (connstr c, k) = None ∨
    docs (cb_insert c k v w).2 = docs w ∧ (cb_insert c k v w).1 ≠ 0;
  docs_upsert c k v w :
    docs (cb_upsert c k v w).2 = <[(connstr c, k) := v]> (docs w) ∨
    docs (cb_upsert c k v w).2 = docs w ∧ (cb_upsert c k v w).1 ≠ 0;
  docs_upsert_sub c k p v w k' :
    k' ≠ (connstr c, k) → docs (cb_upsert_sub c k p v w).2 !! k' = docs w !! k';
  docs_arr_insert c k p v w k' :
    k' ≠ (connstr c, k) → docs (cb_arr_insert_uniq c k p v w).2 !! k' = docs w !! k';
  docs_remove c k w :
    docs (cb_remove c k w).2 = delete (connstr c, k) (docs w) ∨
    docs (cb_remove c k w).2 = docs w ∧ (cb_remove c k w).1 ≠ 0;
  (** a document that is not there cannot be removed *)
  remove_missing c k w : docs w !! (connstr c, k) = None → (cb_remove c k w).1 ≠ 0;
  docs_select c q w : is_select q = true → docs (cb_query c q w).2 = docs w;
}.

(** Where another centre answers how much a space uses: [snprintf] of 256 bytes. *)
Definition usage_url (ip port : string) : string :=
  snprintf 256 ("http://" +:+ c_str ip +:+ ":" +:+ c_str port +:+ "/space/spaceusage").

Class HostLaws (W : Type) `{CouchbaseLaws W, Host W} : Prop := {
  docs_uuid w : docs (host_uuid w).2 = docs w;
  docs_mkdir p m w : docs (host_mkdir p m w).2 = docs w;
  docs_popen c w : docs (host_popen c w).2 = docs w;
  (** a usage request reads no document and writes none *)
  docs_usage ip port path w : docs (host_post (usage_url ip port) path w).2 = docs w;
  (** the text of a UUID holds no NUL byte *)
  uuid_c_str w : c_str (host_uuid w).1 = (host_uuid w).1;
}.

(** Worlds without infrastructure faults. *)
Class CouchbaseUp (W : Type) `{CouchbaseLaws W, Host W} : Type := {
  up : W → Prop;
  up_config w : up w → is_Some (config "manager.couchbase_addr") ∧
    is_Some (config "manager.couchbase_user") ∧ is_Some (config "manager.couchbase_passwd");
  up_connect c w : up w → (cb_connect c w).1 = 0 ∧ up (cb_connect c w).2;
  up_get c k w : up w → up (cb_get c k w).2 ∧
    match docs w !! (connstr c, k) with
    | Some v => (cb_get c k w).1 = (0, v)
    | None => (cb_get c k w).1.1 ≠ 0
    end;
  up_insert c k v w : up w → up (cb_insert c k v w).2 ∧
    (docs w !! (connstr c, k) = None → (cb_insert c k v w).1 = 0);
  up_upsert c k v w : up w → (cb_upsert c k v w).1 = 0 ∧ up (cb_upsert c k v w).2;
  up_remove c k w : up w → up (cb_remove c k w).2 ∧
    (is_Some (docs w !! (connstr c, k)) → (cb_remove c k w).1 = 0);
  up_select c q w : up w → is_select q = true → up (cb_query c q w).2 ∧
    q_errcode (cb_query c q w).1 = 0 ∧ q_meta_ok (cb_query c q w).1 = true;
  up_uuid w : up w → up (host_uuid w).2;
  up_mkdir p m w : up w → up (host_mkdir p m w).2;
  up_popen c w : up w → up (host_popen c w).2;
  up_usage ip port path w : up w → up (host_post (usage_url ip port) path w).2;
}.

(** Sub-documents: [sub doc path] is the value at a path, for the paths that
    name a member of an object directly. *)
Class SubdocLaws (W : Type) `{CouchbaseUp W, Rapidjson} : Type := {
  sub_object : string → Prop;
  simple_path : string → Prop;
  sub : string → string → option string;
  sub_empty : sub_object "{}";
  sub_empty_none p : simple_path p → sub "{}" p = None;
  up_get_sub c k p w : up w → up (cb_get_sub c k p w).2 ∧
    match docs w !! (connstr c, k) ≫= λ d, sub d p with
    | Some v => (cb_get_sub c k p w).1 = (0, v)
    | None => (cb_get_sub c k p w).1.1 ≠ 0
    end;
  (** LCB_KEY_ENOENT is 13: there is no document *)
  up_upsert_sub_missing c k p v w : up w → docs w !! (connstr c, k) = None →
    (cb_upsert_sub c k p v w).1 = 13 ∧ up (cb_upsert_sub c k p v w).2 ∧
    docs (cb_upsert_sub c k p v w).2 = docs w;
  up_upsert_sub_found c k p v w d : up w → docs w !! (connstr c, k) = Some d →
    sub_object d → simple_path p → (∃ j, json_wf j ∧ v = rj_write j) →
    (cb_upsert_sub c k p v w).1 = 0 ∧ up (cb_upsert_sub c k p v w).2 ∧
    ∃ d', docs (cb_upsert_sub c k p v w).2 = <[(connstr c, k) := d']> (docs w) ∧
      sub_object d' ∧ ∀ p', simple_path p' →
        sub d' p' = if bool_decide (p' = p) then Some v else sub d p';
}.

(** ** Reasoning about database calls

    [stored D w]: the database holds exactly [D]; [serving D w]: it does and no
    fault happens. The rules below step through a database call from either;
    the ones from [stored] branch on the call failing. *)
Section logic.
Context {W : Type} `{CouchbaseLaws W, !Host W, !HostLaws W, Rapidjson}.
Implicit Types (D : gmap (string * string) string) (w : W).

Definition client_of (b : string) : client :=
  Client ("couchbase://" +:+ default "" (config "manager.couchbase_addr") +:+ "/" +:+ b)
    (default "" (config "manager.couchbase_passwd"))
    (default "" (config "manager.couchbase_user")).
Definition handle (b : string) : CouchbaseDatastore := Datastore b true (Some (client_of b)).
(** The key of document [k] of bucket [b]. *)
Definition dkey (b k : string) : string * string := (connstr (client_of b), k).

Lemma dkey_inj b k k' : dkey b k = dkey b k' ↔ k = k'.
Proof. unfold dkey. naive_solver. Qed.

Definition stored D w : Prop := docs w = D.

(** What opening bucket [b] may give: the null pointer, an object without
    client, or one whose client is that of the bucket. *)
Definition opened (b : string) (p : option CouchbaseDatastore) : Prop :=
  ∀ d, p = Some d → ds_name d = b ∧ ∀ c, ds_client d = Some c → c = client_of b.

Lemma wp_init_any b d0 (Q : CouchbaseDatastore * Z → W → Prop) E D w :
  opened b (Some d0) → stored D w →
  (∀ d e w', opened b (Some d) → stored D w' → Q (d, e) w') →
  wp (init d0) Q E w.
Proof.
  unfold stored. intros Hd0 <- HQ. destruct (Hd0 d0 eq_refl) as [Hb _].
  unfold init, _connect. destruct (initilized d0); [by apply wp_ret, HQ|].
  unfold wp, mbind, M_bind, mret, M_ret, extern.
  destruct (config "manager.couchbase_addr") eqn:?, (config "manager.couchbase_user") eqn:?,
    (config "manager.couchbase_passwd") eqn:?; cbn;
    try (apply HQ; [intros d [= <-]; by split|done]).
  match goal with |- context [cb_connect ?c w] => pose proof (docs_connect c w) as Hc;
    destruct (cb_connect c w) as [rc w'] eqn:Hrc end.
  cbn in *. apply HQ; [|done]. intros d [= <-]. split; [done|]. intros c [= <-].
  unfold client_of. by simplify_option_eq.
Qed.

Lemma opened_make b : opened b (Some (make_datastore b)).
Proof. intros d [= <-]. by split. Qed.

Lemma wp_create_any b (Q : option CouchbaseDatastore → W → Prop) E D w :
  stored D w → (∀ p w', opened b p → stored D w' → Q p w') →
  wp (create_datastore b) Q E w.
Proof.
  intros HD HQ. unfold create_datastore. apply wp_bind. eapply wp_init_any; [apply opened_make|done|].
  intros d e w' Hd HD'. apply wp_ret, HQ; [|done]. by case_bool_decide.
Qed.

Lemma wp_open_any b (Q : option CouchbaseDatastore → W → Prop) E D w :
  stored D w → (∀ p w', opened b p → stored D w' → Q p w') →
  wp (open_datastore b) Q E w.
Proof.
  intros HD HQ. unfold open_datastore. apply wp_bind. eapply wp_init_any; [apply opened_make|done|].
  intros d e w' Hd HD'. by apply wp_ret, HQ.
Qed.

Lemma wp_reinit_any b p Q E D w :
  opened b p → stored D w → (∀ w', stored D w' → E w') →
  (∀ p w', opened b p → stored D w' → Q p w') → wp (reinit p) Q E w.
Proof.
  intros Hp HD HE HQ. unfold reinit. apply wp_bind.
  destruct p as [d|]; [apply wp_ret, wp_bind|by apply wp_undefined, HE].
  eapply wp_init_any; [done..|]. intros d' e w' Hd' HD'. by apply wp_ret, HQ.
Qed.

(** A call through the pointer: a null pointer is undefined behaviour. *)
Lemma wp_with_client {A} p b (k : client → W → A * W) Q E D w :
  opened b p → stored D w → (∀ w', stored D w' → E w') →
  Q (k (client_of b) w).1 (k (client_of b) w).2 →
  wp (with_client p k) Q E w.
Proof.
  intros Hp HD HE HQ. unfold with_client. apply wp_bind.
  destruct p as [d|]; [apply wp_ret, wp_bind|by apply wp_undefined, HE].
  destruct (ds_client d) as [c|] eqn:Hc; [apply wp_ret|by apply wp_undefined, HE].
  rewrite (proj2 (Hp d eq_refl) c Hc). by apply wp_extern.
Qed.

Lemma wp_get_any p b k Q E D w :
  opened b p → stored D w → (∀ w', stored D w' → E w') →
  (∀ v w', D !! dkey b k = Some v → stored D w' → Q (Some v, 0) w') →
  (∀ e w', e ≠ 0 → stored D w' → Q (None, e) w') →
  wp (ds_get p k) Q E w.
Proof.
  unfold ds_get. intros Hp HD HE HS HF. apply wp_bind. eapply wp_with_client; eauto.
  pose proof (docs_get (client_of b) k w) as Hd. pose proof (get_found (client_of b) k w) as Hf.
  destruct (cb_get (client_of b) k w) as [[rc v] w'] eqn:?; cbn in *.
  unfold stored in *. subst D. apply wp_ret. case_bool_decide; subst.
  - apply HS; [by apply Hf | done].
  - apply HF; done.
Qed.

Lemma wp_get_sub_any p b k path Q E D w :
  opened b p → stored D w → (∀ w', stored D w' → E w') →
  (∀ v w', stored D w' → Q (Some v, 0) w') →
  (∀ e w', e ≠ 0 → stored D w' → Q (None, e) w') →
  wp (ds_get_sub p k path) Q E w.
Proof.
  unfold ds_get_sub. intros Hp HD HE HS HF. apply wp_bind. eapply wp_with_client; eauto.
  pose proof (docs_get_sub (client_of b) k path w) as Hd.
  destruct (cb_get_sub (client_of b) k path w) as [[rc v] w'] eqn:?; cbn in *.
  unfold stored in *. subst D. apply wp_ret. case_bool_decide; subst; [by apply HS|by apply HF].
Qed.

(** Only the document itself may change. *)
Definition changes_only (k : string * string) D D' : Prop := ∀ k', k' ≠ k → D' !! k' = D !! k'.

Lemma wp_set_sub_any p b k path v Q E D w :
  opened b p → stored D w → (∀ w', stored D w' → E w') →
  (∀ e D' w', changes_only (dkey b k) D D' → stored D' w' → Q e w') →
  wp (ds_set_sub p k path v) Q E w.
Proof.
  unfold ds_set_sub. intros Hp HD HE HQ. eapply wp_with_client; eauto. unfold stored in *. subst D.
  eapply HQ; [|done]. intros k' Hk'. by apply docs_upsert_sub.
Qed.

Lemma wp_arr_insert_any p b k path v Q E D w :
  opened b p → stored D w → (∀ w', stored D w' → E w') →
  (∀ e D' w', changes_only (dkey b k) D D' → stored D' w' → Q e w') →
  wp (ds_arr_insert_uniq p k path v) Q E w.
Proof.
  unfold ds_arr_insert_uniq. intros Hp HD HE HQ. eapply wp_with_client; eauto. unfold stored in *. subst D.
  eapply HQ; [|done]. intros k' Hk'. by apply docs_arr_insert.
Qed.

Lemma wp_set_any p b k v Q E D w :
  opened b p → stored D w → (∀ w', stored D w' → E w') →
  (∀ e w', stored (<[dkey b k := v]> D) w' → Q e w') →
  (∀ e w', e ≠ 0 → stored D w' → Q e w') →
  wp (ds_set p k v) Q E w.
Proof.
  unfold ds_set. intros Hp HD HE HS HF. eapply wp_with_client; eauto.
  unfold stored in *. subst D. destruct (docs_upsert (client_of b) k v w) as [Hu|[Hu He]]; auto.
Qed.

(** An insert never replaces a document. *)
Lemma wp_insert_any p b k v Q E D w :
  opened b p → stored D w → (∀ w', stored D w' → E w') →
  (∀ e w', D !! dkey b k = None → stored (<[dkey b k := v]> D) w' → Q e w') →
  (∀ e w', e ≠ 0 → stored D w' → Q e w') →
  wp (ds_insert p k v) Q E w.
Proof.
  unfold ds_insert. intros Hp HD HE HS HF. eapply wp_with_client; eauto.
  unfold stored in *. subst D.
  destruct (docs_insert (client_of b) k v w) as [[Hu Hn]|[Hu He]]; auto.
Qed.

Lemma wp_remove_any p b k Q E D w :
  opened b p → stored D w → (∀ w', stored D w' → E w') →
  (∀ e w', stored (delete (dkey b k) D) w' → (D !! dkey b k = None → e ≠ 0) → Q e w') →
  (∀ e w', e ≠ 0 → stored D w' → Q e w') →
  wp (ds_remove p k) Q E w.
Proof.
  unfold ds_remove. intros Hp HD HE HS HF. eapply wp_with_client; eauto.
  unfold stored in *. subst D. pose proof (remove_missing (client_of b) k w).
  destruct (docs_remove (client_of b) k w) as [Hu|[Hu He]]; auto.
Qed.

Lemma wp_select_any p b q junk Q E D w :
  is_select q = true →
  opened b p → stored D w → (∀ w', stored D w' → E w') →
  (∀ rows e w', stored D w' → Q (rows, e) w') →
  wp (ds_n1ql junk p q) Q E w.
Proof.
  unfold ds_n1ql. intros Hq Hp HD HE HQ. apply wp_bind. eapply wp_with_client; eauto.
  apply wp_ret. unfold stored in *. subst D. pose proof (docs_select (client_of b) q w Hq).
  repeat case_match; auto.
Qed.

(** The same with the rows: those the server answers, or none. *)
Lemma wp_select_rows_any p b q junk Q E D w :
  is_select q = true →
  opened b p → stored D w → (∀ w', stored D w' → E w') →
  (∀ rows e w', (rows = [] ∨ rows = q_rows (cb_query (client_of b) q w).1) → stored D w' → Q (rows, e) w') →
  wp (ds_n1ql junk p q) Q E w.
Proof.
  unfold ds_n1ql. intros Hq Hp HD HE HQ. apply wp_bind. eapply wp_with_client; eauto.
  apply wp_ret. unfold stored in *. subst D. pose proof (docs_select (client_of b) q w Hq).
  repeat case_match; auto.
Qed.

Lemma wp_uuid_any Q E D w :
  stored D w → (∀ u w', c_str u = u → stored D w' → Q u w') → wp (extern host_uuid) Q E w.
Proof.
  intros <- HQ. apply wp_extern, HQ; [apply uuid_c_str|]. unfold stored. by rewrite docs_uuid.
Qed.

Lemma wp_usage_any ip port path Q E D w :
  stored D w → (∀ r w', stored D w' → Q r w') →
  wp (extern (host_post (usage_url ip port) path)) Q E w.
Proof. intros <- HQ. apply wp_extern, HQ. unfold stored. by rewrite docs_usage. Qed.

Lemma wp_mkdir_any p m Q E D w :
  stored D w → (∀ r w', stored D w' → Q r w') → wp (extern (host_mkdir p m)) Q E w.
Proof. intros <- HQ. apply wp_extern, HQ. unfold stored. by rewrite docs_mkdir. Qed.

Lemma wp_popen_any c Q E D w :
  stored D w → (∀ r w', stored D w' → Q r w') → wp (extern (host_popen c)) Q E w.
Proof. intros <- HQ. apply wp_extern, HQ. unfold stored. by rewrite docs_popen. Qed.

Context `{!CouchbaseUp W}.

Definition serving D w : Prop := up w ∧ docs w = D.

Lemma serving_stored D w : serving D w → stored D w.
Proof. by intros [_ ?]. Qed.

(** The world after the bucket is opened. *)
Definition connected (b : string) w : W := (cb_connect (client_of b) w).2.

Lemma wp_create_connected b Q E D w :
  serving D w → (serving D (connected b w) → Q (Some (handle b)) (connected b w)) →
  wp (create_datastore b) Q E w.
Proof.
  intros [Hup <-] HQ. unfold create_datastore, init, _connect. cbn.
  unfold wp, mbind, M_bind, mret, M_ret, extern.
  unfold connected, serving, handle, client_of in *.
  destruct (up_config w Hup) as ([a Ha] & [u Hu] & [s Hs]). rewrite Ha, Hu, Hs in *. cbn in *.
  match goal with |- context [cb_connect ?c w] => pose proof (docs_connect c w) as Hc;
    pose proof (up_connect c w Hup) as [Hrc Hup'];
    destruct (cb_connect c w) as [rc w'] eqn:Hcon end.
  cbn in *. subst rc. auto.
Qed.

Lemma wp_create_up b Q E D w :
  serving D w → (∀ w', serving D w' → Q (Some (handle b)) w') →
  wp (create_datastore b) Q E w.
Proof. intros HD HQ. eapply wp_create_connected; eauto. Qed.

Lemma wp_open_up b Q E D w :
  serving D w → (∀ w', serving D w' → Q (Some (handle b)) w') →
  wp (open_datastore b) Q E w.
Proof.
  intros HD HQ. unfold wp. pose proof (wp_create_up b Q E D w HD HQ) as H'.
  unfold wp, create_datastore, open_datastore, mbind, M_bind, mret, M_ret in *.
  destruct (init (make_datastore b) w) as [[[d e]|] w'] eqn:Hi; [|done].
  destruct (decide (e = 0)) as [->|He]; [by rewrite bool_decide_true in H'|exfalso].
  assert (Hf : wp (create_datastore b) (λ p _, p ≠ None) never w).
  { eapply wp_create_up; [exact HD|done]. }
  unfold wp, create_datastore, mbind, M_bind, mret, M_ret in Hf. rewrite Hi in Hf.
  by rewrite bool_decide_false in Hf.
Qed.

Lemma wp_reinit_up b Q E D w :
  serving D w → Q (Some (handle b)) w → wp (reinit (Some (handle b))) Q E w.
Proof. intros HD HQ. by apply HQ. Qed.

Lemma wp_with_handle {A} b (k : client → W → A * W) Q E w :
  Q (k (client_of b) w).1 (k (client_of b) w).2 →
  wp (with_client (Some (handle b)) k) Q E w.
Proof.
  intros HQ. unfold with_client. apply wp_bind, wp_ret, wp_bind, wp_ret. by apply wp_extern.
Qed.

Lemma wp_get_up b k Q E D w :
  serving D w →
  (∀ v w', D !! dkey b k = Some v → serving D w' → Q (Some v, 0) w') →
  (∀ e w', D !! dkey b k = None → e ≠ 0 → serving D w' → Q (None, e) w') →
  wp (ds_get (Some (handle b)) k) Q E w.
Proof.
  intros [Hup <-] HS HF. unfold ds_get. apply wp_bind, wp_with_handle.
  pose proof (docs_get (client_of b) k w) as Hd.
  destruct (up_get (client_of b) k w Hup) as [Hup' Hr].
  destruct (cb_get (client_of b) k w) as [[rc v] w']; cbn in *. apply wp_ret.
  unfold dkey in *. destruct (docs w !! _) eqn:Hl; simplify_eq/=.
  - by apply HS.
  - rewrite bool_decide_false by done. by apply HF.
Qed.

Lemma wp_set_up b k v Q E D w :
  serving D w → (∀ w', serving (<[dkey b k := v]> D) w' → Q 0 w') →
  wp (ds_set (Some (handle b)) k v) Q E w.
Proof.
  intros [Hup <-] HQ. apply wp_with_handle.
  destruct (up_upsert (client_of b) k v w Hup) as [Hrc Hup'].
  destruct (docs_upsert (client_of b) k v w) as [Hu|[_ He]]; [|done].
  rewrite Hrc. apply HQ. by split.
Qed.

Lemma wp_insert_up b k v Q E D w :
  serving D w →
  (∀ w', D !! dkey b k = None → serving (<[dkey b k := v]> D) w' → Q 0 w') →
  (∀ e w', is_Some (D !! dkey b k) → e ≠ 0 → serving D w' → Q e w') →
  wp (ds_insert (Some (handle b)) k v) Q E w.
Proof.
  intros [Hup <-] HS HF. apply wp_with_handle.
  destruct (up_insert (client_of b) k v w Hup) as [Hup' Hrc]. unfold dkey in *.
  destruct (docs w !! (connstr (client_of b), k)) eqn:Hl.
  - destruct (docs_insert (client_of b) k v w) as [[_ Hn]|[Hu He]]; [congruence|].
    apply HF; [eauto|done|by split].
  - specialize (Hrc eq_refl). destruct (docs_insert (client_of b) k v w) as [[Hu _]|[_ He]]; [|done].
    rewrite Hrc. apply HS; [done|]. by split.
Qed.

Lemma wp_remove_up b k Q E D w :
  serving D w →
  (∀ w', is_Some (D !! dkey b k) → serving (delete (dkey b k) D) w' → Q 0 w') →
  (∀ e w', D !! dkey b k = None → e ≠ 0 → serving D w' → Q e w') →
  wp (ds_remove (Some (handle b)) k) Q E w.
Proof.
  intros [Hup <-] HS HF. apply wp_with_handle.
  destruct (up_remove (client_of b) k w Hup) as [Hup' Hrc].
  pose proof (remove_missing (client_of b) k w) as Hmiss. unfold dkey in *.
  destruct (docs w !! (connstr (client_of b), k)) eqn:Hl.
  - specialize (Hrc ltac:(eauto)). destruct (docs_remove (client_of b) k w) as [Hu|[_ He]]; [|done].
    rewrite Hrc. apply HS; [eauto|]. by split.
  - specialize (Hmiss eq_refl). apply HF; [done..|]. split; [done|].
    destruct (docs_remove (client_of b) k w) as [Hu|[Hu _]]; [|done].
    rewrite Hu. by apply delete_id.
Qed.

(** A select: some rows and success, the database untouched; the rows are
    what the server answers. *)
Definition answers (b q : string) (w : W) : list string :=
  q_rows (cb_query (client_of b) q w).1.

Lemma wp_select_up b q junk Q E D w :
  is_select q = true → serving D w →
  (∀ w', serving D w' → Q (answers b q w, 0) w') →
  wp (ds_n1ql junk (Some (handle b)) q) Q E w.
Proof.
  intros Hq [Hup <-] HQ. unfold ds_n1ql. apply wp_bind, wp_with_handle, wp_ret.
  destruct (up_select (client_of b) q w Hup Hq) as (Hup' & Hrc & Hmeta).
  rewrite Hrc, Hmeta. cbn. apply HQ. split; [done|]. by apply docs_select.
Qed.

Lemma wp_uuid_up Q E D w :
  serving D w → (∀ w', serving D w' → Q (host_uuid w).1 w') → wp (extern host_uuid) Q E w.
Proof.
  intros [Hup <-] HQ. apply wp_extern, HQ. split; [by apply up_uuid | by apply docs_uuid].
Qed.

Lemma wp_usage_up ip port path Q E D w :
  serving D w → (∀ w', serving D w' → Q (host_post (usage_url ip port) path w).1 w') →
  wp (extern (host_post (usage_url ip port) path)) Q E w.
Proof.
  intros [Hup <-] HQ. apply wp_extern, HQ. split; [by apply up_usage | by apply docs_usage].
Qed.

Lemma wp_mkdir_up p m Q E D w :
  serving D w → (∀ r w', serving D w' → Q r w') → wp (extern (host_mkdir p m)) Q E w.
Proof.
  intros [Hup <-] HQ. apply wp_extern, HQ. split; [by apply up_mkdir | by apply docs_mkdir].
Qed.

Lemma wp_popen_up c Q E D w :
  serving D w → (∀ r w', serving D w' → Q r w') → wp (extern (host_popen c)) Q E w.
Proof.
  intros [Hup <-] HQ. apply wp_extern, HQ. split; [by apply up_popen | by apply docs_popen].
Qed.
Context `{!SubdocLaws W}.

Lemma wp_get_sub_up b k path Q E D w :
  serving D w →
  (∀ d v w', D !! dkey b k = Some d → sub d path = Some v → serving D w' → Q (Some v, 0) w') →
  (∀ e w', match D !! dkey b k with Some d => sub d path | None => None end = None →
    e ≠ 0 → serving D w' → Q (None, e) w') →
  wp (ds_get_sub (Some (handle b)) k path) Q E w.
Proof.
  intros [Hup <-] HS HF. unfold ds_get_sub. apply wp_bind, wp_with_handle.
  pose proof (docs_get_sub (client_of b) k path w) as Hd.
  destruct (up_get_sub (client_of b) k path w Hup) as [Hup' Hr].
  destruct (cb_get_sub (client_of b) k path w) as [[rc v] w']; cbn in *. apply wp_ret.
  unfold dkey in *. destruct (docs w !! _) as [s|] eqn:Hl.
  1: change (Some s ≫= λ d, sub d path) with (sub s path) in *; destruct (sub s path) eqn:Hs.
  - injection Hr as -> ->. by eapply HS.
  - rewrite bool_decide_false by done. by apply HF.
  - rewrite bool_decide_false by done. by apply HF.
Qed.

Lemma wp_set_sub_missing_up b k path v Q E D w :
  serving D w → D !! dkey b k = None → (∀ w', serving D w' → Q 13 w') →
  wp (ds_set_sub (Some (handle b)) k path v) Q E w.
Proof.
  intros [Hup <-] Hk HQ. apply wp_with_handle.
  destruct (up_upsert_sub_missing (client_of b) k path v w Hup Hk) as (-> & Hup' & Hd). by apply HQ.
Qed.

Lemma wp_set_sub_found_up b k path v d Q E D w :
  serving D w → D !! dkey b k = Some d → sub_object d → simple_path path →
  (∃ j, json_wf j ∧ v = rj_write j) →
  (∀ d' w', serving (<[dkey b k := d']> D) w' → sub_object d' →
    (∀ p', simple_path p' → sub d' p' = if bool_decide (p' = path) then Some v else sub d p') → Q 0 w') →
  wp (ds_set_sub (Some (handle b)) k path v) Q E w.
Proof.
  intros [Hup <-] Hk Ho Hp Hv HQ. apply wp_with_handle.
  destruct (up_upsert_sub_found (client_of b) k path v w d Hup Hk Ho Hp Hv) as (-> & Hup' & d' & Hd & Ho' & Hs).
  by eapply HQ.
Qed.
End logic.

(** Drive a computation through its database calls, from [serving D w] without
    faults, or from [stored D w] with every fault. *)
Ltac db_up :=
  first
    [ eapply wp_reinit_up; [eassumption|]
    | eapply wp_create_up; [eassumption|intros ? ?]
    | eapply wp_open_up; [eassumption|intros ? ?]
    | eapply wp_get_up; [eassumption|intros ? ? ? ?|intros ? ? ? ? ?]
    | eapply wp_set_up; [eassumption|intros ? ?]
    | eapply wp_insert_up; [eassumption|intros ? ? ?|intros ? ? ? ? ?]
    | eapply wp_remove_up; [eassumption|intros ? ? ?|intros ? ? ? ? ?]
    | eapply wp_select_up; [reflexivity|eassumption|intros ? ?]
    | eapply wp_uuid_up; [eassumption|intros ? ?]
    | eapply wp_usage_up; [eassumption|intros ? ?]
    | eapply wp_mkdir_up; [eassumption|intros ? ? ?]
    | eapply wp_popen_up; [eassumption|intros ? ? ?] ].
Ltac keep_stored :=
  solve [ auto | let Hs := fresh in intros ? Hs; unfold stored in *; rewrite ?Hs; eauto ].
Ltac db_any :=
  first
    [ eapply wp_reinit_any; [eassumption|eassumption|keep_stored|intros ? ? ? ?]
    | eapply wp_get_sub_any; [eassumption|eassumption|keep_stored|intros ? ? ?|intros ? ? ? ?]
    | eapply wp_set_sub_any; [eassumption|eassumption|keep_stored|intros ? ? ? ? ?]
    | eapply wp_arr_insert_any; [eassumption|eassumption|keep_stored|intros ? ? ? ? ?]
    | eapply wp_create_any; [eassumption|intros ? ? ? ?]
    | eapply wp_open_any; [eassumption|intros ? ? ? ?]
    | eapply wp_get_any; [eassumption|eassumption|keep_stored|intros ? ? ? ?|intros ? ? ? ?]
    | eapply wp_set_any; [eassumption|eassumption|keep_stored|intros ? ? ?|intros ? ? ? ?]
    | eapply wp_insert_any; [eassumption|eassumption|keep_stored|intros ? ? ? ?|intros ? ? ? ?]
    | eapply wp_remove_any; [eassumption|eassumption|keep_stored|intros ? ? ? ?|intros ? ? ? ?]
    | eapply wp_select_any; [reflexivity|eassumption|eassumption|keep_stored|intros ? ? ? ?]
    | eapply wp_uuid_any; [eassumption|intros ? ? ? ?]
    | eapply wp_usage_any; [eassumption|intros ? ? ?]
    | eapply wp_mkdir_any; [eassumption|intros ? ? ?]
    | eapply wp_popen_any; [eassumption|intros ? ? ?] ].
