(* ===== verification/Instances.v ===== *)
(** * A concrete environment

    One implementation of every interface of the development, small enough to
    evaluate: the witnesses instantiate the theorems at it, which shows that
    the laws are satisfiable. The database is a finite map that never fails;
    a UUID is drawn from a list; queries, directories, commands and remote
    managers answer what the world says they do. JSON texts are the image of an
    injective encoding. *)
From S2P Require Import Prelude CxxString Json Records Datastore.

(** ** JSON texts *)
Section json_encoding.
Local Abbreviation leaf := (bool + Z + string)%type.

Fixpoint json_tree (j : json) : gen_tree leaf :=
  match j with
  | JNull => GenNode 0%nat []
  | JBool b => GenLeaf (inl (inl b))
  | JInt z => GenLeaf (inl (inr z))
  | JString s => GenLeaf (inr s)
  | JArray l => GenNode 1%nat (json_tree <$> l)
  | JObject l => GenNode 2%nat ((λ kv, GenNode 3%nat [GenLeaf (inr kv.1); json_tree kv.2]) <$> l)
  end.

Fixpoint tree_json (t : gen_tree leaf) : json :=
  match t with
  | GenLeaf (inl (inl b)) => JBool b
  | GenLeaf (inl (inr z)) => JInt z
  | GenLeaf (inr s) => JString s
  | GenNode 1%nat l => JArray (tree_json <$> l)
  | GenNode 2%nat l => JObject ((λ t, match t with
      | GenNode _ [GenLeaf (inr k); t'] => (k, tree_json t')
      | _ => ("", JNull) end) <$> l)
  | GenNode _ _ => JNull
  end.

Lemma tree_json_tree : ∀ j, tree_json (json_tree j) = j.
Proof.
  fix IH 1. intros [| | | | l | l]; try reflexivity; cbn; f_equal.
  - induction l as [|j l IHl]; [reflexivity|]. cbn. by rewrite IH, IHl.
  - induction l as [|[k j] l IHl]; [reflexivity|]. cbn. by rewrite IH, IHl.
Qed.
End json_encoding.

#[export] Instance json_eq_dec : EqDecision json.
Proof.
  intros x y. destruct (decide (json_tree x = json_tree y)) as [Heq|Hne].
  - left. rewrite <-(tree_json_tree x), <-(tree_json_tree y). by rewrite Heq.
  - right. by intros ->.
Defined.
#[export] Instance json_countable : Countable json :=
  inj_countable' json_tree tree_json tree_json_tree.

(** Positives as bit strings. *)
Fixpoint bits_of_pos (p : positive) : string :=
  match p with
  | xH => ""
  | xO p => String "0" (bits_of_pos p)
  | xI p => String "1" (bits_of_pos p)
  end.
Fixpoint pos_of_bits (s : string) : positive :=
  match s with
  | EmptyString => xH
  | String c s => if Ascii.eqb c "0" then xO (pos_of_bits s) else xI (pos_of_bits s)
  end.

Lemma pos_of_bits_of_pos p : pos_of_bits (bits_of_pos p) = p.
Proof. induction p; cbn; [by rewrite IHp..|done]. Qed.

Lemma bits_of_pos_c_str p : c_str (bits_of_pos p) = bits_of_pos p.
Proof. induction p; cbn; [by rewrite IHp..|done]. Qed.

#[export] Instance model_rapidjson : Rapidjson := {|
  rj_write j := bits_of_pos (encode j);
  rj_parse s := decode (pos_of_bits s);
|}.
#[export] Instance model_rapidjson_laws : RapidjsonLaws.
Proof.
  split.
  - intros j _. cbn. rewrite pos_of_bits_of_pos. apply decode_encode.
  - intros j. apply bits_of_pos_c_str.
Qed.

#[export] Instance model_indet : Indet := {| indet_int := 77; indet_int64 := 7777; indet_bool := true |}.

(** ** The world *)
Record world : Type := World {
  w_docs : gmap (string * string) string;
  w_uuids : list string;
  w_rows : list string;
  w_mkdir : Z;
  w_popen : option string;
  w_post : option string;
}.
Definition set_docs (D : gmap (string * string) string) (w : world) : world :=
  World D (w_uuids w) (w_rows w) (w_mkdir w) (w_popen w) (w_post w).

(** The members of a document; "{}" is not a text of the encoding above and is
    read as the empty object. *)
Definition model_members (doc : string) : option (list (string * json)) :=
  if String.eqb doc "{}" then Some []
  else match rj_parse doc with Some (JObject l) => Some l | _ => None end.
Definition model_sub (doc path : string) : option string :=
  match model_members doc with
  | Some l => rj_write <$> member path l
  | None => None
  end.
Definition model_put_sub (doc path v : string) : option string :=
  match model_members doc, rj_parse v with
  | Some l, Some j => Some (rj_write (JObject ((path, j) :: l)))
  | _, _ => None
  end.

(** LCB_KEY_ENOENT is 13 and LCB_KEY_EEXISTS 12. *)
#[export] Instance model_couchbase : Couchbase world := {|
  cb_connect _ w := (0, w);
  cb_get c k w :=
    (match w_docs w !! (connstr c, k) with Some v => (0, v) | None => (13, "") end, w);
  cb_get_sub c k p w :=
    (match w_docs w !! (connstr c, k) ≫= λ d, model_sub d p with
     | Some v => (0, v) | None => (13, "") end, w);
  cb_insert c k v w :=
    match w_docs w !! (connstr c, k) with
    | Some _ => (12, w)
    | None => (0, set_docs (<[(connstr c, k) := v]> (w_docs w)) w)
    end;
  cb_upsert c k v w := (0, set_docs (<[(connstr c, k) := v]> (w_docs w)) w);
  cb_upsert_sub c k p v w :=
    match w_docs w !! (connstr c, k) ≫= λ d, model_put_sub d p v with
    | Some d => (0, set_docs (<[(connstr c, k) := d]> (w_docs w)) w)
    | None => (13, w)
    end;
  cb_arr_insert_uniq c k p v w :=
    match w_docs w !! (connstr c, k) with
    | Some d => (0, set_docs (<[(connstr c, k) := d]> (w_docs w)) w)
    | None => (13, w)
    end;
  cb_remove c k w :=
    match w_docs w !! (connstr c, k) with
    | Some _ => (0, set_docs (delete (connstr c, k) (w_docs w)) w)
    | None => (13, w)
    end;
  cb_query c q w := (QueryResult 0 true (w_rows w) "", w);
|}.

#[export] Instance model_host : Host world := {|
  config k :=
    if bool_decide (k = "manager.couchbase_addr") then Some "db"
    else if bool_decide (k = "manager.bucket") then Some "gvds"
    else if bool_decide (k = "manager.data_path") then Some "/data/"
    else Some "x";
  host_uuid w :=
    match w_uuids w with
    | u :: us => (c_str u, World (w_docs w) us (w_rows w) (w_mkdir w) (w_popen w) (w_post w))
    | [] => ("00000000-0000-0000-0000-000000000000", w)
    end;
  host_mkdir _ _ w := (w_mkdir w, w);
  host_popen _ w := (w_popen w, w);
  host_post _ _ w := (w_post w, w);
|}.

Ltac model_law := repeat first
  [ done | progress cbn in * | progress simplify_eq | case_match | progress simplify_map_eq ]; auto.

#[export] Instance model_couchbase_laws : CouchbaseLaws world.
Proof.
  refine {| docs := w_docs |}; intros; cbn in *; repeat case_match; simplify_eq/=; try done;
    try (left; done); try (right; done); try (left; split; done);
    try (by rewrite lookup_insert_ne).
  all: try (right; split; [done|lia]).
Defined.

#[export] Instance model_host_laws : HostLaws world.
Proof. split; intros; cbn; try (by repeat case_match). destruct (w_uuids w); [done|apply c_str_idemp]. Qed.

(** Worlds whose queries answer as [P] says; anything does for most of the witnesses. *)
Definition rows_up (P : list string → Prop) : CouchbaseUp world.
Proof.
  refine {| up w := P (w_rows w) |}; intros; cbn in *; repeat split; try done; repeat case_match; try done;
    repeat match goal with H : is_Some _ |- _ => destruct H end; try congruence; eauto.
Defined.
#[export] Instance model_up : CouchbaseUp world := rows_up (λ _, True).

Lemma model_members_write l : model_members (rj_write (JObject l)) = Some l.
Proof.
  unfold model_members. destruct (String.eqb_spec (rj_write (JObject l)) "{}") as [He|_].
  - exfalso. cbn in He. by destruct (encode (JObject l)).
  - cbn. by rewrite pos_of_bits_of_pos, decode_encode.
Qed.

Definition rows_subdoc (P : list string → Prop) : SubdocLaws (H2 := rows_up P) world.
Proof.
  refine {| sub_object d := is_Some (model_members d); simple_path _ := True; sub := model_sub |}.
  - eauto.
  - done.
  - intros c k p w Hw. split; [exact Hw|]. cbn. by destruct (w_docs w !! _ ≫= _).
  - intros c k p v w Hw Hk. cbn in *. by rewrite Hk.
  - intros c k p v w d Hw Hk [l Hl] _ (j & _ & ->). cbn in *. rewrite Hk. cbn.
    change (Some d ≫= λ d0, model_put_sub d0 p (bits_of_pos (encode j)))
      with (model_put_sub d p (bits_of_pos (encode j))).
    unfold model_put_sub. rewrite Hl. cbn. rewrite pos_of_bits_of_pos, decode_encode. cbn.
    pose proof (model_members_write ((p, j) :: l)) as Hm. cbn in Hm.
    split_and!; [done..|]. eexists. split_and!; [done|by rewrite Hm|].
    intros p' _. unfold model_sub. rewrite Hm, Hl. cbn.
    destruct (decide (p' = p)) as [->|Hne]; [by rewrite !bool_decide_true|].
    by rewrite !bool_decide_false.
Defined.
#[export] Instance model_subdoc : SubdocLaws world := rows_subdoc (λ _, True).
