(* ===== verification/Md5.v ===== *)
(** * MD5 (manager/usermodel/MD5.cc, MD5.h) and the login token

    The digest is computed over words of type [UINT4], which MD5.h declares as
    [unsigned long int]: 64 bits where GVDS runs, not the 32 of the algorithm.
    The definitions take the width as a parameter: [md5 64] is the program,
    [md5 32] is what it would be with 32-bit words. Bytes are integers. *)
From S2P Require Import Prelude CxxString.

(** The four rounds of [TransformMD5]: message word, rotation, constant. The
    registers are used in the order a b c d, d a b c, c d a b, b c d a. *)
Definition round1 : list (nat * Z * Z) := [
   (0%nat, 7, 3614090360); (1%nat, 12, 3905402710); (2%nat, 17, 606105819); (3%nat, 22, 3250441966);
   (4%nat, 7, 4118548399); (5%nat, 12, 1200080426); (6%nat, 17, 2821735955); (7%nat, 22, 4249261313);
   (8%nat, 7, 1770035416); (9%nat, 12, 2336552879); (10%nat, 17, 4294925233); (11%nat, 22, 2304563134);
   (12%nat, 7, 1804603682); (13%nat, 12, 4254626195); (14%nat, 17, 2792965006); (15%nat, 22, 1236535329) ].

Definition round2 : list (nat * Z * Z) := [
   (1%nat, 5, 4129170786); (6%nat, 9, 3225465664); (11%nat, 14, 643717713); (0%nat, 20, 3921069994);
   (5%nat, 5, 3593408605); (10%nat, 9, 38016083); (15%nat, 14, 3634488961); (4%nat, 20, 3889429448);
   (9%nat, 5, 568446438); (14%nat, 9, 3275163606); (3%nat, 14, 4107603335); (8%nat, 20, 1163531501);
   (13%nat, 5, 2850285829); (2%nat, 9, 4243563512); (7%nat, 14, 1735328473); (12%nat, 20, 2368359562) ].

Definition round3 : list (nat * Z * Z) := [
   (5%nat, 4, 4294588738); (8%nat, 11, 2272392833); (11%nat, 16, 1839030562); (14%nat, 23, 4259657740);
   (1%nat, 4, 2763975236); (4%nat, 11, 1272893353); (7%nat, 16, 4139469664); (10%nat, 23, 3200236656);
   (13%nat, 4, 681279174); (0%nat, 11, 3936430074); (3%nat, 16, 3572445317); (6%nat, 23, 76029189);
   (9%nat, 4, 3654602809); (12%nat, 11, 3873151461); (15%nat, 16, 530742520); (2%nat, 23, 3299628645) ].

Definition round4 : list (nat * Z * Z) := [
   (0%nat, 6, 4096336452); (7%nat, 10, 1126891415); (14%nat, 15, 2878612391); (5%nat, 21, 4237533241);
   (12%nat, 6, 1700485571); (3%nat, 10, 2399980690); (10%nat, 15, 4293915773); (1%nat, 21, 2240044497);
   (8%nat, 6, 1873313359); (15%nat, 10, 4264355552); (6%nat, 15, 2734768916); (13%nat, 21, 1309151649);
   (4%nat, 6, 4149444226); (11%nat, 10, 3174756917); (2%nat, 15, 718787259); (9%nat, 21, 3951481745) ].

Definition PADDING : list Z := 0x80 :: replicate 63 0.

Record MD5_CTX : Type := Ctx {
  i0 : Z;
  i1 : Z;
  buf : Z * Z * Z * Z;
  inb : list Z;
}.

Section width.
Context (width : Z).

Definition wrap (z : Z) : Z := z mod 2 ^ width.
Definition bnot (z : Z) : Z := wrap (Z.lnot z).

Definition F (x y z : Z) : Z := Z.lor (Z.land x y) (Z.land (bnot x) z).
Definition G (x y z : Z) : Z := Z.lor (Z.land x z) (Z.land y (bnot z)).
Definition H (x y z : Z) : Z := Z.lxor (Z.lxor x y) z.
Definition I (x y z : Z) : Z := Z.lxor y (Z.lor x (bnot z)).

Definition ROTATE_LEFT (x n : Z) : Z := Z.lor (wrap (Z.shiftl x n)) (Z.shiftr x (32 - n)).

(** FF, GG, HH and II differ in the function only; the result is the four
    registers rotated so that the next step finds its own in place. *)
Definition op (f : Z → Z → Z → Z) (w : list Z) (r : Z * Z * Z * Z) (e : nat * Z * Z)
    : Z * Z * Z * Z :=
  let '(a, b, c, d) := r in
  let '(k, s, ac) := e in
  let a := wrap (a + (f b c d + nth k w 0 + ac)) in
  let a := ROTATE_LEFT a s in
  let a := wrap (a + b) in
  (d, a, b, c).

Definition TransformMD5 (r : Z * Z * Z * Z) (w : list Z) : Z * Z * Z * Z :=
  let '(a, b, c, d) :=
    foldl (op I w) (foldl (op H w) (foldl (op G w) (foldl (op F w) r round1) round2) round3) round4 in
  let '(b0, b1, b2, b3) := r in
  (wrap (b0 + a), wrap (b1 + b), wrap (b2 + c), wrap (b3 + d)).

(** [in[i]] of the word buffer, four bytes little endian. *)
Definition word_at (bytes : list Z) (i : nat) : Z :=
  let ii := (4 * i)%nat in
  Z.lor (Z.lor (Z.lor (Z.shiftl (nth (ii + 3) bytes 0) 24) (Z.shiftl (nth (ii + 2) bytes 0) 16))
    (Z.shiftl (nth (ii + 1) bytes 0) 8)) (nth ii bytes 0).
Definition words (n : nat) (bytes : list Z) : list Z := word_at bytes <$> seq 0 n.

Definition MD5Init (junk : list Z) : MD5_CTX :=
  Ctx 0 0 (0x67452301, 0xefcdab89, 0x98badcfe, 0x10325476) junk.

(** The body of the byte loop of [MD5Update]. *)
Definition update_byte (st : nat * list Z * (Z * Z * Z * Z)) (b : Z)
    : nat * list Z * (Z * Z * Z * Z) :=
  let '(mdi, inn, bf) := st in
  let inn := <[mdi := b]> inn in
  let mdi := S mdi in
  if bool_decide (mdi = 0x40%nat) then (0%nat, inn, TransformMD5 bf (words 16 inn))
  else (mdi, inn, bf).

(** [inLen] is an [unsigned int]: the caller's length modulo 2^32, and so many bytes
    are taken. *)
Definition MD5Update (ctx : MD5_CTX) (inBuf : list Z) : MD5_CTX :=
  let inLen := to_u32 (Z.of_nat (length inBuf)) in
  let mdi := Z.to_nat (Z.land (Z.shiftr (i0 ctx) 3) 0x3F) in
  let bits := wrap (Z.shiftl inLen 3) in
  let carry := if wrap (i0 ctx + bits) <? i0 ctx then 1 else 0 in
  let '(_, inn, bf) := foldl update_byte (mdi, inb ctx, buf ctx) (take (Z.to_nat inLen) inBuf) in
  Ctx (wrap (i0 ctx + bits)) (wrap (wrap (i1 ctx + carry) + Z.shiftr inLen 29)) bf inn.

(** The digest bytes. *)
Definition store_word (x : Z) : list Z :=
  [Z.land x 0xFF; Z.land (Z.shiftr x 8) 0xFF; Z.land (Z.shiftr x 16) 0xFF;
   Z.land (Z.shiftr x 24) 0xFF].
Definition store (r : Z * Z * Z * Z) : list Z :=
  let '(a, b, c, d) := r in store_word a ++ store_word b ++ store_word c ++ store_word d.

Definition MD5Final (ctx : MD5_CTX) : list Z :=
  let in14 := i0 ctx in
  let in15 := i1 ctx in
  let mdi := Z.land (Z.shiftr (i0 ctx) 3) 0x3F in
  let padLen := if mdi <? 56 then 56 - mdi else 120 - mdi in
  let ctx := MD5Update ctx (take (Z.to_nat padLen) PADDING) in
  store (TransformMD5 (buf ctx) (words 14 (inb ctx) ++ [in14; in15])).
End width.

(** [sprintf("%02x")] of a byte. *)
Definition hex_digit (d : Z) : ascii :=
  ascii_of_N (Z.to_N (if d <? 10 then 48 + d else 87 + d)).
Definition hex_byte (b : Z) : string :=
  String (hex_digit (b / 16)) (String (hex_digit (b mod 16)) "").

Fixpoint bytes_of (s : string) : list Z :=
  match s with
  | EmptyString => []
  | String c s => Z.of_N (N_of_ascii c) :: bytes_of s
  end.

Definition hex (l : list Z) : string := foldr (λ b s, hex_byte b +:+ s) "" l.

(** UserModelServer.cc: [md5]; the context starts with indeterminate bytes. *)
Definition md5_with (width : Z) (junk : list Z) (strPlain : string) : string :=
  hex (MD5Final width (MD5Update width (MD5Init junk) (bytes_of strPlain))).
Definition UINT4_bits : Z := 64.
Definition md5 (junk : list Z) (strPlain : string) : string := md5_with UINT4_bits junk strPlain.

(** ** Reference: the digest of a message by blocks *)

Fixpoint blocks (fuel : nat) (l : list Z) : list (list Z) :=
  match fuel with
  | O => []
  | S fuel => take 64 l :: blocks fuel (drop 64 l)
  end.

(** Message, a one bit, zeros up to 56 modulo 64: all the whole blocks but the
    last, then the last with the bit count. *)
Definition pad_length (n : nat) : nat :=
  let m := (n mod 64)%nat in if (m <? 56)%nat then (56 - m)%nat else (120 - m)%nat.
Definition padded (msg : list Z) : list Z := msg ++ take (pad_length (length msg)) PADDING.

Definition digest_spec (width : Z) (msg : list Z) : list Z :=
  let p := padded msg in
  let n := (length p / 64)%nat in
  let st := foldl (TransformMD5 width) (buf (MD5Init [])) (words 16 <$> blocks n p) in
  store (TransformMD5 width st
    (words 14 (drop (64 * n) p) ++ [8 * Z.of_nat (length msg); 0])).

(** ** The byte loop computes the blocks *)
Section proofs.
Context (width : Z) (Hwidth : 32 ≤ width).

Lemma length_blocks n l : length (blocks n l) = n.
Proof. revert l. induction n; intros; cbn; auto. Qed.

Lemma blocks_snoc n l : blocks (S n) l = blocks n l ++ [take 64 (drop (64 * n) l)].
Proof.
  revert l. induction n as [|n IH]; intros l; [done|].
  change (take 64 l :: blocks (S n) (drop 64 l) = (take 64 l :: blocks n (drop 64 l)) ++
    [take 64 (drop (64 * S n) l)]).
  rewrite IH, drop_drop. cbn [app]. do 4 f_equal. f_equal. lia.
Qed.

Lemma blocks_app n l k : (64 * n ≤ length l)%nat → blocks n (l ++ k) = blocks n l.
Proof.
  revert l. induction n as [|n IH]; intros l Hl; [done|]. cbn [blocks].
  rewrite take_app_le, drop_app_le by lia. f_equal. apply IH. rewrite length_drop. lia.
Qed.

Lemma words_take n m l : (4 * n ≤ m)%nat → words n (take m l) = words n l.
Proof.
  intros. unfold words. apply list_fmap_ext. intros i k Hk.
  apply lookup_seq in Hk as [-> Hk]. cbn. unfold word_at.
  assert (Hn : ∀ j, (j < m)%nat → nth j (take m l) 0 = nth j l 0).
  { intros j Hj. rewrite !nth_lookup. by rewrite lookup_take_lt. }
  rewrite !Hn by lia. done.
Qed.

Lemma update_bytes_spec l inn bf :
  length inn = 64%nat →
  let '(mdi', inn', bf') := foldl (update_byte width) (0%nat, inn, bf) l in
  let n := (length l / 64)%nat in
  mdi' = (length l mod 64)%nat ∧ length inn' = 64%nat ∧ take mdi' inn' = drop (64 * n) l ∧
  bf' = foldl (TransformMD5 width) bf (words 16 <$> blocks n l).
Proof.
  intros Hinn. induction l as [|b l IH] using rev_ind; [done|].
  rewrite foldl_app. cbn [foldl].
  destruct (foldl (update_byte width) (0%nat, inn, bf) l) as [[mdi inn'] bf'].
  destruct IH as (-> & Hlen & Htake & ->). unfold update_byte.
  set (n := (length l / 64)%nat) in *. set (m := (length l mod 64)%nat) in *.
  pose proof (Nat.div_mod_eq (length l) 64) as Hdm. fold n m in Hdm.
  assert (Hm : (m < 64)%nat) by (apply Nat.mod_upper_bound; lia).
  assert (Hins : take (S m) (<[m:=b]> inn') = drop (64 * n) (l ++ [b])).
  { rewrite drop_app_le, <-Htake by lia.
    rewrite (take_S_r _ _ b) by (apply list_lookup_insert_eq; lia).
    by rewrite take_insert_ge by lia. }
  rewrite length_app. cbn [length]. rewrite Nat.add_1_r. case_bool_decide as H64.
  - assert (Hq : (S (length l) / 64)%nat = S n) by (symmetry; apply (Nat.div_unique _ _ _ 0); lia).
    assert (Hr : (S (length l) mod 64)%nat = 0%nat) by (symmetry; apply (Nat.mod_unique _ _ (S n)); lia).
    rewrite Hq, Hr, length_insert. repeat split; [done| |].
    + rewrite drop_ge; [done|]. rewrite length_app. change (length [b]) with 1%nat. lia.
    + rewrite blocks_snoc, blocks_app, fmap_app, foldl_app by lia. cbn [fmap list_fmap foldl app].
      rewrite <-Hins, H64. rewrite take_take, !take_ge by (rewrite ?length_insert; lia). done.
  - assert (Hq : (S (length l) / 64)%nat = n) by (symmetry; apply (Nat.div_unique _ _ _ (S m)); lia).
    assert (Hr : (S (length l) mod 64)%nat = S m) by (symmetry; apply (Nat.mod_unique _ _ n); lia).
    rewrite Hq, Hr, length_insert, blocks_app by lia. done.
Qed.

Lemma pad_length_bounds n : (1 ≤ pad_length n ≤ 64)%nat ∧ ((n + pad_length n) mod 64 = 56)%nat.
Proof.
  unfold pad_length. pose proof (Nat.div_mod_eq n 64).
  pose proof (Nat.mod_upper_bound n 64 ltac:(lia)).
  destruct (Nat.ltb_spec (n mod 64) 56); split; try lia.
  - symmetry. apply (Nat.mod_unique _ _ (n / 64)); lia.
  - symmetry. apply (Nat.mod_unique _ _ (S (n / 64))); lia.
Qed.

Lemma length_padded msg : length (padded msg) = (length msg + pad_length (length msg))%nat.
Proof.
  unfold padded. pose proof (pad_length_bounds (length msg)).
  rewrite length_app, length_take. cbn [PADDING length]. rewrite length_replicate. lia.
Qed.

Lemma wrap_small z : 0 ≤ z < 2 ^ 32 → wrap width z = z.
Proof.
  intros. unfold wrap. apply Z.mod_small. split; [lia|].
  eapply Z.lt_le_trans; [|apply Z.pow_le_mono_r; [lia|exact Hwidth]]. lia.
Qed.

(** The position in the block that [MD5Update] computes from the bit count. *)
Lemma position_spec n :
  Z.land (Z.shiftr (8 * Z.of_nat n) 3) 0x3F = Z.of_nat (n mod 64).
Proof.
  change 0x3F with (Z.ones 6). rewrite Z.land_ones, Z.shiftr_div_pow2 by lia.
  change (2 ^ 3) with 8. change (2 ^ 6) with (Z.of_nat 64).
  rewrite Z.mul_comm, Z.div_mul by lia. by rewrite Nat2Z.inj_mod.
Qed.

(** Of a message of less than 4 GiB all the bytes are taken. *)
Lemma all_taken (msg : list Z) : Z.of_nat (length msg) < 2 ^ 32 →
  to_u32 (Z.of_nat (length msg)) = Z.of_nat (length msg) ∧ take (Z.to_nat (to_u32 (Z.of_nat (length msg)))) msg = msg.
Proof.
  intros Hl. assert (Hu : to_u32 (Z.of_nat (length msg)) = Z.of_nat (length msg)) by (apply to_u32_id; unfold in_u32; lia).
  rewrite Hu, Nat2Z.id. split; [done|]. by rewrite take_ge.
Qed.

Lemma MD5_spec junk msg :
  length junk = 64%nat → (Z.of_nat (length msg) < 2 ^ 29) →
  MD5Final width (MD5Update width (MD5Init junk) msg) = digest_spec width msg.
Proof.
  intros Hjunk Hlen.
  assert (Hbits : wrap width (Z.shiftl (Z.of_nat (length msg)) 3) = 8 * Z.of_nat (length msg)).
  { rewrite Z.shiftl_mul_pow2 by lia. rewrite wrap_small; lia. }
  assert (Hpad : Z.to_nat (if Z.of_nat (length msg mod 64) <? 56 then 56 - Z.of_nat (length msg mod 64)
      else 120 - Z.of_nat (length msg mod 64)) = pad_length (length msg)).
  { unfold pad_length. destruct (Z.ltb_spec (Z.of_nat (length msg mod 64)) 56),
      (Nat.ltb_spec (length msg mod 64) 56); lia. }
  pose proof (update_bytes_spec msg junk (buf (MD5Init junk)) Hjunk) as H1.
  pose proof (update_bytes_spec (padded msg) junk (buf (MD5Init junk)) Hjunk) as H2.
  unfold padded in H2. rewrite foldl_app in H2. fold (padded msg) in H2.
  destruct (all_taken msg) as [Hu1 Ht1]; [lia|].
  destruct (all_taken (take (pad_length (length msg)) PADDING)) as [Hu2 Ht2].
  { rewrite length_take. change (length PADDING) with 64%nat. lia. }
  unfold MD5Update at 1. cbn [i0 i1 inb buf MD5Init]. rewrite Ht1, Hu1.
  change (Z.to_nat (Z.land (Z.shiftr 0 3) 63)) with 0%nat.
  unfold MD5Init in H1, H2 |- *. cbn [buf] in H1, H2.
  destruct (foldl (update_byte width) _ msg) as [[mdi1 inn1] bf1].
  destruct H1 as (-> & _ & _ & _).
  assert (Hsh : Z.shiftr (Z.of_nat (length msg)) 29 = 0).
  { rewrite Z.shiftr_div_pow2 by lia. apply Z.div_small. lia. }
  rewrite Hbits, Hsh, Z.add_0_l, (wrap_small (8 * _)) by lia.
  rewrite (proj2 (Z.ltb_ge (8 * Z.of_nat (length msg)) 0)) by lia.
  rewrite !(wrap_small (0 + 0)) by lia. unfold MD5Final. cbn [i0 i1].
  rewrite position_spec, Hpad. unfold MD5Update. cbn [i0 i1 inb buf]. rewrite Ht2, Hu2.
  rewrite position_spec, Nat2Z.id.
  destruct (foldl (update_byte width) (_, inn1, bf1) _) as [[mdi2 inn2] bf2].
  destruct H2 as (-> & Hlen2 & Htake & ->). cbn [buf inb].
  unfold digest_spec. do 3 f_equal.
  rewrite <-Htake, length_padded. destruct (pad_length_bounds (length msg)) as [_ ->].
  by rewrite words_take by lia.
Qed.
End proofs.

(** ** Properties of the login token *)

Lemma length_bytes_of s : length (bytes_of s) = String.length s.
Proof. induction s; cbn; auto. Qed.

Definition is_hex (c : ascii) : bool :=
  let n := N_of_ascii c in ((48 <=? n)%N && (n <=? 57)%N) || ((97 <=? n)%N && (n <=? 102)%N).

Fixpoint all_chars (p : ascii → bool) (s : string) : bool :=
  match s with
  | EmptyString => true
  | String c s => p c && all_chars p s
  end.

Lemma hex_digit_is_hex d : 0 ≤ d < 16 → is_hex (hex_digit d) = true.
Proof.
  intros Hd. assert (Hall : forallb (λ d, is_hex (hex_digit d)) (Z.of_nat <$> seq 0 16) = true)
    by reflexivity.
  rewrite forallb_forall in Hall. apply Hall. apply in_map_iff. exists (Z.to_nat d).
  rewrite in_seq. lia.
Qed.

Lemma hex_format l :
  Forall (λ b, 0 ≤ b < 256) l →
  String.length (hex l) = (2 * length l)%nat ∧ all_chars is_hex (hex l) = true.
Proof.
  induction 1 as [|b l Hb Hl [IHlen IHhex]]; [done|].
  change (hex (b :: l)) with (hex_byte b +:+ hex l).
  unfold hex_byte. rewrite !append_cons, append_nil_l. cbn [String.length all_chars length].
  rewrite IHlen, IHhex, !hex_digit_is_hex; [split; [lia|done]| |].
  - apply Z.mod_pos_bound; lia.
  - split; [apply Z.div_pos; lia|]. apply Z.div_lt_upper_bound; lia.
Qed.

Lemma store_bytes r : length (store r) = 16%nat ∧ Forall (λ b, 0 ≤ b < 256) (store r).
Proof.
  assert (Hland : ∀ x, 0 ≤ Z.land x 0xFF < 256).
  { intros x. change 0xFF with (Z.ones 8). rewrite Z.land_ones by lia. by apply Z.mod_pos_bound. }
  destruct r as [[[a b] c] d]. split; [done|]. cbn. repeat constructor; apply Hland.
Qed.

(** The token the login handler computes is always 32 lower case
    hexadecimal digits, whatever the input and the indeterminate buffer. *)
Theorem md5_format junk strPlain :
  String.length (md5 junk strPlain) = 32%nat ∧ all_chars is_hex (md5 junk strPlain) = true.
Proof.
  unfold md5, md5_with, MD5Final.
  match goal with |- context [hex (store ?r)] => destruct (store_bytes r) as [Hl Hb];
    destruct (hex_format _ Hb) as [H1 H2]; rewrite H1, H2, Hl end.
  done.
Qed.

(** C39: incremental hashing (a byte loop over a 64-byte buffer whose contents
    start indeterminate, then padding fed through the same loop) computes the
    block by block digest of the padded message, for a text of less than 512 MiB. *)
Theorem md5_blockwise junk strPlain :
  length junk = 64%nat → size strPlain < 2 ^ 29 →
  md5 junk strPlain = hex (digest_spec UINT4_bits (bytes_of strPlain)).
Proof.
  intros Hj Hs. unfold md5, md5_with. rewrite MD5_spec; [done|done|done|].
  by rewrite length_bytes_of.
Qed.

Theorem md5_blockwise_witness :
  md5 (replicate 64 165) "testpassword" = hex (digest_spec UINT4_bits (bytes_of "testpassword")).
Proof. apply (md5_blockwise (replicate 64 165) "testpassword"); reflexivity. Defined.

(** With the 64-bit [UINT4] of MD5.h the function is not MD5: on the empty
    string it differs from the 32-bit computation, which gives the digest of
    RFC 1321. *)
Theorem md5_is_not_MD5 junk :
  length junk = 64%nat →
  md5_with 32 junk "" = "d41d8cd98f00b204e9800998ecf8427e" ∧
  md5 junk "" = "e4c23762ed2823a27e62a64b95c024e7".
Proof.
  intros Hj. unfold md5, md5_with. rewrite !MD5_spec by done. by vm_compute.
Qed.

Theorem md5_is_not_MD5_witness :
  md5_with 32 (replicate 64 0) "" = "d41d8cd98f00b204e9800998ecf8427e" ∧
  md5 (replicate 64 0) "" = "e4c23762ed2823a27e62a64b95c024e7".
Proof. apply (md5_is_not_MD5 (replicate 64 0)); reflexivity. Defined.
