(* ===== verification/Resource.v ===== *)
(** * Storage resources (manager/resaggregation_mgr.cc)

    The registry of storage resources: [add], [list], [del] and [update] of
    [ResAggregation_MGR], each returning the response it sends and its boolean
    result. The router that binds them to URLs and [usleep] are not modelled. *)
From S2P Require Import Prelude CxxString Json Records Datastore Instances.

Module ResAggregation_MGR.
Import StorageResource.

Section resource.
Context {W : Type} `{Couchbase W, Host W, Rapidjson, Indet}.

(** [start()]. *)
Definition bucket : string := default "test" (config "manager.bucket").

(** [parse_request]: [deserialize] never throws, so the pointer is never null. *)
Definition parse_request (body : string) : option t := Some (of_json init body).

Definition add (body : string) : M W (response * bool) :=
  dbPtr ← create_datastore bucket;
  match parse_request body with
  | None => mret (Response Code_Bad_Request "resource parse fail", false)
  | Some storage_res =>
      '(_, err) ← ds_get dbPtr (key storage_res);
      if bool_decide (err = 0)
      then mret (Response Code_Bad_Request "fail, resource already exist", false)
      else
        err ← ds_insert dbPtr (key storage_res) (to_json storage_res);
        if bool_decide (err = 0)
        then mret (Response Code_Accepted "ok", true)
        else mret (Response Code_Bad_Request "fail", false)
  end.

Definition list_query (uuid : string) : string :=
  let reluuid := prefix +:+ uuid in
  if bool_decide (uuid = "all")
  then snprintf 256 ("select assign_capacity,host_center_id,host_center_name,mgs_address,state, "
    +:+ "storage_src_id, storage_src_name, total_capacity" +:+ " from `" +:+ c_str bucket
    +:+ "` where META().id like '" +:+ prefix +:+ "%' order by " +:+ "META().id")
  else snprintf 256 ("select * from `" +:+ c_str bucket +:+ "` where META().id == '"
    +:+ c_str reluuid +:+ "'").

(** The rows are decoded into null [shared_ptr]s, hence into fresh objects. *)
Definition list (uuid : string) : M W (response * bool) :=
  cbd ← create_datastore bucket;
  '(iop_infos, err) ← ds_n1ql junk_int cbd (list_query uuid);
  if bool_decide (err = 0)
  then
    rstlists ← deref (mapM (json_decode_ptr init) iop_infos);
    let reslist_str := rj_write (JArray (JObject ∘ serialize_impl <$> rstlists)) in
    mret (Response Code_Ok reslist_str, true)
  else mret (Response Code_Bad_Request "", false).

Definition delete_query (uuid : string) : string :=
  let reluuid := prefix +:+ uuid in
  if bool_decide (uuid = "all")
  then snprintf 256 ("delete from `" +:+ c_str bucket +:+ "` where SUBSTR(META().id,0,"
    +:+ pretty (String.length prefix) +:+ ") == '" +:+ prefix +:+ "'")
  else snprintf 256 ("delete from `" +:+ c_str bucket +:+ "` where META().id == '"
    +:+ c_str reluuid +:+ "'").

Definition del (uuid : string) : M W (response * bool) :=
  cbd ← create_datastore bucket;
  '(_, err) ← ds_n1ql junk_int cbd (delete_query uuid);
  if bool_decide (err = 0)
  then mret (Response Code_Ok "ok", true)
  else mret (Response Code_Bad_Request "fail", false).

(** [s.c_str()[0] != '#']. *)
Definition given (s : string) : bool :=
  match s with
  | String c _ => negb (Ascii.eqb c "#")
  | EmptyString => true
  end.

(** The field by field assignment of [update]. *)
Definition merge (storage_res storRe : t) : t := {|
  storage_src_id := if given storage_res.(storage_src_id)
    then storage_res.(storage_src_id) else storRe.(storage_src_id);
  storage_src_name := if given storage_res.(storage_src_name)
    then storage_res.(storage_src_name) else storRe.(storage_src_name);
  host_center_id := if given storage_res.(host_center_id)
    then storage_res.(host_center_id) else storRe.(host_center_id);
  host_center_name := if given storage_res.(host_center_name)
    then storage_res.(host_center_name) else storRe.(host_center_name);
  total_capacity := if bool_decide (storage_res.(total_capacity) ≠ -1)
    then storage_res.(total_capacity) else storRe.(total_capacity);
  assign_capacity := if bool_decide (storage_res.(assign_capacity) ≠ -1)
    then storage_res.(assign_capacity) else storRe.(assign_capacity);
  mgs_address := if given storage_res.(mgs_address)
    then storage_res.(mgs_address) else storRe.(mgs_address);
  state := if bool_decide (storage_res.(state) ≠ -1)
    then storage_res.(state) else storRe.(state) |}.

Definition update (body : string) : M W (response * bool) :=
  dbPtr ← create_datastore bucket;
  match parse_request body with
  | None => mret (Response Code_Bad_Request "resource parse fail", false)
  | Some storage_res =>
      '(vp, err) ← ds_get dbPtr (key storage_res);
      if negb (bool_decide (err = 0))
      then mret (Response Code_Bad_Request "fail, resource dose not exist", false)
      else
        text ← deref vp;
        storRe ← deref (json_decode_ptr init text);
        err ← ds_set dbPtr (key storage_res) (to_json (merge storage_res storRe));
        if bool_decide (err = 0)
        then mret (Response Code_Accepted "ok", true)
        else mret (Response Code_Bad_Request "fail", false)
  end.
End resource.

(** ** Proofs *)

Lemma init_wf `{Indet} : wf init.
Proof. unfold wf, init; split_and?; done || apply junk_int_wf || apply junk_int64_wf. Qed.

Lemma parsed_wf `{Rapidjson, Indet} body : wf (of_json init body).
Proof. exact (of_json_wf init body init_wf). Qed.

Lemma merge_wf r x : wf r → wf x → wf (merge r x).
Proof.
  unfold wf, merge. intros Hr Hx. destruct_and?. split_and?; cbn -[enc_wf]; case_match; done.
Qed.

(** A field of the request equal to the "unchanged" mark keeps the stored one. *)
Lemma merge_id r x : x.(storage_src_id) = r.(storage_src_id) →
  (merge r x).(storage_src_id) = r.(storage_src_id).
Proof. intros Hid. cbn. by destruct (given _). Qed.

Lemma if_minus_one (x y : Z) :
  (if bool_decide (x ≠ -1) then x else y) = if x =? -1 then y else x.
Proof. case_bool_decide; destruct (Z.eqb_spec x (-1)); done. Qed.

Lemma merge_spec r a :
  (given r.(storage_src_name) = true → (merge r a).(storage_src_name) = r.(storage_src_name)) ∧
  (given r.(storage_src_name) = false → (merge r a).(storage_src_name) = a.(storage_src_name)) ∧
  (given r.(mgs_address) = true → (merge r a).(mgs_address) = r.(mgs_address)) ∧
  (given r.(mgs_address) = false → (merge r a).(mgs_address) = a.(mgs_address)) ∧
  (merge r a).(total_capacity) = (if r.(total_capacity) =? -1 then a.(total_capacity) else r.(total_capacity)) ∧
  (merge r a).(assign_capacity) = (if r.(assign_capacity) =? -1 then a.(assign_capacity) else r.(assign_capacity)) ∧
  (merge r a).(state) = (if r.(state) =? -1 then a.(state) else r.(state)).
Proof. split_and!; cbn; first [by intros -> | apply if_minus_one]. Qed.

Section props.
Context {W : Type} `{CouchbaseLaws W, !Host W, !HostLaws W, RapidjsonLaws, Indet}.
Implicit Types (D : gmap (string * string) string) (w : W).

(** Every resource document is the text of a resource filed under its own id. *)
Definition registry_wf D : Prop :=
  ∀ id doc, D !! dkey bucket (prefix +:+ id) = Some doc →
    ∃ r : t, wf r ∧ doc = to_json r ∧ r.(storage_src_id) = id.

Lemma registry_wf_insert D (r : t) id :
  registry_wf D → wf r → r.(storage_src_id) = id →
  registry_wf (<[dkey bucket (prefix +:+ id) := to_json r]> D).
Proof.
  intros HD Hr Hid id' doc. destruct (decide (id' = id)) as [->|Hne].
  - rewrite lookup_insert_eq. intros [= <-]. by exists r.
  - rewrite lookup_insert_ne; [apply HD|]. rewrite dkey_inj. intros Heq.
    apply append_inj_l in Heq. congruence.
Qed.

(** With every fault possible: a document is at most added. *)
Lemma add_any body D w :
  let r := of_json init body in
  stored D w →
  wp (add body) (λ _ w', stored D w' ∨
      D !! dkey bucket (key r) = None ∧ stored (<[dkey bucket (key r) := to_json r]> D) w')
    (stored D) w.
Proof.
  intros r HD. unfold add. wp_step. db_any. cbn -[key]. wp_step.
  db_any; wp_steps; auto; db_any; wp_steps; auto.
Qed.

Lemma update_any body D w :
  let r := of_json init body in
  stored D w →
  wp (update body) (λ _ w', stored D w' ∨
      ∃ doc x, D !! dkey bucket (key r) = Some doc ∧ json_decode_ptr init doc = Some x ∧
        stored (<[dkey bucket (key r) := to_json (merge r x)]> D) w')
    (stored D) w.
Proof.
  intros r HD. unfold update. wp_step. db_any. cbn -[key json_decode_ptr]. wp_step.
  db_any; wp_steps; auto; db_any; wp_steps; simplify_eq; eauto 10.
Qed.
(** C36: whatever text a client posts and whatever fails in the database,
    [add] and [update] keep every resource document the text of a resource
    filed under its own id. *)
Theorem registry_invariant body w :
  registry_wf (docs w) →
  registry_wf (docs (add body w).2) ∧ registry_wf (docs (update body w).2).
Proof.
  intros HD. pose proof (parsed_wf body) as Hr. split; apply wp_final.
  - eapply wp_mono; [| |apply (add_any body (docs w)); done]; unfold stored; cbn -[key].
    + intros _ w' [->|[_ ->]]; [done|]. by apply registry_wf_insert.
    + by intros w' ->.
  - eapply wp_mono; [| |apply (update_any body (docs w)); done]; unfold stored; cbn -[key].
    + intros _ w' [->|(doc & x & Hdoc & Hx & ->)]; [done|].
      destruct (HD _ _ Hdoc) as (r0 & Hr0 & -> & Hid).
      rewrite (json_decode_ptr_to_json (A := t)) in Hx by done. injection Hx as <-.
      apply registry_wf_insert; [done|by apply merge_wf|by apply merge_id].
    + by intros w' ->.
Qed.

Context `{!CouchbaseUp W}.

(** Without faults [add] registers a new resource under its key and
    answers 202, and refuses an id that is taken, changing nothing. *)
Theorem add_spec body D w :
  let r := of_json init body in
  serving D w →
  wp (add body) (λ res w',
    match D !! dkey bucket (key r) with
    | None => res = (Response 202 "ok", true) ∧
              serving (<[dkey bucket (key r) := to_json r]> D) w'
    | Some _ => res = (Response 400 "fail, resource already exist", false) ∧ serving D w'
    end) never w.
Proof.
  cbn zeta. intros HD. unfold add. wp_step. db_up. cbn -[key]. wp_step.
  db_up; wp_steps; simplify_eq; simplify_option_eq; try done.
  db_up; wp_steps; simplify_option_eq; try done.
  lookup_contra.
Qed.

(** Without faults [update] replaces exactly the fields the request
    gives (a string not starting with '#', a number other than -1), keeps the
    others, and refuses an unknown id. *)
Theorem update_spec body D w :
  let r := of_json init body in
  registry_wf D → serving D w →
  wp (update body) (λ res w',
    (D !! dkey bucket (key r) = None → res.2 = false ∧ res.1.(http_code) = 400 ∧ serving D w') ∧
    (is_Some (D !! dkey bucket (key r)) →
     res = (Response 202 "ok", true) ∧
     ∃ old new : t, D !! dkey bucket (key r) = Some (to_json old) ∧
       serving (<[dkey bucket (key r) := to_json new]> D) w' ∧
       new.(storage_src_id) = r.(storage_src_id) ∧
       (given r.(storage_src_name) = true → new.(storage_src_name) = r.(storage_src_name)) ∧
       (given r.(storage_src_name) = false → new.(storage_src_name) = old.(storage_src_name)) ∧
       (given r.(mgs_address) = true → new.(mgs_address) = r.(mgs_address)) ∧
       (given r.(mgs_address) = false → new.(mgs_address) = old.(mgs_address)) ∧
       new.(total_capacity) =
         (if r.(total_capacity) =? -1 then old.(total_capacity) else r.(total_capacity)) ∧
       new.(assign_capacity) =
         (if r.(assign_capacity) =? -1 then old.(assign_capacity) else r.(assign_capacity)) ∧
       new.(state) = (if r.(state) =? -1 then old.(state) else r.(state)))) never w.
Proof.
  cbn zeta. intros Hinv HD. unfold update. wp_step. db_up. cbn -[key json_decode_ptr].
  wp_step. db_up; [|wp_steps; try (split; [done|intros; lookup_contra]); simplify_option_eq].
  match goal with Hl : D !! _ = Some ?v |- _ => destruct (Hinv _ _ Hl) as (old & Hold & -> & Hid) end.
  wp_steps; try done; try (rewrite (json_decode_ptr_to_json (A := t)) in *; done).
  rewrite (json_decode_ptr_to_json (A := t)) in * by done. simplify_eq.
  db_up; wp_steps; simplify_eq; split; try (intros; congruence). intros _. split; [done|].
  exists a, (merge (of_json init body) a).
  split_and!; [done|done|apply merge_id; congruence|..]; apply merge_spec.
Qed.
End props.

Section witness.
Let r0 : t := mk "s1" "disk" "c1" "centre" 100 20 "mgs" 1.
Let D0 : gmap (string * string) string := {[dkey (W := world) bucket (key r0) := to_json r0]}.
Let w0 : world := World D0 [] [] 0 None None.
Let body0 : string := to_json (mk "s1" "#" "#" "#" 500 (-1) "#" (-1)).

Lemma D0_wf : registry_wf (W := world) D0.
Proof.
  intros id doc. unfold D0. rewrite lookup_singleton_Some, dkey_inj. intros [Hk <-].
  apply append_inj_l in Hk. exists r0. split; [|done]. unfold wf. split_and?; done.
Qed.

Theorem registry_invariant_witness :
  registry_wf (docs (add body0 w0).2) ∧ registry_wf (docs (update body0 w0).2).
Proof. apply (registry_invariant body0 w0). apply D0_wf. Defined.

Lemma found0 : D0 !! dkey bucket (key (of_json init body0)) = Some (to_json r0).
Proof. vm_compute. reflexivity. Qed.

Theorem add_spec_witness :
  wp (add body0) (λ res w', res.2 = false ∧ serving D0 w') never w0.
Proof.
  eapply wp_mono; [| |apply (add_spec body0 D0 w0); done]; [|done].
  intros res w' Hpost. rewrite found0 in Hpost. by destruct Hpost as [-> ?].
Defined.

Theorem update_spec_witness :
  wp (update body0) (λ res _, res = (Response 202 "ok", true)) never w0.
Proof.
  eapply wp_mono; [| |apply (update_spec body0 D0 w0); [apply D0_wf|done]]; [|done].
  intros res w' [_ Hpost]. apply Hpost. rewrite found0. eauto.
Defined.
End witness.
End ResAggregation_MGR.
