(* ===== verification/IoproxyMgr.v ===== *)
(** * The IO proxy registry (manager/ioproxy_mgr.cc)

    [IOProxy_MGR] keeps the live IO proxies in memory, keyed by UUID, and a
    document per proxy in the database. The memory is an explicit state: every
    handler takes the map and returns the new one. The heart-beat thread (its
    body is commented out in the source) and the monitoring counters, which
    nothing writes, are not modelled. *)
From S2P Require Import Prelude CxxString Json Records Datastore Instances.

Module IOProxy_MGR.
Import IOProxyNode.

Notation live := (gmap string t).

Section ioproxy.
Context {W : Type} `{Couchbase W, Host W, Rapidjson, Indet}.

Definition bucket : string := default "test" (config "manager.bucket").

(** [make_shared<IOProxyNode>()] draws a UUID, which the text may replace. *)
Definition parse_node (text : string) : M W t :=
  u ← extern host_uuid;
  mret (of_json (init u) text).
Definition parse_request (body : string) : M W (option t) :=
  iop ← parse_node body;
  mret (Some iop).

(** [add]: the outcome of the [upsert] is not looked at. *)
Definition add (live_ioproxy : live) (body : string) : M W (live * response * bool) :=
  iop ← parse_request body;
  match iop with
  | None => mret (live_ioproxy, Response Code_Bad_Request "", false)
  | Some iop =>
      let iop := set_status Running iop in
      let live_ioproxy := <[iop.(uuid) := iop]> live_ioproxy in
      dbPtr ← create_datastore bucket;
      err ← ds_set dbPtr (prefix +:+ iop.(uuid)) (to_json iop);
      mret (live_ioproxy, Response Code_Accepted iop.(uuid), true)
  end.

Definition list (live_ioproxy : live) : M W (response * bool) :=
  mret (Response Code_Ok (rj_write (JObject
    ((λ kv, (c_str kv.1, JObject (serialize_impl kv.2))) <$> map_items live_ioproxy))), true).

Definition del (live_ioproxy : live) (uuid : string) : M W (live * response * bool) :=
  dbPtr ← create_datastore bucket;
  err ← ds_remove dbPtr (prefix +:+ uuid);
  let res := if bool_decide (err = 0) then Response Code_Ok uuid
             else Response Code_Bad_Request uuid in
  mret (delete uuid live_ioproxy, res, true).

(** [update] has an empty body and must return a [bool]. *)
Definition update (live_ioproxy : live) : M W (live * response * bool) := undefined.

Definition list_query : string :=
  snprintf 256 ("select uuid,data_port,ip,name,rpc_port,cid from `" +:+ c_str bucket
    +:+ "` where " +:+ "META().id like '" +:+ prefix +:+ "%'").

(** The loop of [init_ioproxy_list] over the rows. *)
Fixpoint read_nodes (infos : Datatypes.list string) (tmp : live) : M W live :=
  match infos with
  | [] => mret tmp
  | info :: infos =>
      ion ← parse_node info;
      read_nodes infos (<[ion.(uuid) := ion]> tmp)
  end.

Definition init_ioproxy_list : M W live :=
  cbd ← create_datastore bucket;
  '(iop_infos, err) ← ds_n1ql junk_int cbd list_query;
  read_nodes iop_infos ∅.
End ioproxy.

(** ** Proofs *)
Section props.
Context {W : Type} `{CouchbaseLaws W, !Host W, !HostLaws W, RapidjsonLaws, Indet, !CouchbaseUp W}.
Implicit Types (D : gmap (string * string) string) (w : W) (m : live).

(** Memory and database hold the same proxies, each under its own UUID. *)
Definition mirrors m D : Prop :=
  (∀ uuid, D !! dkey bucket (prefix +:+ uuid) = to_json <$> m !! uuid) ∧
  map_Forall (λ k n, n.(uuid) = k) m.

(** A proxy registers under the UUID of the text, or one that is drawn. *)
Lemma add_registers m D w body : serving D w →
  wp (add m body) (λ '(m', res, ok) w', ∃ u, let n := set_status Running (of_json (init u) body) in
    ok = true ∧ m' = <[n.(uuid) := n]> m ∧ res = Response Code_Accepted n.(uuid) ∧
    serving (<[dkey bucket (prefix +:+ n.(uuid)) := to_json n]> D) w') never w.
Proof.
  intros HD. unfold add, parse_request, parse_node. do 3 wp_step. db_up. do 2 wp_step.
  cbn -[set_status]. wp_step. db_up. wp_step. db_up. wp_step. eexists. split_and!; [done..|eassumption].
Qed.

(** Without faults, registering a proxy records it as running in memory
    and in the database under the UUID it answers, removing one removes it
    from both, and so memory and database mirror each other at all times. *)
Theorem ioproxy_mirror m D w :
  mirrors m D → serving D w →
  (∀ body, wp (add m body) (λ '(m', res, ok) w', ok = true ∧ res.(http_code) = 202 ∧
      (∃ n, m' = <[res.(http_body) := n]> m ∧ n.(status) = Running) ∧
      mirrors m' (docs w') ∧ serving (docs w') w') never w) ∧
  (∀ id, wp (del m id) (λ '(m', res, ok) w', ok = true ∧ m' = delete id m ∧
      res.(http_code) = (if m !! id then 200 else 400) ∧
      mirrors m' (docs w') ∧ serving (docs w') w') never w).
Proof.
  intros [Hm Hid] HD. split.
  - intros body. eapply wp_mono; [| |by apply add_registers]; [|done]. intros [[m' res] ok] w' (u & -> & -> & -> & [Hup Hd]).
    set (nd := set_status Running _) in *.
    split_and!; [done|done|by exists nd|..]; unfold serving; [|by rewrite Hd].
    rewrite Hd. split; [|by apply map_Forall_insert_2].
    intros k. destruct (decide (k = nd.(uuid))) as [->|Hne].
    + by rewrite !lookup_insert_eq.
    + rewrite !lookup_insert_ne; [done|done|]. rewrite dkey_inj. intros ?%append_inj_l. done.
  - intros id. unfold del. wp_step. db_up. wp_step.
    assert (Hdel : mirrors (delete id m) (delete (dkey bucket (prefix +:+ id)) D)).
    { split; [|by apply map_Forall_delete]. intros k. destruct (decide (k = id)) as [->|Hne].
      - by rewrite !lookup_delete_eq.
      - rewrite !lookup_delete_ne; [done|done|]. rewrite dkey_inj. intros ?%append_inj_l. done. }
    db_up; wp_step; rewrite Hm in *.
    + destruct (m !! id) eqn:Hk; cbn in *; [|by match goal with H : is_Some None |- _ => destruct H end].
      match goal with Hs : serving (delete _ _) _ |- _ => destruct Hs as [? Hd]; rewrite Hd in * end.
      unfold serving. rewrite Hd. done.
    + destruct (m !! id) eqn:Hk; cbn in *; [done|]. rewrite bool_decide_false by done.
      rewrite (delete_id D) in Hdel by (by rewrite Hm, Hk).
      match goal with Hs : serving D ?x |- context [docs ?x] => destruct Hs as [? Hd]; unfold serving; rewrite Hd end.
      done.
Qed.

Lemma read_nodes_spec infos m D w :
  serving D w →
  wp (read_nodes infos m) (λ m' w', serving D w' ∧
    ∀ k n, m' !! k = Some n → m !! k = Some n ∨
      ∃ info u, info ∈ infos ∧ n = of_json (init u) info ∧ n.(uuid) = k) never w.
Proof.
  revert m w. induction infos as [|info infos IH]; intros m w HD; cbn [read_nodes].
  { apply wp_ret. eauto. }
  unfold parse_node. do 2 wp_step. db_up. wp_step.
  eapply wp_mono; [| |by apply IH]; [|done]. intros m' w'' [HD' Hm']. split; [done|].
  intros k n Hk. destruct (Hm' k n Hk) as [Hold|(i & u' & Hi & Hn & Hu)].
  - rewrite lookup_insert_Some in Hold. destruct Hold as [[<- <-]|[_ ?]]; [|by left].
    right. eexists info, _. split; [by left|done].
  - right. exists i, u'. split; [by right|done].
Qed.

(** A row of the query: an object of the selected members, [status] not among them. *)
Definition selected_row (row : string) : Prop :=
  ∃ l, rj_parse (c_str row) = Some (JObject l) ∧ member "status" l = None.

(** After a restart the registry is rebuilt from a query that does not
    select [status]: every proxy it holds has an indeterminate status,
    whatever it was before; and each is filed under its own UUID. *)
Theorem restart_loses_status D w :
  serving D w → Forall selected_row (answers bucket list_query (connected bucket w)) →
  wp init_ioproxy_list (λ m w', serving D w' ∧
    map_Forall (λ k n, n.(status) = junk_int ∧ n.(uuid) = k) m) never w.
Proof.
  intros HD Hrows. unfold init_ioproxy_list. wp_step.
  eapply wp_create_connected; [exact HD|intros HD1]. wp_step. db_up. cbn beta iota.
  eapply wp_mono; [| |by apply read_nodes_spec]; [|done]. intros m' w2 [HD' Hm']. split; [done|].
  intros k n Hk. destruct (Hm' k n Hk) as [He|(info & u & Hi & -> & Hu)]; [by rewrite lookup_empty in He|].
  split; [|done]. eapply Forall_forall in Hrows as (l & Hl & Hmem); [|exact Hi].
  unfold of_json, Json.deserialize. rewrite Hl. cbn -[get]. unfold get. by rewrite Hmem.
Qed.
End props.

Section witness.
Let n0 : t := mk 7000 7001 "10.0.0.1" "iop" Running "u0" "c1".
Let D0 : gmap (string * string) string := {[dkey (W := world) bucket (prefix +:+ "u0") := to_json n0]}.
Let row0 : string := rj_write (JObject [("uuid", JString "u9"); ("name", JString "iop9")]).
Let w0 : world := World D0 ["u1"; "u2"] [row0] 0 None None.

Lemma mirrors0 : mirrors (W := world) {["u0" := n0]} D0.
Proof.
  split; [|by apply map_Forall_singleton]. intros k. unfold D0.
  destruct (decide (k = "u0")) as [->|Hne]; [by rewrite !lookup_singleton_eq|].
  rewrite !lookup_singleton_ne; [done..|]. rewrite dkey_inj. intros ?%append_inj_l. done.
Qed.

Theorem ioproxy_mirror_witness :
  wp (del {["u0" := n0]} "u0") (λ '(m', res, ok) _, m' = ∅ ∧ res.(http_code) = 200) never w0.
Proof.
  eapply wp_mono; [| |apply (ioproxy_mirror {["u0" := n0]} D0 w0); [apply mirrors0|done]]; [|done].
  intros [[m' res] ok] w' (_ & -> & -> & _). by rewrite delete_singleton_eq.
Defined.

Theorem restart_loses_status_witness :
  wp init_ioproxy_list (λ m w', serving D0 w' ∧
    map_Forall (λ k n, n.(status) = junk_int ∧ n.(uuid) = k) m) never w0.
Proof.
  apply (restart_loses_status D0 w0); [done|]. repeat constructor.
  eexists. split; [by vm_compute|done].
Defined.
End witness.
End IOProxy_MGR.
