(* ===== verification/User.v ===== *)
(** * Accounts (manager/usermodel/UserModelServer.cc)

    [UserModelServer]: registration, login, logout, cancellation, the list of
    administrators and the queue of applications they approve. The commented-out
    account mapping (lines 560 to 775 of the source) is not modelled. *)
From S2P Require Import Prelude CxxString Json Records Datastore Instances Md5.

Module UserModelServer.

(** ** Constructor fields *)
Definition c_key : string := "center_information".
Definition adminlist : string := "adminwhitelist".
Definition user_prefix : string := "USER-".
Definition sc_user_prefix : string := "SCUSER-".
Definition user_map : string := ".USER_UUID_MAP".

Section user.
Context {W : Type} `{Couchbase W, Host W, Rapidjson, Indet}.

Definition zonebucket : string := default "test" (config "manager.bucket").
Definition bucket_account_info : string := default "test" (config "manager.bucket").
Definition bucket_sc_account_info : string := default "test" (config "manager.bucket").
Definition applybucket : string := default "test" (config "manager.bucket").

(** ** Administrators *)

(** The search loop of [validadminidentity]. *)
Fixpoint in_namelist (gvdsID : string) (namelist : list string) : bool :=
  match namelist with
  | [] => false
  | name :: namelist => if String.eqb gvdsID name then true else in_namelist gvdsID namelist
  end.

Definition validadminidentity (gvdsID : string) : M W bool :=
  f0_dbPtr ← create_datastore bucket_account_info;
  '(admin_vp, admin_err) ← ds_get f0_dbPtr adminlist;
  if negb (bool_decide (admin_err = 0)) then mret false
  else
    text ← deref admin_vp;
    let tmp_list := of_json struct_AdminList.init text in
    mret (in_namelist gvdsID tmp_list.(struct_AdminList.namelist)).

(** ** Names to identifiers *)

Fixpoint getMemberID_loop (f0_dbPtr : option CouchbaseDatastore) (memberName memberID : list string)
    : M W (bool * list string) :=
  match memberName with
  | [] => mret (true, memberID)
  | name :: memberName =>
      '(pvalue, error_0) ← ds_get_sub f0_dbPtr user_map name;
      if negb (bool_decide (error_0 = 0)) then mret (false, memberID)
      else
        text ← deref pvalue;
        let accountID := json_decode codec_string text "" in
        getMemberID_loop f0_dbPtr memberName (memberID ++ [accountID])
  end.
Definition getMemberID (memberName memberID : list string) : M W (bool * list string) :=
  f0_dbPtr ← create_datastore bucket_account_info;
  getMemberID_loop f0_dbPtr memberName memberID.

Definition getMemberIDRest (info : string) : M W response :=
  let memberName := json_decode (codec_vector codec_string "") info [] in
  '(flag, memberID) ← getMemberID memberName [];
  mret (Response Code_Ok
    (if (flag : bool) then json_encode (codec_vector codec_string "") memberID else "fail")).

(** ** Registration *)

Definition UserRegister (person : Account.t) : M W string :=
  f0_dbPtr ← create_datastore bucket_account_info;
  '(_, error_0) ← ds_get_sub f0_dbPtr user_map person.(Account.accountName);
  if bool_decide (error_0 = 0) then mret "Account name already exists!"
  else
    tmp_uuid ← extern host_uuid;
    let person_key := tmp_uuid in
    let person := Account.set_accountID tmp_uuid person in
    f1_flag ← ds_set_sub f0_dbPtr user_map person.(Account.accountName)
      (json_encode codec_string person.(Account.accountID));
    f1_flag ←
      (if bool_decide (f1_flag = 13) then
         _ ← ds_set f0_dbPtr user_map "{}";
         ds_set_sub f0_dbPtr user_map person.(Account.accountName)
           (json_encode codec_string person.(Account.accountID))
       else mret f1_flag);
    if negb (bool_decide (f1_flag = 0)) then mret "Registration fail"
    else
      flag ← ds_set f0_dbPtr (user_prefix +:+ person_key) (to_json person);
      if negb (bool_decide (flag = 0)) then mret "Registration fail"
      else mret ("Dear:" +:+ person.(Account.accountName) +:+ ", registration success").

Definition UserRegisterRest (info : string) : M W response :=
  result ← UserRegister (of_json Account.init info);
  mret (Response Code_Ok result).

(** Registration of an administrator also enters the identifier in the list. *)
Definition AdminUserRegister (person : Account.t) : M W string :=
  f0_dbPtr ← create_datastore bucket_account_info;
  '(_, error_0) ← ds_get_sub f0_dbPtr user_map person.(Account.accountName);
  if bool_decide (error_0 = 0) then mret "Account name already exists!"
  else
    tmp_uuid ← extern host_uuid;
    let person_key := tmp_uuid in
    let person := Account.set_accountID tmp_uuid person in
    f1_flag ← ds_set_sub f0_dbPtr user_map person.(Account.accountName)
      (json_encode codec_string person.(Account.accountID));
    f1_flag ←
      (if bool_decide (f1_flag = 13) then
         _ ← ds_set f0_dbPtr user_map "{}";
         ds_set_sub f0_dbPtr user_map person.(Account.accountName)
           (json_encode codec_string person.(Account.accountID))
       else mret f1_flag);
    if negb (bool_decide (f1_flag = 0)) then mret "Registration fail"
    else
      admin_flag ← ds_arr_insert_uniq f0_dbPtr adminlist "namelist"
        (json_encode codec_string person.(Account.accountID));
      if negb (bool_decide (admin_flag = 0)) then mret "Registration fail"
      else
        flag ← ds_set f0_dbPtr (user_prefix +:+ person_key) (to_json person);
        if negb (bool_decide (flag = 0)) then mret "Registration fail"
        else mret ("Dear:" +:+ person.(Account.accountName) +:+ ", registration success").

Definition AdminUserRegisterRest (info : string) : M W response :=
  result ← AdminUserRegister (of_json Account.init info);
  mret (Response Code_Ok result).

(** ** Login *)

(** The result, the user identifier and the identity, passed by reference. *)
Definition UserLogin (account pass userID identity : string) : M W (bool * string * string) :=
  f0_dbPtr ← create_datastore bucket_account_info;
  '(pvalue, error_0) ← ds_get_sub f0_dbPtr user_map account;
  if negb (bool_decide (error_0 = 0)) then mret (false, userID, identity)
  else
    text ← deref pvalue;
    let key := json_decode codec_string text "" in
    admin ← validadminidentity key;
    let identity := if (admin : bool) then "1" else "0" in
    '(pvalue_2, error_2) ← ds_get f0_dbPtr (user_prefix +:+ key);
    if negb (bool_decide (error_2 = 0)) then mret (false, userID, identity)
    else
      text_2 ← deref pvalue_2;
      let tmp := of_json Account.init text_2 in
      if String.eqb pass tmp.(Account.Password) then mret (true, key, identity)
      else mret (false, userID, identity).

(** The response and the cookie it sets; [junk] is the indeterminate content of
    the digest buffer. *)
Definition UserLoginRest (junk : list Z) (info : string) : M W (response * option (string * string)) :=
  let acc_pass := of_json AccountPass.init info in
  '(is_success, userID, identity) ←
    UserLogin acc_pass.(AccountPass.accountName) acc_pass.(AccountPass.Password) "" "";
  if (is_success : bool) then
    let origin_str := acc_pass.(AccountPass.accountName) +:+ acc_pass.(AccountPass.Password) in
    let mtoken := md5 junk origin_str in
    f0_dbPtr ← open_datastore bucket_account_info;
    login_flag ← ds_set f0_dbPtr mtoken "1";
    if negb (bool_decide (login_flag = 0)) then mret (Response Code_Ok "-1", None)
    else mret (Response Code_Ok (identity +:+ "_" +:+ userID), Some ("token", mtoken))
  else mret (Response Code_Ok "-1", None).

(** [auth_token]: nothing calls it. *)
Definition auth_token (cookies : list (string * string)) : M W bool :=
  let mtoken := default "" (snd <$> last cookies) in
  f0_dbPtr ← open_datastore "account_info";
  '(vp, err) ← ds_get f0_dbPtr mtoken;
  mret (bool_decide (err = 0)).

(** ** Account information *)

Definition getUserinfo (uuid : string) (is_get_success : bool) : M W (string * bool) :=
  f0_dbPtr ← create_datastore bucket_account_info;
  '(pvalue, error) ← ds_get f0_dbPtr (user_prefix +:+ uuid);
  if negb (bool_decide (error = 0)) then mret ("SearchFail", false)
  else
    text ← deref pvalue;
    mret (text, is_get_success).

Definition getUserinfoRest (uuid : string) : M W response :=
  '(data, is_get_success) ← getUserinfo uuid true;
  mret (Response Code_Ok (if (is_get_success : bool) then data else "-1")).

Definition modifyUserinfo (person : Account.t) : M W string :=
  let person_key := person.(Account.accountID) in
  f0_dbPtr ← open_datastore bucket_account_info;
  flag ← ds_set f0_dbPtr (user_prefix +:+ person_key) (to_json person);
  mret (if negb (bool_decide (flag = 0)) then "Modify fail" else "Modify success").

Definition modifyUserinfoRest (info : string) : M W response :=
  result ← modifyUserinfo (of_json Account.init info);
  mret (Response Code_Ok result).

(** ** Logout and cancellation *)

(** The flag passed by reference is set to [true] on both paths. *)
Definition exitUserAccount (mtoken : string) : M W (string * bool) :=
  f0_dbPtr ← create_datastore bucket_account_info;
  flag ← ds_remove f0_dbPtr mtoken;
  mret (if bool_decide (flag = 0) then ("Eixt success", true) else ("-1", true)).

Definition exitUserAccountRest (cookies : list (string * string)) : M W response :=
  let mtoken := default "" (snd <$> last cookies) in
  '(_, is_exit_success) ← exitUserAccount mtoken;
  mret (Response Code_Ok (if (is_exit_success : bool) then "0" else "-1")).

Definition owner_query (ownerID : string) : string :=
  snprintf 256 ("select * from `" +:+ c_str zonebucket +:+ "` where owner = " +:+ quoted (c_str ownerID)).

(** [is_cancel_success] is passed by value: only the text is returned. *)
Definition cancellationUserAccount (uuid : string) : M W string :=
  f0_dbPtr ← create_datastore bucket_account_info;
  '(pvalue, error) ← ds_get f0_dbPtr (user_prefix +:+ uuid);
  if negb (bool_decide (error = 0)) then mret "-1"
  else
    text ← deref pvalue;
    let gvdsperson := of_json Account.init text in
    zonePtr ← create_datastore zonebucket;
    '(vp, err) ← ds_n1ql junk_int zonePtr (owner_query uuid);
    if bool_decide (length vp ≠ 0%nat) then mret "-2"
    else
      f1_dbPtr ← open_datastore bucket_sc_account_info;
      flag ← ds_remove f1_dbPtr (sc_user_prefix +:+ uuid);
      if negb (bool_decide (flag = 0)) then mret "-1"
      else
        acc_map_id_flag ← ds_remove f0_dbPtr gvdsperson.(Account.accountName);
        if negb (bool_decide (acc_map_id_flag = 0)) then mret "-1"
        else
          acc_info_flag ← ds_remove f0_dbPtr (user_prefix +:+ uuid);
          if negb (bool_decide (acc_info_flag = 0)) then mret "-1"
          else mret "User cancellation success.".

Definition cancellationUserAccountRest (uuid : string) : M W response :=
  data ← cancellationUserAccount uuid;
  mret (Response Code_Ok data).

(** ** Applications *)

Definition bufferUserRegister (apply : string) : M W Z :=
  f5_dbPtr ← create_datastore applybucket;
  uuid ← extern host_uuid;
  let key := "usign-" +:+ uuid in
  flag ← ds_set f5_dbPtr key (to_json (struct_apply_info.mk key apply));
  if negb (bool_decide (flag = 0)) then mret EAGAIN else mret 0.

Definition bufferUserRegisterRest (info : string) : M W response :=
  result ← bufferUserRegister info;
  mret (Response Code_Ok (json_encode codec_int result)).

Definition list_query : string :=
  "select id,data from " +:+ applybucket +:+ " where meta().id like " +:+ quoted "usign-%"
  +:+ " or meta().id like " +:+ quoted "zregi-%" +:+ " or meta().id like " +:+ quoted "spadd-%"
  +:+ " or meta().id like " +:+ quoted "spsiz-%" +:+ " limit 5".

Definition viewbufferList (gvdsID : string) : M W string :=
  admin ← validadminidentity gvdsID;
  if negb admin then mret "33"
  else
    applyPtr ← create_datastore applybucket;
    '(vp, err) ← ds_n1ql junk_int applyPtr list_query;
    if negb (bool_decide (err = 0)) then mret "1"
    else mret (json_encode (codec_vector codec_string "") vp).

Definition viewbufferListRest (info : string) : M W response :=
  data ← viewbufferList info;
  mret (Response Code_Ok data).

Definition removeoneofApplyInfoRest (info : string) : M W response :=
  f5_dbPtr ← create_datastore applybucket;
  flag ← ds_remove f5_dbPtr info;
  mret (Response Code_Ok (if bool_decide (flag = 0) then "0" else "1")).

(** ** Account mappings and pools *)

Definition adminCreateAccountMapping (_ : string) : M W response := mret (Response Code_Ok "0").
Definition adminDelAccountMapping (_ : string) : M W response := mret (Response Code_Ok "0").

Definition adminSearchAccountMapping (info : string) : M W response :=
  let new_accountmap := of_json struct_AdminAccountMap.init info in
  admin ← validadminidentity new_accountmap.(struct_AdminAccountMap.adgvdsID);
  if negb admin then mret (Response Code_Ok "33")
  else
    f1_dbPtr ← open_datastore bucket_sc_account_info;
    '(pvalue_scuser, error) ← ds_get f1_dbPtr
      (sc_user_prefix +:+ new_accountmap.(struct_AdminAccountMap.gvdsID));
    if negb (bool_decide (error = 0)) then mret (Response Code_Ok "1")
    else
      text ← deref pvalue_scuser;
      mret (Response Code_Ok text).

(** The loop over the centres; [None] when a pool cannot be read, and the flag
    telling whether the loop ran. *)
Fixpoint pool_loop (f1_dbPtr : option CouchbaseDatastore) (mycenter : CenterInfo.t)
    (ids : list string) (acpool : struct_infoAccountPool.t) (tmp : bool)
    : M W (option (struct_infoAccountPool.t * bool)) :=
  match ids with
  | [] => mret (Some (acpool, tmp))
  | id :: ids =>
      let name := default "" (mycenter.(CenterInfo.centerName) !! id) in
      '(pv, pv_err) ← ds_get f1_dbPtr name;
      if negb (bool_decide (pv_err = 0)) then mret None
      else
        text ← deref pv;
        let center_pool := of_json AccountSCPool.init text in
        let unusecount := Z.of_nat (base.size center_pool.(AccountSCPool.unuse_account)) in
        let usecount := Z.of_nat (base.size center_pool.(AccountSCPool.use_account)) in
        pool_loop f1_dbPtr mycenter ids
          (struct_infoAccountPool.mk
             (acpool.(struct_infoAccountPool.hostCenterName) ++ [name])
             (<[name := usecount]> acpool.(struct_infoAccountPool.usecount))
             (<[name := unusecount]> acpool.(struct_infoAccountPool.unusecount)))
          true
  end.

Definition adminSearchAccountPool (adgvdsID : string) : M W string :=
  admin ← validadminidentity adgvdsID;
  if negb admin then mret "33"
  else
    f0_dbPtr ← open_datastore bucket_account_info;
    '(pvalue, error_0) ← ds_get f0_dbPtr c_key;
    if negb (bool_decide (error_0 = 0)) then mret "1"
    else
      text ← deref pvalue;
      let mycenter := of_json CenterInfo.init text in
      f1_dbPtr ← open_datastore bucket_sc_account_info;
      res ← pool_loop f1_dbPtr mycenter mycenter.(CenterInfo.centerID) struct_infoAccountPool.init false;
      match res with
      | None => mret "1"
      | Some (acpool, tmp) => if negb tmp then mret "1" else mret (to_json acpool)
      end.

Definition adminSearchAccountPoolRest (info : string) : M W response :=
  data ← adminSearchAccountPool info;
  mret (Response Code_Ok data).
End user.

(** ** Proofs *)

Lemma in_namelist_spec id l : in_namelist id l = true ↔ id ∈ l.
Proof.
  induction l as [|n l IH]; cbn; [set_solver|].
  destruct (String.eqb_spec id n) as [->|]; set_solver.
Qed.

Lemma in_namelist_bool id l : in_namelist id l = bool_decide (id ∈ l).
Proof.
  case_bool_decide as Hin; [by apply in_namelist_spec|]. rewrite <-in_namelist_spec in Hin.
  by destruct (in_namelist id l).
Qed.

Lemma decode_string `{RapidjsonLaws} u d :
  c_str u = u → json_decode codec_string (json_encode codec_string u) d = u.
Proof. intros Hu. by apply (json_decode_encode codec_string). Qed.

Section props.
Context {W : Type} `{CouchbaseLaws W, !Host W, !HostLaws W, RapidjsonLaws, Indet}.
Implicit Types (D : gmap (string * string) string) (w : W).

Definition account_key (k : string) : string * string := dkey bucket_account_info k.

(** The administrators the database lists. *)
Definition admins D : list string :=
  match D !! account_key adminlist with
  | Some doc => (of_json struct_AdminList.init doc).(struct_AdminList.namelist)
  | None => []
  end.

(** Whatever fails, nobody outside the list passes, and nothing is written. *)
Lemma validadmin_any id D w :
  stored D w →
  wp (validadminidentity id) (λ b w', stored D w' ∧ (b = true → id ∈ admins D)) (stored D) w.
Proof.
  intros HD. unfold validadminidentity. wp_step. db_any. wp_step. db_any; wp_steps; auto; [|by split].
  split; [done|]. rewrite in_namelist_spec. unfold admins, account_key. by simplify_option_eq.
Qed.

Lemma validadmin_denied id D w :
  id ∉ admins D → stored D w →
  wp (validadminidentity id) (λ b w', b = false ∧ stored D w') (stored D) w.
Proof.
  intros Hid HD. eapply wp_mono; [| |by apply validadmin_any]; [|done].
  intros [] w' [HD' Hb]; naive_solver.
Qed.

(** C35: whatever fails, someone who is not on the list of administrators sees
    neither the applications, nor account mappings, nor pools: the answer is "33"
    (or none at all), and no document changes. *)
Theorem admin_only id D w :
  id ∉ admins D → stored D w →
  wp (viewbufferList id) (λ r w', r = "33" ∧ stored D w') (stored D) w ∧
  wp (adminSearchAccountPool id) (λ r w', r = "33" ∧ stored D w') (stored D) w ∧
  (∀ info, (of_json struct_AdminAccountMap.init info).(struct_AdminAccountMap.adgvdsID) = id →
     wp (adminSearchAccountMapping info) (λ r w', r = Response 200 "33" ∧ stored D w') (stored D) w).
Proof.
  intros Hid HD. split_and!; [| |intros info <-];
    unfold viewbufferList, adminSearchAccountPool, adminSearchAccountMapping;
    wp_step; (eapply wp_mono; [| |by apply validadmin_denied]; [|done]);
    intros b w' [-> HD']; by wp_steps.
Qed.

(** An account cannot be cancelled. Cancellation removes a local-account
    document that registration never writes: without one, whatever fails, the
    answer is never success and no document is removed. *)
Theorem cancellation_never_succeeds uuid D w :
  D !! dkey bucket_sc_account_info (sc_user_prefix +:+ uuid) = None → stored D w →
  wp (cancellationUserAccount uuid) (λ r w', (r = "-1" ∨ r = "-2") ∧ stored D w') (stored D) w.
Proof.
  intros Hsc HD. unfold cancellationUserAccount. wp_step. db_any. wp_step. db_any; wp_steps; auto.
  db_any. wp_step. db_any. wp_steps; auto. db_any. wp_step.
  db_any; rewrite ?(delete_id D) in * by done; wp_steps; auto.
  exfalso. match goal with Hn : D !! _ = None → ?e ≠ 0, Hb : negb (bool_decide (?e = 0)) = false |- _ =>
    specialize (Hn Hsc); by rewrite bool_decide_false in Hb end.
Qed.

Context `{!CouchbaseUp W}.

Lemma validadmin_up id D w :
  serving D w →
  wp (validadminidentity id) (λ b w', serving D w' ∧ b = bool_decide (id ∈ admins D)) never w.
Proof.
  intros HD. unfold validadminidentity. wp_step. db_up. wp_step.
  unfold admins, account_key. db_up; wp_steps.
  - simplify_eq. match goal with Hl : D !! _ = Some _ |- _ => rewrite Hl end.
    by rewrite in_namelist_bool.
  - by match goal with Hl : D !! _ = None |- _ => rewrite Hl end.
Qed.

(** Without faults the administrator test is membership in the stored
    list, and it writes nothing. *)
Theorem validadminidentity_spec id D w :
  serving D w →
  wp (validadminidentity id) (λ b w', (b = true ↔ id ∈ admins D) ∧ serving D w') never w.
Proof.
  intros HD. eapply wp_mono; [| |by apply validadmin_up]; [|done].
  intros b w' [? ->]. by rewrite bool_decide_eq_true.
Qed.

(** Withdrawing an application and logging out delete whatever document the
    caller names, applications and login tokens or not (the list of
    administrators, an account, a zone); a logout answers success even when there
    was nothing to delete. *)
Theorem removes_any_document key D w :
  serving D w →
  wp (removeoneofApplyInfoRest key) (λ r w',
    r = Response 200 (if D !! dkey applybucket key then "0" else "1") ∧
    serving (delete (dkey applybucket key) D) w') never w ∧
  wp (exitUserAccountRest [("token", key)]) (λ r w',
    r = Response 200 "0" ∧ serving (delete (account_key key) D) w') never w.
Proof.
  intros HD. split.
  - unfold removeoneofApplyInfoRest. wp_step. db_up. wp_step. db_up; wp_steps.
    + by match goal with Hs : is_Some _ |- _ => destruct Hs as [? ->] end.
    + match goal with Hn : D !! _ = None |- _ => rewrite Hn, (delete_id D) by done end. done.
  - unfold exitUserAccountRest, exitUserAccount. wp_step. wp_step. db_up. wp_step.
    cbn [last fmap option_fmap option_map default from_option snd id]. db_up; wp_steps; [done|].
    unfold account_key. by rewrite (delete_id D).
Qed.

Context `{!SubdocLaws W}.

(** The identifier a name is registered under. *)
Definition registered D (name : string) : option string :=
  match D !! account_key user_map with
  | Some d => sub d name
  | None => None
  end.
Definition map_ok D : Prop := ∀ d, D !! account_key user_map = Some d → sub_object d.

Lemma getMemberID_loop_up names ids acc D w :
  serving D w → Forall (λ u, c_str u = u) ids →
  Forall2 (λ n u, registered D n = Some (json_encode codec_string u)) names ids →
  wp (getMemberID_loop (Some (handle bucket_account_info)) names acc)
    (λ r w', r = (true, acc ++ ids) ∧ serving D w') never w.
Proof.
  intros HD Hids Hall. revert acc w HD. induction Hall as [|n u names ids Hn Hall IH]; intros acc w HD;
    cbn [getMemberID_loop].
  { apply wp_ret. by rewrite (right_id_L [] (++)). }
  inversion_clear Hids. wp_step. unfold registered, account_key in Hn.
  eapply wp_get_sub_up; [done|intros d v w' Hd Hs HD'|intros e w' Hd He HD'].
  - rewrite Hd in Hn. assert (v = json_encode codec_string u) as -> by congruence.
    wp_steps. simplify_eq. rewrite decode_string by done.
    eapply wp_mono; [| |by apply IH]; [|done]. intros r w2 [-> ?].
    by rewrite <-(assoc_L (++)).
  - congruence.
Qed.

(** Without faults a list of registered names is translated to their
    identifiers, in order, and one unknown name makes the request fail. *)
Theorem getMemberID_spec names ids D w :
  serving D w → Forall (λ u, c_str u = u) ids →
  Forall2 (λ n u, registered D n = Some (json_encode codec_string u)) names ids →
  wp (getMemberID names []) (λ r w', r = (true, ids) ∧ serving D w') never w ∧
  ∀ unknown rest, registered D unknown = None →
    wp (getMemberID (names ++ unknown :: rest) []) (λ r w', r.1 = false ∧ serving D w') never w.
Proof.
  intros HD Hids Hall. split.
  - unfold getMemberID. wp_step. db_up. by apply (getMemberID_loop_up names ids []).
  - intros unknown rest Hun. unfold getMemberID. wp_step. db_up.
    generalize (@nil string) as acc. clear Hids. match goal with Hs : serving D ?w' |- context [wp _ _ _ ?w'] =>
      revert w' Hs end.
    induction Hall as [|n u names' ids' Hn _ IH]; intros w' Hs acc; cbn [getMemberID_loop app];
      wp_step; unfold registered, account_key in *;
      (eapply wp_get_sub_up; [done|intros d v w2 Hd Hv HD2|intros e w2 Hd He HD2]); wp_steps; try done.
    + rewrite Hd in Hun. congruence.
    + by apply IH.
Qed.

Lemma encoded_text u : ∃ j, json_wf j ∧ json_encode codec_string u = rj_write j.
Proof. exists (JString u). split; [constructor|done]. Qed.

(** What registering [person] under identifier [u] writes. *)
Definition enrolled D (u : string) (person : Account.t) D' : Prop :=
  ∃ d, D' = <[account_key (user_prefix +:+ u) := to_json (Account.set_accountID u person)]>
              (<[account_key user_map := d]> D) ∧ sub_object d ∧
    ∀ p, simple_path p → sub d p =
      if bool_decide (p = person.(Account.accountName)) then Some (json_encode codec_string u)
      else registered D p.

Lemma UserRegister_up person D w :
  serving D w → map_ok D → simple_path person.(Account.accountName) →
  wp (UserRegister person) (λ r w',
    match registered D person.(Account.accountName) with
    | Some _ => r = "Account name already exists!" ∧ serving D w'
    | None => ∃ u D', c_str u = u ∧ enrolled D u person D' ∧ serving D' w' ∧
        r = "Dear:" +:+ person.(Account.accountName) +:+ ", registration success"
    end) never w.
Proof.
  intros HD Hok Hp. unfold UserRegister. wp_step. db_up. wp_step.
  unfold registered, account_key in *. eapply wp_get_sub_up; [done|intros d v w2 Hd Hv HD2|intros e w2 Hd He HD2].
  { wp_steps. rewrite Hd, Hv. done. }
  wp_steps. db_up.
  match goal with |- context [host_uuid ?w0] => pose proof (uuid_c_str w0); set (u := (host_uuid w0).1) in * end.
  cbn [Account.set_accountID Account.accountName Account.accountID].
  assert (Hreg : match D !! dkey bucket_account_info user_map with
    | Some d => sub d (Account.accountName person) | None => None end = None).
  { by destruct (D !! dkey bucket_account_info user_map). }
  rewrite Hreg. wp_step. destruct (D !! dkey bucket_account_info user_map) as [d|] eqn:Hmap.
  - eapply wp_set_sub_found_up; [eassumption|exact Hmap|by apply Hok|done|apply encoded_text|].
    intros d' w3 HD3 Ho Hsub. wp_steps; try discriminate. db_up. wp_steps.
    eexists u, _. split_and!; [done| |eassumption|done].
    exists d'. split_and!; [done..|]. intros p Hsp. rewrite (Hsub p Hsp). unfold registered, account_key. by rewrite Hmap.
  - eapply wp_set_sub_missing_up; [eassumption|exact Hmap|intros w3 HD3]. wp_steps; try discriminate. db_up.
    eapply wp_set_sub_found_up; [eassumption|apply lookup_insert_eq|apply sub_empty|done|apply encoded_text|].
    intros d' w5 HD5 Ho Hsub. rewrite insert_insert_eq in HD5. wp_steps. db_up. wp_steps.
    eexists u, _. split_and!; [done| |eassumption|done].
    exists d'. split_and!; [done..|]. intros p Hsp. rewrite (Hsub p Hsp). unfold registered, account_key.
    by rewrite Hmap, sub_empty_none.
Qed.
Lemma enrolled_registered D u person D' :
  simple_path person.(Account.accountName) → enrolled D u person D' →
  registered D' person.(Account.accountName) = Some (json_encode codec_string u) ∧ map_ok D'.
Proof.
  intros Hp (d & -> & Ho & Hs). unfold registered, map_ok.
  assert (Hne : account_key (user_prefix +:+ u) ≠ account_key user_map).
  { unfold account_key. rewrite dkey_inj. unfold user_prefix, user_map. rewrite !append_cons. intros [=]. }
  rewrite lookup_insert_ne, lookup_insert_eq by done. split.
  - rewrite Hs by done. by rewrite bool_decide_true.
  - by intros ? [= <-].
Qed.

(** Login against a registered name and its account. *)
Lemma UserLogin_up name pass u (acct : Account.t) D w :
  serving D w → c_str u = u → registered D name = Some (json_encode codec_string u) →
  D !! account_key (user_prefix +:+ u) = Some (to_json acct) → Account.wf acct →
  wp (UserLogin name pass "" "") (λ '(ok, userID, identity) w', serving D w' ∧
    ok = String.eqb pass acct.(Account.Password) ∧ (ok = true → userID = u) ∧
    identity = if bool_decide (u ∈ admins D) then "1" else "0") never w.
Proof.
  intros HD Hu Hreg Hacct Hwf. unfold UserLogin. wp_step. db_up. wp_step.
  unfold registered, account_key in *.
  eapply wp_get_sub_up; [done|intros d v w2 Hd Hv HD2|intros; congruence].
  rewrite Hd in Hreg. assert (v = json_encode codec_string u) as -> by congruence.
  wp_steps. simplify_eq. rewrite decode_string by done.
  eapply wp_mono; [| |by apply validadmin_up]; [|done]. intros b w3 [HD3 ->].
  wp_step. db_up; [|congruence]. simplify_eq.
  wp_steps; simplify_eq; rewrite (of_to_json (A := Account.t)) in * by done; split_and!; try done;
    by match goal with Hb : String.eqb _ _ = _ |- _ => rewrite Hb end.
Qed.

(** C34: without faults, an account registered under a fresh name can log in with
    its password and with no other, under the identifier drawn for it and without
    administrator rights unless that identifier is on the list; and the name is
    then refused to anyone else. *)
Theorem register_then_login (person other : Account.t) pass D w :
  serving D w → map_ok D → Account.wf person → simple_path person.(Account.accountName) →
  registered D person.(Account.accountName) = None →
  other.(Account.accountName) = person.(Account.accountName) →
  wp (UserRegister person ≫= λ _, UserLogin person.(Account.accountName) pass "" "")
    (λ '(ok, userID, identity) w', ok = String.eqb pass person.(Account.Password) ∧
       (ok = true → ∃ u, userID = u ∧
          identity = (if bool_decide (u ∈ admins D) then "1" else "0") ∧
          docs w' !! account_key (user_prefix +:+ u) =
            Some (to_json (Account.set_accountID u person)))) never w ∧
  wp (UserRegister person ≫= λ _, UserRegister other)
    (λ r _, r = "Account name already exists!") never w.
Proof.
  intros HD Hok Hwf Hp Hreg Hother. split; wp_step;
    (eapply wp_mono; [| |by apply UserRegister_up]; [|done]); intros r w';
    rewrite Hreg; intros (u & D' & Hu & He & HD' & ->);
    destruct (enrolled_registered D u person D' Hp He) as [Hr' Hok'].
  - destruct He as (d & -> & _).
    eapply wp_mono; [| |eapply (UserLogin_up _ pass u (Account.set_accountID u person)); [exact HD'|done|done|apply lookup_insert_eq|]]; [|done|].
    + intros [[ok userID] identity] w2 (HD2 & Heq & Hid & Hident). split; [done|]. intros Ht.
      exists u. split_and!; [by apply Hid| |destruct HD2 as [_ ->]; apply lookup_insert_eq].
      rewrite Hident. unfold admins. rewrite !lookup_insert_ne; [done|..];
        unfold account_key; rewrite dkey_inj; intros Hx; by destruct u.
    + unfold Account.wf in *. cbn in *. naive_solver.
  - rewrite <-Hother in Hp, Hr'.
    eapply wp_mono; [| |by apply (UserRegister_up other D')]; [|done]. intros r w2. rewrite Hr'. naive_solver.
Qed.
End props.

(** ** Concrete runs *)
Section witness.
Let root0 : Account.t := Account.mk "root" "pw" "u0" "r@x" "1" "addr" "dep".
Let ann0 : Account.t := Account.mk "ann" "secret" "" "a@x" "2" "addr" "dep".
Let map0 : string := rj_write (JObject [("root", JString "u0")]).
Let D0 : gmap (string * string) string :=
  <[account_key (W := world) adminlist := to_json (struct_AdminList.mk ["u0"])]>
    (<[account_key (W := world) (user_prefix +:+ "u0") := to_json root0]>
      {[account_key (W := world) user_map := map0]}).
Let w0 : world := World D0 ["u1"; "u2"] [] 0 None None.

Lemma admins0 : admins (W := world) D0 = ["u0"].
Proof. by vm_compute. Qed.

Theorem validadminidentity_spec_witness :
  wp (validadminidentity "u0") (λ b w', (b = true ↔ "u0" ∈ admins D0) ∧ serving D0 w') never w0.
Proof. by apply (validadminidentity_spec "u0" D0 w0). Defined.

Theorem admin_only_witness :
  wp (viewbufferList "u7") (λ r w', r = "33" ∧ stored D0 w') (stored D0) w0.
Proof. apply (admin_only "u7" D0 w0); [rewrite admins0; set_solver|done]. Defined.

Theorem cancellation_never_succeeds_witness :
  wp (cancellationUserAccount "u0") (λ r w', (r = "-1" ∨ r = "-2") ∧ stored D0 w') (stored D0) w0.
Proof. apply (cancellation_never_succeeds "u0" D0 w0); [by vm_compute|done]. Defined.

Theorem removes_any_document_witness :
  wp (removeoneofApplyInfoRest adminlist) (λ r w', r = Response 200 "0") never w0.
Proof.
  destruct (removes_any_document adminlist D0 w0) as [Hrm _]; [done|].
  eapply wp_mono; [| |exact Hrm]; [|done]. intros r w' [-> _].
  assert (Hl : D0 !! dkey (W := world) applybucket adminlist = Some (to_json (struct_AdminList.mk ["u0"])))
    by (vm_compute; reflexivity).
  by rewrite Hl.
Defined.

Lemma map_ok0 : map_ok (W := world) D0.
Proof.
  intros d Hd. assert (d = map0) as ->.
  { assert (Hl : D0 !! account_key (W := world) user_map = Some map0) by (vm_compute; reflexivity). congruence. }
  exists [("root", JString "u0")]. apply model_members_write.
Qed.

Theorem getMemberID_spec_witness :
  wp (getMemberID ["root"] []) (λ r w', r = (true, ["u0"]) ∧ serving D0 w') never w0.
Proof.
  apply (getMemberID_spec ["root"] ["u0"] D0 w0); [done|by repeat constructor|].
  constructor; [by vm_compute|constructor].
Defined.

Theorem register_then_login_witness :
  wp (UserRegister ann0 ≫= λ _, UserLogin "ann" "guess" "" "")
    (λ '(ok, _, _) _, ok = false) never w0.
Proof.
  destruct (register_then_login ann0 ann0 "guess" D0 w0) as [Hlogin _];
    [done|apply map_ok0|unfold Account.wf; ground_wf|done|by vm_compute|done|].
  eapply wp_mono; [| |exact Hlogin]; [|done]. by intros [[ok ?] ?] w' [-> _].
Defined.
End witness.
End UserModelServer.
