(* ===== verification/Space.v ===== *)
(** * Spaces (manager/space/SpaceServer.cc)

    [SpaceServer] manages the storage spaces of zones: their documents, their
    directories and the capacity they hold on a storage resource. One definition
    per method, in the order of the source. The bucket names and the data path
    are read once by the constructor, which dereferences the configuration
    entries "manager.bucket", "manager.data_path" and "manager.id": they are
    present in a manager that has started. *)
From S2P Require Import Prelude CxxString Json Records Datastore Instances.

Module SpaceServer.

Definition space_prefix : string := "SPACE-".
Definition npos : Z := 2 ^ 64 - 1.

(** ** [std::map<int, string, greaters>]: keys in decreasing order *)
Fixpoint ma_insert (k : Z) (v : string) (ma : list (Z * string)) : list (Z * string) :=
  match ma with
  | [] => [(k, v)]
  | (k', v') :: ma' =>
      if k' =? k then (k, v) :: ma'
      else if k >? k' then (k, v) :: ma
      else (k', v') :: ma_insert k v ma'
  end.

(** ** Parsing the output of [du -h] *)

(** [fgets(buf, n + 1, fp)] read as a C string: up to [n] bytes, up to the line end. *)
Fixpoint fgets (n : nat) (s : string) : string :=
  match n, s with
  | S n', String c s' =>
      if Ascii.eqb c "010" then String c "" else String c (fgets n' s')
  | _, _ => ""
  end.

(** A position found, or [npos]. *)
Definition find_first_of (c : ascii) (pos : Z) (s : string) : Z :=
  match find_from c (Z.to_nat pos) s with Some i => Z.of_nat i | None => npos end.

Definition digit_value (c : ascii) : option Z :=
  let n := Z.of_N (N_of_ascii c) in if (48 <=? n) && (n <=? 57) then Some (n - 48) else None.
Fixpoint read_digits (acc : Z) (s : string) : Z :=
  match s with
  | String c s' => match digit_value c with Some d => read_digits (acc * 10 + d) s' | None => acc end
  | EmptyString => acc
  end.
Definition is_space (c : ascii) : bool :=
  let n := N_of_ascii c in (n =? 32)%N || ((9 <=? n)%N && (n <=? 13)%N).
Fixpoint skip_spaces (s : string) : string :=
  match s with
  | String c s' => if is_space c then skip_spaces s' else s
  | EmptyString => s
  end.
(** [sscanf(s, "%d", &x)]: [None] when no digit is read and [x] is left alone. *)
Definition sscanf_d (s : string) : option Z :=
  match skip_spaces s with
  | String c s' =>
      if Ascii.eqb c "-" then
        match s' with String d _ => if digit_value d then Some (- read_digits 0 s') else None | _ => None end
      else if Ascii.eqb c "+" then
        match s' with String d _ => if digit_value d then Some (read_digits 0 s') else None | _ => None end
      else if digit_value c then Some (read_digits 0 (String c s')) else None
  | EmptyString => None
  end.

(** The capacity text of a line: from after the first space up to the next
    tab; positions are [size_t], and a length beyond the end stops at the end. *)
Definition usage_token (cmdresult : string) : string :=
  let start := find_first_of " " 0 cmdresult in
  let start1 := to_u64 (start + 1) in
  let end_ := find_first_of "009" start1 cmdresult in
  substr (Z.to_nat start1) (Z.to_nat (Z.min (to_u64 (end_ - start - 1)) (size cmdresult))) cmdresult.

Section space.
Context {W : Type} `{Couchbase W, Host W, Rapidjson, Indet}.

(** ** Constructor fields *)
Definition spacebucket : string := default "test" (config "manager.bucket").
Definition storagebucket : string := default "" (config "manager.bucket").
Definition bucket_account_info : string := default "test" (config "manager.bucket").
Definition applybucket : string := default "test" (config "manager.bucket").
Definition localstoragepath : string := default "" (config "manager.data_path").
Definition ManagerID : string := default "" (config "manager.id").

(** ** Looking spaces up *)

(** The loop of [GetSpacePosition]; [tmps] is one object for all iterations. *)
Fixpoint GetSpacePosition_loop (spacePtr : option CouchbaseDatastore) (tmps : Space.t)
    (result : list Space.t) (spaceID : list string) : M W (list Space.t) :=
  match spaceID with
  | [] => mret result
  | m :: spaceID =>
      '(vs, err) ← ds_get spacePtr (space_prefix +:+ m);
      if negb (bool_decide (err = 0)) then mret result
      else
        tmps_value ← deref vs;
        let tmps := of_json tmps tmps_value in
        storPtr ← create_datastore storagebucket;
        '(vp, serr) ← ds_get storPtr tmps.(Space.storageSrcID);
        if negb (bool_decide (serr = 0)) then mret result
        else
          _ ← deref vp;
          GetSpacePosition_loop spacePtr tmps (result ++ [tmps]) spaceID
  end.
Definition GetSpacePosition (result : list Space.t) (spaceID : list string) : M W (list Space.t) :=
  spacePtr ← create_datastore spacebucket;
  GetSpacePosition_loop spacePtr Space.init result spaceID.

Fixpoint GetSpaceInfo_loop (spacePtr : option CouchbaseDatastore) (tmps : Space.t)
    (tmp_si : list Space.t) (spaceID : list string) : M W (list Space.t) :=
  match spaceID with
  | [] => mret tmp_si
  | m :: spaceID =>
      '(vs, err) ← ds_get spacePtr (space_prefix +:+ m);
      if bool_decide (err = 0) then
        tmps_value ← deref vs;
        let tmps := of_json tmps tmps_value in
        GetSpaceInfo_loop spacePtr tmps (tmp_si ++ [tmps]) spaceID
      else GetSpaceInfo_loop spacePtr tmps tmp_si spaceID
  end.
Definition GetSpaceInfo (spaceID : list string) : M W (list Space.t) :=
  spacePtr ← create_datastore spacebucket;
  GetSpaceInfo_loop spacePtr Space.init [] spaceID.

(** ** Capacity *)

Definition SpaceSizeAdd (StorageID : string) (add_size : Z) : M W Z :=
  storptr ← create_datastore storagebucket;
  '(vp, err) ← ds_get storptr StorageID;
  if negb (bool_decide (err = 0)) then mret EAGAIN
  else
    stor_value ← deref vp;
    let storage := of_json StorageResource.init stor_value in
    sum ← checked_i64 (storage.(StorageResource.assign_capacity) + add_size);
    if sum >? storage.(StorageResource.total_capacity) then mret ENOSPC
    else
      let storage := StorageResource.set_assign_capacity sum storage in
      flag ← ds_set storptr StorageID (to_json storage);
      if negb (bool_decide (flag = 0)) then mret EAGAIN else mret 0.

Definition SpaceSizeDeduct (StorageID : string) (deduct_size : Z) : M W Z :=
  storptr ← create_datastore storagebucket;
  '(vp, err) ← ds_get storptr StorageID;
  if negb (bool_decide (err = 0)) then mret EAGAIN
  else
    stor_value ← deref vp;
    let storage := of_json StorageResource.init stor_value in
    rest ← checked_i64 (storage.(StorageResource.assign_capacity) - deduct_size);
    if rest <? 0 then mret EINVAL
    else
      let storage := StorageResource.set_assign_capacity rest storage in
      flag ← ds_set storptr StorageID (to_json storage);
      if negb (bool_decide (flag = 0)) then mret EAGAIN else mret 0.

(** ** Choosing a storage resource *)

Definition path_query (hostCenterName storageSrcName : string) : string :=
  if String.eqb storageSrcName ""
  then snprintf 256 ("select assign_capacity,host_center_id,host_center_name,mgs_address,"
    +:+ "state,storage_src_id, storage_src_name, total_capacity from `" +:+ c_str storagebucket
    +:+ "` where host_center_name = " +:+ quoted (c_str hostCenterName))
  else snprintf 256 ("select assign_capacity,host_center_id,host_center_name,mgs_address,"
    +:+ "state,storage_src_id, storage_src_name, total_capacity from `" +:+ c_str storagebucket
    +:+ "` where host_center_name = " +:+ quoted (c_str hostCenterName)
    +:+ " and storage_src_name = " +:+ quoted (c_str storageSrcName)).

(** The loop filling [ma]: the difference is converted to the map's [int] key. *)
Fixpoint fill_ma (rows : list string) (ma : list (Z * string)) : M W (list (Z * string)) :=
  match rows with
  | [] => mret ma
  | tmp_value :: rows =>
      let storage := of_json StorageResource.init tmp_value in
      d ← checked_i64 (storage.(StorageResource.total_capacity) - storage.(StorageResource.assign_capacity));
      fill_ma rows (ma_insert (to_i32 d) tmp_value ma)
  end.

(** The storage and centre IDs, then the two names passed by reference. *)
Definition GetSpaceCreatePath (spaceSize : Z) (hostCenterName storageSrcName : string)
    : M W (string * string * string * string) :=
  storagePtr ← create_datastore storagebucket;
  '(vp, err) ← ds_n1ql junk_int storagePtr (path_query hostCenterName storageSrcName);
  if negb (bool_decide (err = 0)) then mret ("", "", hostCenterName, storageSrcName)
  else if bool_decide (length vp = 0%nat) then mret ("", "", hostCenterName, storageSrcName)
  else
    ma ← fill_ma vp [];
    ite ← deref (head ma);
    let storage := of_json StorageResource.init ite.2 in
    mret (StorageResource.prefix +:+ storage.(StorageResource.storage_src_id),
          storage.(StorageResource.host_center_id),
          storage.(StorageResource.host_center_name),
          storage.(StorageResource.storage_src_name)).

(** ** Creation, check, deletion *)

Definition SpaceCreate (spaceName ownerID : string) (memberID : list string) (spaceSize : Z)
    (spacePathInfo groupname : string) : M W string :=
  spacePtr ← create_datastore spacebucket;
  let tmpm := of_json Space.init spacePathInfo in
  '(storid, hostid, hostCenterName, storageSrcName) ←
    GetSpaceCreatePath spaceSize tmpm.(Space.hostCenterName) tmpm.(Space.storageSrcName);
  if String.eqb storid "" && String.eqb hostid "" then mret "-3"
  else
    addret ← SpaceSizeAdd storid spaceSize;
    if negb (bool_decide (addret = 0)) then mret "-1"
    else
      tmp_uuid ← extern host_uuid;
      let rootdir := localstoragepath +:+ "/" +:+ tmp_uuid in
      mkret ← extern (host_mkdir (c_str rootdir) 504);
      if negb (bool_decide (mkret = 0)) then mret "-2"
      else
        let new_space := {|
          Space.spaceID := tmp_uuid;
          Space.spaceName := spaceName;
          Space.spaceSize := spaceSize;
          Space.hostCenterID := hostid;
          Space.storageSrcID := storid;
          Space.spacePath := tmp_uuid;
          Space.hostCenterName := hostCenterName;
          Space.storageSrcName := storageSrcName;
          Space.status := true;
          Space.replica_spaces := [] |} in
        if String.eqb new_space.(Space.spaceName) "" || bool_decide (new_space.(Space.spaceSize) = 0)
        then mret "-5"
        else
          flag ← ds_set spacePtr (space_prefix +:+ new_space.(Space.spaceID)) (to_json new_space);
          if negb (bool_decide (flag = 0)) then mret "-2"
          else mret new_space.(Space.spaceID).

Definition check_query (hostCenterID storageSrcID spacePath : string) : string :=
  snprintf 256 ("select UUID, name, capcity, SC_UUID, Storage_UUID, root_location, "
    +:+ "hostCenterName, storageSrcName, Status from `" +:+ c_str spacebucket
    +:+ "` where SC_UUID = " +:+ quoted (c_str hostCenterID)
    +:+ " and Storage_UUID = " +:+ quoted (c_str storageSrcID)
    +:+ " and root_location = " +:+ quoted (c_str spacePath)
    +:+ " and META().id like '" +:+ c_str space_prefix +:+ "%'").

Definition SpaceCheck (ownerID : string) (memberID : list string) (spacePathInfo : string) : M W string :=
  dbPtr ← create_datastore spacebucket;
  let tmpm := of_json Space.init spacePathInfo in
  '(storid, hostid, _, _) ←
    GetSpaceCreatePath 0 tmpm.(Space.hostCenterName) tmpm.(Space.storageSrcName);
  if String.eqb storid "" && String.eqb hostid "" then mret "false"
  else
    '(vp, err) ← ds_n1ql junk_int dbPtr (check_query hostid storid tmpm.(Space.spacePath));
    if negb (bool_decide (err = 0)) then mret "false"
    else match vp with
    | [tmp_value] =>
        let tmps := of_json Space.init tmp_value in
        if tmps.(Space.status) then mret "false"
        else
          let tmps := Space.set_status true tmps in
          addret ← SpaceSizeAdd tmps.(Space.storageSrcID) tmps.(Space.spaceSize);
          if negb (bool_decide (addret = 0)) then mret "false"
          else
            flag ← ds_set dbPtr (space_prefix +:+ tmps.(Space.spaceID)) (to_json tmps);
            if negb (bool_decide (flag = 0)) then mret "false" else mret tmps.(Space.spaceID)
    | _ => mret "false"
    end.

(** A space that cannot be read ends the whole loop with success; one whose
    capacity cannot be given back is skipped. *)
Fixpoint SpaceDelete (spaceID : list string) : M W Z :=
  match spaceID with
  | [] => mret 0
  | m :: spaceID =>
      spacePtr ← create_datastore spacebucket;
      let tmps_key := space_prefix +:+ m in
      '(vs, err) ← ds_get spacePtr tmps_key;
      if negb (bool_decide (err = 0)) then mret 0
      else
        tmps_value ← deref vs;
        let tmps := Space.set_status false (of_json Space.init tmps_value) in
        let tmps_value := to_json tmps in
        ret ← SpaceSizeDeduct tmps.(Space.storageSrcID) tmps.(Space.spaceSize);
        if negb (bool_decide (ret = 0)) then SpaceDelete spaceID
        else
          flag ← ds_set spacePtr tmps_key tmps_value;
          if negb (bool_decide (flag = 0)) then mret (-1) else SpaceDelete spaceID
  end.

(** ** Renaming *)

Definition SpaceRename (spaceID newSpaceName : string) : M W Z :=
  spaceptr ← create_datastore spacebucket;
  '(vp, err) ← ds_get spaceptr (space_prefix +:+ spaceID);
  if negb (bool_decide (err = 0)) then mret (-1)
  else
    space_value ← deref vp;
    let space := of_json Space.init space_value in
    if negb space.(Space.status) then mret (-1)
    else
      let newSpaceName := if size newSpaceName >? 50 then substr_from 50 newSpaceName else newSpaceName in
      let oldpath := localstoragepath +:+ space.(Space.spaceName) in
      let newpath := localstoragepath +:+ newSpaceName in
      if String.eqb oldpath newpath then mret 0
      else
        let space := Space.set_spaceName newSpaceName space in
        flag ← ds_set spaceptr (space_prefix +:+ spaceID) (to_json space);
        if negb (bool_decide (flag = 0)) then mret (-1) else mret 0.

Definition SpaceRenameRest (info : string) : M W response :=
  let req := of_json SpaceRequest.init info in
  result_i ← SpaceRename req.(SpaceRequest.spaceID) req.(SpaceRequest.newSpaceName);
  mret (Response Code_Ok (if bool_decide (result_i = 0) then "success" else "fail")).

(** ** Usage *)

(** The bytes [cmd] holds, its terminating NUL not counted. *)
Definition cmdsize : Z := 150.
Definition bufsize : nat := 200.

(** What [SpaceUsage] computes from the first line of the command's output. *)
Definition parse_usage (cmdresult : string) : M W Z :=
  let size_str := usage_token cmdresult in
  let unit := size size_str - 1 in
  if unit <? 0 then undefined
  else
    let formal_size := default 0 (sscanf_d (substr 0 (Z.to_nat unit) size_str)) in
    formal_size ← checked_i32 formal_size;
    let c := String.get (Z.to_nat unit) size_str in
    if bool_decide (c = Some "G"%char) then
      kM ← checked_i32 (formal_size * 1000);
      checked_i32 (kM * 1000)
    else if bool_decide (c = Some "M"%char) then checked_i32 (formal_size * 1000)
    else if bool_decide (c = Some "K"%char) then mret formal_size
    else mret 0.

Definition SpaceUsage (spacepath : string) : M W Z :=
  path ← deref (config "manager.data_path");
  let spacepath := path +:+ spacepath in
  let cmd := "du -h -d 0 " +:+ c_str spacepath in
  if size cmd >=? cmdsize then undefined
  else
    fp ← extern (host_popen cmd);
    match fp with
    | None => mret (-1)
    | Some out => parse_usage (c_str (fgets (bufsize - 2) out))
    end.

Definition SpaceUsageRest (body : string) : M W response :=
  result_i ← SpaceUsage body;
  mret (Response Code_Ok (json_encode codec_int64 result_i)).

(** A request to another centre, waited for: without an answer the caller
    blocks for ever. *)
Definition remote_usage (mycenter : CenterInfo.t) (hostCenterID spacePath : string) : M W Z :=
  let tmp_ip := default "" (mycenter.(CenterInfo.centerIP) !! hostCenterID) in
  let tmp_port := default "" (mycenter.(CenterInfo.centerPort) !! hostCenterID) in
  answer ← extern (host_post (usage_url tmp_ip tmp_port) spacePath);
  body ← deref answer;
  mret (json_decode codec_int64 body junk_int64).

Fixpoint SpaceUsageCheck_loop (mycenter : CenterInfo.t) (result : list Space.t) (res : list Z)
    : M W (list Z) :=
  match result with
  | [] => mret res
  | spacemeta :: result =>
      u ← (if String.eqb ManagerID spacemeta.(Space.hostCenterID)
           then SpaceUsage spacemeta.(Space.spacePath)
           else remote_usage mycenter spacemeta.(Space.hostCenterID) spacemeta.(Space.spacePath));
      SpaceUsageCheck_loop mycenter result (res ++ [u])
  end.

Definition c_key : string := "center_information".

Definition SpaceUsageCheck (spaceID : list string) : M W (list Z) :=
  result ← GetSpacePosition [] spaceID;
  f0_dbPtr ← open_datastore bucket_account_info;
  '(pcenter_value, c_error) ← ds_get f0_dbPtr c_key;
  if negb (bool_decide (c_error = 0)) then mret []
  else
    text ← deref pcenter_value;
    SpaceUsageCheck_loop (of_json CenterInfo.init text) result [].

Definition SpaceUsageCheckRest (info : string) : M W response :=
  let req := of_json SpaceRequest.init info in
  result_i ← SpaceUsageCheck req.(SpaceRequest.spaceIDs);
  mret (Response Code_Ok (if bool_decide (length result_i ≠ 0%nat)
    then json_encode (codec_vector codec_int64 0) result_i else "fail")).

(** ** Resizing *)

Definition SpaceSizeChange (spaceID : string) (newSpaceSize : Z) : M W Z :=
  if newSpaceSize <? 0 then mret EINVAL
  else
    spaceptr ← create_datastore spacebucket;
    '(vp, err) ← ds_get spaceptr (space_prefix +:+ spaceID);
    if negb (bool_decide (err = 0)) then mret EAGAIN
    else
      space_value ← deref vp;
      let spacejson := of_json Space.init space_value in
      f0_dbPtr ← open_datastore bucket_account_info;
      '(pcenter_value, c_error) ← ds_get f0_dbPtr c_key;
      if negb (bool_decide (c_error = 0)) then mret EAGAIN
      else
        text ← deref pcenter_value;
        let mycenter := of_json CenterInfo.init text in
        realsize ← (if String.eqb ManagerID spacejson.(Space.hostCenterID)
                    then SpaceUsage spacejson.(Space.spacePath)
                    else remote_usage mycenter spacejson.(Space.hostCenterID) spacejson.(Space.spacePath));
        let realsizetoGB := Z.quot (Z.quot realsize (1000 * 1000) + 1) 1 in
        if newSpaceSize <=? realsizetoGB then mret EINVAL
        else if newSpaceSize >? spacejson.(Space.spaceSize) then
          d ← checked_i64 (newSpaceSize - spacejson.(Space.spaceSize));
          ret ← SpaceSizeAdd spacejson.(Space.storageSrcID) d;
          if bool_decide (ret = 0) then
            flag ← ds_set spaceptr (space_prefix +:+ spaceID) (to_json (Space.set_spaceSize newSpaceSize spacejson));
            if negb (bool_decide (flag = 0)) then mret EAGAIN else mret ret
          else mret ret
        else if newSpaceSize <? spacejson.(Space.spaceSize) then
          d ← checked_i64 (spacejson.(Space.spaceSize) - newSpaceSize);
          ret ← SpaceSizeDeduct spacejson.(Space.storageSrcID) d;
          if bool_decide (ret = 0) then
            flag2 ← ds_set spaceptr (space_prefix +:+ spaceID) (to_json (Space.set_spaceSize newSpaceSize spacejson));
            if negb (bool_decide (flag2 = 0)) then mret EAGAIN else mret ret
          else mret ret
        else mret 0.

Definition SpaceSizeChangeRest (info : string) : M W response :=
  let req := of_json SpaceRequest.init info in
  result ← SpaceSizeChange req.(SpaceRequest.spaceID) req.(SpaceRequest.newSpaceSize);
  mret (Response Code_Ok (json_encode codec_int result)).

Definition SpaceSizeChangeApply (apply : string) : M W Z :=
  applyPtr ← create_datastore applybucket;
  uuid ← extern host_uuid;
  let key := "spsiz-" +:+ uuid in
  flag ← ds_set applyPtr key (to_json (struct_apply_info.mk key apply));
  if negb (bool_decide (flag = 0)) then mret EAGAIN else mret 0.

Definition SpaceSizeChangeApplyRest (info : string) : M W response :=
  result ← SpaceSizeChangeApply info;
  mret (Response Code_Ok (json_encode codec_int result)).

(** ** Counting and replicas *)

Definition number_query (hostCenterName : string) : string :=
  snprintf 256 ("select UUID, name, capcity, SC_UUID, Storage_UUID, root_location, "
    +:+ "hostCenterName, storageSrcName, Status from `" +:+ c_str spacebucket
    +:+ "` where hostCenterName = " +:+ quoted (c_str hostCenterName)
    +:+ " and META().id like '" +:+ c_str space_prefix +:+ "%'").

Definition SpaceNumber (hostCenterName : string) : M W Z :=
  spacePtr ← create_datastore spacebucket;
  '(vp, err) ← ds_n1ql junk_int spacePtr (number_query hostCenterName);
  if negb (bool_decide (err = 0)) then mret EAGAIN else mret (to_i32 (Z.of_nat (length vp))).

Definition SpaceNumberRest (info : string) : M W response :=
  result ← SpaceNumber info;
  mret (Response Code_Ok (json_encode codec_int result)).

(** The results of [arr_insert_uniq] are not looked at. *)
Fixpoint link_replicas (dbr : option CouchbaseDatastore) (single : string)
    (replicated_spaces : list string) : M W unit :=
  match replicated_spaces with
  | [] => mret tt
  | it :: rest =>
      _ ← ds_arr_insert_uniq dbr (space_prefix +:+ it) "replica_spaces" (json_encode codec_string single);
      _ ← ds_arr_insert_uniq dbr (space_prefix +:+ single) "replica_spaces" (json_encode codec_string it);
      link_replicas dbr single rest
  end.

Definition SpaceReplica (replicaParams : gmap string string) : M W Z :=
  let replicated := default "" (replicaParams !! "replicated") in
  let single := default "" (replicaParams !! "single") in
  dbc ← create_datastore spacebucket;
  _ ← deref dbc;
  '(res, err) ← ds_get_sub dbc (space_prefix +:+ replicated) "replica_spaces";
  if negb (bool_decide (err = 0)) then mret err
  else
    text ← deref res;
    let replicated_spaces := json_decode (codec_vector codec_string "") text [] in
    if size_of replicated_spaces >=? 5 then mret (- E2BIG)
    else
      _ ← link_replicas dbc single replicated_spaces;
      _ ← ds_arr_insert_uniq dbc (space_prefix +:+ replicated) "replica_spaces" (json_encode codec_string single);
      _ ← ds_arr_insert_uniq dbc (space_prefix +:+ single) "replica_spaces" (json_encode codec_string replicated);
      mret 0.

Definition SpaceReplicaRest (body : string) : M W response :=
  let replicaParams := json_decode (codec_map codec_string "") body ∅ in
  match replicaParams !! "replicated", replicaParams !! "single" with
  | Some _, Some _ =>
      result ← SpaceReplica replicaParams;
      mret (Response Code_Ok (json_encode codec_int result))
  | _, _ => mret (Response Code_Bad_Request "")
  end.
End space.

(** ** Proofs *)

Lemma parsed_space_wf `{Rapidjson, Indet} text : Space.wf (of_json Space.init text).
Proof. exact (of_json_wf Space.init text Zone.space_init_wf). Qed.

Lemma storage_init_wf `{Indet} : StorageResource.wf StorageResource.init.
Proof.
  unfold StorageResource.wf, StorageResource.init;
    split_and?; done || apply junk_int_wf || apply junk_int64_wf.
Qed.

Lemma parsed_storage_wf `{Rapidjson, Indet} text :
  StorageResource.wf (of_json StorageResource.init text).
Proof. exact (of_json_wf StorageResource.init text storage_init_wf). Qed.

Lemma set_assign_wf v r :
  StorageResource.wf r → in_i64 v = true → StorageResource.wf (StorageResource.set_assign_capacity v r).
Proof. unfold StorageResource.wf. naive_solver. Qed.

Lemma set_size_wf v s : Space.wf s → in_i64 v = true → Space.wf (Space.set_spaceSize v s).
Proof. unfold Space.wf. naive_solver. Qed.

Lemma set_status_wf v s : Space.wf s → Space.wf (Space.set_status v s).
Proof. unfold Space.wf. naive_solver. Qed.

(** *** The map ordered by remaining capacity *)
Definition ma_gt (x y : Z * string) : Prop := x.1 > y.1.

Lemma ma_insert_keys k v ma k' :
  k' ∈ (ma_insert k v ma).*1 ↔ k' = k ∨ k' ∈ ma.*1.
Proof.
  induction ma as [|[k1 v1] ma IH]; cbn; [set_solver|].
  destruct (Z.eqb_spec k1 k) as [->|]; cbn; [set_solver|].
  destruct (k >? k1); cbn; set_solver.
Qed.

Lemma ma_insert_elem k v ma e : e ∈ ma_insert k v ma → e = (k, v) ∨ e ∈ ma.
Proof.
  induction ma as [|[k1 v1] ma IH]; cbn; [set_solver|].
  destruct (k1 =? k); cbn; [set_solver|]. destruct (k >? k1); cbn; set_solver.
Qed.

Lemma ma_insert_sorted k v ma : StronglySorted ma_gt ma → StronglySorted ma_gt (ma_insert k v ma).
Proof.
  induction 1 as [|[k1 v1] ma Hs IH Hall]; cbn; [repeat constructor|].
  destruct (Z.eqb_spec k1 k) as [->|Hne]; [by constructor|].
  destruct (k >? k1) eqn:Hgt.
  - repeat constructor; try done; unfold ma_gt in *; cbn in *; [lia|].
    eapply Forall_impl; [exact Hall|]. cbn. intros; lia.
  - constructor; [done|]. rewrite Forall_forall in Hall |- *.
    intros e [->|He]%ma_insert_elem; unfold ma_gt in *; cbn; [lia|]. by apply (Hall e He).
Qed.

Lemma ma_head_max ma e k : StronglySorted ma_gt ma → head ma = Some e → k ∈ ma.*1 → k ≤ e.1.
Proof.
  intros Hs He Hk. destruct ma as [|e' ma]; [done|]. injection He as ->. inversion_clear Hs as [|?? _ Hall].
  apply list_elem_of_fmap in Hk as (x & -> & [->|Hx]%elem_of_cons); [done|].
  rewrite Forall_forall in Hall. specialize (Hall x Hx). unfold ma_gt in Hall. lia.
Qed.

Definition remaining (r : StorageResource.t) : Z :=
  r.(StorageResource.total_capacity) - r.(StorageResource.assign_capacity).

(** *** The line [du] prints *)
Fixpoint all_digits (s : string) : bool :=
  match s with
  | EmptyString => true
  | String c s' => (if digit_value c then true else false) && all_digits s'
  end.

Lemma read_digits_app a s t :
  all_digits s = true → read_digits a (s +:+ t) = read_digits (read_digits a s) t.
Proof.
  revert a. induction s as [|c s IH]; intros a; [done|]. rewrite append_cons. cbn.
  destruct (digit_value c); [apply IH|done].
Qed.

(** A fraction that follows the digits, if any, starts with a dot. *)
Definition fraction (s : string) : Prop := s = "" ∨ ∃ t, s = String "." t.

Lemma digit_not_special c d : digit_value c = Some d →
  is_space c = false ∧ Ascii.eqb c "-" = false ∧ Ascii.eqb c "+" = false.
Proof. destruct c as [[] [] [] [] [] [] [] []]; by vm_compute. Qed.

Lemma sscanf_digits s t :
  all_digits s = true → s ≠ "" → fraction t → sscanf_d (s +:+ t) = Some (read_digits 0 s).
Proof.
  intros Hs Hne Ht. destruct s as [|c s]; [done|]. cbn in Hs.
  destruct (digit_value c) as [d|] eqn:Hd; [|done].
  destruct (digit_not_special c d Hd) as (H1 & H2 & H3).
  unfold sscanf_d. rewrite append_cons. cbn [skip_spaces]. rewrite H1, H2, H3, Hd.
  rewrite <-append_cons, read_digits_app by (cbn; by rewrite Hd).
  f_equal. destruct Ht as [->|[t' ->]]; done.
Qed.

Lemma fgets_line n line more :
  find_char "010" line = None → (String.length line < n)%nat →
  fgets n (line +:+ String "010" more) = line +:+ String "010" "".
Proof.
  revert n. induction line as [|c line IH]; intros n Hl Hn; cbn in Hn.
  - destruct n; [lia|]. done.
  - destruct n; [lia|]. rewrite !append_cons. cbn [find_char fgets] in *.
    rewrite Ascii.eqb_sym. destruct (Ascii.eqb "010" c); [done|].
    rewrite IH; [done| |lia]. by destruct (find_char "010" line).
Qed.

Lemma find_char_app c a b :
  find_char c a = None → find_char c b = None → find_char c (a +:+ b) = None.
Proof. intros Ha Hb. by rewrite find_char_append_None, Hb. Qed.

Lemma get_append a c b : String.get (String.length a) (a +:+ String c b) = Some c.
Proof. induction a; [done|]. rewrite append_cons. apply IHa. Qed.

Lemma c_str_append a b : c_str a = a → c_str b = b → c_str (a +:+ b) = a +:+ b.
Proof.
  intros Ha Hb. induction a as [|c a IH]; [done|]. rewrite append_cons. cbn in *.
  destruct (Ascii.eqb c zero); [done|]. injection Ha as Ha. by rewrite IH.
Qed.

Definition unit_factor (c : ascii) : Z :=
  if Ascii.eqb c "K" then 1 else if Ascii.eqb c "M" then 1000
  else if Ascii.eqb c "G" then 1000000 else 0.

Lemma find_first_of_None c s : find_char c s = None → find_first_of c 0 s = npos.
Proof. intros Hs. unfold find_first_of, find_from. change (Z.to_nat 0) with 0%nat. cbn [str_drop]. by rewrite Hs. Qed.

Lemma find_first_of_Some c a b :
  find_char c a = None → find_first_of c 0 (a +:+ String c b) = size a.
Proof.
  intros Ha. unfold find_first_of, find_from. change (Z.to_nat 0) with 0%nat. cbn [str_drop].
  rewrite find_char_append_None by done. cbn. rewrite Ascii.eqb_refl. cbn. unfold size. f_equal. lia.
Qed.

(** A line without a space: the token is what precedes the tab. *)
Lemma usage_token_line front rest :
  find_char "009" front = None → find_char " " (front +:+ String "009" rest) = None →
  size front < 2 ^ 63 → usage_token (front +:+ String "009" rest) = front.
Proof.
  intros Htab Hsp Hsz. unfold usage_token. rewrite find_first_of_None by done.
  change (to_u64 (npos + 1)) with 0. rewrite find_first_of_Some by done.
  assert (Hu : to_u64 (size front - npos - 1) = size front).
  { unfold to_u64, npos. symmetry. apply (Z.mod_unique _ _ (-1)); unfold size in *; lia. }
  rewrite Hu, Z.min_l by (unfold size; rewrite length_append; lia).
  unfold size, substr. rewrite Nat2Z.id. change (Z.to_nat 0) with 0%nat. cbn [str_drop]. apply str_take_append.
Qed.

(** The parser on "number, unit, tab, rest". *)
Lemma parse_usage_line {W} (digits frac : string) (c : ascii) (rest : string) (w : W) :
  all_digits digits = true → digits ≠ "" → fraction frac →
  let front := (digits +:+ frac) +:+ String c "" in
  find_char "009" front = None → find_char " " (front +:+ String "009" rest) = None →
  size front < 2 ^ 63 →
  let n := read_digits 0 digits in
  0 ≤ n → in_i32 (n * unit_factor c) = true → in_i32 n = true →
  parse_usage (front +:+ String "009" rest) w = (Val (n * unit_factor c), w).
Proof.
  intros Hd Hne Hf front Htab Hsp Hsz n Hn0 Hnf Hn. unfold parse_usage.
  rewrite usage_token_line by done. subst front. cbn zeta.
  assert (Hlen : size ((digits +:+ frac) +:+ String c "") - 1 = Z.of_nat (String.length (digits +:+ frac))).
  { unfold size. rewrite (length_append (digits +:+ frac)). cbn. lia. }
  rewrite Hlen. destruct (Z.ltb_spec (Z.of_nat (String.length (digits +:+ frac))) 0); [lia|].
  rewrite Nat2Z.id, (get_append (digits +:+ frac) c ""). unfold substr. cbn [str_drop]. rewrite str_take_append.
  rewrite sscanf_digits by done. cbn [default from_option id]. fold n.
  unfold unit_factor in *. unfold checked_i32, mbind, M_bind, mret, M_ret. rewrite Hn.
  repeat case_bool_decide; simplify_eq; cbn in *; rewrite ?Z.mul_1_r, ?Z.mul_0_r; try done.
  - assert (Hk : in_i32 (n * 1000) = true) by (unfold in_i32 in *; lia). rewrite Hk.
    by replace (n * 1000 * 1000) with (n * 1000000) by lia; rewrite Hnf.
  - by rewrite Hnf.
  - destruct (Ascii.eqb_spec c "K"), (Ascii.eqb_spec c "M"), (Ascii.eqb_spec c "G"); subst; try done.
    by rewrite Z.mul_0_r.
Qed.

Section props.
Context {W : Type} `{CouchbaseLaws W, !Host W, !HostLaws W, RapidjsonLaws, Indet}.
Implicit Types (D : gmap (string * string) string) (w : W).

Definition stor_key (id : string) : string * string := dkey storagebucket (StorageResource.prefix +:+ id).
Definition space_key (id : string) : string * string := dkey spacebucket (space_prefix +:+ id).

Lemma space_stor_key id id' b b' :
  dkey b (space_prefix +:+ id) ≠ dkey b' (StorageResource.prefix +:+ id').
Proof. unfold dkey, space_prefix, StorageResource.prefix. rewrite !append_cons. intros [=]. Qed.

Lemma stor_key_inj id id' : stor_key id = stor_key id' ↔ id = id'.
Proof. unfold stor_key. rewrite dkey_inj. split; [apply append_inj_l|by intros ->]. Qed.
Lemma space_key_inj id id' : space_key id = space_key id' ↔ id = id'.
Proof. unfold space_key. rewrite dkey_inj. split; [apply append_inj_l|by intros ->]. Qed.

(** No storage resource is over-allocated. *)
Definition capacity_ok D : Prop := ∀ id doc, D !! stor_key id = Some doc →
  ∃ r, StorageResource.wf r ∧ doc = to_json r ∧
    0 ≤ r.(StorageResource.assign_capacity) ≤ r.(StorageResource.total_capacity).

(** Every space document is a space of non-negative size on some resource. *)
Definition spaces_ok D : Prop := ∀ id doc, D !! space_key id = Some doc →
  ∃ s, Space.wf s ∧ doc = to_json s ∧ 0 ≤ s.(Space.spaceSize) ∧
    ∃ sid, s.(Space.storageSrcID) = StorageResource.prefix +:+ sid.

Definition space_inv D : Prop := capacity_ok D ∧ spaces_ok D.

Lemma capacity_ok_insert D id r :
  capacity_ok D → StorageResource.wf r →
  0 ≤ r.(StorageResource.assign_capacity) ≤ r.(StorageResource.total_capacity) →
  capacity_ok (<[stor_key id := to_json r]> D).
Proof.
  intros HD Hr Hle id' doc. destruct (decide (id' = id)) as [->|Hne].
  - rewrite lookup_insert_eq. intros [= <-]. by exists r.
  - rewrite lookup_insert_ne by (by rewrite stor_key_inj). apply HD.
Qed.

(** The invariant together with any other property of the database that space
    and resource documents have no part in. *)
Definition inv_with (P : gmap (string * string) string → Prop) D : Prop := space_inv D ∧ P D.

Section with_property.
Variable P : gmap (string * string) string → Prop.
Hypothesis Hstor : ∀ D id v, P D → P (<[stor_key id := v]> D).
Hypothesis Hspace : ∀ D id v, P D → P (<[space_key id := v]> D).

Lemma inv_stor D id r :
  inv_with P D → StorageResource.wf r →
  0 ≤ r.(StorageResource.assign_capacity) ≤ r.(StorageResource.total_capacity) →
  inv_with P (<[stor_key id := to_json r]> D).
Proof.
  intros [[HC HS] HP] Hr Hle. split; [|by apply Hstor]. split; [by apply capacity_ok_insert|].
  intros id' doc. rewrite lookup_insert_ne; [apply HS|]. intros He. by apply (space_stor_key id' id spacebucket storagebucket).
Qed.

Lemma inv_space D id s sid :
  inv_with P D → Space.wf s → 0 ≤ s.(Space.spaceSize) →
  s.(Space.storageSrcID) = StorageResource.prefix +:+ sid →
  inv_with P (<[space_key id := to_json s]> D).
Proof.
  intros [[HC HS] HP] Hs Hle Hsid. split; [|by apply Hspace]. split.
  - intros id' doc. rewrite lookup_insert_ne; [apply HC|]. apply space_stor_key.
  - intros id' doc. destruct (decide (id' = id)) as [->|Hne].
    + rewrite lookup_insert_eq. intros [= <-]. eauto 10.
    + rewrite lookup_insert_ne by (by rewrite space_key_inj). apply HS.
Qed.

(** The two capacity operations keep the invariant for sizes that are not
    negative, whatever fails. *)
Lemma SpaceSizeAdd_inv sid n D w :
  inv_with P D → 0 ≤ n → stored D w →
  wp (SpaceSizeAdd (StorageResource.prefix +:+ sid) n) (λ _ w', ∃ D', stored D' w' ∧ inv_with P D' ∧
      ∀ id, D' !! space_key id = D !! space_key id) (stored D) w.
Proof.
  intros HI Hn HD. unfold SpaceSizeAdd. wp_step. db_any. wp_step. db_any; wp_steps; eauto.
  apply wp_checked_i64; [intros Hsum|by auto]. wp_steps; eauto.
  simplify_eq. match goal with Hl : D !! _ = Some _ |- _ => destruct (proj1 (proj1 HI) _ _ Hl) as (r & Hr & -> & Hle) end.
  rewrite (of_to_json (A := StorageResource.t)) in * by done.
  assert (inv_with P (<[stor_key sid := to_json (StorageResource.set_assign_capacity
    (StorageResource.assign_capacity r + n) r)]> D)).
  { apply inv_stor; [done|by apply set_assign_wf|]. cbn. lia. }
  db_any; wp_steps; eexists; (split; [eassumption|]); (split; [done|]); try done;
    intros id; apply lookup_insert_ne; intros He; by apply (space_stor_key id sid spacebucket storagebucket).
Qed.
Lemma SpaceSizeDeduct_inv sid n D w :
  inv_with P D → 0 ≤ n → stored D w →
  wp (SpaceSizeDeduct (StorageResource.prefix +:+ sid) n) (λ _ w', ∃ D', stored D' w' ∧ inv_with P D' ∧
      ∀ id, D' !! space_key id = D !! space_key id) (stored D) w.
Proof.
  intros HI Hn HD. unfold SpaceSizeDeduct. wp_step. db_any. wp_step. db_any; wp_steps; eauto.
  apply wp_checked_i64; [intros Hsum|by auto]. wp_steps; eauto.
  simplify_eq. match goal with Hl : D !! _ = Some _ |- _ => destruct (proj1 (proj1 HI) _ _ Hl) as (r & Hr & -> & Hle) end.
  rewrite (of_to_json (A := StorageResource.t)) in * by done.
  assert (inv_with P (<[stor_key sid := to_json (StorageResource.set_assign_capacity
    (StorageResource.assign_capacity r - n) r)]> D)).
  { apply inv_stor; [done|by apply set_assign_wf|]. cbn. lia. }
  db_any; wp_steps; eexists; (split; [eassumption|]); (split; [done|]); try done;
    intros id; apply lookup_insert_ne; intros He; by apply (space_stor_key id sid spacebucket storagebucket).
Qed.

(** [m] keeps an invariant of the database, whatever fails and even when the
    run stops half way. *)
Definition keeps {A : Type} (I : gmap (string * string) string → Prop) (m : M W A) : Prop :=
  ∀ D w, I D → stored D w →
    wp m (λ _ w', ∃ D', stored D' w' ∧ I D') (λ w', ∃ D', stored D' w' ∧ I D') w.

Lemma SpaceUsage_any path D w : stored D w → wp (SpaceUsage path) (λ _, stored D) (stored D) w.
Proof.
  intros HD. unfold SpaceUsage. wp_steps; auto. db_any. wp_steps; auto.
  unfold parse_usage, checked_i32. wp_steps; auto.
Qed.

Lemma remote_usage_any c h path D w :
  stored D w → wp (remote_usage c h path) (λ _, stored D) (stored D) w.
Proof. intros HD. unfold remote_usage. wp_steps. db_any. wp_steps; auto. Qed.

Lemma fill_ma_any rows ma D w : stored D w → wp (fill_ma rows ma) (λ _, stored D) (stored D) w.
Proof.
  revert ma w. induction rows as [|r rows IH]; intros ma w HD; cbn [fill_ma].
  - by apply wp_ret.
  - wp_step. by apply wp_checked_i64; [intros _; apply IH|].
Qed.

Lemma GetSpaceCreatePath_any n hn sn D w :
  c_str hn = hn → c_str sn = sn → stored D w →
  wp (GetSpaceCreatePath n hn sn) (λ '(storid, hostid, hn', sn') w', stored D w' ∧
      c_str storid = storid ∧ c_str hostid = hostid ∧ c_str hn' = hn' ∧ c_str sn' = sn' ∧
      (storid = "" ∧ hostid = "" ∨ ∃ sid, storid = StorageResource.prefix +:+ sid)) (stored D) w.
Proof.
  intros Hhn Hsn HD. unfold GetSpaceCreatePath. wp_step. db_any. wp_step.
  eapply wp_select_any; [by unfold path_query; case_match|done|done|by auto|intros rows e w2 HD2].
  wp_steps; try (split_and!; auto; fail). eapply wp_mono; [| |by apply fill_ma_any]; [|done].
  intros ma w3 HD3. wp_steps; [|done]. set (r := of_json StorageResource.init a.2).
  pose proof (parsed_storage_wf a.2) as Hr. fold r in Hr. unfold StorageResource.wf in Hr.
  destruct_and?. cbn [enc_wf codec_string] in *. split_and!; try done; [|by right; eexists].
  unfold StorageResource.prefix. rewrite !append_cons. cbn -[append]. rewrite append_nil_l. congruence.
Qed.

(** A space without its replicas. *)
Definition set_replicas (l : list string) (s : Space.t) : Space.t :=
  Space.mk s.(Space.spaceID) s.(Space.spaceName) s.(Space.spaceSize) s.(Space.hostCenterID) s.(Space.storageSrcID)
    s.(Space.spacePath) s.(Space.hostCenterName) s.(Space.storageSrcName) s.(Space.status) l.
Lemma no_replicas_wf s : Space.wf s → Space.wf (set_replicas [] s).
Proof. unfold Space.wf. cbn. intros Hs. split_and?; try naive_solver; apply Forall_nil_2. Qed.
Lemma text_without_replicas s : Space.wf s → of_json Space.init (to_json (set_replicas [] s)) = set_replicas [] s.
Proof. intros Hwf. apply (of_to_json (A := Space.t)). by apply no_replicas_wf. Qed.

(** The codes by which [SpaceCreate] reports a failure. *)
Definition is_failure (res : string) : Prop := res ∈ ["-1"; "-2"; "-3"; "-5"].

(** A result that is no failure code is the identifier of a stored space. *)
Lemma SpaceCreate_any name owner members n info group D w :
  c_str name = name → 0 ≤ n → in_i64 n = true → inv_with P D → stored D w →
  wp (SpaceCreate name owner members n info group)
    (λ res w', ∃ D', stored D' w' ∧ inv_with P D' ∧ c_str res = res ∧
       (is_failure res ∨ ∃ s, D' !! space_key res = Some (to_json s) ∧ Space.wf s ∧
          s.(Space.spaceName) = name ∧ s.(Space.spaceSize) = n ∧ s.(Space.status) = true))
    (λ w', ∃ D', stored D' w' ∧ inv_with P D') w.
Proof.
  intros Hname Hn Hn64 HI HD. unfold SpaceCreate. wp_step. db_any. wp_step.
  pose proof (parsed_space_wf info) as Hp. unfold Space.wf in Hp. destruct_and?.
  assert (Hfail : ∀ res D' w', is_failure res → inv_with P D' → stored D' w' →
    ∃ D', stored D' w' ∧ inv_with P D' ∧ c_str res = res ∧
       (is_failure res ∨ ∃ s, D' !! space_key res = Some (to_json s) ∧ Space.wf s ∧
          s.(Space.spaceName) = name ∧ s.(Space.spaceSize) = n ∧ s.(Space.status) = true)).
  { intros res D' w2 Hf HI' HD'. exists D'. split_and!; [done..| |by left].
    unfold is_failure in Hf. set_unfold. naive_solver. }
  assert (is_failure "-1" ∧ is_failure "-2" ∧ is_failure "-3" ∧ is_failure "-5")
    as (H1' & H2' & H3' & H5') by (unfold is_failure; set_solver).
  eapply wp_mono; [| |apply GetSpaceCreatePath_any; [done|done|eassumption]]; [|by eauto].
  intros [[[storid hostid] hn] sn] w2 (HD2 & Hsc & Hhc & Hhn & Hsn & Hsid).
  wp_steps; eauto. destruct Hsid as [[-> ->]|[sid ->]]; [done|].
  eapply wp_mono; [| |by apply SpaceSizeAdd_inv]; [|by eauto].
  intros e w3 (D' & HD' & HI' & _). wp_steps; eauto. db_any. wp_steps. db_any. wp_steps; eauto.
  cbn [Space.spaceID].
  match goal with |- context [to_json ?x] => set (s := x) end.
  assert (Hwf : Space.wf s).
  { unfold Space.wf, s; split_and?; try done. apply Forall_nil_2. }
  assert (inv_with P (<[space_key (Space.spaceID s) := to_json s]> D')) by by apply (inv_space D' _ s sid).
  db_any; wp_steps; eauto.
  eexists. split_and!; [eassumption|done|done|]. right. exists s. split_and!; try done. apply lookup_insert_eq.
Qed.

Lemma keeps_SpaceCreate name owner members n info group :
  c_str name = name → 0 ≤ n → in_i64 n = true →
  keeps (inv_with P) (SpaceCreate name owner members n info group).
Proof.
  intros Hname Hn Hn64 D w HI HD.
  eapply wp_mono; [| |by eapply SpaceCreate_any]; [|done]. naive_solver.
Qed.

Lemma keeps_SpaceDelete ids : keeps (inv_with P) (SpaceDelete ids).
Proof.
  induction ids as [|m ids IH]; intros D w HI HD; cbn [SpaceDelete]; [apply wp_ret; eauto|].
  wp_step. db_any. wp_steps. db_any; wp_steps; eauto. simplify_eq.
  match goal with Hl : D !! _ = Some _ |- _ => destruct (proj2 (proj1 HI) _ _ Hl) as (s & Hs & -> & Hle & sid & Hsid) end.
  rewrite (of_to_json (A := Space.t)) by done. cbn [Space.set_status Space.storageSrcID Space.spaceSize].
  rewrite Hsid. eapply wp_mono; [| |by apply SpaceSizeDeduct_inv]; [|by eauto].
  intros e w3 (D' & HD' & HI' & _). wp_steps; [by apply (IH D')|].
  assert (inv_with P (<[space_key m := to_json (Space.set_status false s)]> D')).
  { apply (inv_space D' _ _ sid); [done|by apply set_status_wf|done|done]. }
  unfold Space.set_status in *. rewrite Hsid in *.
  db_any; wp_steps; eauto; by eapply IH.
Qed.

Lemma keeps_SpaceRename id name : c_str name = name → keeps (inv_with P) (SpaceRename id name).
Proof.
  intros Hname D w HI HD. unfold SpaceRename. wp_step. db_any. wp_step. db_any; wp_steps; eauto. simplify_eq.
  match goal with Hl : D !! _ = Some _ |- _ => destruct (proj2 (proj1 HI) _ _ Hl) as (s & Hs & -> & Hle & sid & Hsid) end.
  rewrite (of_to_json (A := Space.t)) in * by done.
  match goal with |- context [Space.set_spaceName ?x s] => set (n := x) end.
  assert (inv_with P (<[space_key id := to_json (Space.set_spaceName n s)]> D)).
  { apply (inv_space D _ _ sid); [done| |done|done].
    assert (Hn : c_str n = n) by (unfold n; case_match; [by apply c_str_drop|done]).
    unfold Space.wf in *. cbn. naive_solver. }
  db_any; wp_steps; eauto.
Qed.
Lemma keeps_SpaceSizeChange id n : in_i64 n = true → keeps (inv_with P) (SpaceSizeChange id n).
Proof.
  intros Hn D w HI HD. unfold SpaceSizeChange. wp_steps; eauto. db_any. wp_step. db_any; wp_steps; eauto.
  simplify_eq. match goal with Hl : D !! _ = Some _ |- _ => destruct (proj2 (proj1 HI) _ _ Hl) as (s & Hs & -> & Hle & sid & Hsid) end.
  rewrite (of_to_json (A := Space.t)) in * by done.
  db_any. wp_step. db_any; wp_steps; eauto.
  all: eapply (wp_mono _ (λ _, stored D) _ (stored D));
    [|by eauto|by first [apply SpaceUsage_any|apply remote_usage_any]]; intros real w2 HD2.
  all:
  wp_steps; eauto; (apply wp_checked_i64; [intros _|by eauto]); wp_step; rewrite Hsid;
    (eapply wp_mono; [| |first [apply SpaceSizeAdd_inv | apply SpaceSizeDeduct_inv]; [done|lia|done]]; [|by eauto]);
    intros e w3 (D' & HD' & HI' & _); wp_steps; eauto;
    (assert (inv_with P (<[space_key id := to_json (Space.set_spaceSize n s)]> D'));
     [apply (inv_space D' _ _ sid); [done|by apply set_size_wf|cbn; lia|done]|]);
    db_any; wp_steps; eauto.
Qed.

(** A row that [check_query] selects has the members of a stored space, but for its
    replicas, which the query does not name. *)
Definition row_of D (row : string) : Prop := ∃ id doc, D !! space_key id = Some doc ∧
  of_json Space.init row = set_replicas [] (of_json Space.init doc).
Definition selects_spaces : Prop := ∀ c hostid storid path w,
  Forall (row_of (docs w)) (q_rows (cb_query c (check_query hostid storid path) w).1).

Lemma keeps_SpaceCheck owner members info : selects_spaces →
  keeps (inv_with P) (SpaceCheck owner members info).
Proof.
  intros Hsel D w HI HD. unfold SpaceCheck. wp_step. db_any. wp_step.
  pose proof (parsed_space_wf info) as Hp. unfold Space.wf in Hp. destruct_and?.
  eapply wp_mono; [| |apply GetSpaceCreatePath_any; [done|done|eassumption]]; [|by eauto].
  intros [[[storid hostid] hn] sn] w2 (HD2 & _). wp_steps; eauto.
  eapply wp_select_rows_any; [reflexivity|eassumption|eassumption|by eauto|]. intros rows e w3 Hrows HD3.
  cbn beta iota. apply wp_if; intros _; [apply wp_ret; by eauto|]. destruct rows as [|row [|]]; try (apply wp_ret; by eauto).
  destruct Hrows as [|Hrows]; [done|].
  match type of Hrows with _ = q_rows (cb_query ?c (check_query ?h ?s ?p) ?w').1 => pose proof (Hsel c h s p w') as Hall end.
  rewrite <-Hrows in Hall. apply Forall_cons in Hall as [(id & doc & Hdoc & Hrow) _]. unfold stored in HD2. rewrite HD2 in Hdoc.
  destruct (proj2 (proj1 HI) _ _ Hdoc) as (s0 & Hs & -> & Hle & sid & Hsid).
  rewrite (of_to_json (A := Space.t)) in Hrow by done. rewrite Hrow.
  apply wp_if; intros _; [apply wp_ret; by eauto|]. cbn zeta. wp_step. cbn [Space.set_status set_replicas Space.storageSrcID Space.spaceSize Space.spaceID]. rewrite Hsid.
  eapply wp_mono; [| |by apply SpaceSizeAdd_inv]; [|by eauto]. intros e2 w4 (D' & HD' & HI' & _). wp_steps; eauto.
  match goal with |- context [to_json ?x] => set (s' := x) end.
  assert (inv_with P (<[space_key (Space.spaceID s0) := to_json s']> D')).
  { apply (inv_space D' _ _ sid); [done|by apply set_status_wf, no_replicas_wf|done|done]. }
  db_any; wp_steps; eauto.
Qed.

End with_property.

Lemma keeps_final {A : Type} I (m : M W A) w : keeps I m → I (docs w) → I (docs (m w).2).
Proof.
  intros Hm HI. apply (wp_final m (λ w', I (docs w'))).
  eapply wp_mono; [| |apply (Hm (docs w) w HI); done];
    [intros ? ? (D' & Hs & ?)|intros ? (D' & Hs & ?)]; unfold stored in Hs; by rewrite Hs.
Qed.

(** C30: no storage resource is ever over-allocated or driven below zero, and
    every space keeps a non-negative size on a registered kind of resource: the
    five operations that change spaces keep this whatever fails and even when the run
    dies half way, provided a space is created with a size that is not negative, and
    that the rows a check selects are those of stored spaces. *)
Theorem capacity_invariant w :
  space_inv (docs w) →
  (∀ id n, in_i64 n = true → space_inv (docs (SpaceSizeChange id n w).2)) ∧
  (∀ ids, space_inv (docs (SpaceDelete ids w).2)) ∧
  (∀ id name, c_str name = name → space_inv (docs (SpaceRename id name w).2)) ∧
  (∀ name owner members n info group, c_str name = name → 0 ≤ n → in_i64 n = true →
     space_inv (docs (SpaceCreate name owner members n info group w).2)) ∧
  (selects_spaces → ∀ owner members info, space_inv (docs (SpaceCheck owner members info w).2)).
Proof.
  intros HI. assert (Hk : ∀ (A : Type) (m : M W A), keeps (inv_with (λ _, True)) m → space_inv (docs (m w).2)).
  { intros A m Hm. by apply (keeps_final _ m w Hm). }
  split_and!; intros; apply Hk; auto using keeps_SpaceSizeChange,
    keeps_SpaceDelete, keeps_SpaceRename, keeps_SpaceCreate, keeps_SpaceCheck.
Qed.

Context `{!CouchbaseUp W}.

(** Without faults, taking [n] units from a resource succeeds exactly when
    the total is not exceeded and then changes only the allocated amount. *)
Lemma SpaceSizeAdd_up k n D w (r : StorageResource.t) :
  serving D w → D !! dkey storagebucket k = Some (to_json r) → StorageResource.wf r →
  let sum := r.(StorageResource.assign_capacity) + n in
  wp (SpaceSizeAdd k n) (λ e w',
    if sum <=? r.(StorageResource.total_capacity)
    then e = 0 ∧ serving (<[dkey storagebucket k := to_json (StorageResource.set_assign_capacity sum r)]> D) w'
    else e = ENOSPC ∧ serving D w') (λ w', in_i64 sum = false ∧ serving D w') w.
Proof.
  intros HD Hk Hr. cbn zeta. unfold SpaceSizeAdd. wp_step. db_up. wp_step. db_up; [|congruence].
  simplify_eq. wp_steps. simplify_eq. rewrite (of_to_json (A := StorageResource.t)) by done.
  apply wp_checked_i64; [intros _|done]. wp_steps.
  - by destruct (Z.leb_spec (StorageResource.assign_capacity r + n) (StorageResource.total_capacity r)); [lia|].
  - db_up. wp_steps. destruct (Z.leb_spec (StorageResource.assign_capacity r + n) (StorageResource.total_capacity r)); [done|lia].
Qed.

Lemma SpaceSizeDeduct_up k n D w (r : StorageResource.t) :
  serving D w → D !! dkey storagebucket k = Some (to_json r) → StorageResource.wf r →
  let rest := r.(StorageResource.assign_capacity) - n in
  wp (SpaceSizeDeduct k n) (λ e w',
    if 0 <=? rest
    then e = 0 ∧ serving (<[dkey storagebucket k := to_json (StorageResource.set_assign_capacity rest r)]> D) w'
    else e = EINVAL ∧ serving D w') (λ w', in_i64 rest = false ∧ serving D w') w.
Proof.
  intros HD Hk Hr. cbn zeta. unfold SpaceSizeDeduct. wp_step. db_up. wp_step. db_up; [|congruence].
  simplify_eq. wp_steps. simplify_eq. rewrite (of_to_json (A := StorageResource.t)) by done.
  apply wp_checked_i64; [intros _|done]. wp_steps.
  - by destruct (Z.leb_spec 0 (StorageResource.assign_capacity r - n)); [lia|].
  - db_up. wp_steps. destruct (Z.leb_spec 0 (StorageResource.assign_capacity r - n)); [done|lia].
Qed.
(** The effect of resizing space [s] of id [id] on resource [r] of id [sid]. *)
Definition resized D (id sid : string) (s : Space.t) (r : StorageResource.t) (n : Z) :=
  <[space_key id := to_json (Space.set_spaceSize n s)]>
    (<[stor_key sid := to_json (StorageResource.set_assign_capacity
         (r.(StorageResource.assign_capacity) + (n - s.(Space.spaceSize))) r)]> D).

Lemma SpaceUsage_up path D w : serving D w → wp (SpaceUsage path) (λ _, serving D) (serving D) w.
Proof.
  intros HD. unfold SpaceUsage. wp_steps; auto. db_up. wp_steps; auto.
  unfold parse_usage, checked_i32. wp_steps; auto.
Qed.

Lemma remote_usage_up c h path D w :
  serving D w → wp (remote_usage c h path) (λ _, serving D) (serving D) w.
Proof. intros HD. unfold remote_usage. wp_steps. db_up. wp_steps; auto. Qed.

Lemma SpaceSizeChange_up id sid n D w (s : Space.t) (r : StorageResource.t) :
  serving D w → D !! space_key id = Some (to_json s) → Space.wf s → 0 ≤ s.(Space.spaceSize) →
  s.(Space.storageSrcID) = StorageResource.prefix +:+ sid →
  D !! stor_key sid = Some (to_json r) → StorageResource.wf r →
  0 ≤ r.(StorageResource.assign_capacity) ≤ r.(StorageResource.total_capacity) →
  wp (SpaceSizeChange id n) (λ e w',
    e ≠ 0 ∧ serving D w' ∨
    e = 0 ∧ n = s.(Space.spaceSize) ∧ serving D w' ∨
    e = 0 ∧ n ≠ s.(Space.spaceSize) ∧
      0 ≤ r.(StorageResource.assign_capacity) + (n - s.(Space.spaceSize))
        ≤ r.(StorageResource.total_capacity) ∧
      serving (resized D id sid s r n) w') (serving D) w.
Proof.
  intros HD Hk Hs Hs0 Hsid Hstor Hr Hb. unfold SpaceSizeChange. wp_steps; [by left|].
  db_up. wp_step. unfold space_key in *. db_up; [|congruence]. simplify_eq.
  wp_steps. simplify_eq. rewrite (of_to_json (A := Space.t)) by done.
  db_up. wp_step. db_up; wp_steps; try (by left).
  all: eapply (wp_mono _ (λ _, serving D) _ (serving D));
    [|done|by first [apply SpaceUsage_up|apply remote_usage_up]]; intros real w2 HD2.
  all: wp_steps; try (by left); try (right; left; split_and!; [done|lia|done]).
  all: apply wp_checked_i64; [intros _|by eauto]; wp_step; rewrite Hsid.
  all: eapply wp_mono; [| |first [eapply SpaceSizeAdd_up | eapply SpaceSizeDeduct_up]; eassumption];
    [|by intros ? []]; cbn beta; intros e w3 Hpost.
  all: match type of Hpost with context [?a <=? ?b] => destruct (Z.leb_spec a b) end;
    destruct Hpost as [-> HD3]; wp_steps; try discriminate; try (by left).
  all: db_up; wp_steps; right; right; split_and!; [done|lia|lia|lia|].
  all: unfold resized, space_key, stor_key;
    match goal with Hx : serving ?X ?v |- serving ?Y ?v => replace Y with X; [exact Hx|] end;
    do 4 f_equal; lia.
Qed.

(** Without faults resizing is all or nothing: a failure changes no
    document; a success sets the size of the space and moves the allocation of
    its resource by exactly the difference, within the bounds, and touches
    nothing else. *)
Theorem SpaceSizeChange_spec id sid n D w (s : Space.t) (r : StorageResource.t) :
  serving D w → D !! space_key id = Some (to_json s) → Space.wf s → 0 ≤ s.(Space.spaceSize) →
  s.(Space.storageSrcID) = StorageResource.prefix +:+ sid →
  D !! stor_key sid = Some (to_json r) → StorageResource.wf r →
  0 ≤ r.(StorageResource.assign_capacity) ≤ r.(StorageResource.total_capacity) →
  wp (SpaceSizeChange id n) (λ e w',
    e ≠ 0 ∧ serving D w' ∨
    e = 0 ∧ n = s.(Space.spaceSize) ∧ serving D w' ∨
    e = 0 ∧ n ≠ s.(Space.spaceSize) ∧
      0 ≤ r.(StorageResource.assign_capacity) + (n - s.(Space.spaceSize))
        ≤ r.(StorageResource.total_capacity) ∧
      serving (resized D id sid s r n) w') (serving D) w.
Proof. apply SpaceSizeChange_up. Qed.

Lemma fill_ma_up rs seen ma D w :
  Forall StorageResource.wf rs → Forall (λ r, in_i32 (remaining r) = true) rs →
  StronglySorted ma_gt ma →
  (∀ e, e ∈ ma → ∃ r, r ∈ seen ∧ StorageResource.wf r ∧ e = (remaining r, to_json r)) →
  (∀ r, r ∈ seen → remaining r ∈ ma.*1) →
  serving D w →
  wp (fill_ma (to_json <$> rs) ma) (λ ma' w', serving D w' ∧ StronglySorted ma_gt ma' ∧
    (∀ e, e ∈ ma' → ∃ r, r ∈ rs ++ seen ∧ StorageResource.wf r ∧ e = (remaining r, to_json r)) ∧
    (∀ r, r ∈ rs ++ seen → remaining r ∈ ma'.*1)) never w.
Proof.
  revert seen ma w. induction rs as [|r rs IH]; intros seen ma w Hwf Hi Hs Hel Hk HD; cbn [fill_ma fmap list_fmap].
  { by apply wp_ret. }
  inversion_clear Hwf. inversion_clear Hi as [|?? Hr Hi']. wp_step.
  rewrite (of_to_json (A := StorageResource.t)) by done.
  change (StorageResource.total_capacity r - StorageResource.assign_capacity r) with (remaining r).
  apply wp_checked_i64; [intros _|unfold in_i32, in_i64 in *; lia]. rewrite to_i32_id by done.
  eapply wp_mono; [| |apply (IH (r :: seen)); try done].
  - intros ma' w' (HD' & Hs' & Hel' & Hk'). split_and!; [done|done| |].
    + intros e He. destruct (Hel' e He) as (r' & Hin & ?). exists r'. split; [set_solver|done].
    + intros r' Hin. apply Hk'. set_solver.
  - done.
  - by apply ma_insert_sorted.
  - intros e [->|He]%ma_insert_elem; [exists r; set_solver|].
    destruct (Hel e He) as (r' & ? & ?). exists r'. set_solver.
  - intros r' [->|Hin]%elem_of_cons; apply ma_insert_keys; [by left|right; auto].
Qed.

(** The storage resource chosen for a new space is one of the rows of the
    query and none has more room, as long as the room of each fits the [int]
    keys of the map. *)
Theorem GetSpaceCreatePath_most_room size hn sn rs D w :
  serving D w → rs ≠ [] → Forall StorageResource.wf rs →
  Forall (λ r, in_i32 (remaining r) = true) rs →
  answers storagebucket (path_query hn sn) (connected storagebucket w) = to_json <$> rs →
  wp (GetSpaceCreatePath size hn sn) (λ res w', serving D w' ∧
    ∃ r, r ∈ rs ∧ (∀ r', r' ∈ rs → remaining r' ≤ remaining r) ∧
      res = (StorageResource.prefix +:+ r.(StorageResource.storage_src_id),
             r.(StorageResource.host_center_id), r.(StorageResource.host_center_name),
             r.(StorageResource.storage_src_name))) never w.
Proof.
  intros HD Hne Hwf Hi Hans. unfold GetSpaceCreatePath. wp_step.
  eapply wp_create_connected; [exact HD|intros HD1]. wp_step.
  eapply wp_select_up; [by unfold path_query; case_match|exact HD1|intros w2 HD2].
  rewrite Hans. wp_steps; [by destruct rs|].
  eapply wp_mono; [| |by apply (fill_ma_up rs [] [] D); [..|constructor|set_solver|set_solver|]]; [|done].
  intros ma w3 (HD3 & Hs & Hel & Hk). wp_steps.
  - match goal with Hh : head ma = Some ?e |- _ => rename Hh into Hhd end.
    destruct (Hel a) as (r & Hin & Hr & ->); [destruct ma; [done|injection Hhd as ->; left]|].
    cbn [snd]. rewrite (of_to_json (A := StorageResource.t)) by done. split; [done|].
    rewrite (right_id_L [] (++)) in *. exists r. split_and!; [done| |done].
    intros r' Hr'. by apply (ma_head_max ma _ _ Hs Hhd), Hk.
  - destruct rs as [|r rs]; [done|]. specialize (Hk r ltac:(set_solver)). destruct ma; [set_solver|done].
Qed.

(** On a line "number, optional fraction, unit, tab, path" printed by
    [du -h] the result is the integer part times 1, 1000 or 1000000 for K, M and
    G: the fraction is dropped, and any other unit (T, P) counts as zero. *)
Theorem SpaceUsage_units path dp digits frac c rest more w :
  let cmd := "du -h -d 0 " +:+ c_str (dp +:+ path) in
  let front := (digits +:+ frac) +:+ String c "" in
  let line := front +:+ String "009" rest in
  let n := read_digits 0 digits in
  config "manager.data_path" = Some dp → size cmd < 150 →
  (host_popen cmd w).1 = Some (line +:+ String "010" more) →
  all_digits digits = true → digits ≠ "" → fraction frac →
  find_char "009" front = None → find_char " " line = None → find_char "010" line = None →
  c_str line = line → (String.length line < 198)%nat →
  0 ≤ n → in_i32 n = true → in_i32 (n * unit_factor c) = true →
  wp (SpaceUsage path) (λ v w', v = n * unit_factor c ∧ docs w' = docs w) never w.
Proof.
  intros cmd front line n Hcfg Hcmd Hout Hd Hne Hf Htab Hsp Hnl Hc Hlen Hn0 Hn Hnf.
  unfold SpaceUsage. rewrite Hcfg. wp_steps; [unfold cmdsize in *; subst cmd; lia|].
  apply wp_extern. change ("du -h -d 0 " +:+ c_str (dp +:+ path)) with cmd.
  pose proof (docs_popen cmd w) as Hdocs. destruct (host_popen cmd w) as [out w'].
  cbn [fst snd] in *. subst out. unfold bufsize. change (200 - 2)%nat with 198%nat.
  rewrite fgets_line by done. rewrite c_str_append by done.
  assert (Hl : line +:+ String "010" "" = front +:+ String "009" (rest +:+ String "010" "")).
  { unfold line. by rewrite <-append_assoc, append_cons. }
  unfold wp. rewrite Hl. unfold front. rewrite parse_usage_line; try done.
  - fold front. rewrite <-Hl. by apply find_char_app.
  - assert (String.length front ≤ String.length line)%nat by (unfold line; rewrite length_append; lia).
    unfold size. fold front. lia.
Qed.

(** Without faults a rename of an active space stores the new name and
    nothing else; of a name longer than 50 bytes it keeps what follows the
    first 50, not the first 50. *)
Theorem SpaceRename_spec id name D w (s : Space.t) :
  serving D w → D !! space_key id = Some (to_json s) → Space.wf s →
  let kept := if 50 <? size name then str_drop 50 name else name in
  wp (SpaceRename id name) (λ e w',
    (s.(Space.status) = false → e = -1 ∧ serving D w') ∧
    (s.(Space.status) = true → e = 0 ∧
      serving (if String.eqb s.(Space.spaceName) kept then D
               else <[space_key id := to_json (Space.set_spaceName kept s)]> D) w')) never w.
Proof.
  intros HD Hk Hs kept. unfold SpaceRename. wp_step. db_up. wp_step. unfold space_key in *.
  db_up; [|congruence]. simplify_eq. cbn beta iota. err_simpl. cbn beta iota. do 2 wp_step. rewrite (of_to_json (A := Space.t)) by done.
  assert (Hkept : (if size name >? 50 then substr_from 50 name else name) = kept).
  { unfold kept, substr_from. by rewrite Z.gtb_ltb. }
  assert (Heq : String.eqb (localstoragepath +:+ Space.spaceName s) (localstoragepath +:+ kept)
    = String.eqb (Space.spaceName s) kept).
  { destruct (String.eqb_spec (Space.spaceName s) kept) as [->|Hn]; [apply String.eqb_refl|].
    apply String.eqb_neq. by intros ?%append_inj_l. }
  rewrite Hkept, Heq. destruct (Space.status s) eqn:Hst; cbn [negb]; [|by wp_steps].
  destruct (String.eqb (Space.spaceName s) kept); [by wp_steps|]. wp_steps. db_up. by wp_steps.
Qed.

(** An unknown identifier ends a deletion with the code of success, the
    spaces after it in the list untouched. *)
Theorem SpaceDelete_stops_at_unknown id ids D w :
  serving D w → D !! space_key id = None →
  wp (SpaceDelete (id :: ids)) (λ e w', e = 0 ∧ serving D w') never w.
Proof.
  intros HD Hk. cbn [SpaceDelete]. wp_step. db_up. wp_step. unfold space_key in Hk.
  db_up; [congruence|]. by wp_steps.
Qed.

(** The database once [n] units of resource [sid] are taken. *)
Definition charged D (sid : string) (r : StorageResource.t) (n : Z) :=
  <[stor_key sid := to_json (StorageResource.set_assign_capacity
      (r.(StorageResource.assign_capacity) + n) r)]> D.

Lemma fill_ma_serving rows ma D w : serving D w → wp (fill_ma rows ma) (λ _, serving D) (serving D) w.
Proof.
  revert ma w. induction rows as [|r rows IH]; intros ma w HD; cbn [fill_ma].
  - by apply wp_ret.
  - wp_step. by apply wp_checked_i64; [intros _; apply IH|].
Qed.

Lemma GetSpaceCreatePath_serving n hn sn D w :
  serving D w →
  wp (GetSpaceCreatePath n hn sn) (λ '(storid, hostid, _, _) w', serving D w' ∧
      (storid = "" ∧ hostid = "" ∨ ∃ sid, storid = StorageResource.prefix +:+ sid)) (serving D) w.
Proof.
  intros HD. unfold GetSpaceCreatePath. wp_step. db_up. wp_step.
  eapply wp_select_up; [by unfold path_query; case_match|done|intros w2 HD2].
  wp_steps; auto. eapply wp_mono; [| |by apply fill_ma_serving]; [|done].
  intros ma w3 HD3. wp_steps; [|done]. split; [done|right; by eexists].
Qed.

(** The outcomes of a creation without database faults. When the directory
    cannot be made, or the name is empty or the size zero, the request fails but
    the capacity it took stays taken. *)
Theorem SpaceCreate_outcomes name owner members n info group D w :
  serving D w → capacity_ok D →
  wp (SpaceCreate name owner members n info group) (λ res w',
    (res = "-3" ∨ res = "-1") ∧ serving D w' ∨
    ∃ sid r, D !! stor_key sid = Some (to_json r) ∧
      r.(StorageResource.assign_capacity) + n ≤ r.(StorageResource.total_capacity) ∧
      (res = "-2" ∧ serving (charged D sid r n) w' ∨
       res = "-5" ∧ (name = "" ∨ n = 0) ∧ serving (charged D sid r n) w' ∨
       name ≠ "" ∧ n ≠ 0 ∧ ∃ s, serving (<[space_key res := to_json s]> (charged D sid r n)) w' ∧
         s.(Space.spaceName) = name ∧ s.(Space.spaceSize) = n ∧ s.(Space.status) = true ∧
         s.(Space.storageSrcID) = StorageResource.prefix +:+ sid)) (serving D) w.
Proof.
  intros HD HC. unfold SpaceCreate. wp_step. db_up. wp_step.
  eapply wp_mono; [| |by apply GetSpaceCreatePath_serving]; [|done].
  intros [[[storid hostid] hn] sn] w2 (HD2 & Hsid). wp_steps; auto.
  destruct Hsid as [[-> ->]|[sid ->]]; [done|].
  destruct (D !! stor_key sid) as [doc|] eqn:Hdoc.
  2: { eapply (wp_mono _ (λ e w', e ≠ 0 ∧ serving D w') _ never).
       3: { unfold SpaceSizeAdd. wp_step. db_up. wp_step. unfold stor_key in Hdoc.
            db_up; [congruence|]. by wp_steps. }
       - intros e w3 [He HD3]. wp_steps; auto.
       - by intros ? []. }
  destruct (HC _ _ Hdoc) as (r & Hr & -> & Hle).
  eapply wp_mono; [| |by apply SpaceSizeAdd_up]; cbn beta zeta; [|by intros ? []].
  intros e w3 Hpost.
  destruct (Z.leb_spec (r.(StorageResource.assign_capacity) + n) r.(StorageResource.total_capacity));
    destruct Hpost as [-> HD3]; wp_steps; auto; try discriminate.
  change (dkey storagebucket (StorageResource.prefix +:+ sid)) with (stor_key sid) in HD3.
  fold (charged D sid r n) in HD3. db_up. wp_step. db_up. wp_steps; [right; exists sid, r; auto|..].
  - right. exists sid, r. split_and!; [done..|]. right; left. split_and!; [done| |done].
    cbn in *. destruct (String.eqb_spec name ""); [by left|right]. by case_bool_decide.
  - db_up. wp_steps. right. exists sid, r. split_and!; [done..|]. right; right.
    cbn in *. destruct (String.eqb_spec name ""); [done|]. case_bool_decide; [done|].
    split_and!; [done..|]. eexists. split_and!; [eassumption|done..].
Qed.

(** ** Accounting: the sizes of the active spaces of a resource *)

(** What document [k] contributes to the allocation of resource [sid]. *)
Definition weight (sid : string) (k : string * string) (doc : string) : Z :=
  if bool_decide (k.1 = (space_key "").1) && String.prefix space_prefix k.2 then
    let s := of_json Space.init doc in
    if s.(Space.status) && String.eqb s.(Space.storageSrcID) (StorageResource.prefix +:+ sid)
    then s.(Space.spaceSize) else 0
  else 0.
Definition allocated (sid : string) D : Z := map_fold (λ k doc acc, weight sid k doc + acc) 0 D.

(** The ledger of every resource is the sum of its active spaces. *)
Definition balanced D : Prop := ∀ sid r, D !! stor_key sid = Some (to_json r) →
  StorageResource.wf r → r.(StorageResource.assign_capacity) = allocated sid D.

Lemma allocated_delete sid D k doc :
  D !! k = Some doc → allocated sid D = weight sid k doc + allocated sid (delete k D).
Proof.
  intros Hk. unfold allocated. rewrite (map_fold_delete_L _ _ k doc D); [done| |done].
  intros. lia.
Qed.

Lemma allocated_insert sid D k doc :
  allocated sid (<[k := doc]> D) = weight sid k doc + allocated sid (delete k D).
Proof.
  rewrite (allocated_delete sid _ k doc) by apply lookup_insert_eq. by rewrite delete_insert_eq.
Qed.

Lemma weight_stor sid id doc : weight sid (stor_key id) doc = 0.
Proof. unfold weight. case_bool_decide; [|done]. reflexivity. Qed.

Lemma weight_space sid id (s : Space.t) : Space.wf s →
  weight sid (space_key id) (to_json s) =
  if s.(Space.status) && String.eqb s.(Space.storageSrcID) (StorageResource.prefix +:+ sid)
  then s.(Space.spaceSize) else 0.
Proof.
  intros Hs. unfold weight. rewrite bool_decide_true by done.
  assert (Hp : String.prefix space_prefix (space_key id).2 = true) by (by destruct id).
  rewrite Hp, (of_to_json (A := Space.t)) by done. done.
Qed.

Lemma allocated_stor sid D id doc doc' :
  D !! stor_key id = Some doc → allocated sid (<[stor_key id := doc']> D) = allocated sid D.
Proof.
  intros Hk. by rewrite allocated_insert, (allocated_delete sid D _ _ Hk), !weight_stor.
Qed.

(** Resizing an active space keeps the books: when the ledger of every
    resource is the sum of the sizes of its active spaces, it still is
    afterwards, whether the request succeeded or not. *)
Theorem SpaceSizeChange_balanced id sid n D w (s : Space.t) (r : StorageResource.t) :
  serving D w → D !! space_key id = Some (to_json s) → Space.wf s → 0 ≤ s.(Space.spaceSize) →
  s.(Space.storageSrcID) = StorageResource.prefix +:+ sid → s.(Space.status) = true →
  D !! stor_key sid = Some (to_json r) → StorageResource.wf r →
  0 ≤ r.(StorageResource.assign_capacity) ≤ r.(StorageResource.total_capacity) →
  in_i64 n = true → balanced D →
  wp (SpaceSizeChange id n) (λ _ w', balanced (docs w')) (λ w', balanced (docs w')) w.
Proof.
  intros HD Hk Hs Hs0 Hsid Hst Hstor Hr Hb Hn HB.
  eapply wp_mono; [| |by eapply SpaceSizeChange_up]; cbn beta; unfold serving; [|by intros ? [_ ->]].
  intros e w' [[_ [_ ->]]|[(_ & _ & [_ ->])|(_ & _ & Hle & [_ ->])]]; [done..|].
  unfold resized. set (r' := StorageResource.set_assign_capacity _ r).
  assert (Hr' : StorageResource.wf r').
  { apply set_assign_wf; [done|]. unfold StorageResource.wf in Hr. cbn in Hr. unfold in_i64 in *. lia. }
  intros sid' r0 Hr0 Hwf0.
  assert (Halloc : allocated sid' (<[space_key id := to_json (Space.set_spaceSize n s)]>
    (<[stor_key sid := to_json r']> D)) =
    allocated sid' D + if String.eqb sid sid' then n - Space.spaceSize s else 0).
  { rewrite allocated_insert, <-(allocated_stor sid' D sid (to_json r) (to_json r')) by done.
    rewrite (allocated_delete sid' (<[stor_key sid := _]> D) (space_key id) (to_json s)).
    2: { rewrite lookup_insert_ne; [done|]. intros He. by apply (space_stor_key id sid spacebucket storagebucket). }
    rewrite !weight_space by (done || by apply set_size_wf). cbn. rewrite Hst, Hsid. cbn.
    assert (He : String.eqb (StorageResource.prefix +:+ sid) (StorageResource.prefix +:+ sid') = String.eqb sid sid').
    { destruct (String.eqb_spec sid sid') as [->|Hne]; [apply String.eqb_refl|].
      apply String.eqb_neq. by intros ?%append_inj_l. }
    rewrite He. destruct (String.eqb sid sid'); lia. }
  rewrite Halloc. rewrite lookup_insert_ne in Hr0 by apply space_stor_key.
  destruct (String.eqb_spec sid sid') as [<-|Hne].
  - rewrite lookup_insert_eq in Hr0. injection Hr0 as Hr0.
    assert (r0 = r') as ->.
    { by apply (to_json_inj StorageResource.init). }
    cbn. rewrite (HB sid r) by done. lia.
  - rewrite lookup_insert_ne in Hr0 by (by rewrite stor_key_inj). rewrite (HB sid' r0) by done. lia.
Qed.
End props.

(** ** Concrete runs *)
Section witness.
Let r0 : StorageResource.t := StorageResource.mk "s1" "disk" "c1" "centre" 100 20 "mgs" 1.
Let a0 : Space.t := Space.mk "a" "alpha" 10 "x" "STOR-s1" "a" "centre" "disk" true [].
Let b0 : Space.t := Space.mk "b" "beta" 10 "x" "STOR-s1" "b" "centre" "disk" true [].
Let c0 : CenterInfo.t := CenterInfo.mk ["x"] {["x" := "10.0.0.1"]} {["x" := "80"]} {["x" := "centre"]}.
Let D0 : gmap (string * string) string :=
  <[space_key (W := world) "a" := to_json a0]> (<[space_key (W := world) "b" := to_json b0]>
    (<[stor_key (W := world) "s1" := to_json r0]> {[dkey (W := world) bucket_account_info c_key := to_json c0]})).
Let line0 : string := String "5" (String "M" (String "009" "/data/a")).
Let w0 : world := World D0 ["u1"; "u2"] [to_json r0] 0 (Some (line0 +:+ String "010" "")) None.

Lemma inv0 : space_inv (W := world) D0.
Proof.
  assert (Hi : inv_with (W := world) (λ _, True) D0); [|by destruct Hi]. unfold D0.
  apply (inv_space (λ _, True)) with (sid := "s1"); [done| |ground_wf|done|done].
  apply (inv_space (λ _, True)) with (sid := "s1"); [done| |ground_wf|done|done].
  apply (inv_stor (λ _, True)); [done| |ground_wf|done]. split; [|done].
  split; intros id doc; rewrite lookup_singleton_Some; intros [He _]; by vm_compute in He.
Qed.

Lemma storage0 : D0 !! stor_key (W := world) "s1" = Some (to_json r0).
Proof. by vm_compute. Qed.
Lemma space0 : D0 !! space_key (W := world) "a" = Some (to_json a0).
Proof. by vm_compute. Qed.
Lemma r0_wf : StorageResource.wf r0.
Proof. ground_wf. Qed.
Lemma a0_wf : Space.wf a0.
Proof. ground_wf. Qed.

Section checking.
(** A server that answers the query of a check with the stored spaces, without
    their replicas. *)
Definition space_rows (D : gmap (string * string) string) : list string :=
  omap (λ p : (string * string) * string,
    if decide (p.1 = space_key (W := world) (str_drop 6 p.1.2))
    then Some (to_json (set_replicas [] (of_json Space.init p.2))) else None) (map_to_list D).
#[local] Instance checking_db : Couchbase world := {|
  cb_connect := cb_connect (Couchbase := model_couchbase);
  cb_get := cb_get (Couchbase := model_couchbase);
  cb_get_sub := cb_get_sub (Couchbase := model_couchbase);
  cb_insert := cb_insert (Couchbase := model_couchbase);
  cb_upsert := cb_upsert (Couchbase := model_couchbase);
  cb_upsert_sub := cb_upsert_sub (Couchbase := model_couchbase);
  cb_arr_insert_uniq := cb_arr_insert_uniq (Couchbase := model_couchbase);
  cb_remove := cb_remove (Couchbase := model_couchbase);
  cb_query c q w := (QueryResult 0 true (if String.prefix "select UUID" q then space_rows (w_docs w) else w_rows w) "", w);
|}.
#[local] Instance checking_laws : CouchbaseLaws (H := checking_db) world.
Proof.
  refine {| docs := w_docs |}; first [exact (docs_get (W := world))|exact (get_found (W := world))|exact (docs_insert (W := world))
    |exact (docs_upsert (W := world))|exact (docs_upsert_sub (W := world))|exact (docs_arr_insert (W := world))
    |exact (docs_remove (W := world))|exact (remove_missing (W := world))|exact (docs_get_sub (W := world))|done].
Defined.
#[local] Instance checking_host_laws : HostLaws (H := checking_db) world.
Proof. split; intros; apply model_host_laws. Qed.
Lemma checks_spaces : selects_spaces (W := world) (H := checking_db).
Proof.
  intros c hostid storid path w. change (q_rows _) with (space_rows (w_docs w)). change (docs w) with (w_docs w).
  apply Forall_forall. intros row ([k doc] & Hin%elem_of_map_to_list & Hrow)%list_elem_of_omap. cbn [fst snd] in *.
  destruct (decide _) as [Hk|]; [|done]. apply (inj Some) in Hrow. subst row.
  exists (str_drop 6 k.2), doc. revert Hin. rewrite Hk at 1. intros Hin. split; [exact Hin|].
  exact (text_without_replicas _ (parsed_space_wf doc)).
Qed.

(** A deleted space with a replica, that is checked and taken back. *)
Let gone : Space.t := Space.mk "g" "gone" 10 "x" "STOR-s1" "g" "centre" "disk" false ["y"].
Let D1 : gmap (string * string) string :=
  <[space_key (W := world) "g" := to_json gone]> {[stor_key (W := world) "s1" := to_json r0]}.
Let w1 : world := World D1 ["u1"] [to_json r0] 0 None None.
Lemma inv1 : space_inv (W := world) D1.
Proof.
  assert (Hi : inv_with (W := world) (λ _, True) D1); [|by destruct Hi]. unfold D1.
  apply (inv_space (λ _, True)) with (sid := "s1"); [done| |ground_wf|done|done].
  rewrite <-insert_empty. apply (inv_stor (λ _, True)); [done| |ground_wf|done]. split; [|done]. split; intros id doc; by rewrite lookup_empty.
Qed.
(** The check gives the space back its room, and forgets its replica: the query does
    not ask for the replicas, and the whole document is written again. *)
Theorem SpaceCheck_forgets_replicas :
  let '(res, w') := SpaceCheck (H := checking_db) "u" [] "{}" w1 in
  res = Val "g" ∧
  w_docs w' !! space_key (W := world) "g" = Some (to_json (set_replicas [] (Space.set_status true gone))) ∧
  w_docs w' !! stor_key (W := world) "s1" = Some (to_json (StorageResource.set_assign_capacity 30 r0)).
Proof. by vm_compute. Qed.

Theorem capacity_invariant_witness :
  space_inv (docs (SpaceCreate "gamma" "u" [] 5 "{}" "g" w0).2) ∧
  space_inv (docs (SpaceDelete ["a"; "b"] w0).2) ∧
  space_inv (W := world) (docs (H := checking_db) (SpaceCheck (H := checking_db) "u" [] "{}" w1).2).
Proof.
  pose proof (capacity_invariant w0 inv0) as (_ & Hdel & _ & Hcreate & _).
  pose proof (capacity_invariant (H := checking_db) w1 inv1) as (_ & _ & _ & _ & Hcheck).
  split; [by apply Hcreate|]. split; [apply Hdel|]. exact (Hcheck checks_spaces "u" [] "{}").
Defined.
End checking.

Theorem SpaceSizeChange_spec_witness :
  wp (SpaceSizeChange "a" 40) (λ e w', e = 0 → serving (resized D0 "a" "s1" a0 r0 40) w') (serving D0) w0.
Proof.
  eapply wp_mono; [| |apply (SpaceSizeChange_spec "a" "s1" 40 D0 w0 a0 r0);
    [done|apply space0|apply a0_wf|done|done|apply storage0|apply r0_wf|done]]; [|done].
  intros e w' [[? _]|[(_ & ? & _)|(_ & _ & _ & ?)]]; done.
Defined.

Lemma balanced0 : balanced (W := world) D0.
Proof.
  intros sid r Hr Hwf. unfold D0 in Hr.
  rewrite !lookup_insert_ne in Hr by (intros He; by vm_compute in He).
  destruct (decide (sid = "s1")) as [->|Hne].
  - rewrite lookup_insert_eq in Hr. apply (inj Some) in Hr.
    assert (r = r0) as ->.
    { apply (to_json_inj StorageResource.init); [exact Hwf|exact r0_wf|by symmetry]. }
    by vm_compute.
  - rewrite lookup_insert_ne in Hr by (rewrite stor_key_inj; congruence).
    apply lookup_singleton_Some in Hr as [He _]. by vm_compute in He.
Qed.

Theorem SpaceSizeChange_balanced_witness :
  wp (SpaceSizeChange "a" 40) (λ _ w', balanced (docs w')) (λ w', balanced (docs w')) w0.
Proof.
  apply (SpaceSizeChange_balanced "a" "s1" 40 D0 w0 a0 r0);
    [done|apply space0|apply a0_wf|done|done|done|apply storage0|apply r0_wf|done|done|apply balanced0].
Defined.

Theorem GetSpaceCreatePath_most_room_witness :
  wp (GetSpaceCreatePath 5 "centre" "") (λ res _, res = ("STOR-s1", "c1", "centre", "disk")) never w0.
Proof.
  eapply wp_mono; [| |apply (GetSpaceCreatePath_most_room 5 "centre" "" [r0] D0 w0);
    [done|done|repeat constructor; apply r0_wf|by repeat constructor|done]]; [|done].
  intros res w' (_ & r & Hr & _ & ->). apply list_elem_of_singleton in Hr as ->. done.
Defined.

Theorem SpaceUsage_units_witness : wp (SpaceUsage "a") (λ v w', v = 5000 ∧ docs w' = docs w0) never w0.
Proof.
  apply (SpaceUsage_units "a" "/data/" "5" "" "M" "/data/a" "" w0); try done; [by left|vm_compute; lia].
Defined.

Theorem SpaceRename_spec_witness :
  wp (SpaceRename "a" "omega") (λ e w', e = 0 ∧
    serving (<[space_key "a" := to_json (Space.set_spaceName "omega" a0)]> D0) w') never w0.
Proof.
  eapply wp_mono; [| |apply (SpaceRename_spec "a" "omega" D0 w0 a0);
    [done|apply space0|apply a0_wf]]; [|done].
  intros e w' [_ Hact]. by apply Hact.
Defined.

Theorem SpaceDelete_stops_at_unknown_witness :
  wp (SpaceDelete ["zz"; "a"]) (λ e w', e = 0 ∧ serving D0 w') never w0.
Proof. apply (SpaceDelete_stops_at_unknown "zz" ["a"] D0 w0); [done|by vm_compute]. Defined.

Theorem SpaceCreate_outcomes_witness :
  wp (SpaceCreate "" "u" [] 5 "{}" "g") (λ res w', True) (serving D0) w0.
Proof.
  eapply wp_mono; [| |apply (SpaceCreate_outcomes "" "u" [] 5 "{}" "g" D0 w0); [done|apply inv0]]; done.
Defined.

(** Deleting a space twice gives its capacity back twice: afterwards the
    resource counts nothing as allocated while another space of it is active. *)
Theorem SpaceDelete_twice :
  let w1 := (SpaceDelete ["a"; "a"] w0).2 in
  docs w1 !! stor_key "s1" = Some (to_json (StorageResource.set_assign_capacity 0 r0)) ∧
  docs w1 !! space_key "b" = Some (to_json b0).
Proof. by vm_compute. Qed.

Let r1 : StorageResource.t := StorageResource.mk "big" "disk2" "c1" "centre" (2 ^ 31) 0 "mgs" 1.
Let w1 : world := World D0 [] [to_json r1; to_json r0] 0 None None.

(** The room of a resource is cut to 32 bits before it is compared: an
    empty resource of 2^31 units loses to one with 80 units left. *)
Theorem GetSpaceCreatePath_truncates :
  (GetSpaceCreatePath 5 "centre" "" w1).1 = Val ("STOR-s1", "c1", "centre", "disk").
Proof. by vm_compute. Qed.

(** A negative size is accepted: the allocation of the resource drops
    below the space it really holds. *)
Theorem SpaceCreate_negative :
  docs (SpaceCreate "gamma" "u" [] (-30) "{}" "g" w0).2 !! stor_key "s1" =
  Some (to_json (StorageResource.set_assign_capacity (-10) r0)).
Proof. by vm_compute. Qed.
End witness.
End SpaceServer.
