(* ===== verification/Zones.v ===== *)
(** * Zones (manager/zone/ZoneServer.cc)

    [ZoneServer]: the zones, the members they are shared with and the spaces
    they map, on top of [SpaceServer] (Space.v) and of the administrator test of
    [UserModelServer] (User.v). [mgr->get_module] always finds the two modules,
    which the manager registers at start. *)
From S2P Require Import Prelude CxxString Json Records Datastore Instances User Space.

(** ** [isSubset] *)

(** The merge loop over the two sorted vectors; each step advances in [v1]. *)
Fixpoint isSubset_loop (v1 v2 : list string) : bool :=
  match v1, v2 with
  | _, [] => true
  | [], _ :: _ => false
  | x :: v1', y :: v2' =>
      if str_lt x y then isSubset_loop v1' v2
      else if String.eqb x y then isSubset_loop v1' v2'
      else false
  end.

Definition isSubset (v1 v2 : list string) : bool :=
  if size_of v1 <? size_of v2 then false
  else isSubset_loop (sort_strings v1) (sort_strings v2).

Module ZoneServer.

Definition zone_prefix : string := "ZONE-".
Definition user_prefix : string := "USER-".

(** [std::find(v.begin(), v.end(), x) != v.end()]. *)
Fixpoint find_in (x : string) (v : list string) : bool :=
  match v with
  | [] => false
  | y :: v => if String.eqb y x then true else find_in x v
  end.

(** The loop erasing every occurrence of [x]. *)
Fixpoint erase_all (x : string) (v : list string) : list string :=
  match v with
  | [] => []
  | y :: v => if String.eqb y x then erase_all x v else y :: erase_all x v
  end.

(** The member loops of [ZoneShare] and [ZoneShareCancel]. *)
Definition add_members (members memberID : list string) : list string :=
  foldl (λ members tmp_mem, if find_in tmp_mem members then members else members ++ [tmp_mem]) members memberID.
Definition remove_members (members memberID : list string) : list string :=
  foldl (λ members tmp_mem, erase_all tmp_mem members) members memberID.

Section zone.
Context {W : Type} `{Couchbase W, Host W, Rapidjson, Indet}.

Definition zonebucket : string := default "test" (config "manager.bucket").
Definition accountbucket : string := default "test" (config "manager.bucket").
Definition applybucket : string := default "test" (config "manager.bucket").
Definition ManagerID : string := default "" (config "manager.id").

(** [tmp.ownerID == ownerID || p_usermodel->validadminidentity(ownerID)]. *)
Definition owner_or_admin (tmp : Zone.t) (ownerID : string) : M W bool :=
  orM (String.eqb tmp.(Zone.ownerID) ownerID) (UserModelServer.validadminidentity ownerID).

(** ** Renaming *)

Definition name_query (ownerID name : string) : string :=
  snprintf 256 ("select UUID, name, owner, members, spaces from `" +:+ c_str zonebucket
    +:+ "` where owner = " +:+ quoted (c_str ownerID) +:+ " and name = " +:+ quoted (c_str name)
    +:+ " and META().id like '" +:+ c_str zone_prefix +:+ "%'").

(** The error code of the name query is not looked at. *)
Definition ZoneRename (zoneID ownerID newZoneName : string) : M W Z :=
  zonePtr ← create_datastore zonebucket;
  '(vp, err) ← ds_get zonePtr (zone_prefix +:+ zoneID);
  if negb (bool_decide (err = 0)) then mret EAGAIN
  else
    tmp_value ← deref vp;
    tmp ← deref (Zone.deserialize Zone.init tmp_value);
    allowed ← owner_or_admin tmp ownerID;
    if (allowed : bool) then
      let newZoneName := if size newZoneName >? 50 then substr_from 50 newZoneName else newZoneName in
      '(vp, err) ← ds_n1ql junk_int zonePtr (name_query ownerID newZoneName);
      if bool_decide (length vp ≠ 0%nat) then mret EINVAL
      else
        let tmp := Zone.set_contains_spaceinfo false (Zone.set_zoneName newZoneName tmp) in
        flag ← ds_set zonePtr (zone_prefix +:+ zoneID) (Zone.serialize tmp);
        if negb (bool_decide (flag = 0)) then mret EAGAIN else mret 0
    else mret EACCES.

Definition ZoneRenameRest (info : string) : M W response :=
  let req := of_json ZoneRequest.init info in
  result ← ZoneRename req.(ZoneRequest.zoneID) req.(ZoneRequest.ownerID) req.(ZoneRequest.newZoneName);
  mret (Response Code_Ok (json_encode codec_int result)).

(** ** Locating the spaces of a zone *)

Definition GetZoneLocateInfo (clientID zoneID : string) (spaceID : list string)
    : M W (bool * list Space.t) :=
  zonePtr ← create_datastore zonebucket;
  zonePtr ← reinit zonePtr;
  '(vz, err) ← ds_get zonePtr (zone_prefix +:+ zoneID);
  if negb (bool_decide (err = 0)) then mret (false, [])
  else
    tmp_value ← deref vz;
    tmp ← deref (Zone.deserialize Zone.init tmp_value);
    allowed ← orM (String.eqb clientID tmp.(Zone.ownerID) || find_in clientID tmp.(Zone.memberID))
                (UserModelServer.validadminidentity clientID);
    if (allowed : bool) then
      if isSubset tmp.(Zone.spaceID) spaceID then
        result ← SpaceServer.GetSpacePosition [] spaceID;
        mret (true, result)
      else mret (false, [])
    else mret (false, []).

Definition json_of_spaces (l : list Space.t) : string := rj_write (JArray (Zone.encode_space <$> l)).

Definition GetZoneLocateInfoRest (info : string) : M W response :=
  let req := of_json ZoneRequest.init info in
  '(result_b, result_zl) ←
    GetZoneLocateInfo req.(ZoneRequest.clientID) req.(ZoneRequest.zoneID) req.(ZoneRequest.spaceID);
  mret (Response Code_Ok (if (result_b : bool) then json_of_spaces result_zl else "fail")).

(** ** The zones of a client *)

Definition owned_query (clientID : string) : string :=
  snprintf 256 ("select UUID, name, owner, members, spaces from `" +:+ c_str zonebucket
    +:+ "` where owner = " +:+ quoted (c_str clientID)
    +:+ " and META().id like '" +:+ c_str zone_prefix +:+ "%'").
Definition member_query (clientID : string) : string :=
  snprintf 256 ("select UUID, name, owner, members, spaces from `" +:+ c_str zonebucket
    +:+ "` where " +:+ quoted (c_str clientID) +:+ " within members and META().id like '"
    +:+ c_str zone_prefix +:+ "%'").

(** Members by name; [None] when an account cannot be read. *)
Fixpoint member_names (accountPtr : option CouchbaseDatastore) (memberID acc : list string)
    : M W (option (list string)) :=
  match memberID with
  | [] => mret (Some acc)
  | m :: memberID =>
      '(mem, merr) ← ds_get accountPtr (user_prefix +:+ m);
      if bool_decide (merr = 0) then
        text ← deref mem;
        let member := of_json Account.init text in
        member_names accountPtr memberID (acc ++ [member.(Account.accountName)])
      else mret None
  end.

Fixpoint zone_infos (accountPtr : option CouchbaseDatastore) (vp : list string) (result_z : list Zone.t)
    : M W (bool * list Zone.t) :=
  match vp with
  | [] => mret (true, result_z)
  | tmp_value :: vp =>
      tmp ← deref (Zone.deserialize Zone.init tmp_value);
      '(own, oerr) ← ds_get accountPtr (user_prefix +:+ tmp.(Zone.ownerID));
      if negb (bool_decide (oerr = 0)) then mret (false, result_z)
      else
        text ← deref own;
        let owner := of_json Account.init text in
        names ← member_names accountPtr tmp.(Zone.memberID) [];
        match names with
        | None => mret (false, result_z)
        | Some names =>
            result_s ← SpaceServer.GetSpaceInfo tmp.(Zone.spaceID);
            let spaceBicInfo := filter (λ s, s.(Space.status) = true) result_s in
            let tmp_zi := Zone.mk tmp.(Zone.zoneID) tmp.(Zone.zoneName) owner.(Account.accountName) names
              (Space.spaceID <$> spaceBicInfo) spaceBicInfo junk_int junk_int junk_int true in
            zone_infos accountPtr vp (result_z ++ [tmp_zi])
        end
  end.

Definition GetZoneInfo (clientID : string) : M W (bool * list Zone.t) :=
  accountPtr ← create_datastore accountbucket;
  zonePtr ← create_datastore zonebucket;
  '(vp, err) ← ds_n1ql junk_int zonePtr (owned_query clientID);
  if negb (bool_decide (err = 0)) then mret (false, [])
  else
    zonePtr2 ← create_datastore zonebucket;
    '(vp2, err2) ← ds_n1ql junk_int zonePtr2 (member_query clientID);
    if negb (bool_decide (err2 = 0)) then mret (false, [])
    else zone_infos accountPtr (vp ++ vp2) [].

(** The boolean is not looked at: what was collected before a failure is sent. *)
Definition GetZoneInfoRest (info : string) : M W response :=
  '(_, result_z) ← GetZoneInfo info;
  mret (Response Code_Ok (if bool_decide (length result_z ≠ 0%nat)
    then rj_write (JArray (JObject ∘ Zone.serialize_impl <$> result_z)) else "fail")).

(** ** Sharing; the object is serialised before [contains_spaceinfo] is cleared *)

Definition ZoneShare (zoneID ownerID : string) (memberID : list string) : M W Z :=
  zonePtr ← create_datastore zonebucket;
  zonePtr ← reinit zonePtr;
  '(vp, err) ← ds_get zonePtr (zone_prefix +:+ zoneID);
  if negb (bool_decide (err = 0)) then mret EAGAIN
  else
    tmp_value ← deref vp;
    tmp ← deref (Zone.deserialize Zone.init tmp_value);
    allowed ← owner_or_admin tmp ownerID;
    if (allowed : bool) then
      let tmp := Zone.set_memberID (add_members tmp.(Zone.memberID) memberID) tmp in
      let tmp_value := Zone.serialize tmp in
      flag ← ds_set zonePtr (zone_prefix +:+ zoneID) tmp_value;
      if negb (bool_decide (flag = 0)) then mret EAGAIN else mret 0
    else mret EACCES.

Definition ZoneShareRest (info : string) : M W response :=
  let req := of_json ZoneRequest.init info in
  result ← ZoneShare req.(ZoneRequest.zoneID) req.(ZoneRequest.ownerID) req.(ZoneRequest.memberID);
  mret (Response Code_Ok (json_encode codec_int result)).

Definition ZoneShareCancel (zoneID ownerID : string) (memberID : list string) : M W Z :=
  zonePtr ← create_datastore zonebucket;
  zonePtr ← reinit zonePtr;
  '(vp, err) ← ds_get zonePtr (zone_prefix +:+ zoneID);
  if negb (bool_decide (err = 0)) then mret EAGAIN
  else
    tmp_value ← deref vp;
    tmp ← deref (Zone.deserialize Zone.init tmp_value);
    if negb (isSubset tmp.(Zone.memberID) memberID) then mret EINVAL
    else
      allowed ← owner_or_admin tmp ownerID;
      if (allowed : bool) then
        let tmp := Zone.set_memberID (remove_members tmp.(Zone.memberID) memberID) tmp in
        let tmp_value := Zone.serialize tmp in
        flag ← ds_set zonePtr (zone_prefix +:+ zoneID) tmp_value;
        if negb (bool_decide (flag = 0)) then mret EAGAIN else mret 0
      else mret EACCES.

Definition ZoneShareCancelRest (info : string) : M W response :=
  let req := of_json ZoneRequest.init info in
  result ← ZoneShareCancel req.(ZoneRequest.zoneID) req.(ZoneRequest.ownerID) req.(ZoneRequest.memberID);
  mret (Response Code_Ok (json_encode codec_int result)).

(** ** Registration *)

(** What [ZoneRegister] and [MapAdd] return for a failure code of [SpaceCreate]. *)
Definition space_error (res_sc : string) : option Z :=
  if String.eqb res_sc "-1" then Some ENOSPC
  else if String.eqb res_sc "-2" then Some EAGAIN
  else if String.eqb res_sc "-3" then Some ENOENT
  else if String.eqb res_sc "-4" then Some EACCES
  else if String.eqb res_sc "-5" then Some EINVAL
  else None.

(** A zone as the code fills it before storing it. *)
Definition new_zone (id name owner : string) (members spaces : list string) : Zone.t :=
  Zone.mk id name owner members spaces [] junk_int junk_int junk_int false.

(** The error code of the name query is not looked at. *)
Definition ZoneRegister (zoneName ownerID : string) (memberID : list string) (spaceName : string)
    (spaceSize : Z) (spacePathInfo : string) : M W Z :=
  dbPtr ← create_datastore zonebucket;
  '(vp, err) ← ds_n1ql junk_int dbPtr (name_query ownerID zoneName);
  if bool_decide (length vp ≠ 0%nat) then mret EINVAL
  else
    tmp_uuid ← extern host_uuid;
    let groupname := substr 0 9 tmp_uuid in
    res_sc ← SpaceServer.SpaceCreate spaceName ownerID memberID spaceSize spacePathInfo groupname;
    match space_error res_sc with
    | Some e => mret e
    | None =>
        let tmp := new_zone tmp_uuid zoneName ownerID memberID [res_sc] in
        if String.eqb tmp.(Zone.zoneName) "" then mret EINVAL
        else
          flag ← ds_set dbPtr (zone_prefix +:+ tmp.(Zone.zoneID)) (Zone.serialize tmp);
          if negb (bool_decide (flag = 0)) then mret EAGAIN else mret 0
    end.

Definition ZoneRegisterRest (info : string) : M W response :=
  let req := of_json ZoneRequest.init info in
  result ← ZoneRegister req.(ZoneRequest.zoneName) req.(ZoneRequest.ownerID) req.(ZoneRequest.memberID)
    req.(ZoneRequest.spaceName) req.(ZoneRequest.spaceSize) req.(ZoneRequest.spacePathInfo);
  mret (Response Code_Ok (json_encode codec_int result)).

(** A request for another centre is forwarded to its manager, whose answer is
    waited for and passed on. *)
Definition forward (path hostCenterID info : string) : M W response :=
  f0_dbPtr ← open_datastore accountbucket;
  '(pcenter_value, c_error) ← ds_get f0_dbPtr "center_information";
  if negb (bool_decide (c_error = 0)) then mret (Response Code_Ok (json_encode codec_int EAGAIN))
  else
    text ← deref pcenter_value;
    let mycenter := of_json CenterInfo.init text in
    let tmp_ip := default "" (mycenter.(CenterInfo.centerIP) !! hostCenterID) in
    let tmp_port := default "" (mycenter.(CenterInfo.centerPort) !! hostCenterID) in
    let url := snprintf 256 ("http://" +:+ c_str tmp_ip +:+ ":" +:+ c_str tmp_port +:+ path) in
    answer ← extern (host_post url info);
    body ← deref answer;
    mret (Response Code_Ok body).

Definition ZoneRegisterCheckRest (info : string) : M W response :=
  let req := of_json ZoneRequest.init info in
  let tmpm := of_json Space.init req.(ZoneRequest.spacePathInfo) in
  if String.eqb ManagerID tmpm.(Space.hostCenterID) || String.eqb tmpm.(Space.hostCenterID) ""
  then ZoneRegisterRest info
  else forward "/zone/register" tmpm.(Space.hostCenterID) info.

(** ** Adding a zone over an existing space *)

Definition ZoneAdd (zoneName ownerID : string) (memberID : list string) (spacePathInfo : string) : M W Z :=
  dbPtr ← create_datastore zonebucket;
  '(vp, err) ← ds_n1ql junk_int dbPtr (name_query ownerID zoneName);
  if negb (bool_decide (err = 0)) then mret EAGAIN
  else match vp with
  | [] =>
      res_sc ← SpaceServer.SpaceCheck ownerID memberID spacePathInfo;
      if String.eqb res_sc "false" then mret EINVAL
      else
        tmp_uuid ← extern host_uuid;
        let tmp := new_zone tmp_uuid zoneName ownerID memberID [res_sc] in
        flag ← ds_set dbPtr (zone_prefix +:+ tmp.(Zone.zoneID)) (Zone.serialize tmp);
        if negb (bool_decide (flag = 0)) then mret EAGAIN else mret 0
  | [tmp_value] =>
      res_sc ← SpaceServer.SpaceCheck ownerID memberID spacePathInfo;
      if String.eqb res_sc "false" then mret EINVAL
      else
        tmp ← deref (Zone.deserialize Zone.init tmp_value);
        let tmp := Zone.set_contains_spaceinfo false
          (Zone.set_spaceID (tmp.(Zone.spaceID) ++ [res_sc]) tmp) in
        flag2 ← ds_set dbPtr (zone_prefix +:+ tmp.(Zone.zoneID)) (Zone.serialize tmp);
        if negb (bool_decide (flag2 = 0)) then mret EAGAIN else mret 0
  | _ => mret EINVAL
  end.

Definition ZoneAddRest (info : string) : M W response :=
  let req := of_json ZoneRequest.init info in
  result ← ZoneAdd req.(ZoneRequest.zoneName) req.(ZoneRequest.ownerID) req.(ZoneRequest.memberID)
    req.(ZoneRequest.spacePathInfo);
  mret (Response Code_Ok (json_encode codec_int result)).

(** ** Cancellation *)

Definition ZoneCancel (zoneID ownerID : string) : M W Z :=
  zonePtr ← create_datastore zonebucket;
  '(vp, err) ← ds_get zonePtr (zone_prefix +:+ zoneID);
  if negb (bool_decide (err = 0)) then mret EAGAIN
  else
    tmp_value ← deref vp;
    if size tmp_value =? 0 then mret ENOENT
    else
      tmp ← deref (Zone.deserialize Zone.init tmp_value);
      allowed ← owner_or_admin tmp ownerID;
      if (allowed : bool) then
        ret ← SpaceServer.SpaceDelete tmp.(Zone.spaceID);
        if bool_decide (ret = 0) then
          flag ← ds_remove zonePtr (zone_prefix +:+ zoneID);
          if negb (bool_decide (flag = 0)) then mret EAGAIN else mret 0
        else mret EAGAIN
      else mret EACCES.

Definition ZoneCancelRest (info : string) : M W response :=
  let req := of_json ZoneRequest.init info in
  result ← ZoneCancel req.(ZoneRequest.zoneID) req.(ZoneRequest.ownerID);
  mret (Response Code_Ok (json_encode codec_int result)).

(** ** Editing the map of spaces *)

(** For anyone but the owner control leaves the function without a value. *)
Definition MapAdd (zoneID ownerID spaceName : string) (spaceSize : Z) (spacePathInfo : string) : M W Z :=
  zonePtr ← create_datastore zonebucket;
  let tmp_key := zone_prefix +:+ zoneID in
  '(vp, err) ← ds_get zonePtr tmp_key;
  if negb (bool_decide (err = 0)) then mret EAGAIN
  else
    tmp_value ← deref vp;
    tmp ← deref (Zone.deserialize Zone.init tmp_value);
    tmps ← SpaceServer.GetSpacePosition [] tmp.(Zone.spaceID);
    if existsb (λ m, String.eqb m.(Space.spaceName) spaceName) tmps then mret EINVAL
    else if String.eqb tmp.(Zone.ownerID) ownerID then
      let groupname := substr 0 9 zoneID in
      res_sc ← SpaceServer.SpaceCreate spaceName ownerID tmp.(Zone.memberID) spaceSize spacePathInfo groupname;
      match space_error res_sc with
      | Some e => mret e
      | None =>
          let tmp := Zone.set_contains_spaceinfo false
            (Zone.set_spaceID (tmp.(Zone.spaceID) ++ [res_sc]) tmp) in
          flag ← ds_set zonePtr tmp_key (Zone.serialize tmp);
          if negb (bool_decide (flag = 0)) then mret EAGAIN else mret 0
      end
    else undefined.

Definition MapAddRest (info : string) : M W response :=
  let req := of_json ZoneRequest.init info in
  result ← MapAdd req.(ZoneRequest.zoneID) req.(ZoneRequest.ownerID) req.(ZoneRequest.spaceName)
    req.(ZoneRequest.spaceSize) req.(ZoneRequest.spacePathInfo);
  mret (Response Code_Ok (json_encode codec_int result)).

Definition MapAddCheckRest (info : string) : M W response :=
  let req := of_json ZoneRequest.init info in
  let tmpm := of_json Space.init req.(ZoneRequest.spacePathInfo) in
  if String.eqb ManagerID tmpm.(Space.hostCenterID) || String.eqb tmpm.(Space.hostCenterID) ""
  then MapAddRest info
  else forward "/zone/mapadd" tmpm.(Space.hostCenterID) info.

(** The result of [SpaceDelete] is not looked at. *)
Definition MapDeduct (zoneID ownerID : string) (spaceID : list string) : M W Z :=
  zonePtr ← create_datastore zonebucket;
  '(vp, err) ← ds_get zonePtr (zone_prefix +:+ zoneID);
  if negb (bool_decide (err = 0)) then mret EAGAIN
  else
    tmp_value ← deref vp;
    tmp ← deref (Zone.deserialize Zone.init tmp_value);
    if String.eqb tmp.(Zone.ownerID) ownerID then
      if isSubset tmp.(Zone.spaceID) spaceID then
        _ ← SpaceServer.SpaceDelete spaceID;
        let tmp := Zone.set_contains_spaceinfo false
          (Zone.set_spaceID (foldl (λ v x, erase_all x v) tmp.(Zone.spaceID) spaceID) tmp) in
        flag ← ds_set zonePtr (zone_prefix +:+ zoneID) (Zone.serialize tmp);
        if negb (bool_decide (flag = 0)) then mret EAGAIN else mret 0
      else mret EINVAL
    else mret EACCES.

Definition MapDeductRest (info : string) : M W response :=
  let req := of_json ZoneRequest.init info in
  result ← MapDeduct req.(ZoneRequest.zoneID) req.(ZoneRequest.ownerID) req.(ZoneRequest.spaceID);
  mret (Response Code_Ok (json_encode codec_int result)).

(** ** Applications; a name of more than 50 bytes loses its first 50 *)

Definition shorten (name : string) : string :=
  if size name >? 50 then substr_from 50 name else name.

Definition ZoneRegisterApply (apply : string) : M W Z :=
  applyPtr ← create_datastore applybucket;
  uuid ← extern host_uuid;
  let key := "zregi-" +:+ uuid in
  let req := of_json ZoneRequest.init apply in
  let req := ZoneRequest.set_zoneName (shorten req.(ZoneRequest.zoneName)) req in
  let req := ZoneRequest.set_spaceName (shorten req.(ZoneRequest.spaceName)) req in
  flag ← ds_set applyPtr key (to_json (struct_apply_info.mk key (to_json req)));
  if negb (bool_decide (flag = 0)) then mret EAGAIN else mret 0.

Definition ZoneRegisterApplyRest (info : string) : M W response :=
  result ← ZoneRegisterApply info;
  mret (Response Code_Ok (json_encode codec_int result)).

Definition MapAddApply (apply : string) : M W Z :=
  applyPtr ← create_datastore applybucket;
  uuid ← extern host_uuid;
  let key := "spadd-" +:+ uuid in
  let req := of_json ZoneRequest.init apply in
  let req := ZoneRequest.set_spaceName (shorten req.(ZoneRequest.spaceName)) req in
  flag ← ds_set applyPtr key (to_json (struct_apply_info.mk key (to_json req)));
  if negb (bool_decide (flag = 0)) then mret EAGAIN else mret 0.

Definition MapAddApplyRest (info : string) : M W response :=
  result ← MapAddApply info;
  mret (Response Code_Ok (json_encode codec_int result)).
End zone.

(** ** Proofs *)

Lemma find_in_spec x v : find_in x v = true ↔ x ∈ v.
Proof.
  induction v as [|y v IH]; cbn; [set_solver|].
  destruct (String.eqb_spec y x) as [->|]; set_solver.
Qed.

Lemma erase_all_filter x v : erase_all x v = filter (λ y, y ≠ x) v.
Proof.
  induction v as [|y v IH]; [done|]. rewrite filter_cons. cbn. rewrite IH.
  by destruct (String.eqb_spec y x); case_decide.
Qed.

Lemma add_members_elem members new x : x ∈ add_members members new ↔ x ∈ members ∨ x ∈ new.
Proof.
  revert members. induction new as [|n new IH]; intros members; cbn; [set_solver|].
  unfold add_members in IH. rewrite IH. destruct (find_in n members) eqn:Hf; [|set_solver].
  apply find_in_spec in Hf. set_solver.
Qed.

Lemma add_members_nodup members new : NoDup members → NoDup (add_members members new).
Proof.
  revert members. induction new as [|n new IH]; intros members Hnd; cbn; [done|]. apply IH.
  destruct (find_in n members) eqn:Hf; [done|]. apply NoDup_app. split_and!; [done| |apply NoDup_singleton].
  intros y Hy Hy'. apply list_elem_of_singleton in Hy' as ->. apply find_in_spec in Hy. congruence.
Qed.

Lemma remove_members_filter members gone : remove_members members gone = filter (λ y, y ∉ gone) members.
Proof.
  revert members. induction gone as [|g gone IH]; intros members; cbn.
  - induction members as [|y members IH]; [done|]. rewrite filter_cons_True by set_solver. by rewrite IH at 1.
  - unfold remove_members in IH. rewrite IH, erase_all_filter, list_filter_filter.
    apply list_filter_iff. set_solver.
Qed.

(** *** [isSubset] is inclusion of multisets *)
Lemma isSubset_loop_spec v1 v2 :
  StronglySorted str_le v1 → StronglySorted str_le v2 → isSubset_loop v1 v2 = true ↔ v2 ⊆+ v1.
Proof.
  intros Hs1. revert v2. induction Hs1 as [|x v1 Hs1 IH Hx]; intros v2 Hs2; destruct v2 as [|y v2]; cbn.
  - split; [intros; constructor|done].
  - split; [done|]. intros Hsub%submseteq_length. cbn in Hsub. lia.
  - split; [intros; apply submseteq_nil_l|done].
  - inversion_clear Hs2 as [|? ? Hs2' Hy]. rewrite Forall_forall in Hx, Hy.
    destruct (str_lt x y) eqn:Hlt.
    + apply str_lt_nle in Hlt. rewrite IH by (by constructor; [|apply Forall_forall]).
      rewrite submseteq_cons_r. split; [by left|]. intros [?|(l & Hl & _)]; [done|]. exfalso.
      assert (Hin : x ∈ y :: v2) by (rewrite Hl; left).
      apply elem_of_cons in Hin as [->|Hin]; [by apply Hlt|by apply Hlt, Hy].
    + destruct (String.eqb_spec x y) as [->|Hne].
      * rewrite IH by done. split; [apply submseteq_skip|].
        intros Hsub. apply submseteq_cons_l in Hsub as (k & Hk & Hsub).
        apply (inj (y ::.)) in Hk. by rewrite Hk.
      * split; [done|]. intros Hsub. exfalso.
        assert (Hin : y ∈ x :: v1) by (eapply elem_of_submseteq; [left|exact Hsub]).
        apply elem_of_cons in Hin as [->|Hin]; [done|]. specialize (Hx y Hin).
        apply not_true_iff_false in Hlt. apply Hlt, str_lt_nle. intros Hyx. by apply Hne, (anti_symm str_le).
Qed.
Lemma isSubset_multiset v1 v2 : isSubset v1 v2 = true ↔ v2 ⊆+ v1.
Proof.
  unfold isSubset, size_of. destruct (Z.ltb_spec (Z.of_nat (length v1)) (Z.of_nat (length v2))) as [Hlt|_].
  - split; [done|]. intros Hsub%submseteq_length. lia.
  - rewrite isSubset_loop_spec by apply sort_strings_sorted.
    by rewrite !sort_strings_perm.
Qed.

Lemma filter_all (ms l : list string) : (∀ x, x ∈ l → x ∉ ms) → filter (λ m, m ∉ ms) l = l.
Proof.
  induction l as [|y l IH]; intros Hl; [done|]. rewrite filter_cons_True by set_solver.
  rewrite IH; [done|set_solver].
Qed.
Lemma filter_none (ms l : list string) : (∀ x, x ∈ l → x ∈ ms) → filter (λ m, m ∉ ms) l = [].
Proof.
  induction l as [|y l IH]; intros Hl; [done|]. rewrite filter_cons_False by set_solver.
  apply IH. set_solver.
Qed.

Section props.
Context {W : Type} `{CouchbaseLaws W, !Host W, !HostLaws W, RapidjsonLaws, Indet}.
Implicit Types (D : gmap (string * string) string) (w : W).

Definition zone_key (id : string) : string * string := dkey zonebucket (zone_prefix +:+ id).

(** The zone stored under [id] is read as [z]. *)
Definition zone_at D (id : string) (z : Zone.t) : Prop :=
  ∃ doc, D !! zone_key id = Some doc ∧ Zone.deserialize Zone.init doc = Some z.
Definition owns D (id u : string) : Prop := ∃ z, zone_at D id z ∧ z.(Zone.ownerID) = u.

Lemma zone_key_inj id id' : zone_key id = zone_key id' ↔ id = id'.
Proof. unfold zone_key. rewrite dkey_inj. split; [apply append_inj_l|by intros ->]. Qed.

Lemma zone_stor_key id id' : SpaceServer.stor_key id' ≠ zone_key id.
Proof. unfold zone_key, SpaceServer.stor_key, zone_prefix, StorageResource.prefix, dkey. rewrite !append_cons. intros [=]. Qed.
Lemma zone_space_key id id' : SpaceServer.space_key id' ≠ zone_key id.
Proof. unfold zone_key, SpaceServer.space_key, zone_prefix, SpaceServer.space_prefix, dkey. rewrite !append_cons. intros [=]. Qed.

(** *** Authorisation *)

Lemma owner_or_admin_denied tmp u D w :
  tmp.(Zone.ownerID) ≠ u → u ∉ UserModelServer.admins D → stored D w →
  wp (owner_or_admin tmp u) (λ b w', b = false ∧ stored D w') (stored D) w.
Proof.
  intros Ho Hu HD. unfold owner_or_admin. apply wp_orM; intros Hb.
  - by apply String.eqb_eq in Hb.
  - by apply UserModelServer.validadmin_denied.
Qed.

Lemma GetSpacePosition_loop_any p b tmps result ids D w :
  opened b p → stored D w →
  wp (SpaceServer.GetSpacePosition_loop p tmps result ids) (λ _, stored D) (stored D) w.
Proof.
  intros Hp. revert tmps result w. induction ids as [|m ids IH]; intros tmps result w HD;
    cbn [SpaceServer.GetSpacePosition_loop]; wp_steps; auto.
  db_any; wp_steps; auto. db_any. wp_step. db_any; wp_steps; auto.
Qed.

Lemma GetSpacePosition_any result ids D w :
  stored D w → wp (SpaceServer.GetSpacePosition result ids) (λ _, stored D) (stored D) w.
Proof.
  intros HD. unfold SpaceServer.GetSpacePosition. wp_step. db_any. by eapply GetSpacePosition_loop_any.
Qed.

(** C31: whatever fails, someone who neither owns a zone nor is on the list of
    administrators cannot rename, share, unshare or cancel it: the answer is an
    error (or none) and no document changes. Adding and removing spaces is the
    owner's alone: administrators are refused too. *)
Theorem zone_authorization id u D w :
  ¬ owns D id u → stored D w →
  (u ∉ UserModelServer.admins D →
     (∀ name, wp (ZoneRename id u name) (λ e w', e ≠ 0 ∧ stored D w') (stored D) w) ∧
     (∀ ms, wp (ZoneShare id u ms) (λ e w', e ≠ 0 ∧ stored D w') (stored D) w) ∧
     (∀ ms, wp (ZoneShareCancel id u ms) (λ e w', e ≠ 0 ∧ stored D w') (stored D) w) ∧
     wp (ZoneCancel id u) (λ e w', e ≠ 0 ∧ stored D w') (stored D) w) ∧
  (∀ ids, wp (MapDeduct id u ids) (λ e w', e ≠ 0 ∧ stored D w') (stored D) w) ∧
  (∀ name n info, wp (MapAdd id u name n info) (λ e w', e ≠ 0 ∧ stored D w') (stored D) w).
Proof.
  intros Ho HD.
  assert (Howner : ∀ doc z, D !! dkey zonebucket (zone_prefix +:+ id) = Some doc →
    Zone.deserialize Zone.init doc = Some z → z.(Zone.ownerID) ≠ u).
  { intros doc z Hd Hz <-. apply Ho. exists z. split; [by exists doc|done]. }
  split; [intros Hu; split_and!|split]; intros;
    unfold ZoneRename, ZoneShare, ZoneShareCancel, ZoneCancel, MapDeduct, MapAdd;
    wp_step; db_any; wp_step; try (eapply wp_reinit_any; [eassumption|eassumption|keep_stored|intros ? ? ? ?]; wp_step);
    db_any; wp_steps; try done; simplify_eq.
  all: try by match goal with Hb : String.eqb _ _ = true |- _ => apply String.eqb_eq in Hb; exfalso; eapply Howner; eauto end.
  all: try (eapply wp_mono; [| |by eapply owner_or_admin_denied; [eapply Howner; eauto|..]]; [|done];
            intros ? w1 [-> HD1]; by wp_steps).
  eapply wp_mono; [| |by apply GetSpacePosition_any]; [|done].
  intros tmps w1 HD1. wp_steps; try done.
  match goal with Hb : String.eqb _ _ = true |- _ => apply String.eqb_eq in Hb; exfalso; eapply Howner; eauto end.
Qed.
(** *** Space accounting is kept by every zone operation *)

Lemma space_inv_zone D id v : SpaceServer.space_inv D → SpaceServer.space_inv (<[zone_key id := v]> D).
Proof.
  intros [HC HS]. split; intros id' doc; rewrite lookup_insert_ne;
    (apply HC || apply HS || (intros He; symmetry in He; by apply zone_stor_key in He || by apply zone_space_key in He)).
Qed.
Lemma space_inv_unzone D id : SpaceServer.space_inv D → SpaceServer.space_inv (delete (zone_key id) D).
Proof.
  intros [HC HS]. split; intros id' doc; rewrite lookup_delete_ne;
    (apply HC || apply HS || (intros He; symmetry in He; by apply zone_stor_key in He || by apply zone_space_key in He)).
Qed.

(** The zones of [D'] are those of [D]. *)
Definition same_zones D D' : Prop := ∀ id, D' !! zone_key id = D !! zone_key id.
(** The invariant of the spaces, and the zones of [D]. *)
Definition spaces_and_zones D : gmap (string * string) string → Prop :=
  SpaceServer.inv_with (same_zones D).

Lemma same_zones_stor D0 D id v : same_zones D0 D → same_zones D0 (<[SpaceServer.stor_key id := v]> D).
Proof. intros HP id'. rewrite lookup_insert_ne by apply zone_stor_key. apply HP. Qed.
Lemma same_zones_space D0 D id v : same_zones D0 D → same_zones D0 (<[SpaceServer.space_key id := v]> D).
Proof. intros HP id'. rewrite lookup_insert_ne by apply zone_space_key. apply HP. Qed.

Lemma SpaceDelete_zones ids D w :
  SpaceServer.space_inv D → stored D w →
  wp (SpaceServer.SpaceDelete ids) (λ _ w', ∃ D', stored D' w' ∧ spaces_and_zones D D')
    (λ w', ∃ D', stored D' w' ∧ spaces_and_zones D D') w.
Proof.
  intros HI HD. apply (SpaceServer.keeps_SpaceDelete (same_zones D) (same_zones_stor D) (same_zones_space D) ids D w).
  - by split.
  - done.
Qed.

Lemma owner_or_admin_any tmp u D w : stored D w → wp (owner_or_admin tmp u) (λ _, stored D) (stored D) w.
Proof.
  intros HD. unfold owner_or_admin. apply wp_orM; intros _; [done|].
  eapply wp_mono; [| |by apply UserModelServer.validadmin_any]; [|done]. by intros b w' [? _].
Qed.

(** Whatever fails, a cancelled zone is gone when the answer is success, no
    other zone is touched, and the accounting of the spaces is kept. *)
Theorem ZoneCancel_spec id u D w :
  SpaceServer.space_inv D → stored D w →
  wp (ZoneCancel id u)
    (λ e w', ∃ D', stored D' w' ∧ SpaceServer.space_inv D' ∧
       (∀ id', id' ≠ id → D' !! zone_key id' = D !! zone_key id') ∧ (e = 0 → D' !! zone_key id = None))
    (λ w', ∃ D', stored D' w' ∧ SpaceServer.space_inv D' ∧ same_zones D D') w.
Proof.
  intros HI HD. assert (same_zones D D) by done.
  unfold ZoneCancel. wp_step. db_any. wp_step. db_any; wp_steps; try (exists D; by split_and!).
  eapply wp_mono; [| |by apply owner_or_admin_any]; [|by eauto].
  intros b w1 HD1. wp_steps; [|exists D; by split_and!].
  eapply wp_mono; [| |by apply SpaceDelete_zones]; [|by intros ? (D' & ? & ? & ?); eauto].
  intros e w2 (D' & HD2 & HI2 & HZ). wp_steps; [|exists D'; by split_and!; auto].
  db_any; wp_steps.
  all: try (exists D'; by split_and!; auto).
  all: exists (delete (zone_key id) D'); (split; [done|]); (split; [by apply space_inv_unzone|]).
  all: split; [|by intros; apply lookup_delete_eq].
  all: intros id' Hne; rewrite lookup_delete_ne by (rewrite zone_key_inj; congruence); apply HZ.
Qed.



(** The document of zone [id] is one the server wrote. *)
Definition zone_stored D (id : string) (z : Zone.t) : Prop :=
  D !! zone_key id = Some (Zone.serialize z) ∧ Zone.wf z.

(** [D'] is [D] with zone [id] replaced by one whose stored part is [c]. *)
Definition zone_updated D (id : string) (c : string * string * string * list string * list string) D' : Prop :=
  ∃ z', D' = <[zone_key id := Zone.serialize z']> D ∧ Zone.wf z' ∧ Zone.core z' = c.

(** Reading a stored zone back. *)
Lemma zone_read (z : Zone.t) :
  Zone.wf z → ∃ y, Zone.deserialize Zone.init (Zone.serialize z) = Some y ∧ Zone.wf y ∧
    y.(Zone.zoneID) = z.(Zone.zoneID) ∧ y.(Zone.zoneName) = z.(Zone.zoneName) ∧
    y.(Zone.ownerID) = z.(Zone.ownerID) ∧ y.(Zone.memberID) = z.(Zone.memberID) ∧
    y.(Zone.spaceID) = z.(Zone.spaceID).
Proof.
  intros Hz. destruct (Zone.zone_deserialize_serialize z Zone.init Hz) as (y & Hy & Hc & _ & _ & Hw).
  injection Hc as ? ? ? ? ?. exists y. split_and!; try done. apply Hw, Zone.zone_init_wf.
Qed.

Lemma erase_fold (ids l : list string) : foldl (λ v x, erase_all x v) l ids = filter (λ m, m ∉ ids) l.
Proof. apply remove_members_filter. Qed.

Definition with_spaces (z : Zone.t) (ss : list string) :=
  (z.(Zone.zoneID), z.(Zone.zoneName), z.(Zone.ownerID), z.(Zone.memberID), ss).

Lemma set_spaces_wf z (ids : list string) : Zone.wf z →
  Zone.wf (Zone.set_contains_spaceinfo false
    (Zone.set_spaceID (filter (λ m, m ∉ ids) z.(Zone.spaceID)) z)).
Proof.
  unfold Zone.wf. cbn. intros; destruct_and?. split_and!; try done.
  rewrite Forall_forall in *. intros x [_ Hx]%list_elem_of_filter. auto.
Qed.

(** Whatever fails, when the owner's request to take spaces out of a zone
    answers success, the zone keeps exactly the others, each space named was one
    of its own, and no other zone is touched; the space accounting is kept in
    every case. *)
Theorem MapDeduct_spec id u ids z D w :
  SpaceServer.space_inv D → zone_stored D id z → stored D w →
  wp (MapDeduct id u ids)
    (λ e w', ∃ D', stored D' w' ∧ SpaceServer.space_inv D' ∧
       (∀ id', id' ≠ id → D' !! zone_key id' = D !! zone_key id') ∧
       (e = 0 → z.(Zone.ownerID) = u ∧ ids ⊆+ z.(Zone.spaceID) ∧ ∃ z', zone_stored D' id z' ∧
          Zone.core z' = with_spaces z (filter (λ s, s ∉ ids) z.(Zone.spaceID))))
    (λ w', ∃ D', stored D' w' ∧ SpaceServer.space_inv D') w.
Proof.
  intros HI [Hk Hz] HD. destruct (zone_read z Hz) as (y & Hy & Hyw & Hzi & Hzn & Ho & Hm & Hs).
  unfold MapDeduct. wp_step. db_any. wp_step. unfold zone_key in Hk.
  db_any; wp_steps; try (exists D; by split_and!). all: simplify_eq.
  eapply wp_mono; [| |by apply SpaceDelete_zones]; [|by intros ? (D' & ? & ? & ?); eauto].
  intros e w2 (D' & HD2 & HI2 & HZ). wp_steps. rewrite erase_fold.
  match goal with |- wp (ds_set _ _ (Zone.serialize ?x)) _ _ _ => set (z' := x) end.
  assert (Hz' : Zone.wf z') by exact (set_spaces_wf y ids Hyw).
  db_any; wp_steps; try (exists D'; by split_and!).
  all: exists (<[zone_key id := Zone.serialize z']> D'); (split; [done|]); (split; [by apply space_inv_zone|]).
  all: split; [intros id' Hne; rewrite lookup_insert_ne by (rewrite zone_key_inj; congruence); apply HZ|].
  all: intros He; try done.
  split; [by rewrite <-Ho; apply String.eqb_eq|]. split; [rewrite <-Hs; by apply isSubset_multiset|].
  exists z'. split; [split; [apply lookup_insert_eq|done]|]. unfold Zone.core, with_spaces, z'. cbn. congruence.
Qed.

(** *** Sharing, without faults *)
Context `{!CouchbaseUp W}.

Definition editor D (z : Zone.t) (u : string) : Prop :=
  z.(Zone.ownerID) = u ∨ u ∈ UserModelServer.admins D.

Definition with_members (z : Zone.t) (ms : list string) :=
  (z.(Zone.zoneID), z.(Zone.zoneName), z.(Zone.ownerID), ms, z.(Zone.spaceID)).

Lemma owner_or_admin_up tmp u D w :
  editor D tmp u → serving D w →
  wp (owner_or_admin tmp u) (λ b w', b = true ∧ serving D w') never w.
Proof.
  intros He HD. unfold owner_or_admin. apply wp_orM; intros Hb; [done|].
  eapply wp_mono; [| |by apply UserModelServer.validadmin_up]; [|done]. intros b w' [HD' ->].
  rewrite bool_decide_true; [done|]. destruct He as [He|He]; [|done]. by apply String.eqb_neq in Hb.
Qed.

Definition texts (l : list string) : Prop := Forall (λ s, c_str s = s) l.

Lemma set_members_wf z ms : Zone.wf z → texts ms → Zone.wf (Zone.set_memberID ms z).
Proof. unfold Zone.wf, texts. cbn. naive_solver. Qed.

Lemma members_texts z : Zone.wf z → texts z.(Zone.memberID).
Proof. unfold Zone.wf, texts. cbn. naive_solver. Qed.

Lemma add_members_texts l ms : texts l → texts ms → texts (add_members l ms).
Proof.
  unfold texts. rewrite !Forall_forall. intros Hl Hms x [?|?]%add_members_elem; auto.
Qed.
Lemma remove_members_texts l ms : texts l → texts (remove_members l ms).
Proof.
  unfold texts. rewrite remove_members_filter, !Forall_forall. intros Hl x [_ Hx]%list_elem_of_filter. auto.
Qed.

Lemma ZoneShare_up id u ms z D w :
  serving D w → zone_stored D id z → editor D z u → texts ms →
  wp (ZoneShare id u ms) (λ e w', e = 0 ∧ ∃ D', serving D' w' ∧
    zone_updated D id (with_members z (add_members z.(Zone.memberID) ms)) D') never w.
Proof.
  intros HD [Hk Hz] He Hms. destruct (zone_read z Hz) as (y & Hy & Hyw & Hzi & Hzn & Ho & Hm & Hs).
  unfold ZoneShare. wp_step. db_up. wp_step. db_up. wp_step. unfold zone_key in Hk.
  db_up; [|congruence]. simplify_eq. wp_steps; [|congruence]. simplify_eq.
  eapply wp_mono; [| |apply owner_or_admin_up; [|eassumption]]; [|done|].
  2: { unfold editor in *. by rewrite Ho. }
  intros b w3 [-> HD3]. wp_steps. db_up. wp_steps. split; [done|]. eexists. split; [eassumption|].
  eexists. split; [done|]. split.
  - apply set_members_wf; [done|]. rewrite Hm. apply add_members_texts; [by apply members_texts|done].
  - unfold Zone.core, with_members. cbn. congruence.
Qed.

Lemma ZoneShareCancel_up id u ms z D w :
  serving D w → zone_stored D id z → editor D z u →
  wp (ZoneShareCancel id u ms) (λ e w',
    if isSubset z.(Zone.memberID) ms
    then e = 0 ∧ ∃ D', serving D' w' ∧
      zone_updated D id (with_members z (filter (λ m, m ∉ ms) z.(Zone.memberID))) D'
    else e = EINVAL ∧ serving D w') never w.
Proof.
  intros HD [Hk Hz] He. destruct (zone_read z Hz) as (y & Hy & Hyw & Hzi & Hzn & Ho & Hm & Hs).
  unfold ZoneShareCancel. wp_step. db_up. wp_step. db_up. wp_step. unfold zone_key in Hk.
  db_up; [|congruence]. simplify_eq. wp_steps; try congruence; simplify_eq.
  all: rewrite Hm in *.
  - by match goal with Hb : negb ?b = true |- _ => destruct b end.
  - eapply wp_mono; [| |apply owner_or_admin_up; [|eassumption]]; [|done|].
    2: { unfold editor in *. by rewrite Ho. }
    intros b w3 [-> HD3]. wp_steps. db_up. wp_steps.
    match goal with Hb : negb ?b = false |- _ => destruct b; [|done] end.
    split; [done|]. eexists. split; [eassumption|]. eexists. split; [done|]. split.
    + apply set_members_wf; [done|]. by apply remove_members_texts, members_texts.
    + unfold Zone.core, with_members. cbn. rewrite remove_members_filter. congruence.
Qed.
Lemma updated_read D id c D' :
  zone_updated D id c D' → ∃ z', zone_stored D' id z' ∧ Zone.core z' = c.
Proof. intros (z' & -> & Hw & Hc). exists z'. by split; [split; [apply lookup_insert_eq|]|]. Qed.

Lemma updated_admins D id c D' :
  zone_updated D id c D' → UserModelServer.admins D' = UserModelServer.admins D.
Proof.
  intros (z' & -> & _). unfold UserModelServer.admins. rewrite lookup_insert_ne; [done|].
  unfold zone_key, UserModelServer.account_key, dkey. intros [=].
Qed.

(** Without faults, sharing a zone adds exactly the members that were not
    there, in order, and changes nothing else of what the database keeps;
    nobody is listed twice afterwards if nobody was. *)
Theorem ZoneShare_spec id u ms z D w :
  serving D w → zone_stored D id z → editor D z u → texts ms →
  wp (ZoneShare id u ms) (λ e w', e = 0 ∧ ∃ D' members, serving D' w' ∧
    zone_updated D id (with_members z members) D' ∧
    (∀ x, x ∈ members ↔ x ∈ z.(Zone.memberID) ∨ x ∈ ms) ∧
    (NoDup z.(Zone.memberID) → NoDup members)) never w.
Proof.
  intros HD Hz He Hms. eapply wp_mono; [| |by apply ZoneShare_up]; [|done].
  intros e w' (-> & D' & HD' & Hu). split; [done|]. eexists D', _. split_and!; [done..| |].
  - intros x. apply add_members_elem.
  - apply add_members_nodup.
Qed.

(** Without faults, removing members from a zone is all or nothing: it
    removes them all, whoever else is listed staying, when each is listed as
    often as the request names it, and fails with nothing changed otherwise. *)
Theorem ZoneShareCancel_spec id u ms z D w :
  serving D w → zone_stored D id z → editor D z u →
  (ms ⊆+ z.(Zone.memberID) →
     wp (ZoneShareCancel id u ms) (λ e w', e = 0 ∧ ∃ D', serving D' w' ∧
       zone_updated D id (with_members z (filter (λ m, m ∉ ms) z.(Zone.memberID))) D') never w) ∧
  (¬ ms ⊆+ z.(Zone.memberID) →
     wp (ZoneShareCancel id u ms) (λ e w', e = EINVAL ∧ serving D w') never w).
Proof.
  intros HD Hz He. split; intros Hsub; (eapply wp_mono; [| |by apply ZoneShareCancel_up]; [|done]);
    intros e w'; destruct (isSubset (Zone.memberID z) ms) eqn:Hs; try done.
  - by apply isSubset_multiset, not_false_iff_true in Hsub.
  - by apply isSubset_multiset in Hs.
Qed.

Lemma add_fresh members ms :
  NoDup ms → (∀ x, x ∈ ms → x ∉ members) → add_members members ms = members ++ ms.
Proof.
  intros Hnd. revert members. induction Hnd as [|m ms Hm Hnd IH]; intros members Hf; cbn.
  { by rewrite (right_id_L [] (++)). }
  unfold add_members in IH. destruct (find_in m members) eqn:Hin.
  { apply find_in_spec in Hin. by destruct (Hf m ltac:(left)). }
  rewrite IH; [by rewrite <-(assoc_L (++))|]. set_solver.
Qed.

(** Without faults, sharing a zone with people who are not members and
    taking the same people out again restores the list of members. *)
Theorem share_then_cancel id u ms z D w :
  serving D w → zone_stored D id z → editor D z u → texts ms → NoDup ms →
  (∀ x, x ∈ ms → x ∉ z.(Zone.memberID)) →
  wp (ZoneShare id u ms ≫= λ _, ZoneShareCancel id u ms) (λ e w', e = 0 ∧
    ∃ z', zone_stored (docs w') id z' ∧ Zone.core z' = Zone.core z) never w.
Proof.
  intros HD Hz He Hms Hnd Hf. wp_step. eapply wp_mono; [| |by apply ZoneShare_up]; [|done].
  intros e w1 (-> & D1 & HD1 & Hu). destruct (updated_read _ _ _ _ Hu) as (z1 & Hz1 & Hc1).
  injection Hc1 as Hzi Hzn Ho Hm Hs.
  assert (Hed : editor D1 z1 u) by (unfold editor in *; by rewrite Ho, (updated_admins _ _ _ _ Hu)).
  eapply wp_mono; [| |by apply (ZoneShareCancel_up id u ms z1 D1)]; [|done]. cbn beta.
  intros e w2. rewrite add_fresh in Hm by done.
  assert (Hsub : isSubset (Zone.memberID z1) ms = true).
  { apply isSubset_multiset. rewrite Hm. by apply submseteq_inserts_l. }
  rewrite Hsub. intros (-> & D2 & HD2 & Hu2). split; [done|]. destruct HD2 as [_ ->].
  destruct (updated_read _ _ _ _ Hu2) as (z2 & Hz2 & Hc2). exists z2. split; [done|].
  rewrite Hc2. unfold with_members, Zone.core. rewrite Hzi, Hzn, Ho, Hs, Hm. f_equal. f_equal.
  rewrite filter_app, filter_all, filter_none; [by rewrite (right_id_L [] (++))|done|].
  intros x Hx Hx'. by apply (Hf x).
Qed.
(** Without faults a rename either finds the new name taken (or is told so)
    and changes nothing, or stores it and nothing else; of a name longer than 50
    bytes it keeps what follows the first 50, not the first 50. *)
Theorem ZoneRename_spec id u name z D w :
  serving D w → zone_stored D id z → editor D z u → c_str name = name →
  let kept := if 50 <? size name then str_drop 50 name else name in
  wp (ZoneRename id u name) (λ e w', e = EINVAL ∧ serving D w' ∨
    e = 0 ∧ ∃ D', serving D' w' ∧
      zone_updated D id (z.(Zone.zoneID), kept, z.(Zone.ownerID), z.(Zone.memberID), z.(Zone.spaceID)) D') never w.
Proof.
  intros HD [Hk Hz] He Hn kept. destruct (zone_read z Hz) as (y & Hy & Hyw & Hzi & Hzn & Ho & Hm & Hs).
  unfold ZoneRename. wp_step. db_up. wp_step. unfold zone_key in Hk.
  db_up; [|congruence]. simplify_eq. wp_steps; [|congruence]. simplify_eq.
  eapply wp_mono; [| |apply owner_or_admin_up; [|eassumption]]; [|done|].
  2: { unfold editor in *. by rewrite Ho. }
  intros b w3 [-> HD3]. cbn beta iota.
  assert (Hkept : (if size name >? 50 then substr_from 50 name else name) = kept).
  { unfold kept, substr_from. by rewrite Z.gtb_ltb. }
  rewrite Hkept. wp_step. db_up. cbn zeta. wp_steps; [by left|]. db_up. wp_steps. right. split; [done|].
  eexists. split; [eassumption|]. eexists. split; [done|]. split; [|unfold Zone.core; cbn; congruence].
  assert (c_str kept = kept) by (unfold kept; destruct (50 <? size name); [by apply c_str_drop|done]).
  unfold Zone.wf in *. cbn. naive_solver.
Qed.
End props.
(** ** Concrete runs *)
Section witness.
Let r0 : StorageResource.t := StorageResource.mk "s1" "disk" "c1" "centre" 100 20 "mgs" 1.
Let a0 : Space.t := Space.mk "a" "alpha" 10 "x" "STOR-s1" "a" "centre" "disk" true [].
Let z0 : Zone.t := Zone.mk "z" "lab" "ann" ["bob"] ["a"] [] 0 0 0 false.
Let D0 : gmap (string * string) string :=
  <[zone_key (W := world) "z" := Zone.serialize z0]>
    (<[SpaceServer.space_key (W := world) "a" := to_json a0]>
      {[SpaceServer.stor_key (W := world) "s1" := to_json r0]}).
Let w0 : world := World D0 ["u1"; "u2"] [] 0 None None.
Let w1 : world := World D0 ["u1"; "u2"] [to_json r0] 0 None None.

Lemma zone_space_inv0 : SpaceServer.space_inv (W := world) D0.
Proof.
  apply space_inv_zone.
  eapply (SpaceServer.inv_space (λ _, True)) with (sid := "s1"); [done| |ground_wf|done|done].
  apply (SpaceServer.inv_stor (λ _, True)); [done| |ground_wf|done]. split; [|done].
  split; intros id doc; by rewrite lookup_empty.
Qed.

Lemma zone_stored0 : zone_stored (W := world) D0 "z" z0.
Proof. split; [by vm_compute|]. unfold Zone.wf; ground_wf. Qed.

Lemma zone_admins0 : UserModelServer.admins (W := world) D0 = [].
Proof. by vm_compute. Qed.

Lemma ann_edits : editor (W := world) D0 z0 "ann".
Proof. by left. Qed.

Theorem zone_authorization_witness :
  wp (ZoneCancel "z" "eve") (λ e w', e ≠ 0 ∧ stored D0 w') (stored D0) w0.
Proof.
  apply (zone_authorization "z" "eve" D0 w0); [|done|rewrite zone_admins0; set_solver].
  intros (z & (doc & Hd & Hz) & Ho). destruct zone_stored0 as [Hk Hwf].
  destruct (zone_read z0 Hwf) as (y & Hy & _ & _ & _ & Hyo & _).
  assert (doc = Zone.serialize z0) as -> by congruence. assert (z = y) as -> by congruence.
  rewrite Hyo in Ho. discriminate Ho.
Defined.

Theorem ZoneCancel_spec_witness :
  wp (ZoneCancel "z" "ann") (λ e w', e = 0 → docs w' !! zone_key "z" = None) (λ _, True) w0.
Proof.
  eapply wp_mono; [| |apply (ZoneCancel_spec "z" "ann" D0 w0); [apply zone_space_inv0|done]]; [|done].
  intros e w' (D' & HD' & _ & _ & He) H0. unfold stored in HD'. rewrite HD'. by apply He.
Defined.


Theorem MapDeduct_spec_witness :
  wp (MapDeduct "z" "ann" ["a"]) (λ e w', e = 0 → ∃ z', zone_stored (docs w') "z" z' ∧
    Zone.core z' = with_spaces z0 []) (λ _, True) w0.
Proof.
  eapply wp_mono; [| |apply (MapDeduct_spec "z" "ann" ["a"] z0 D0 w0);
    [apply zone_space_inv0|apply zone_stored0|done]]; [|done].
  intros e w' (D' & HD' & _ & _ & He) H0. unfold stored in HD'. rewrite HD'. by apply He.
Defined.

Theorem ZoneShare_spec_witness :
  wp (ZoneShare "z" "ann" ["eve"; "bob"]) (λ e w', e = 0 ∧ ∃ D' members, serving D' w' ∧
    zone_updated D0 "z" (with_members z0 members) D' ∧
    (∀ x, x ∈ members ↔ x ∈ ["bob"] ∨ x ∈ ["eve"; "bob"]) ∧ (NoDup ["bob"] → NoDup members)) never w0.
Proof.
  apply (ZoneShare_spec "z" "ann" ["eve"; "bob"] z0 D0 w0);
    [done|apply zone_stored0|apply ann_edits|by repeat constructor].
Defined.

Theorem ZoneShareCancel_spec_witness :
  wp (ZoneShareCancel "z" "ann" ["bob"; "bob"]) (λ e w', e = EINVAL ∧ serving D0 w') never w0.
Proof.
  apply (ZoneShareCancel_spec "z" "ann" ["bob"; "bob"] z0 D0 w0);
    [done|apply zone_stored0|apply ann_edits|].
  intros Hsub%submseteq_length. cbn in Hsub. lia.
Defined.

Theorem share_then_cancel_witness :
  wp (ZoneShare "z" "ann" ["eve"] ≫= λ _, ZoneShareCancel "z" "ann" ["eve"]) (λ e w', e = 0 ∧
    ∃ z', zone_stored (docs w') "z" z' ∧ Zone.core z' = Zone.core z0) never w0.
Proof.
  apply (share_then_cancel "z" "ann" ["eve"] z0 D0 w0);
    [done|apply zone_stored0|apply ann_edits|by repeat constructor|apply NoDup_singleton|].
  intros x ->%list_elem_of_singleton Hx. by apply list_elem_of_singleton in Hx.
Defined.

Theorem ZoneRename_spec_witness :
  wp (ZoneRename "z" "ann" "den") (λ e w', e = EINVAL ∧ serving D0 w' ∨
    e = 0 ∧ ∃ D', serving D' w' ∧ zone_updated D0 "z" ("z", "den", "ann", ["bob"], ["a"]) D') never w0.
Proof.
  apply (ZoneRename_spec "z" "ann" "den" z0 D0 w0);
    [done|apply zone_stored0|apply ann_edits|done].
Defined.

(** An administrator, or anyone who is not the owner, who adds a space to a
    zone makes control leave the function without a value. *)
Theorem MapAdd_non_owner :
  (MapAdd "z" "eve" "beta" 5 "{}" w0).1 = UB ∧ (MapAdd "z" "ann" "beta" 5 "{}" w1).1 = Val 0.
Proof. by vm_compute. Qed.

(** Sharing a zone stores authorisation words nobody ever set: the zone in
    the database has none, and what comes back is uninitialised memory. *)
Theorem ZoneShare_writes_junk :
  ∃ doc z', docs (ZoneShare "z" "ann" [] w0).2 !! zone_key "z" = Some doc ∧
    Zone.deserialize Zone.init doc = Some z' ∧ z'.(Zone.ownerAuth) = junk_int ∧
    rj_parse (Zone.serialize z0) ≠ rj_parse doc.
Proof.
  eexists _, _. split; [vm_compute; reflexivity|]. split; [vm_compute; reflexivity|].
  split; [reflexivity|]. vm_compute. discriminate.
Qed.
End witness.
End ZoneServer.

(** [isSubset v1 v2] decides whether every element of [v2] occurs in [v1] at
    least as many times: inclusion of multisets, not of sets, in any order. *)
Theorem isSubset_submseteq v1 v2 : isSubset v1 v2 = true ↔ v2 ⊆+ v1.
Proof. apply ZoneServer.isSubset_multiset. Qed.
