(* ===== verification/Mconf.v ===== *)
(** * Centre configuration (manager/mconf/mconf.cc)

    [Mconf]: the list of centres, one document under a fixed key, and the pool of
    100 local accounts created under the name of each new centre. *)
From S2P Require Import Prelude CxxString Json Records Datastore Instances User.

Module Mconf.

Definition Code_Not_Found : Z := 404.
Definition key : string := "center_information".

(** The accounts of a new centre: none used, "test1" to "test100" free. *)
Definition test_account (i : nat) : string := snprintf 32 ("test" +:+ pretty (Z.of_nat i)).
Definition unused_accounts : gmap string string :=
  foldl (λ m i, <[test_account i := ""]> m) ∅ (seq 1 100).
Definition users : gmap string (gmap string string) :=
  <["unuse_account" := unused_accounts]> {["use_account" := ∅]}.

Section mconf.
Context {W : Type} `{Couchbase W, Host W, Rapidjson, Indet}.

Definition bucket_account_info : string := default "test" (config "manager.bucket").

Definition pool_text : string := json_encode (codec_map (codec_map codec_string "") ∅) users.

(** The centre is added, or modified when its identifier is known. *)
Definition known (id : string) (c : CenterInfo.t) : bool := existsb (String.eqb id) c.(CenterInfo.centerID).
Definition record_center (fe : FECenterInfo.t) (c : CenterInfo.t) : CenterInfo.t :=
  let id := fe.(FECenterInfo.centerID) in
  CenterInfo.mk (if known id c then c.(CenterInfo.centerID) else c.(CenterInfo.centerID) ++ [id])
    (<[id := fe.(FECenterInfo.centerIP)]> c.(CenterInfo.centerIP))
    (<[id := fe.(FECenterInfo.centerPort)]> c.(CenterInfo.centerPort))
    (<[id := fe.(FECenterInfo.centerName)]> c.(CenterInfo.centerName)).

(** Any failure of the first read counts as the first centre ever added. *)
Definition addCenter (FEcenter : FECenterInfo.t) : M W Z :=
  f0_dbPtr ← create_datastore bucket_account_info;
  '(pvalue, error_0) ← ds_get f0_dbPtr key;
  mycenter ←
    (if bool_decide (error_0 = 0) then text ← deref pvalue; mret (of_json CenterInfo.init text)
     else mret CenterInfo.init);
  _ ← (if known FEcenter.(FECenterInfo.centerID) mycenter then mret 0
       else ds_set f0_dbPtr FEcenter.(FECenterInfo.centerName) pool_text);
  flag ← ds_set f0_dbPtr key (to_json (record_center FEcenter mycenter));
  if negb (bool_decide (flag = 0)) then mret (-1) else mret 0.

Definition addCenterRest (info : string) : M W response :=
  flag ← addCenter (of_json FECenterInfo.init info);
  mret (if bool_decide (flag = -1) then Response Code_Not_Found "fail" else Response Code_Ok "success").

Definition searchCenter : M W string :=
  f0_dbPtr ← create_datastore bucket_account_info;
  '(pvalue, error_0) ← ds_get f0_dbPtr key;
  if negb (bool_decide (error_0 = 0)) then mret "fail" else deref pvalue.

Definition searchCenterRest : M W response :=
  data ← searchCenter;
  mret (if String.eqb data "fail" then Response Code_Not_Found "fail" else Response Code_Ok data).

(** The loop erasing the first occurrence; [None] when there is none. *)
Fixpoint erase_first (x : string) (v : list string) : option (list string) :=
  match v with
  | [] => None
  | y :: v => if String.eqb y x then Some v else (y ::.) <$> erase_first x v
  end.

Definition deleteCenter (centerID : string) : M W string :=
  f0_dbPtr ← create_datastore bucket_account_info;
  '(pvalue, error_0) ← ds_get f0_dbPtr key;
  if negb (bool_decide (error_0 = 0)) then mret "fail"
  else
    text ← deref pvalue;
    let c := of_json CenterInfo.init text in
    match erase_first centerID c.(CenterInfo.centerID) with
    | None => mret "fail"
    | Some ids =>
        let c := CenterInfo.mk ids (delete centerID c.(CenterInfo.centerIP))
          (delete centerID c.(CenterInfo.centerPort)) (delete centerID c.(CenterInfo.centerName)) in
        flag ← ds_set f0_dbPtr key (to_json c);
        if negb (bool_decide (flag = 0)) then mret "fail" else mret "success"
    end.

Definition deleteCenterRest (info : string) : M W response :=
  data ← deleteCenter info;
  mret (if String.eqb data "fail" then Response Code_Not_Found "fail" else Response Code_Ok data).
End mconf.

(** ** Proofs *)

Lemma known_spec id c : known id c = true ↔ id ∈ c.(CenterInfo.centerID).
Proof.
  unfold known. rewrite existsb_exists. split.
  - intros (x & Hx & He). apply String.eqb_eq in He as ->. by apply list_elem_of_In.
  - intros Hx. exists id. split; [by apply list_elem_of_In|apply String.eqb_refl].
Qed.

Lemma erase_first_last id l : id ∉ l → erase_first id (l ++ [id]) = Some l.
Proof.
  induction l as [|x l IH]; cbn; intros Hn; [by rewrite String.eqb_refl|].
  destruct (String.eqb_spec x id) as [->|]; [set_solver|]. rewrite IH by set_solver. done.
Qed.

Section props.
Context {W : Type} `{CouchbaseUp W, RapidjsonLaws, Indet}.
Implicit Types (D : gmap (string * string) string) (w : W).

Definition info_key : string * string := dkey bucket_account_info key.

(** The centres the database records. *)
Definition centers D : CenterInfo.t :=
  match D !! info_key with
  | Some doc => of_json CenterInfo.init doc
  | None => CenterInfo.init
  end.

(** What adding [fe] writes. *)
Definition with_center D (fe : FECenterInfo.t) :=
  <[info_key := to_json (record_center fe (centers D))]>
    (if known fe.(FECenterInfo.centerID) (centers D) then D
     else <[dkey bucket_account_info fe.(FECenterInfo.centerName) := pool_text]> D).

Lemma addCenter_up fe D w :
  serving D w → wp (addCenter fe) (λ e w', e = 0 ∧ serving (with_center D fe) w') never w.
Proof.
  intros HD. unfold addCenter, with_center, centers, info_key. wp_step. db_up. wp_step.
  db_up; match goal with Hk : D !! _ = _ |- _ => rewrite Hk end; wp_steps; simplify_eq.
  all: repeat first [db_up | progress wp_steps]; split; [done|].
  all: by match goal with Hk : known _ _ = _ |- _ => rewrite Hk end.
Qed.

Lemma record_wf fe c :
  FECenterInfo.wf fe → CenterInfo.wf c → CenterInfo.wf (record_center fe c).
Proof.
  unfold FECenterInfo.wf, CenterInfo.wf, record_center. cbn. intros (? & ? & ? & ?) (? & ? & ? & ?). split_and!.
  - case_match; [done|]. by apply Forall_app; split; [|constructor].
  - by apply map_Forall_insert_2.
  - by apply map_Forall_insert_2.
  - by apply map_Forall_insert_2.
Qed.

(** Without faults, adding a centre records its identifier once, replaces
    its address, port and name, keeps every other centre, and creates the
    account pool under its name exactly when the identifier is new. *)
Theorem addCenter_spec fe D w :
  serving D w → FECenterInfo.wf fe → CenterInfo.wf (centers D) →
  let id := fe.(FECenterInfo.centerID) in
  wp (addCenter fe) (λ e w', e = 0 ∧ serving (with_center D fe) w' ∧
    centers (docs w') = record_center fe (centers D) ∧
    (∀ x, x ∈ (centers (docs w')).(CenterInfo.centerID) ↔ x = id ∨ x ∈ (centers D).(CenterInfo.centerID)) ∧
    (NoDup (centers D).(CenterInfo.centerID) → NoDup (centers (docs w')).(CenterInfo.centerID))) never w.
Proof.
  intros HD Hfe Hc id. eapply wp_mono; [| |by apply addCenter_up]; [|done]. intros e w' [-> [Hup Hd]].
  assert (Hr : centers (docs w') = record_center fe (centers D)).
  { rewrite Hd. unfold centers at 1, with_center. rewrite lookup_insert_eq.
    apply (of_to_json (A := CenterInfo.t)). by apply record_wf. }
  split_and!; [done|by split|done|..]; rewrite Hr; unfold record_center; cbn;
    destruct (known id (centers D)) eqn:Hk; unfold id in *; rewrite ?Hk.
  - apply known_spec in Hk. set_solver.
  - set_solver.
  - done.
  - intros Hnd. apply NoDup_app. split_and!; [done| |apply NoDup_singleton].
    intros x Hx ->%list_elem_of_singleton. apply known_spec in Hx. congruence.
Qed.

(** Without faults, adding a new centre and deleting it again restores the
    recorded centres. *)
Theorem add_then_delete fe D w :
  serving D w → FECenterInfo.wf fe → CenterInfo.wf (centers D) →
  let id := fe.(FECenterInfo.centerID) in
  let c := centers D in
  id ∉ c.(CenterInfo.centerID) → c.(CenterInfo.centerIP) !! id = None →
  c.(CenterInfo.centerPort) !! id = None → c.(CenterInfo.centerName) !! id = None →
  wp (addCenter fe ≫= λ _, deleteCenter id) (λ r w', r = "success" ∧ centers (docs w') = c) never w.
Proof.
  intros HD Hfe Hc id c Hid Hip Hport Hname. wp_step. eapply wp_mono; [| |by apply addCenter_up]; [|done].
  intros e w1 [_ HD1]. unfold deleteCenter. wp_step. db_up. wp_step.
  assert (Hk : known id c = false).
  { destruct (known id c) eqn:Hk; [by apply known_spec in Hk|done]. }
  assert (Hlk : with_center D fe !! dkey bucket_account_info key = Some (to_json (record_center fe c)))
    by apply lookup_insert_eq.
  db_up; [|congruence]. simplify_eq. cbn beta iota. err_simpl. cbn beta iota. do 2 wp_step.
  rewrite (of_to_json (A := CenterInfo.t)) by by apply record_wf.
  assert (He : erase_first id (record_center fe c).(CenterInfo.centerID) = Some c.(CenterInfo.centerID)).
  { unfold record_center. cbn. fold id. rewrite Hk. by apply erase_first_last. }
  rewrite He. wp_step. db_up. wp_steps. split; [done|].
  match goal with Hs : serving _ ?w |- context [docs ?w] => destruct Hs as [_ ->] end.
  unfold centers at 1. rewrite lookup_insert_eq. unfold record_center. cbn. fold id.
  rewrite !delete_insert_id by done. unfold c. assert (Hrt : ∀ x, CenterInfo.wf x → of_json CenterInfo.init (to_json (CenterInfo.mk x.(CenterInfo.centerID)
    x.(CenterInfo.centerIP) x.(CenterInfo.centerPort) x.(CenterInfo.centerName))) = x); [|by apply Hrt].
  intros [ids ips ports names] Hx. by apply (of_to_json (A := CenterInfo.t)).
Qed.
End props.

(** ** Concrete runs *)
Section witness.
Let fe0 : FECenterInfo.t := FECenterInfo.mk "2" "10.0.0.2" "80" "north".
Let fe1 : FECenterInfo.t := FECenterInfo.mk "2" "10.0.0.2" "80" UserModelServer.adminlist.
Let c0 : CenterInfo.t := CenterInfo.mk ["1"] {["1" := "10.0.0.1"]} {["1" := "80"]} {["1" := "south"]}.
Let D0 : gmap (string * string) string :=
  <[UserModelServer.account_key (W := world) UserModelServer.adminlist := to_json (struct_AdminList.mk ["u0"])]>
    {[info_key (W := world) := to_json c0]}.
Let w0 : world := World D0 [] [] 0 None None.

Lemma centers0 : centers (W := world) D0 = c0.
Proof. by vm_compute. Qed.
Lemma c0_wf : CenterInfo.wf (centers (W := world) D0).
Proof.
  rewrite centers0. unfold CenterInfo.wf. split_and!; [by repeat constructor|..]; by apply map_Forall_singleton.
Qed.
Lemma fe0_wf : FECenterInfo.wf fe0.
Proof. done. Qed.

Theorem addCenter_spec_witness :
  wp (addCenter fe0) (λ e w', e = 0 ∧ (∀ x, x ∈ (centers (docs w')).(CenterInfo.centerID) ↔ x = "2" ∨ x ∈ ["1"])) never w0.
Proof.
  eapply wp_mono; [| |apply (addCenter_spec fe0 D0 w0); [done|apply fe0_wf|apply c0_wf]]; [|done].
  cbn beta zeta. rewrite centers0. intros e w' (? & _ & _ & Hx & _). by split.
Defined.

Theorem add_then_delete_witness :
  wp (addCenter fe0 ≫= λ _, deleteCenter "2") (λ r w', r = "success" ∧ centers (docs w') = c0) never w0.
Proof.
  rewrite <-centers0.
  apply (add_then_delete fe0 D0 w0); [done|apply fe0_wf|apply c0_wf|rewrite centers0..].
  - set_solver.
  - done.
  - done.
  - done.
Defined.

(** Anyone may add a centre, and a centre named like another document
    replaces it: one named after the list of administrators leaves none. *)
Theorem addCenter_overwrites :
  UserModelServer.admins (W := world) D0 = ["u0"] ∧
  (addCenterRest (to_json fe1) w0).1 = Val (Response 200 "success") ∧
  UserModelServer.admins (docs (addCenterRest (to_json fe1) w0).2) = [].
Proof. by vm_compute. Qed.
End witness.
End Mconf.
