(* ===== verification/Lru.v ===== *)
(** * The recency list (common/LRU.h)

    [LRU<K, V>] keeps a [std::list] of objects, newest first, and an index from
    keys to list iterators. An iterator is modelled as the identity of its node:
    nodes get a new identity when they are created and an iterator whose node is
    gone is dangling. [None] is undefined behaviour: a dangling iterator used, or
    the end iterator of an empty list decremented. *)
From S2P Require Import Prelude.

Section lru.
Context {K V : Type} `{Countable K}.

Record LRUObject : Type := Obj {
  pinned : bool;
  key : K;
  data : V;
}.

Record LRU : Type := Lru {
  lrulist : list (positive * LRUObject);
  lruindex : gmap K positive;
  max_n : Z;
  next : positive;
}.

(** The [unsigned long] bound is stored as an [unsigned int]. *)
Definition make (max : Z) : LRU := Lru [] ∅ (to_u32 max) 1.

Definition size (s : LRU) : Z := Z.of_nat (length (lrulist s)).
Definition empty (s : LRU) : bool := bool_decide (lruindex s = ∅).

(** [*it], for an iterator into the list. *)
Fixpoint node (it : positive) (l : list (positive * LRUObject)) : option LRUObject :=
  match l with
  | [] => None
  | (i, o) :: l => if decide (i = it) then Some o else node it l
  end.
Definition at_iter (it : positive) (s : LRU) : option LRUObject := node it (lrulist s).

(** [lrulist.erase(it)]. *)
Definition erase (it : positive) (s : LRU) : option LRU :=
  _ ← at_iter it s;
  Some (Lru (filter (λ p, p.1 ≠ it) (lrulist s)) (lruindex s) (max_n s) (next s)).

(** [lrulist.emplace(lrulist.begin(), o)]. *)
Definition emplace (o : LRUObject) (s : LRU) : positive * LRU :=
  (next s, Lru ((next s, o) :: lrulist s) (lruindex s) (max_n s) (Pos.succ (next s))).

Definition set_index (m : gmap K positive) (s : LRU) : LRU := Lru (lrulist s) m (max_n s) (next s).

Definition expire (s : LRU) : option (option LRUObject * LRU) :=
  '(list_it, tmp) ← last (lrulist s);
  s ← erase list_it s;
  Some (Some tmp, set_index (delete (key tmp) (lruindex s)) s).

(** [None] is [lrulist.end()]. *)
Definition find (k : K) (s : LRU) : option positive := lruindex s !! k.

Definition remove (k : K) (s : LRU) : option (bool * LRU) :=
  match lruindex s !! k with
  | None => Some (false, s)
  | Some it =>
      s ← erase it s;
      Some (true, set_index (delete k (lruindex s)) s)
  end.

(** Moving an object to the front, the common part of [touch] and [hit]. *)
Definition refresh (k : K) (it : positive) (s : LRU) : option (positive * LRU) :=
  tmp ← at_iter it s;
  s ← erase it s;
  let '(lruit, s) := emplace tmp s in
  Some (lruit, set_index (<[k := lruit]> (lruindex s)) s).

Definition make_room (s : LRU) : option LRU :=
  if negb (max_n s =? 0) && (max_n s <=? size s)
  then '(_, s) ← expire s; Some s
  else Some s.

(** [touch(key, value)]: the value of a key already there is not replaced. *)
Definition touch (k : K) (value : V) (s : LRU) : option LRU :=
  match lruindex s !! k with
  | None =>
      s ← make_room s;
      let '(lruit, s) := emplace (Obj false k value) s in
      Some (set_index (<[k := lruit]> (lruindex s)) s)
  | Some it =>
      '(_, s) ← refresh k it s;
      Some s
  end.

(** [touch(key)], which returns a reference to the object; [junk] is the data a
    new object is default-initialised with. *)
Definition touch_key (junk : V) (k : K) (s : LRU) : option (positive * LRU) :=
  match lruindex s !! k with
  | None =>
      s ← make_room s;
      let '(lruit, s) := emplace (Obj false k junk) s in
      Some (lruit, set_index (<[k := lruit]> (lruindex s)) s)
  | Some it => refresh k it s
  end.

Definition hit (k : K) (s : LRU) : option (bool * LRU) :=
  match lruindex s !! k with
  | None => Some (false, s)
  | Some it =>
      '(_, s) ← refresh k it s;
      Some (true, s)
  end.

(** ** What the structure promises: a list of objects, newest first *)

Definition abs (s : LRU) : list LRUObject := (lrulist s).*2.

Definition spec_remove (k : K) (l : list LRUObject) : list LRUObject := filter (λ o, key o ≠ k) l.
Fixpoint spec_find (k : K) (l : list LRUObject) : option LRUObject :=
  match l with
  | [] => None
  | o :: l => if decide (key o = k) then Some o else spec_find k l
  end.
Definition spec_hit (k : K) (l : list LRUObject) : list LRUObject :=
  match spec_find k l with
  | Some o => o :: spec_remove k l
  | None => l
  end.
Definition spec_room (n : Z) (l : list LRUObject) : list LRUObject :=
  if negb (n =? 0) && (n <=? Z.of_nat (length l)) then removelast l else l.
Definition spec_touch (n : Z) (k : K) (v : V) (l : list LRUObject) : list LRUObject :=
  match spec_find k l with
  | Some o => o :: spec_remove k l
  | None => Obj false k v :: spec_room n l
  end.

(** The index is the list's, and every iterator in it is alive. *)
Record wf (s : LRU) : Prop := {
  wf_fresh : Forall (λ p, (p.1 < next s)%positive) (lrulist s);
  wf_nodup : NoDup (lrulist s).*1;
  wf_max : 0 ≤ max_n s;
  wf_index : ∀ k i, lruindex s !! k = Some i ↔ ∃ o, (i, o) ∈ lrulist s ∧ key o = k;
}.

(** Never more than the bound. *)
Definition bounded (s : LRU) : Prop := max_n s = 0 ∨ size s ≤ max_n s.

(** ** Proofs *)

Lemma full_spec (n m : Z) : reflect (n ≠ 0 ∧ n ≤ m) (negb (n =? 0) && (n <=? m)).
Proof.
  apply iff_reflect. by rewrite andb_true_iff, negb_true_iff, Z.eqb_neq, Z.leb_le.
Qed.

Lemma node_elem i o l : NoDup l.*1 → node i l = Some o ↔ (i, o) ∈ l.
Proof.
  induction l as [|[j p] l IH]; cbn; intros Hnd; [split; [done|set_solver]|].
  inversion_clear Hnd as [|?? Hj Hl]. rewrite elem_of_cons, <-IH by done. case_decide as Hd.
  - subst j. split; [intros [= ->]; by left|]. intros [[= ->]|Hin]; [done|].
    apply IH in Hin; [|done]. exfalso. apply Hj, list_elem_of_fmap. by exists (i, o).
  - split; [by right|]. intros [[= -> ->]|?]; done.
Qed.

Lemma key_unique s i j o p :
  wf s → (i, o) ∈ lrulist s → (j, p) ∈ lrulist s → key o = key p → i = j.
Proof.
  intros Hw Hi Hj Hk. assert (lruindex s !! key o = Some i) by (apply wf_index; eauto).
  assert (lruindex s !! key o = Some j) by (apply wf_index; [done|]; exists p; eauto). congruence.
Qed.

Lemma node_unique s i o p : wf s → (i, o) ∈ lrulist s → (i, p) ∈ lrulist s → o = p.
Proof.
  intros Hw Ho Hp. apply node_elem in Ho; [|apply Hw]. apply node_elem in Hp; [|apply Hw]. congruence.
Qed.

Lemma indexed s k i :
  wf s → lruindex s !! k = Some i → ∃ o, at_iter i s = Some o ∧ (i, o) ∈ lrulist s ∧ key o = k.
Proof.
  intros Hw Hk. apply wf_index in Hk as (o & Hin & Ho); [|done].
  exists o. split; [|done]. unfold at_iter. apply node_elem; [apply Hw|done].
Qed.

Lemma filter_fmap_key l it k :
  (∀ i o, (i, o) ∈ l → i = it ↔ key o = k) →
  (filter (λ p : positive * LRUObject, p.1 ≠ it) l).*2 = spec_remove k l.*2.
Proof.
  unfold spec_remove. induction l as [|[i o] l IH]; intros Hl; [done|].
  cbn [fmap list_fmap]. rewrite !filter_cons. cbn [fst snd].
  assert (Hio : i = it ↔ key o = k) by (apply Hl; left).
  rewrite <-IH by (intros; apply Hl; by right).
  repeat case_decide; tauto || done.
Qed.

(** Erasing the node of key [k] and its index entry. *)
Lemma drop_wf s k i o :
  wf s → (i, o) ∈ lrulist s → key o = k →
  let s' := Lru (filter (λ p, p.1 ≠ i) (lrulist s)) (delete k (lruindex s)) (max_n s) (next s) in
  wf s' ∧ abs s' = spec_remove k (abs s).
Proof.
  intros Hw Hin Hk. cbn. split; [split; cbn|].
  - eapply Forall_forall. intros p Hp. apply list_elem_of_filter in Hp as [_ Hp].
    destruct Hw as [Hf _ _ _]. by eapply Forall_forall in Hf.
  - destruct Hw as [_ Hnd _ _]. revert Hnd. generalize (lrulist s). intros l Hnd.
    induction l as [|[j p] l IH]; [done|]. inversion_clear Hnd as [|?? Hj Hl].
    rewrite filter_cons. cbn [fst]. case_decide; [|by apply IH]. cbn. constructor; [|by apply IH].
    intros Hx. apply Hj. apply list_elem_of_fmap in Hx as (q & -> & Hq).
    apply list_elem_of_filter in Hq as [_ Hq]. apply list_elem_of_fmap. by exists q.
  - apply Hw.
  - intros k' j. rewrite lookup_delete_Some, (wf_index s Hw). split.
    + intros (Hne & p & Hp & Hkp). exists p. split; [|done]. apply list_elem_of_filter. split; [|done].
      cbn. intros ->. apply Hne. rewrite <-Hk, <-Hkp. by rewrite (node_unique s i o p).
    + intros (p & [Hne Hp]%list_elem_of_filter & Hkp). split; [|by exists p].
      intros ->. apply Hne. cbn. apply (key_unique s j i p o); congruence || done.
  - unfold abs. cbn. apply filter_fmap_key. intros j p Hp. split.
    + intros ->. rewrite <-Hk. by rewrite (node_unique s i o p).
    + intros Hkp. apply (key_unique s j i p o); congruence || done.
Qed.
(** Putting an object of a new key in front. *)
Lemma push_wf s o :
  wf s → lruindex s !! key o = None →
  let s' := Lru ((next s, o) :: lrulist s) (<[key o := next s]> (lruindex s)) (max_n s) (Pos.succ (next s)) in
  wf s' ∧ abs s' = o :: abs s.
Proof.
  intros Hw Hk. destruct (Hw) as [Hf Hnd Hm Hi]. cbn. split; [split; cbn|done].
  - constructor; [cbn; lia|]. eapply Forall_impl; [exact Hf|]. intros p ?. cbn in *. lia.
  - constructor; [|done]. intros Hx. apply list_elem_of_fmap in Hx as (q & Hq & Hin).
    eapply Forall_forall in Hf; [|exact Hin]. cbn in *. rewrite <-Hq in Hf. lia.
  - done.
  - intros k i. rewrite lookup_insert_Some, Hi. split.
    + intros [[<- <-]|(Hne & p & Hin & Hp)]; [exists o; split; [by left|done]|].
      exists p. split; [by right|done].
    + intros (p & [[= -> ->]|Hin]%elem_of_cons & Hp); [by left|]. right. split; [|by exists p].
      intros Heq. assert (lruindex s !! key o = Some i); [|congruence]. apply Hi. exists p. by rewrite Heq.
Qed.

Lemma find_None s k : wf s → lruindex s !! k = None → spec_find k (abs s) = None.
Proof.
  intros Hw Hk. assert (Hn : ∀ i o, (i, o) ∈ lrulist s → key o ≠ k).
  { intros i o Hin Ho. assert (lruindex s !! k = Some i); [|congruence]. apply wf_index; eauto. }
  unfold abs. clear Hk Hw. induction (lrulist s) as [|[i o] l IH]; [done|]. cbn.
  rewrite decide_False by (eapply Hn; left). apply IH. intros j p Hin. eapply Hn. by right.
Qed.

Lemma find_Some s k i o :
  wf s → (i, o) ∈ lrulist s → key o = k → spec_find k (abs s) = Some o.
Proof.
  intros Hw Hin Hk. assert (Hu : ∀ j p, (j, p) ∈ lrulist s → key p = k → p = o).
  { intros j p Hp Hkp. assert (j = i) as -> by (apply (key_unique s j i p o); congruence || done).
    by apply (node_unique s i). }
  unfold abs. clear Hw. induction (lrulist s) as [|[j p] l IH]; [set_solver|]. cbn.
  case_decide as Hp; [f_equal; by apply (Hu j); [left|]|].
  apply elem_of_cons in Hin as [[= -> ->]|Hin]; [done|]. apply IH; [done|]. intros; eapply Hu; [by right|done].
Qed.

Lemma erase_wf s i o : at_iter i s = Some o →
  erase i s = Some (Lru (filter (λ p, p.1 ≠ i) (lrulist s)) (lruindex s) (max_n s) (next s)).
Proof. intros Hi. unfold erase. by rewrite Hi. Qed.

Lemma refresh_ok s k it :
  wf s → lruindex s !! k = Some it →
  ∃ o it' s', refresh k it s = Some (it', s') ∧ wf s' ∧ max_n s' = max_n s ∧
    spec_find k (abs s) = Some o ∧ abs s' = o :: spec_remove k (abs s) ∧ at_iter it' s' = Some o.
Proof.
  intros Hw Hk. destruct (indexed s k it Hw Hk) as (o & Ho & Hin & Hko).
  destruct (drop_wf s k it o Hw Hin Hko) as [Hw' Ha].
  destruct (push_wf _ o Hw') as [Hw2 Ha2]; cbn in *; [rewrite Hko; apply lookup_delete_eq|].
  unfold refresh. rewrite Ho. cbn. rewrite (erase_wf s it o Ho). cbn.
  eexists o, _, _. split; [done|]. rewrite Hko, insert_delete_eq in Hw2. split_and!; [done|done| |..].
  - by eapply find_Some.
  - cbn. f_equal. by rewrite <-Ha.
  - unfold at_iter. cbn. by rewrite decide_True.
Qed.

(** The iterator found before a hit is dangling after it. *)
Lemma refresh_moves s k it :
  wf s → lruindex s !! k = Some it → ∃ s', hit k s = Some (true, s') ∧ at_iter it s' = None.
Proof.
  intros Hw Hk. destruct (indexed s k it Hw Hk) as (o & Ho & Hin & Hko).
  unfold hit, refresh. rewrite Hk, Ho. unfold mbind, option_bind. rewrite (erase_wf s it o Ho).
  eexists. split; [done|]. unfold at_iter. cbn. destruct Hw as [Hf _ _ _]. eapply Forall_forall in Hf; [|exact Hin].
  cbn in Hf. rewrite decide_False by lia. clear. induction (lrulist s) as [|[j p] l IH]; [done|].
  rewrite filter_cons. cbn [fst]. case_decide as Hj; [|done]. cbn. by rewrite decide_False.
Qed.

Lemma last_abs s it o : last (lrulist s) = Some (it, o) → abs s = removelast (abs s) ++ [o].
Proof.
  unfold abs. intros Hl. apply last_Some in Hl as [l ->]. rewrite fmap_app. cbn.
  by rewrite removelast_last.
Qed.

Lemma keys_nodup s : wf s → NoDup (key <$> abs s).
Proof.
  intros Hw. destruct (Hw) as [_ Hnd _ _]. unfold abs.
  assert (Hu : ∀ i j o p, (i, o) ∈ lrulist s → (j, p) ∈ lrulist s → key o = key p → i = j).
  { intros i j o p. by apply key_unique. }
  clear Hw. induction (lrulist s) as [|[i o] l IH]; [constructor|]. cbn in *.
  inversion_clear Hnd as [|?? Hi Hl]. constructor; [|apply IH; [done|]; intros; eapply Hu; [by right..|done]].
  intros Hx. apply list_elem_of_fmap in Hx as (p & Hk & Hp). apply list_elem_of_fmap in Hp as ([j q] & -> & Hq).
  apply Hi. apply list_elem_of_fmap. exists (j, q). split; [|done]. cbn in *. by eapply Hu; [left|right|].
Qed.

Lemma spec_remove_last l o : NoDup (key <$> l ++ [o]) → spec_remove (key o) (l ++ [o]) = l.
Proof.
  unfold spec_remove. induction l as [|p l IH]; intros Hnd.
  - rewrite (left_id_L [] (++)). by rewrite filter_cons_False by auto.
  - rewrite <-app_comm_cons, fmap_cons in *. inversion_clear Hnd as [|?? Hp Hl].
    rewrite filter_cons_True, IH; [done|done|]. intros He. apply Hp. rewrite He, fmap_app. set_solver.
Qed.

Lemma expire_ok s l o :
  wf s → abs s = l ++ [o] →
  ∃ s', expire s = Some (Some o, s') ∧ wf s' ∧ max_n s' = max_n s ∧ abs s' = l.
Proof.
  intros Hw Ha. unfold expire. destruct (last (lrulist s)) as [[it p]|] eqn:Hl.
  2: { apply last_None in Hl. unfold abs in Ha. rewrite Hl in Ha. by destruct l. }
  pose proof (last_abs s it p Hl) as Hp. rewrite Ha, removelast_last in Hp.
  apply app_inj_2 in Hp as [_ [= <-]]; [|done]. unfold mbind, option_bind.
  assert (Hin : (it, o) ∈ lrulist s) by (apply last_Some in Hl as [l' ->]; set_solver).
  rewrite (erase_wf s it o) by (apply node_elem; [apply Hw|done]). cbn.
  destruct (drop_wf s (key o) it o Hw Hin eq_refl) as [Hw' Ha']. eexists. split; [done|].
  split_and!; [done|done|]. cbn in *. rewrite Ha' , Ha. apply spec_remove_last. rewrite <-Ha. by apply keys_nodup.
Qed.

Lemma find_iff s k : wf s → lruindex s !! k = None ↔ spec_find k (abs s) = None.
Proof.
  intros Hw. split; [by apply find_None|]. intros Hf. destruct (lruindex s !! k) as [it|] eqn:Hk; [|done].
  destruct (indexed s k it Hw Hk) as (o & _ & Hin & Ho). by rewrite (find_Some s k it o) in Hf.
Qed.

Lemma spec_find_prefix k l l' : spec_find k (l ++ l') = None → spec_find k l = None.
Proof. induction l as [|o l IH]; cbn; [done|]. by case_decide. Qed.

Lemma make_room_ok s :
  wf s → ∃ s', make_room s = Some s' ∧ wf s' ∧ max_n s' = max_n s ∧
    abs s' = spec_room (max_n s) (abs s) ∧ (∀ k, lruindex s !! k = None → lruindex s' !! k = None).
Proof.
  intros Hw. unfold make_room, spec_room, size. unfold abs at 2. rewrite length_fmap.
  destruct (full_spec (max_n s) (Z.of_nat (length (lrulist s)))) as [Hb|Hb]; [|by exists s].
  assert (Hne : abs s ≠ []).
  { unfold abs. pose proof (wf_max s Hw) as Hm. destruct (lrulist s) eqn:Hl; [|done].
    intros _. rewrite ?Hl in Hb. cbn in Hb. lia. }
  destruct (exists_last Hne) as (l & o & Ha).
  destruct (expire_ok s l o Hw Ha) as (s' & He & Hw' & Hm & Ha'). exists s'. rewrite He. split_and!; [done..| |].
  - by rewrite Ha, removelast_last.
  - intros k Hk. apply find_iff; [done|]. apply find_iff in Hk; [|done].
    rewrite Ha'. rewrite Ha in Hk. by eapply spec_find_prefix.
Qed.

Lemma spec_remove_absent k l : spec_find k l = None → spec_remove k l = l.
Proof.
  unfold spec_remove. induction l as [|o l IH]; cbn [spec_find]; [done|]. case_decide; [done|].
  intros Hf. rewrite filter_cons_True by done. by rewrite IH.
Qed.

(** The two forms of [touch] do the same. *)
Lemma touch_ok s k v :
  wf s → ∃ it s', touch k v s = Some s' ∧ touch_key v k s = Some (it, s') ∧ wf s' ∧ max_n s' = max_n s ∧
    abs s' = spec_touch (max_n s) k v (abs s) ∧ at_iter it s' = head (abs s').
Proof.
  intros Hw. unfold touch, touch_key, spec_touch. destruct (lruindex s !! k) as [it|] eqn:Hk.
  - destruct (refresh_ok s k it Hw Hk) as (o & it' & s' & Hr & Hw' & Hm & Hf & Ha & Hi).
    rewrite Hr, Hf. exists it', s'. rewrite Ha. by split_and!.
  - rewrite (find_None s k Hw Hk).
    destruct (make_room_ok s Hw) as (s1 & Hr & Hw1 & Hm & Ha & Hn). rewrite Hr.
    destruct (push_wf s1 (Obj false k v) Hw1 (Hn k Hk)) as [Hw2 Ha2].
    eexists _, _. split; [done|]. split; [done|]. split_and!; [done|done|by rewrite <-Ha|].
    unfold at_iter. cbn. by rewrite decide_True.
Qed.

(** C33: the list and its index together are a list of objects in order of use,
    on every operation: no operation uses a dangling iterator, the index keeps
    pointing at the list, and what is found, moved, added, removed and evicted is
    what the plain list says. A key touched again keeps its old value. *)
Theorem lru_refines s :
  wf s →
  (∀ k v, ∃ s', touch k v s = Some s' ∧ wf s' ∧ abs s' = spec_touch (max_n s) k v (abs s)) ∧
  (∀ junk k, ∃ it s', touch_key junk k s = Some (it, s') ∧ wf s' ∧
     abs s' = spec_touch (max_n s) k junk (abs s) ∧ at_iter it s' = head (abs s')) ∧
  (∀ k, ∃ s', hit k s = Some (bool_decide (is_Some (spec_find k (abs s))), s') ∧ wf s' ∧
     abs s' = spec_hit k (abs s)) ∧
  (∀ k, ∃ s', remove k s = Some (bool_decide (is_Some (spec_find k (abs s))), s') ∧ wf s' ∧
     abs s' = spec_remove k (abs s)) ∧
  (∀ k, match find k s with Some it => at_iter it s | None => None end = spec_find k (abs s)) ∧
  (∀ l o, abs s = l ++ [o] → ∃ s', expire s = Some (Some o, s') ∧ wf s' ∧ abs s' = l).
Proof.
  intros Hw. split_and!.
  - intros k v. destruct (touch_ok s k v Hw) as (it & s' & Ht & Hk & ? & _ & ? & _). by exists s'.
  - intros junk k. destruct (touch_ok s k junk Hw) as (it & s' & _ & Hk & ? & _ & ? & ?). by exists it, s'.
  - intros k. unfold hit, spec_hit. destruct (lruindex s !! k) as [it|] eqn:Hk.
    + destruct (refresh_ok s k it Hw Hk) as (o & it' & s' & Hr & Hw' & _ & Hf & Ha & _).
      rewrite Hr, Hf. by exists s'.
    + rewrite (find_None s k Hw Hk). by exists s.
  - intros k. unfold remove. destruct (lruindex s !! k) as [it|] eqn:Hk.
    + destruct (indexed s k it Hw Hk) as (o & Ho & Hin & Hko).
      rewrite (erase_wf s it o Ho), (find_Some s k it o) by done.
      destruct (drop_wf s k it o Hw Hin Hko) as [Hw' Ha]. eexists. split; [done|]. by split.
    + rewrite (find_None s k Hw Hk). exists s. split_and!; [done|done|].
      symmetry. apply spec_remove_absent. by apply find_None.
  - intros k. unfold find. destruct (lruindex s !! k) as [it|] eqn:Hk.
    + destruct (indexed s k it Hw Hk) as (o & Ho & Hin & Hko). by rewrite Ho, (find_Some s k it o).
    + by rewrite (find_None s k Hw Hk).
  - intros l o Ha. destruct (expire_ok s l o Hw Ha) as (s' & ? & ? & _ & ?). by exists s'.
Qed.

(** ** What is recent stays *)

(** A run of touches. *)
Fixpoint touches (kvs : list (K * V)) (s : LRU) : option LRU :=
  match kvs with
  | [] => Some s
  | (k, v) :: kvs => s ← touch k v s; touches kvs s
  end.

(** [k] is among the [j + 1] most recent. *)
Definition recent (k : K) (j : nat) (l : list LRUObject) : Prop :=
  ∃ l1 o l2, l = l1 ++ o :: l2 ∧ key o = k ∧ (length l1 ≤ j)%nat.

Lemma recent_found k j l : recent k j l → spec_find k l ≠ None.
Proof.
  intros (l1 & o & l2 & -> & Hk & _). induction l1 as [|p l1 IH]; cbn; [by rewrite decide_True|].
  by case_decide.
Qed.

Lemma spec_touch_recent n k k' v j l :
  (n = 0 ∨ Z.of_nat j + 1 < n) → recent k j l → recent k (S j) (spec_touch n k' v l).
Proof.
  intros Hn (l1 & o & l2 & -> & Hk & Hj). unfold spec_touch.
  destruct (spec_find k' (l1 ++ o :: l2)) as [p|] eqn:Hf.
  - destruct (decide (k = k')) as [->|Hne].
    + exists [], p, (spec_remove k' (l1 ++ o :: l2)). split_and!; [done| |cbn; lia].
      clear -Hf. induction (l1 ++ o :: l2) as [|q l IH]; cbn in Hf; [done|]. case_decide; [congruence|auto].
    + unfold spec_remove. rewrite filter_app, filter_cons_True by congruence.
      exists (p :: filter (λ o, key o ≠ k') l1), o, (filter (λ o, key o ≠ k') l2).
      split_and!; [done|done|]. cbn. pose proof (length_filter (λ o, key o ≠ k') l1). lia.
  - unfold spec_room. destruct (full_spec n (Z.of_nat (length (l1 ++ o :: l2)))) as [Hb|Hb].
    + destruct l2 as [|q l2 _] using rev_ind.
      { rewrite length_app in Hb. cbn in Hb. lia. }
      rewrite app_comm_cons, (assoc_L (++)), removelast_last.
      exists (Obj false k' v :: l1), o, l2. split_and!; [done|done|cbn; lia].
    + exists (Obj false k' v :: l1), o, l2. split_and!; [done|done|cbn; lia].
Qed.

Lemma spec_find_shorter k l o : spec_find k l = Some o → (length (spec_remove k l) < length l)%nat.
Proof.
  unfold spec_remove. induction l as [|p l IH]; cbn [spec_find]; [done|]. case_decide.
  - intros _. rewrite filter_cons_False by auto. pose proof (length_filter (λ o, key o ≠ k) l). cbn. lia.
  - intros Hf. rewrite filter_cons_True by done. cbn. specialize (IH Hf). lia.
Qed.

Lemma removelast_length (l : list LRUObject) : length (removelast l) = pred (length l).
Proof.
  destruct l as [|o l _] using rev_ind; [done|]. rewrite removelast_last, length_app. cbn. lia.
Qed.

Lemma spec_touch_bounded n k v l :
  0 ≤ n → n = 0 ∨ Z.of_nat (length l) ≤ n →
  n = 0 ∨ Z.of_nat (length (spec_touch n k v l)) ≤ n.
Proof.
  intros Hn [->|Hb]; [by left|]. unfold spec_touch. destruct (spec_find k l) as [o|] eqn:Hf.
  - apply spec_find_shorter in Hf. right. cbn. lia.
  - unfold spec_room. destruct (full_spec n (Z.of_nat (length l))) as [Hfull|Hfull]; cbn;
      rewrite ?removelast_length; destruct (decide (n = 0)); lia.
Qed.

Lemma touches_recent kvs k j s :
  wf s → bounded s → recent k j (abs s) → (max_n s = 0 ∨ Z.of_nat j + Z.of_nat (length kvs) < max_n s) →
  ∃ s', touches kvs s = Some s' ∧ wf s' ∧ bounded s' ∧ recent k (j + length kvs) (abs s').
Proof.
  revert j s. induction kvs as [|[k' v] kvs IH]; intros j s Hw Hb Hr Hn; cbn [touches length].
  { exists s. rewrite Nat.add_0_r. by split_and!. }
  destruct (touch_ok s k' v Hw) as (it & s1 & Ht & _ & Hw1 & Hm & Ha & _). rewrite Ht.
  unfold mbind, option_bind. replace (j + S (length kvs))%nat with (S j + length kvs)%nat by lia.
  cbn [length] in Hn. apply IH; [done| | |rewrite Hm; lia].
  - unfold bounded, size in *. unfold abs in Ha. pose proof (f_equal length Ha) as Hl.
    rewrite length_fmap in Hl. rewrite Hl, Hm. apply spec_touch_bounded; [apply Hw|]. by rewrite length_fmap.
  - rewrite Ha. apply spec_touch_recent; [lia|done].
Qed.

(** The bound holds and what is recent is not evicted: a key just touched
    is still there after fewer further touches than the bound, whatever they
    are, and the list never holds more objects than the bound. *)
Theorem lru_keeps_recent k v kvs s :
  wf s → bounded s → (max_n s = 0 ∨ Z.of_nat (length kvs) < max_n s) →
  ∃ s', touches ((k, v) :: kvs) s = Some s' ∧ find k s' ≠ None ∧ bounded s'.
Proof.
  intros Hw Hb Hn. cbn [touches].
  destruct (touch_ok s k v Hw) as (it & s1 & Ht & _ & Hw1 & Hm & Ha & _). rewrite Ht. unfold mbind, option_bind.
  destruct (touches_recent kvs k 0 s1) as (s' & Hts & Hw' & Hb' & Hr); [done| | |rewrite Hm; lia|].
  - unfold bounded, size in *. pose proof (f_equal length Ha) as Hl.
    unfold abs in Hl. rewrite length_fmap in Hl. rewrite Hl, Hm. apply spec_touch_bounded; [apply Hw|].
    by rewrite length_fmap.
  - rewrite Ha. unfold spec_touch. destruct (spec_find k (abs s)) as [o|] eqn:Hf.
    + exists [], o, (spec_remove k (abs s)). split_and!; [done| |cbn; lia].
      clear -Hf. induction (abs s) as [|q l IH]; cbn in Hf; [done|]. case_decide; [congruence|auto].
    + by eexists [], _, _.
  - exists s'. split_and!; [done| |done]. intros Hf. apply find_iff in Hf; [|done]. by apply recent_found in Hr.
Qed.

Lemma spec_find_perm s k o :
  wf s → spec_find k (abs s) = Some o → key o = k ∧ abs s ≡ₚ o :: spec_remove k (abs s).
Proof.
  intros Hw. pose proof (keys_nodup s Hw) as Hnd. revert Hnd.
  induction (abs s) as [|p l IH]; cbn [spec_find fmap list_fmap]; [done|]. intros Hnd. inversion_clear Hnd as [|?? Hp Hl].
  unfold spec_remove. case_decide as Hk.
  - intros [= <-]. split; [done|]. rewrite filter_cons_False by auto. subst k. fold (spec_remove (key p) l).
    rewrite spec_remove_absent; [done|]. clear IH Hl. induction l as [|q l IH]; [done|]. cbn in *.
    rewrite decide_False by set_solver. apply IH. set_solver.
  - intros Hf. destruct (IH Hl Hf) as [Ho Hperm]. split; [done|]. rewrite filter_cons_True by done.
    rewrite Hperm at 1. apply Permutation_swap.
Qed.

Lemma make_wf max : wf (make max) ∧ bounded (make max).
Proof.
  split; [split; cbn|].
  - constructor.
  - constructor.
  - apply Z.mod_pos_bound. lia.
  - intros k i. rewrite lookup_empty. set_solver.
  - right. cbn. apply Z.mod_pos_bound. lia.
Qed.
End lru.
Arguments LRU K V {_ _}.
Arguments LRUObject K V : clear implicits.

(** ** Concrete runs *)
Section witness.
Let s0 : LRU string Z := default (make 2) (touches [("a", 1); ("b", 2)] (make 2)).

Lemma s0_wf : wf s0 ∧ bounded s0.
Proof.
  destruct (make_wf (K := string) (V := Z) 2) as [Hw Hb].
  destruct (touches_recent [("b", 2)] "a" 0 (default (make 2) (touch "a" 1 (make 2)))) as (s' & Hs & ? & ? & _).
  - destruct (touch_ok (make 2) "a" 1 Hw) as (it & s' & Ht & _ & Hw' & _). by rewrite Ht.
  - by right; vm_compute.
  - exists [], (Obj false "a" 1), []. by vm_compute.
  - by right; vm_compute.
  - assert (s0 = s') as ->; [|done]. unfold s0. cbn [touches].
    assert (Ht : touch "a" 1 (make (V := Z) 2) = Some (default (make 2) (touch "a" 1 (make 2)))) by by vm_compute.
    rewrite Ht. cbn [touches] in Hs. unfold mbind, option_bind in *. by rewrite Hs.
Qed.

Theorem lru_refines_witness :
  ∃ s', touch "c" 3 s0 = Some s' ∧ wf s' ∧ abs s' = [Obj false "c" 3; Obj false "b" 2].
Proof. destruct (lru_refines s0 (proj1 s0_wf)) as [Ht _]. apply (Ht "c" 3). Defined.

Theorem lru_keeps_recent_witness :
  ∃ s', touches [("a", 9); ("c", 3)] s0 = Some s' ∧ find "a" s' ≠ None ∧ bounded s'.
Proof.
  apply (lru_keeps_recent "a" 9 [("c", 3)] s0); [apply s0_wf|apply s0_wf|by right; vm_compute].
Defined.
End witness.

