(* ===== verification/FdManager.v ===== *)
(** * Descriptors and sparse files of the I/O proxy (io_proxy/fd_mgr.cc)

    [FdManager] keeps descriptors open behind the paths they were opened with,
    in an [LRU] (Lru.v), and one [HvsFileHandler] per descriptor number, with the
    replication bitmaps of the file. The system calls are the interface [Posix];
    [PosixLaws] states what the manual pages promise. Handlers are never taken
    out of the map, so the descriptor number identifies the shared handler. *)
From S2P Require Import Prelude CxxString Lru.

(** ** System calls *)

(** fcntl.h and unistd.h on Linux. *)
Definition O_RDONLY : Z := 0.
Definition O_WRONLY : Z := 1.
Definition O_RDWR : Z := 2.
Definition O_CREAT : Z := 64.
Definition O_TRUNC : Z := 512.
Definition O_DSYNC : Z := 4096.
Definition O_DIRECT : Z := 16384.
Definition O_SYNC : Z := 1052672.
Definition SEEK_END : Z := 2.
Definition SEEK_DATA : Z := 3.
Definition SEEK_HOLE : Z := 4.
Definition FALLOC_FL_KEEP_SIZE : Z := 1.
Definition FALLOC_FL_PUNCH_HOLE : Z := 2.

Class Posix (W : Type) : Type := {
  sys_errno : W → Z;
  sys_open : string → Z → Z → W → Z * W;
  sys_close : Z → W → Z * W;
  sys_ftruncate : Z → Z → W → Z * W;
  sys_fsync : Z → W → Z * W;
  sys_unlink : string → W → Z * W;
  sys_lseek : Z → Z → Z → W → Z * W;
  sys_fallocate : Z → Z → Z → Z → W → Z * W;
  sys_fgetxattr : Z → string → Z → W → (Z * string) * W;
  sys_fsetxattr : Z → string → string → W → Z * W;
}.

(** CRoaring: [deserialize] is the safe version, which may refuse the bytes. *)
Class Roaring : Type := {
  bitmap : Type;
  rb_create : bitmap;
  rb_deserialize : string → option bitmap;
  rb_serialize : bitmap → string;
  (** the values from [min] to [max - 1], [step] apart; may be null *)
  rb_from_range : Z → Z → Z → option bitmap;
  (** the bitmap with the values from [min] to [max] added *)
  rb_add_range_closed : bitmap → Z → Z → bitmap;
}.

Class RoaringLaws `{Roaring} : Prop := {
  rb_round b : rb_deserialize (rb_serialize b) = Some b;
  rb_nonempty b : 0 < CxxString.size (rb_serialize b);
}.

(** Extended attributes: what was set is what is read, into a buffer that is
    large enough. *)
Class XattrLaws (W : Type) `{Posix W} : Type := {
  xattr : W → Z → string → option string;
  fsetxattr_stores fd name v w : (sys_fsetxattr fd name v w).1 = 0 →
    xattr (sys_fsetxattr fd name v w).2 fd name = Some v;
  fgetxattr_reads fd name n v w : xattr w fd name = Some v → CxxString.size v ≤ n →
    (sys_fgetxattr fd name n w).1 = (CxxString.size v, v);
}.

Class PosixLaws (W : Type) `{Posix W} : Type := {
  (** the open descriptors of the process *)
  open_fds : W → gset Z;
  open_result p f m w :
    let '(fd, w') := sys_open p f m w in
    (0 ≤ fd ∧ fd ∉ open_fds w ∧ open_fds w' = {[fd]} ∪ open_fds w) ∨
    (fd = -1 ∧ 0 < sys_errno w' ∧ open_fds w' = open_fds w);
  close_fds fd w : open_fds (sys_close fd w).2 = open_fds w ∖ {[fd]};
  ftruncate_fds fd n w : open_fds (sys_ftruncate fd n w).2 = open_fds w;
  fsync_fds fd w : open_fds (sys_fsync fd w).2 = open_fds w;
  unlink_fds p w : open_fds (sys_unlink p w).2 = open_fds w;
  lseek_fds fd off wh w : open_fds (sys_lseek fd off wh w).2 = open_fds w;
  (** the layout of the file behind an open descriptor: its length and which of
      its bytes are data. What [lseek] answers is only known for an open
      descriptor; by convention a descriptor that is not open has the length
      2^64 - 1, which is what the code makes of the answer -1. *)
  file_len : W → Z → Z;
  has_data : W → Z → Z → bool;
  len_range w fd : fd ∈ open_fds w → 0 ≤ file_len w fd < 2 ^ 63;
  len_closed w fd : fd ∉ open_fds w → file_len w fd = 2 ^ 64 - 1;
  lseek_len fd off wh w fd' : file_len (sys_lseek fd off wh w).2 fd' = file_len w fd';
  lseek_data fd off wh w fd' x : has_data (sys_lseek fd off wh w).2 fd' x = has_data w fd' x;
  lseek_end fd w : fd ∈ open_fds w → (sys_lseek fd 0 SEEK_END w).1 = file_len w fd;
  (** [SEEK_DATA]: the first data at or after the offset, -1 when there is none *)
  seek_data_found fd off w r : fd ∈ open_fds w → (sys_lseek fd off SEEK_DATA w).1 = r → 0 ≤ off → r ≠ -1 →
    off ≤ r < file_len w fd ∧ has_data w fd r = true ∧ ∀ x, off ≤ x < r → has_data w fd x = false;
  seek_data_none fd off w : fd ∈ open_fds w → (sys_lseek fd off SEEK_DATA w).1 = -1 → 0 ≤ off →
    ∀ x, off ≤ x < file_len w fd → has_data w fd x = false;
  (** [SEEK_HOLE]: the first hole at or after an offset inside the file; the
      end of the file counts as one *)
  seek_hole fd off w : fd ∈ open_fds w → 0 ≤ off < file_len w fd →
    let r := (sys_lseek fd off SEEK_HOLE w).1 in
    off ≤ r ≤ file_len w fd ∧ (r < file_len w fd → has_data w fd r = false) ∧
    ∀ x, off ≤ x < r → has_data w fd x = true;
}.

(** ** One file *)
Module HvsFileHandler.

Section handler.
Context {W : Type} `{Posix W, Roaring}.

Record t : Type := mk {
  fd : Z;
  (** bitmap pointers, which may be null *)
  bitmaps : gmap Z (option bitmap);
  cids : string;
}.
Definition make (fd : Z) : t := mk fd ∅ "".

(** The attribute of a centre's bitmap, and of the centre list. *)
Definition bitmap_name (cid : Z) : string := snprintf 64 ("user.gvds.r.fb" +:+ pretty cid).
Definition centers_name : string := "user.gvds.r.c".

(** A buffer of [n] bytes into which a call has written [s]. *)
Fixpoint zeros (n : nat) : string := match n with 0%nat => "" | S n => String zero (zeros n) end.
Definition buffer (n : nat) (s : string) : string :=
  str_take n s +:+ zeros (n - String.length (str_take n s)).

(** The string literal assigned when there is no attribute is the empty C
    string, so it is looked up again at the next call. *)
Definition get_rep_centers (h : t) : M W (string * t) :=
  if negb (CxxString.size h.(cids) =? 0) then mret (h.(cids), h)
  else
    '(err, buf) ← extern (sys_fgetxattr h.(fd) centers_name 256);
    let cids := if err <=? 0 then "" else buffer 256 buf in
    mret (cids, mk h.(fd) h.(bitmaps) cids).

(** The bitmap pointer ([None] is null), and the handler. *)
Definition get_bitmap (cid : Z) (create : bool) (h : t) : M W (option bitmap * t) :=
  if h.(fd) <? 0 then mret (None, h)
  else match h.(bitmaps) !! cid with
  | Some bm => mret (bm, h)
  | None =>
      '(count, value) ← extern (sys_fgetxattr h.(fd) (bitmap_name cid) (128 * 1024));
      let bm := if 0 <? count then rb_deserialize (str_take (Z.to_nat count) value)
                else if create then Some rb_create else None in
      mret (bm, match bm with
                | Some _ => mk h.(fd) (<[cid := bm]> h.(bitmaps)) h.(cids)
                | None => h
                end)
  end.

Definition set_bitmap (cid : Z) (bm : option bitmap) (h : t) : t := mk h.(fd) (<[cid := bm]> h.(bitmaps)) h.(cids).

(** A failure of [fsetxattr] is logged; the result is [true] all the same. *)
Definition flush_bitmap (cid : Z) (h : t) : M W bool :=
  if h.(fd) <? 0 then mret false
  else match h.(bitmaps) !! cid with
  | None => mret true
  | Some bm =>
      bm ← deref bm;
      _ ← extern (sys_fsetxattr h.(fd) (bitmap_name cid) (rb_serialize bm));
      mret true
  end.

Definition page_size : Z := 2 ^ 12.
Definition page_mask : Z := 0xFFF.

(** The range a request is widened to: [offset_align] and [end_align]. *)
Definition align (offset len : Z) : Z * Z :=
  let end_ := to_u64 (offset + len) in
  let end_align :=
    if negb (Z.land end_ page_mask =? 0) then to_u64 (Z.land end_ (Z.lnot page_mask) + page_size) else end_ in
  (Z.land offset (Z.lnot page_mask), end_align).

Definition punch_hole_local (offset len : Z) (h : t) : M W bool :=
  if h.(fd) <? 0 then mret false
  else
    eof ← extern (sys_lseek h.(fd) 0 SEEK_END);
    let eof := to_u64 eof in
    let end_ := to_u64 (offset + len) in
    let '(offset_align, end_align) := align offset len in
    _ ← (if eof <? end_ then extern (sys_ftruncate h.(fd) (to_i64 end_)) else mret 0);
    err ← extern (sys_fallocate h.(fd) (Z.lor FALLOC_FL_PUNCH_HOLE FALLOC_FL_KEEP_SIZE)
      (to_i64 offset_align) (to_i64 (to_u64 (end_align - offset_align))));
    mret (negb (err =? -1)).

(** [lseek] through a [uint64_t]. *)
Definition seek (fd off whence : Z) : M W Z :=
  r ← extern (sys_lseek fd (to_i64 off) whence);
  mret (to_u64 r).

(** The loop of [find_holes_in_range]; [None]: the fuel did not suffice. *)
Fixpoint find_holes_loop (fuel : nat) (fd off to : Z) (holes : list (Z * Z)) : M W (option (list (Z * Z))) :=
  if off <? to then
    match fuel with
    | 0%nat => mret None
    | S fuel =>
        data_begin ← seek fd off SEEK_DATA;
        if (off <? data_begin) && (to <=? data_begin) then mret (Some (holes ++ [(off, to)]))
        else
          let holes := if off <? data_begin then holes ++ [(off, data_begin)] else holes in
          hole_begin ← seek fd data_begin SEEK_HOLE;
          find_holes_loop fuel fd hole_begin to holes
    end
  else mret (Some holes).

(** The loop of [find_data_in_range], where [hole_begin] is an [int]. *)
Fixpoint find_data_loop (fuel : nat) (fd off to : Z) (holes : list (Z * Z)) : M W (option (list (Z * Z))) :=
  if off <? to then
    match fuel with
    | 0%nat => mret None
    | S fuel =>
        data_begin ← seek fd off SEEK_HOLE;
        if (off <? data_begin) && (to <=? data_begin) then mret (Some (holes ++ [(off, to)]))
        else
          let holes := if off <? data_begin then holes ++ [(off, data_begin)] else holes in
          hole_begin ← extern (sys_lseek fd (to_i64 data_begin) SEEK_DATA);
          find_data_loop fuel fd (to_u64 (to_i32 hole_begin)) to holes
    end
  else mret (Some holes).

(** Enough for a loop that advances: one round per byte. *)
Definition loop_fuel (from to : Z) : nat := Z.to_nat (to - from).

Definition find_holes_in_range (from to : Z) (h : t) : M W (option (list (Z * Z))) :=
  eof ← extern (sys_lseek h.(fd) 0 SEEK_END);
  let to := Z.min to (to_u64 eof) in
  find_holes_loop (loop_fuel from to) h.(fd) from to [].
Definition find_data_in_range (from to : Z) (h : t) : M W (option (list (Z * Z))) :=
  eof ← extern (sys_lseek h.(fd) 0 SEEK_END);
  let to := Z.min to (to_u64 eof) in
  find_data_loop (loop_fuel from to) h.(fd) from to [].
End handler.

(** ** Proofs *)

Lemma land_page x : 0 ≤ x → Z.land x (Z.lnot page_mask) = x - x mod page_size.
Proof.
  intros Hx. unfold page_mask, page_size. change 0xFFF with (Z.ones 12).
  rewrite <-Z.ldiff_land, Z.ldiff_ones_r, Z.shiftl_mul_pow2, Z.shiftr_div_pow2 by lia.
  pose proof (Z.div_mod x (2 ^ 12)). lia.
Qed.

(** Disjoint non-empty ranges in ascending order, none touching the next. *)
Fixpoint separated (lo : Z) (rs : list (Z * Z)) : Prop :=
  match rs with
  | [] => True
  | (a, b) :: rs => lo ≤ a ∧ a < b ∧ separated (b + 1) rs
  end.
Definition in_ranges (x : Z) (rs : list (Z * Z)) : Prop := ∃ p, p ∈ rs ∧ p.1 ≤ x < p.2.

(** [rs] are the maximal runs of [v] within the range. *)
Definition runs (v : bool) (d : Z → bool) (lo hi : Z) (rs : list (Z * Z)) : Prop :=
  separated lo rs ∧ ∀ x, in_ranges x rs ↔ lo ≤ x < hi ∧ d x = v.

Lemma in_ranges_cons x a b rs : in_ranges x ((a, b) :: rs) ↔ a ≤ x < b ∨ in_ranges x rs.
Proof.
  unfold in_ranges. split.
  - intros (p & [->|Hp]%elem_of_cons & Hx); [by left|right; by exists p].
  - intros [Hx|(p & Hp & Hx)]; [exists (a, b); split; [left|done]|exists p; split; [by right|done]].
Qed.

Lemma in_ranges_nil x : ¬ in_ranges x [].
Proof. intros (p & Hp & _). set_solver. Qed.

Lemma runs_nil v d lo hi : hi ≤ lo → runs v d lo hi [].
Proof. intros Hle. split; [done|]. intros x. split; [intros Hx; by apply in_ranges_nil in Hx|lia]. Qed.

Lemma runs_all v d lo hi : lo < hi → (∀ x, lo ≤ x < hi → d x = v) → runs v d lo hi [(lo, hi)].
Proof.
  intros Hlt Hd. split; [cbn; lia|]. intros x. rewrite in_ranges_cons.
  split; [intros [?|Hx]; [auto|by apply in_ranges_nil in Hx]|intros [? _]; by left].
Qed.

Lemma separated_weaken lo lo' rs : lo' ≤ lo → separated lo rs → separated lo' rs.
Proof. destruct rs as [|[a b] rs]; cbn; [done|]. intros Hle (? & ? & ?). split_and!; [lia|done|done]. Qed.

(** A run [[lo, r)], possibly empty, followed by the opposite up to [h]. *)
Lemma runs_cons v d lo r h hi rs :
  lo ≤ r → r < h → (∀ x, lo ≤ x < r → d x = v) → (∀ x, r ≤ x < h → x < hi → d x = negb v) →
  r < hi → runs v d h hi rs → runs v d lo hi (if lo <? r then (lo, r) :: rs else rs).
Proof.
  intros Hlr Hrh Hd Hn Hhi [Hs Hin].
  assert (Hin' : ∀ x, lo ≤ x < r ∨ in_ranges x rs ↔ lo ≤ x < hi ∧ d x = v).
  { intros x. rewrite Hin. split.
    - intros [Hx|[? ?]]; [split; [lia|auto]|split; [lia|done]].
    - intros [Hx Hdx]. destruct (decide (x < r)); [left; lia|]. destruct (decide (x < h)); [|right; split; [lia|done]].
      rewrite Hn in Hdx by lia. by destruct v. }
  destruct (Z.ltb_spec lo r); split.
  - cbn. split_and!; [lia|lia|]. eapply separated_weaken; [|done]. lia.
  - intros x. rewrite in_ranges_cons. apply Hin'.
  - eapply separated_weaken; [|done]. lia.
  - intros x. rewrite <-Hin'. split; [by right|]. intros [?|?]; [lia|done].
Qed.
Section props.
Context {W : Type} `{PosixLaws W, Roaring}.

(** The layout of a file, as the laws describe it. *)
Definition layout (w : W) (fd n : Z) (d : Z → bool) : Prop :=
  fd ∈ open_fds w ∧ file_len w fd = n ∧ ∀ x, has_data w fd x = d x.

Lemma layout_lseek fd off wh w fd' n d :
  layout w fd' n d → layout (sys_lseek fd off wh w).2 fd' n d.
Proof.
  intros (Ho & Hl & Hd). split_and!; [by rewrite lseek_fds|by rewrite lseek_len|]. intros x. by rewrite lseek_data.
Qed.

Lemma layout_range w fd n d : layout w fd n d → 0 ≤ n < 2 ^ 63.
Proof. intros (Ho & <- & _). by apply len_range. Qed.

(** A descriptor whose file has a length is open. *)
Lemma len_open w fd : file_len w fd < 2 ^ 63 → fd ∈ open_fds w.
Proof. intros Hl. destruct (decide (fd ∈ open_fds w)) as [|Hn]; [done|]. rewrite (len_closed w fd Hn) in Hl. lia. Qed.

Lemma signed_id x : 0 ≤ x < 2 ^ 63 → to_i64 x = x.
Proof. intros. apply to_i64_id. unfold in_i64. lia. Qed.
Lemma unsigned_id x : 0 ≤ x < 2 ^ 63 → to_u64 x = x.
Proof. intros. apply to_u64_id. unfold in_u64. lia. Qed.

Lemma wp_seek fd off wh Q E (w : W) :
  0 ≤ off < 2 ^ 63 → Q (to_u64 (sys_lseek fd off wh w).1) (sys_lseek fd off wh w).2 →
  wp (seek fd off wh) Q E w.
Proof.
  intros Hoff HQ. unfold seek. wp_step. apply wp_extern. rewrite signed_id by done. by wp_step.
Qed.

Lemma find_holes_loop_ok fuel fd off to holes d n w :
  layout w fd n d → 0 ≤ off → to ≤ n → (Z.to_nat (to - off) ≤ fuel)%nat →
  wp (find_holes_loop fuel fd off to holes)
    (λ r _, ∃ rs, r = Some (holes ++ rs) ∧ runs false d off to rs) never w.
Proof.
  revert off holes w. induction fuel as [|fuel IH]; intros off holes w HL Hoff Hto Hfuel; cbn [find_holes_loop];
    pose proof (layout_range _ _ _ _ HL) as Hn;
    (destruct (Z.ltb_spec off to) as [Hlt|Hge]; [|exists []; rewrite (right_id_L [] (++)); split; [done|by apply runs_nil]]).
  { lia. }
  wp_step. apply wp_seek; [lia|]. set (r := (sys_lseek fd off SEEK_DATA w).1).
  pose proof (layout_lseek fd off SEEK_DATA w fd n d HL) as HL2. set (w2 := (sys_lseek fd off SEEK_DATA w).2) in *.
  destruct HL as (Hopen & Hlen & Hdat). destruct (decide (r = -1)) as [Hr|Hr].
  { pose proof (seek_data_none fd off w Hopen Hr Hoff) as Hnone. rewrite Hr.
    change (to_u64 (-1)) with (2 ^ 64 - 1).
    destruct (Z.ltb_spec off (2 ^ 64 - 1)); [|lia]. destruct (Z.leb_spec to (2 ^ 64 - 1)); [|lia].
    cbn [andb]. apply wp_ret. eexists. split; [done|]. apply runs_all; [done|].
    intros x Hx. rewrite <-Hdat. apply Hnone. lia. }
  destruct (seek_data_found fd off w r Hopen eq_refl Hoff Hr) as (Hrange & Hdr & Hno). rewrite Hlen in Hrange.
  rewrite unsigned_id by lia.
  assert (Hno' : ∀ x, off ≤ x < r → d x = false) by (intros; rewrite <-Hdat; auto).
  destruct (Z.leb_spec to r) as [Hle|Hgt].
  - destruct (Z.ltb_spec off r); [|lia]. cbn [andb]. apply wp_ret. eexists. split; [done|].
    apply runs_all; [done|]. intros x Hx. apply Hno'. lia.
  - rewrite andb_false_r. wp_step. apply wp_seek; [lia|].
    destruct HL2 as (Hopen2 & Hlen2 & Hdat2). assert (Hin : 0 ≤ r < file_len w2 fd) by (rewrite Hlen2; lia).
    pose proof (seek_hole fd r w2 Hopen2 Hin) as Hh. cbn zeta in Hh.
    set (h := (sys_lseek fd r SEEK_HOLE w2).1) in *. destruct Hh as (Hhr & Hhole & Hd). rewrite Hlen2 in *.
    rewrite unsigned_id by lia.
    assert (r ≠ h). { intros <-. rewrite Hdat2, <-Hdat, Hdr in Hhole. discriminate Hhole. lia. }
    eapply wp_mono; [| |apply IH; [by apply layout_lseek|lia|done|lia]]; [|done].
    intros res w4 (rs & -> & Hrs). exists (if off <? r then (off, r) :: rs else rs). split.
    + destruct (off <? r); [by rewrite <-(assoc_L (++))|done].
    + apply (runs_cons false d off r h); try done; try lia.
      intros x Hx _. rewrite <-Hdat2. by apply Hd.
Qed.

Lemma find_holes_in_range_ok from to h w :
  0 ≤ from → fd h ∈ open_fds w →
  wp (find_holes_in_range from to h) (λ r _, ∃ rs, r = Some rs ∧
    runs false (has_data w (fd h)) from (Z.min to (file_len w (fd h))) rs) never w.
Proof.
  intros Hfrom Hopen. unfold find_holes_in_range. wp_step. apply wp_extern. rewrite lseek_end by done.
  pose proof (len_range w (fd h) Hopen) as Hl. rewrite unsigned_id by lia. cbn zeta.
  apply (find_holes_loop_ok _ _ _ _ [] _ (file_len w (fd h))); [by apply layout_lseek; split_and!|done|lia|].
  unfold loop_fuel. lia.
Qed.

(** The searches only move the file offset. *)
Lemma find_holes_loop_frame (I : W → Prop) fuel fd off to holes w :
  (∀ off wh w, I w → I (sys_lseek fd off wh w).2) → I w →
  wp (find_holes_loop fuel fd off to holes) (λ _ w', I w') I w.
Proof.
  intros HI. revert off holes w. induction fuel as [|fuel IH]; intros off holes w Hw; cbn [find_holes_loop];
    (apply wp_if; intros _; [|by apply wp_ret]); [by apply wp_ret|].
  wp_step. unfold seek. wp_step. apply wp_extern, wp_ret. apply wp_if; intros _; [by apply wp_ret, HI|].
  wp_step. wp_step. apply wp_extern, wp_ret. auto.
Qed.
Lemma find_data_loop_frame (I : W → Prop) fuel fd off to holes w :
  (∀ off wh w, I w → I (sys_lseek fd off wh w).2) → I w →
  wp (find_data_loop fuel fd off to holes) (λ _ w', I w') I w.
Proof.
  intros HI. revert off holes w. induction fuel as [|fuel IH]; intros off holes w Hw; cbn [find_data_loop];
    (apply wp_if; intros _; [|by apply wp_ret]); [by apply wp_ret|].
  wp_step. unfold seek. wp_step. apply wp_extern, wp_ret. apply wp_if; intros _; [by apply wp_ret, HI|].
  wp_step. apply wp_extern. auto.
Qed.
Lemma find_holes_frame (I : W → Prop) from to h w :
  (∀ off wh w, I w → I (sys_lseek (fd h) off wh w).2) → I w →
  wp (find_holes_in_range from to h) (λ _ w', I w') I w.
Proof. intros HI Hw. unfold find_holes_in_range. wp_step. apply wp_extern. apply find_holes_loop_frame; auto. Qed.
Lemma find_data_frame (I : W → Prop) from to h w :
  (∀ off wh w, I w → I (sys_lseek (fd h) off wh w).2) → I w →
  wp (find_data_in_range from to h) (λ _ w', I w') I w.
Proof. intros HI Hw. unfold find_data_in_range. wp_step. apply wp_extern. apply find_data_loop_frame; auto. Qed.

(** The holes found are exactly the maximal runs of the file's holes within
    the range asked for, cut at the end of the file; one round of the loop per
    byte of the range is always enough. *)
Theorem find_holes_exact from to h w :
  0 ≤ from → fd h ∈ open_fds w →
  wp (find_holes_in_range from to h) (λ r _, ∃ rs, r = Some rs ∧
    runs false (has_data w (fd h)) from (Z.min to (file_len w (fd h))) rs) never w.
Proof. apply find_holes_in_range_ok. Qed.

Lemma find_data_loop_ok fuel fd off to holes d n w :
  layout w fd n d → n < 2 ^ 31 → 0 ≤ off → to ≤ n → (Z.to_nat (to - off) ≤ fuel)%nat →
  wp (find_data_loop fuel fd off to holes)
    (λ r _, ∃ rs, r = Some (holes ++ rs) ∧ runs true d off to rs) never w.
Proof.
  revert off holes w. induction fuel as [|fuel IH]; intros off holes w HL Hsmall Hoff Hto Hfuel; cbn [find_data_loop];
    pose proof (layout_range _ _ _ _ HL) as Hn;
    (destruct (Z.ltb_spec off to) as [Hlt|Hge]; [|exists []; rewrite (right_id_L [] (++)); split; [done|by apply runs_nil]]).
  { lia. }
  wp_step. apply wp_seek; [lia|]. pose proof (layout_lseek fd off SEEK_HOLE w fd n d HL) as HL2.
  destruct HL as (Hopen & Hlen & Hdat). assert (Hin : 0 ≤ off < file_len w fd) by (rewrite Hlen; lia).
  pose proof (seek_hole fd off w Hopen Hin) as Hh. cbn zeta in Hh.
  set (r := (sys_lseek fd off SEEK_HOLE w).1) in *. set (w2 := (sys_lseek fd off SEEK_HOLE w).2) in *.
  destruct Hh as (Hrange & Hhole & Hd). rewrite Hlen in *. rewrite unsigned_id by lia.
  assert (Hd' : ∀ x, off ≤ x < r → d x = true) by (intros; rewrite <-Hdat; auto).
  destruct (Z.leb_spec to r) as [Hle|Hgt].
  - destruct (Z.ltb_spec off r); [|lia]. cbn [andb]. apply wp_ret. eexists. split; [done|].
    apply runs_all; [done|]. intros x Hx. apply Hd'. lia.
  - rewrite andb_false_r. wp_step. rewrite signed_id by lia. apply wp_extern.
    destruct HL2 as (Hopen2 & Hlen2 & Hdat2). set (q := (sys_lseek fd r SEEK_DATA w2).1).
    set (next := to_u64 (to_i32 q)).
    assert (Hnext : r < next ∧ ∀ x, r ≤ x < next → x < to → d x = negb true).
    { unfold next. destruct (decide (q = -1)) as [Hq|Hq].
      - pose proof (seek_data_none fd r w2 Hopen2 Hq ltac:(lia)) as Hnone. rewrite Hq.
        change (to_u64 (to_i32 (-1))) with (2 ^ 64 - 1). split; [lia|].
        intros x Hx Hxt. rewrite <-Hdat2. apply Hnone. lia.
      - destruct (seek_data_found fd r w2 q Hopen2 eq_refl ltac:(lia) Hq) as (Hqr & Hdq & Hno). rewrite Hlen2 in Hqr.
        rewrite to_i32_id by (unfold in_i32; lia). rewrite unsigned_id by lia.
        assert (r ≠ q). { intros <-. rewrite Hdat2, <-Hdat, Hhole in Hdq by lia. discriminate. }
        split; [lia|]. intros x Hx _. rewrite <-Hdat2. by apply Hno. }
    destruct Hnext as [Hrn Hgap].
    eapply wp_mono; [| |apply IH; [by apply layout_lseek|done|lia|done|lia]]; [|done].
    intros res w4 (rs & -> & Hrs). exists (if off <? r then (off, r) :: rs else rs). split.
    + destruct (off <? r); [by rewrite <-(assoc_L (++))|done].
    + apply (runs_cons true d off r next); try done; lia.
Qed.

Lemma find_data_in_range_ok from to h w :
  0 ≤ from → file_len w (fd h) < 2 ^ 31 →
  wp (find_data_in_range from to h) (λ r _, ∃ rs, r = Some rs ∧
    runs true (has_data w (fd h)) from (Z.min to (file_len w (fd h))) rs) never w.
Proof.
  intros Hfrom Hsmall. pose proof (len_open w (fd h) ltac:(lia)) as Hopen.
  unfold find_data_in_range. wp_step. apply wp_extern. rewrite lseek_end by done.
  pose proof (len_range w (fd h) Hopen) as Hl. rewrite unsigned_id by lia. cbn zeta.
  apply (find_data_loop_ok _ _ _ _ [] _ (file_len w (fd h))); [by apply layout_lseek; split_and!|done|done|lia|].
  unfold loop_fuel. lia.
Qed.

(** C40: in a file of less than 2 GiB the data found are exactly the maximal runs
    of the file's data within the range asked for, and the loop ends. *)
Theorem find_data_exact from to h w :
  0 ≤ from → file_len w (fd h) < 2 ^ 31 →
  wp (find_data_in_range from to h) (λ r _, ∃ rs, r = Some rs ∧
    runs true (has_data w (fd h)) from (Z.min to (file_len w (fd h))) rs) never w.
Proof. apply find_data_in_range_ok. Qed.
End props.

Section bitmaps.
Context {W : Type} `{XattrLaws W, RoaringLaws}.

(** A bitmap written back is what a new handler of the file reads later,
    when it fits the 128 KiB buffer and the system took it; the answer is success
    even when the system did not. *)
Theorem bitmap_survives cid b (h : t) w :
  0 ≤ h.(fd) → h.(bitmaps) !! cid = Some (Some b) →
  CxxString.size (rb_serialize b) ≤ 128 * 1024 →
  let res := sys_fsetxattr h.(fd) (bitmap_name cid) (rb_serialize b) w in
  flush_bitmap cid h w = (Val true, res.2) ∧
  (res.1 = 0 → (get_bitmap cid false (make h.(fd)) res.2).1 =
     Val (Some b, mk h.(fd) {[cid := Some b]} "")).
Proof.
  intros Hfd Hb Hsz res. assert (Hneg : (h.(fd) <? 0) = false) by lia. split.
  - unfold flush_bitmap. rewrite Hneg, Hb. cbn [deref]. unfold mbind, M_bind, extern, mret, M_ret. fold res. by destruct res.
  - intros Hok. unfold get_bitmap. cbn [fd make bitmaps]. rewrite Hneg, lookup_empty.
    unfold mbind, M_bind, extern.
    pose proof (fgetxattr_reads h.(fd) (bitmap_name cid) (128 * 1024) _ res.2
      (fsetxattr_stores _ _ _ _ Hok) Hsz) as Hget.
    destruct (sys_fgetxattr _ _ _ res.2) as [[count value] w']. cbn in Hget. injection Hget as -> ->.
    pose proof (rb_nonempty b). destruct (Z.ltb_spec 0 (CxxString.size (rb_serialize b))); [|lia].
    rewrite str_take_all by (unfold CxxString.size; lia). by rewrite rb_round.
Qed.
End bitmaps.
End HvsFileHandler.

(** ** The descriptors *)
(** Whether the allocator hands the block of the list node just freed to the node
    allocated next, as glibc's does for blocks of one size. Where it does, a stale
    iterator to the old node reads the new one; by the language standard its use is
    undefined behaviour, which is the other value. *)
Class Allocator : Type := { reuses_freed_block : bool }.

Module FdManager.

Section manager.
Context {W : Type} `{Posix W, Roaring, Allocator}.

Record t : Type := mk {
  fds : LRU string Z;
  file_handlers : gmap Z HvsFileHandler.t;
  max_fd_num : Z;
}.
Definition init : t := mk (make 0) ∅ 500.
Definition setMaxFdNum (num : Z) (m : t) : t := mk m.(fds) m.(file_handlers) (if 1 <? num then num else 1).

Definition set_fds (l : LRU string Z) (m : t) : t := mk l m.(file_handlers) m.(max_fd_num).

Definition mask_flags : Z :=
  Z.lor O_SYNC (Z.lor O_DSYNC (Z.lor O_DIRECT (Z.lor O_RDONLY O_WRONLY))).

(** The loop of [checkAndExpire]: each round takes one object out. *)
Fixpoint expire_loop (fuel : nat) (m : t) : M W t :=
  if m.(max_fd_num) <? Lru.size m.(fds) then
    match fuel with
    | 0%nat => mret m
    | S fuel =>
        '(fdo_exp, l) ← deref (Lru.expire m.(fds));
        match fdo_exp with
        | Some o =>
            _ ← extern (sys_close (data o));
            expire_loop fuel (set_fds l m)
        | None => mret (set_fds l m)
        end
    end
  else mret m.
Definition checkAndExpire (m : t) : M W t := expire_loop (length (lrulist m.(fds))) m.

(** [hit] moves the object to a new node, and the iterator found before it is
    used once more after it. *)
Definition open (path : string) (flags mode : Z) (m : t) : M W (Z * t) :=
  match Lru.find path m.(fds) with
  | Some fd_it =>
      o ← deref (at_iter fd_it m.(fds));
      _ ← (if negb (Z.land flags O_TRUNC =? 0) then extern (sys_ftruncate (data o) 0) else mret 0);
      '(_, l) ← deref (Lru.hit path m.(fds));
      o ← deref (if reuses_freed_block then snd <$> head (lrulist l) else at_iter fd_it l);
      mret (data o, set_fds l m)
  | None =>
      let flags := Z.land flags (Z.lnot mask_flags) in
      fd ← extern (sys_open (c_str path) flags mode);
      if fd =? -1 then
        errno ← extern (λ w, (sys_errno w, w));
        mret (- errno, m)
      else if 0 <=? fd then
        l ← deref (Lru.touch path fd m.(fds));
        m ← checkAndExpire (set_fds l m);
        mret (fd, m)
      else mret (- EACCES, m)
  end.

Definition flush (path : string) (m : t) : M W (Z * t) :=
  match Lru.find path m.(fds) with
  | Some fd_it =>
      o ← deref (at_iter fd_it m.(fds));
      _ ← extern (sys_fsync (data o));
      mret (0, m)
  | None => mret (0, m)
  end.

Definition close (path : string) (m : t) : M W (Z * t) :=
  '(_, m) ← flush path m;
  mret (0, m).

(** Taking a path out and closing its descriptor, as [create], [remove] and
    [expire] do: the descriptor, if there was one. *)
Definition drop (path : string) (m : t) : M W (option Z * t) :=
  match Lru.find path m.(fds) with
  | Some fd_it =>
      o ← deref (at_iter fd_it m.(fds));
      let fd_old := data o in
      '(_, l) ← deref (Lru.remove (key o) m.(fds));
      _ ← extern (sys_close fd_old);
      mret (Some fd_old, set_fds l m)
  | None => mret (None, m)
  end.

Definition create (path : string) (mode : Z) (m : t) : M W (Z * t) :=
  fd_new ← extern (sys_open (c_str path) (Z.lor O_CREAT O_SYNC) mode);
  if 0 <=? fd_new then
    '(_, m) ← drop path m;
    _ ← extern (sys_close fd_new);
    mret (0, m)
  else mret (fd_new, m).

Definition remove (path : string) (m : t) : M W (Z * t) :=
  '(_, m) ← drop path m;
  fd_new ← extern (sys_unlink (c_str path));
  mret (fd_new, m).

Definition expire (path : string) (m : t) : M W (Z * t) :=
  '(fd_old, m) ← drop path m;
  mret (default (-1) fd_old, m).

(** The descriptor stands for the shared handler found or made under it. *)
Definition get_file_handler (path : string) (m : t) : M W (option Z * t) :=
  '(fd, m) ← open path O_RDWR 436 m;
  if fd <? 0 then mret (None, m)
  else match m.(file_handlers) !! fd with
  | Some _ => mret (Some fd, m)
  | None => mret (Some fd, mk m.(fds) (<[fd := HvsFileHandler.make fd]> m.(file_handlers)) m.(max_fd_num))
  end.
End manager.

(** ** Proofs *)

Section props.
Context {W : Type} `{PosixLaws W, Roaring, Allocator}.
Implicit Types (m : t) (w : W) (base : gset Z).

(** The descriptors behind the cached paths. *)
Definition cached m : list Z := data <$> abs m.(fds).

(** The open descriptors are those of the rest of the process and [ds], each
    of which is held once. *)
Definition tracks base (ds : list Z) w : Prop :=
  NoDup ds ∧ (∀ fd, fd ∈ ds → 0 ≤ fd ∧ fd ∉ base) ∧ open_fds w = base ∪ list_to_set ds.

(** No descriptor is leaked, closed early or shared by two paths. *)
Definition fd_inv base m w : Prop := wf m.(fds) ∧ max_n m.(fds) = 0 ∧ tracks base (cached m) w.

Lemma tracks_perm base ds ds' w : ds ≡ₚ ds' → tracks base ds w → tracks base ds' w.
Proof.
  intros Hp (Hnd & Hin & Ho). split_and!.
  - by rewrite <-Hp.
  - intros fd. rewrite <-Hp. apply Hin.
  - rewrite Ho. f_equal. apply set_eq. intros x. by rewrite !elem_of_list_to_set, Hp.
Qed.

Lemma tracks_same base ds w w' : open_fds w' = open_fds w → tracks base ds w → tracks base ds w'.
Proof. unfold tracks. by intros ->. Qed.

Lemma tracks_close base d ds w w' :
  open_fds w' = open_fds w ∖ {[d]} → tracks base (d :: ds) w → tracks base ds w'.
Proof.
  intros Hc (Hnd & Hin & Ho). inversion_clear Hnd as [|?? Hd Hds]. split_and!; [done|set_solver|].
  rewrite Hc, Ho. destruct (Hin d ltac:(left)) as [_ Hb].
  apply set_eq. intros x. rewrite elem_of_difference, !elem_of_union, !elem_of_list_to_set, elem_of_singleton, elem_of_cons.
  split; [naive_solver|]. intros [Hx|Hx]; (split; [naive_solver|]); intros ->; done.
Qed.

Lemma tracks_open base d ds w w' :
  0 ≤ d → d ∉ open_fds w → open_fds w' = {[d]} ∪ open_fds w → tracks base ds w → tracks base (d :: ds) w'.
Proof.
  intros Hd Hfresh Ho (Hnd & Hin & How). rewrite How in Hfresh, Ho. split_and!.
  - constructor; [|done]. set_solver.
  - intros fd [->|Hfd]%elem_of_cons; [split; [done|set_solver]|auto].
  - rewrite Ho. set_solver.
Qed.

(** The part common to [create], [remove] and [expire]. *)
Lemma drop_ok base path m w :
  fd_inv base m w →
  wp (drop path m) (λ '(fd, m') w', fd_inv base m' w' ∧ abs m'.(fds) = spec_remove path (abs m.(fds)) ∧
    fd = data <$> spec_find path (abs m.(fds)) ∧ m'.(max_fd_num) = m.(max_fd_num)) never w.
Proof.
  intros (Hw & Hm & Ht). unfold drop, Lru.find. destruct (lruindex m.(fds) !! path) as [it|] eqn:Hk.
  2: { apply wp_ret. pose proof (find_None _ _ Hw Hk) as Hf. rewrite Hf. split_and!; [by split|..]; try done.
       symmetry. by apply spec_remove_absent. }
  destruct (indexed _ _ _ Hw Hk) as (o & Ho & Hin & Hko). rewrite Ho.
  wp_step. apply wp_ret. wp_step. unfold Lru.remove. rewrite Hko, Hk, (erase_wf _ _ _ Ho). cbn [mbind option_bind].
  destruct (drop_wf _ _ _ _ Hw Hin Hko) as [Hw' Ha]. unfold set_index. cbn [lruindex].
  apply wp_ret. wp_step. apply wp_extern. apply wp_ret.
  pose proof (find_Some _ _ _ _ Hw Hin Hko) as Hf. rewrite Hf.
  split_and!; [|exact Ha|done|done]. split_and!; [exact Hw'|done|].
  unfold cached in *. cbn [fds set_fds].
  match goal with |- tracks _ (data <$> abs ?s) _ => replace (abs s) with (spec_remove path (abs m.(fds))) by (symmetry; exact Ha) end.
  eapply tracks_close; [apply close_fds|]. eapply tracks_perm; [|exact Ht].
  destruct (spec_find_perm _ _ _ Hw Hf) as [_ Hp]. by rewrite Hp at 1.
Qed.
(** Closing what exceeds the limit keeps what is in front. *)
Lemma expire_loop_ok fuel base o l m w :
  fd_inv base m w → abs m.(fds) = o :: l → 1 ≤ m.(max_fd_num) → (length l ≤ fuel)%nat →
  wp (expire_loop fuel m) (λ m' w', fd_inv base m' w' ∧ Lru.size m'.(fds) ≤ m.(max_fd_num) ∧
    ∃ l', abs m'.(fds) = o :: l') never w.
Proof.
  revert l m w. induction fuel as [|fuel IH]; intros l m w Hinv Ha Hmax Hfuel; cbn [expire_loop].
  all: assert (Hsz : Lru.size m.(fds) = Z.of_nat (S (length l)))
    by (unfold Lru.size; rewrite <-(length_fmap snd); change (snd <$> lrulist m.(fds)) with (abs m.(fds)); by rewrite Ha).
  all: destruct (Z.ltb_spec m.(max_fd_num) (Lru.size m.(fds))) as [Hlt|Hge];
    [|apply wp_ret; split_and!; [done|lia|by exists l]].
  { lia. }
  destruct (exists_last (l := l)) as (l0 & x & ->); [intros ->; cbn in *; lia|].
  destruct Hinv as (Hw & Hm & Ht).
  destruct (expire_ok m.(fds) (o :: l0) x Hw Ha) as (l' & He & Hw' & Hm' & Ha').
  rewrite He. wp_step. apply wp_ret. wp_step. apply wp_extern.
  refine (IH l0 (set_fds l' m) _ _ Ha' Hmax _); [|rewrite length_app in Hfuel; cbn in Hfuel; lia].
  split_and!; [done|cbn; congruence|]. unfold cached in *. cbn [fds set_fds]. rewrite Ha'.
  eapply tracks_close; [apply close_fds|]. eapply tracks_perm; [|exact Ht]. rewrite Ha.
  rewrite app_comm_cons, fmap_app. by rewrite Permutation_app_comm.
Qed.

Lemma spec_find_removed k (l : list (LRUObject string Z)) : spec_find k (spec_remove k l) = None.
Proof.
  unfold spec_remove. induction l as [|o l IH]; [done|]. rewrite filter_cons. case_decide; [|done].
  cbn [spec_find]. by rewrite decide_False.
Qed.

Lemma extern_fds {A} (f : W → A * W) base m Q w :
  fd_inv base m w → (∀ w, open_fds (f w).2 = open_fds w) →
  (∀ a w', fd_inv base m w' → Q a w') → wp (extern f) Q never w.
Proof.
  intros (Hw & Hm & Ht) Hf HQ. apply wp_extern, HQ. split_and!; [done|done|].
  eapply tracks_same; [apply Hf|done].
Qed.

Lemma create_ok base path mode m w :
  fd_inv base m w →
  wp (create path mode m) (λ '(e, m') w', fd_inv base m' w' ∧
     (e = 0 → spec_find path (abs m'.(fds)) = None) ∧ (e ≠ 0 → e = -1 ∧ m' = m)) never w.
Proof.
  intros (Hw & Hm & Ht). unfold create. wp_step. apply wp_extern.
  pose proof (open_result (c_str path) (Z.lor O_CREAT O_SYNC) mode w) as Hopen.
  destruct (sys_open _ _ _ w) as [fd w1]. cbn [fst snd] in *.
  destruct Hopen as [(Hfd & Hfresh & Ho)|(-> & _ & Ho)].
  2: { apply wp_ret. split_and!; [|done|done]. split_and!; [done|done|]. by eapply tracks_same. }
  destruct (Z.leb_spec 0 fd); [|lia]. wp_step.
  assert (Hinv : fd_inv ({[fd]} ∪ base) m w1).
  { split_and!; [done|done|]. destruct Ht as (Hnd & Hin & How). rewrite How in *. split_and!; [done| |set_solver].
    intros d Hd. split; [by apply Hin|]. destruct (Hin d Hd). set_solver. }
  eapply wp_mono; [| |by apply drop_ok]; [|done]. intros [old m'] w2 ((Hw' & Hm' & Ht') & Ha & _).
  wp_step. apply wp_extern. apply wp_ret. rewrite Ha. split_and!; [|by rewrite spec_find_removed|done].
  split_and!; [done|done|]. destruct Ht' as (Hnd & Hin & How). split_and!; [done| |].
  - intros d Hd. destruct (Hin d Hd). split; [done|set_solver].
  - rewrite close_fds, How. destruct Ht as (_ & _ & How0). rewrite How0 in Hfresh.
    apply set_eq. intros x. destruct (decide (x = fd)) as [->|]; [|set_solver].
    assert (fd ∉ cached m'); [|set_solver]. intros Hx. destruct (Hin fd Hx). set_solver.
Qed.

Lemma flush_ok base path m w :
  fd_inv base m w → wp (flush path m) (λ '(e, m') w', e = 0 ∧ m' = m ∧ fd_inv base m' w') never w.
Proof.
  intros Hinv. unfold flush, Lru.find. destruct (lruindex m.(fds) !! path) as [it|] eqn:Hk; [|by apply wp_ret].
  destruct (indexed _ _ _ (proj1 Hinv) Hk) as (o & Ho & _). rewrite Ho. wp_step. apply wp_ret. wp_step.
  eapply extern_fds; [exact Hinv|apply fsync_fds|]. intros a w' Hi. by apply wp_ret.
Qed.

Lemma open_new_ok base path flags mode m w :
  fd_inv base m w → spec_find path (abs m.(fds)) = None → 1 ≤ m.(max_fd_num) →
  wp (open path flags mode m) (λ '(fd, m') w', fd_inv base m' w' ∧
    (fd < 0 → m' = m) ∧
    (0 ≤ fd → spec_find path (abs m'.(fds)) = Some (Obj false path fd) ∧ fd ∈ open_fds w' ∧
       Lru.size m'.(fds) ≤ m.(max_fd_num) ∧
       fd = (sys_open (c_str path) (Z.land flags (Z.lnot mask_flags)) mode w).1)) never w.
Proof.
  intros (Hw & Hm & Ht) Hf Hmax. unfold open, Lru.find. apply find_iff in Hf as Hk; [|done]. rewrite Hk.
  wp_step. apply wp_extern. pose proof (open_result (c_str path) (Z.land flags (Z.lnot mask_flags)) mode w) as Hopen.
  destruct (sys_open _ _ _ w) as [fd w1]. cbn [fst snd] in *.
  destruct Hopen as [(Hfd & Hfresh & Ho)|(-> & Herr & Ho)].
  2: { cbn. wp_step. apply wp_extern. apply wp_ret. cbn. split_and!; [|done|lia].
       split_and!; [done|done|]. by eapply tracks_same. }
  destruct (Z.eqb_spec fd (-1)); [lia|]. destruct (Z.leb_spec 0 fd); [|lia].
  destruct (touch_ok m.(fds) path fd Hw) as (it & l & Htouch & _ & Hwl & Hml & Hal & _). rewrite Htouch.
  wp_step. apply wp_ret. wp_step. unfold checkAndExpire.
  assert (Habs : abs l = Obj false path fd :: abs m.(fds)).
  { rewrite Hal. unfold spec_touch. rewrite Hf. unfold spec_room. by rewrite Hm. }
  eapply wp_mono; [| |refine (expire_loop_ok _ base _ (abs m.(fds)) (set_fds l m) w1 _ Habs Hmax _)]; [|done| |].
  - intros m' w' (Hinv & Hsz & l' & Hm'). apply wp_ret. split_and!; [done|lia|]. intros _. rewrite Hm'. split_and!.
    + cbn. by rewrite decide_True.
    + destruct Hinv as (_ & _ & _ & _ & How). rewrite How. unfold cached. rewrite Hm'. set_solver.
    + exact Hsz.
    + done.
  - split_and!; [done|cbn; congruence|]. unfold cached in *. cbn [fds set_fds]. rewrite Habs.
    by eapply tracks_open.
  - cbn [fds set_fds]. pose proof (f_equal length Habs) as Hlen. unfold abs in Hlen. rewrite length_cons, !length_fmap in Hlen.
    unfold abs. rewrite length_fmap. lia.
Qed.

(** The path is cached with the descriptor, whose handler is made. *)
Definition ready path (fd : Z) m : Prop :=
  wf m.(fds) ∧ 0 ≤ fd ∧ (∃ o, spec_find path (abs m.(fds)) = Some o ∧ data o = fd) ∧
  ∃ h, m.(file_handlers) !! fd = Some h ∧ h.(HvsFileHandler.fd) = fd.

(** Where the freed block is reused, opening a cached path only moves it to the
    front. *)
Lemma open_ready path fd flags mode m :
  reuses_freed_block = true → ready path fd m → Z.land flags O_TRUNC = 0 →
  ∃ m', (∀ w, open path flags mode m w = (Val (fd, m'), w)) ∧ ready path fd m' ∧
    m'.(file_handlers) = m.(file_handlers) ∧ m'.(max_fd_num) = m.(max_fd_num).
Proof.
  intros Hheap (Hw & Hfd & (o & Hf & Ho) & Hh) Hfl. unfold open, Lru.find.
  destruct (lruindex m.(fds) !! path) as [it|] eqn:Hk; [|apply find_iff in Hk; congruence].
  destruct (indexed _ _ _ Hw Hk) as (o' & Hat & Hin & Hko). rewrite (find_Some _ _ _ _ Hw Hin Hko) in Hf.
  injection Hf as ->. unfold Lru.hit. rewrite Hk, Hat, Hfl, Hheap. cbn [Z.eqb negb].
  destruct (refresh_ok _ _ _ Hw Hk) as (o2 & it' & l & Hr & Hw' & Hm' & Hf & Ha & _).
  rewrite (find_Some _ _ _ _ Hw Hin Hko) in Hf. injection Hf as <-.
  assert (Hhd : snd <$> head (lrulist l) = Some o).
  { unfold abs in Ha. destruct (lrulist l) as [|[i x] r]; [done|]. cbn in Ha. injection Ha as -> _. done. }
  exists (set_fds l m). rewrite Hr. split_and!; [| |done..].
  - intros w. unfold mbind, option_bind, M_bind. cbn [deref]. unfold mret, M_ret. rewrite Hhd. cbn [deref]. unfold mret, M_ret. by rewrite Ho.
  - split_and!; [done|done| |done]. exists o. split; [|done]. cbn [fds set_fds]. rewrite Ha. cbn [spec_find].
    rewrite decide_True by done. done.
Qed.

(** Where it is not, the same opening is undefined before any system call. *)
Lemma open_ready_dangles path fd flags mode m w :
  reuses_freed_block = false → ready path fd m → Z.land flags O_TRUNC = 0 → open path flags mode m w = (UB, w).
Proof.
  intros Hheap (Hw & _ & (o & Hf & _) & _) Hfl. unfold open, Lru.find.
  destruct (lruindex m.(fds) !! path) as [it|] eqn:Hk; [|apply find_iff in Hk; congruence].
  destruct (indexed _ _ _ Hw Hk) as (o' & Hat & _ & _).
  destruct (refresh_moves m.(fds) path it Hw Hk) as (l & Hhit & Hgone).
  rewrite Hat, Hhit, Hfl, Hheap. unfold mbind, M_bind. cbn [deref Z.eqb negb]. unfold mret, M_ret. by rewrite Hgone.
Qed.

Lemma get_file_handler_ready path fd m :
  reuses_freed_block = true → ready path fd m →
  ∃ m', (∀ w, get_file_handler path m w = (Val (Some fd, m'), w)) ∧ ready path fd m' ∧
    m'.(file_handlers) = m.(file_handlers) ∧ m'.(max_fd_num) = m.(max_fd_num).
Proof.
  intros Hheap Hr. destruct (open_ready path fd O_RDWR 436 m Hheap Hr eq_refl) as (m' & Ho & Hr' & Hh & Hmax).
  exists m'. split_and!; [|done..]. intros w. unfold get_file_handler, mbind, M_bind. rewrite Ho.
  destruct Hr as (_ & Hfd & _ & h & Hhd & _). destruct (Z.ltb_spec fd 0); [lia|]. by rewrite Hh, Hhd.
Qed.

(** Where the freed block is reused, opening a cached path yields its descriptor. *)
Lemma open_cached_ok base path flags mode m o w :
  reuses_freed_block = true → fd_inv base m w → spec_find path (abs m.(fds)) = Some o →
  wp (open path flags mode m) (λ '(fd, m') w', fd = data o ∧ fd_inv base m' w' ∧
    abs m'.(fds) = o :: spec_remove path (abs m.(fds)) ∧ m'.(file_handlers) = m.(file_handlers) ∧
    m'.(max_fd_num) = m.(max_fd_num) ∧
    w' = if Z.land flags O_TRUNC =? 0 then w else (sys_ftruncate (data o) 0 w).2) never w.
Proof.
  intros Hheap (Hw & Hm & Ht) Hf. unfold open, Lru.find.
  destruct (lruindex m.(fds) !! path) as [it|] eqn:Hk; [|apply find_iff in Hk; congruence].
  destruct (indexed _ _ _ Hw Hk) as (o' & Ho & Hin & Hko). rewrite (find_Some _ _ _ _ Hw Hin Hko) in Hf.
  injection Hf as ->. rewrite Ho. wp_step. apply wp_ret. wp_step.
  unfold Lru.hit. rewrite Hk. destruct (refresh_ok _ _ _ Hw Hk) as (o2 & it' & l & Hr & Hw' & Hm' & Hf & Ha & _).
  rewrite (find_Some _ _ _ _ Hw Hin Hko) in Hf. injection Hf as <-.
  assert (Hnext : ∀ w', open_fds w' = open_fds w →
    wp ('(_, l) ← deref ('(_, s) ← Lru.refresh path it m.(fds); Some (true, s));
        o ← deref (if reuses_freed_block then snd <$> head (lrulist l) else at_iter it l);
        mret (data o, set_fds l m)) (λ '(fd, m') w2, fd = data o ∧ fd_inv base m' w2 ∧
      abs m'.(fds) = o :: spec_remove path (abs m.(fds)) ∧ m'.(file_handlers) = m.(file_handlers) ∧
      m'.(max_fd_num) = m.(max_fd_num) ∧ w2 = w') never w').
  { intros w' How. rewrite Hr. wp_step. apply wp_ret. wp_step. rewrite Hheap.
    assert (Hh : snd <$> head (lrulist l) = Some o).
    { unfold abs in Ha. destruct (lrulist l) as [|[i x] r]; [done|]. cbn in Ha. injection Ha as -> _. done. }
    rewrite Hh. apply wp_ret. apply wp_ret. cbn [fds set_fds file_handlers max_fd_num].
    split_and!; [done| |done..]. split_and!; [done|cbn; congruence|]. eapply tracks_same; [exact How|].
    unfold cached in *. cbn [fds set_fds]. rewrite Ha. eapply tracks_perm; [|exact Ht].
    destruct (spec_find_perm _ _ _ Hw (find_Some _ _ _ _ Hw Hin Hko)) as [_ Hp]. exact (fmap_Permutation data _ _ Hp). }
  destruct (Z.eqb_spec (Z.land flags O_TRUNC) 0); cbn [negb].
  - apply wp_ret. by apply Hnext.
  - apply wp_extern. apply Hnext. apply ftruncate_fds.
Qed.

(** C37: whatever the system answers, the manager holds exactly the descriptors
    behind its paths, each once: creating, removing, expiring, flushing, closing
    and opening a path not yet cached leak none, close none that is not theirs
    and never use a stale iterator; the path is gone after a creation, removal or
    expiry, and an opened path is cached with its descriptor open, within the
    limit; opening it again yields the same descriptor, where the allocator lets it. The access mode that reaches the system has lost O_WRONLY. *)
Theorem descriptors_tracked base path m w :
  fd_inv base m w →
  (∀ mode, wp (create path mode m) (λ '(e, m') w', fd_inv base m' w' ∧
     (e = 0 → spec_find path (abs m'.(fds)) = None) ∧ (e ≠ 0 → e = -1 ∧ m' = m)) never w) ∧
  wp (remove path m) (λ '(_, m') w', fd_inv base m' w' ∧ spec_find path (abs m'.(fds)) = None) never w ∧
  wp (expire path m) (λ '(fd, m') w', fd_inv base m' w' ∧ spec_find path (abs m'.(fds)) = None ∧
    fd = default (-1) (data <$> spec_find path (abs m.(fds)))) never w ∧
  wp (close path m) (λ '(e, m') w', e = 0 ∧ m' = m ∧ fd_inv base m' w') never w ∧
  (∀ flags mode, spec_find path (abs m.(fds)) = None → 1 ≤ m.(max_fd_num) →
     wp (open path flags mode m) (λ '(fd, m') w', fd_inv base m' w' ∧
       (fd < 0 → m' = m) ∧
       (0 ≤ fd → spec_find path (abs m'.(fds)) = Some (Obj false path fd) ∧ fd ∈ open_fds w' ∧
          Lru.size m'.(fds) ≤ m.(max_fd_num) ∧
          fd = (sys_open (c_str path) (Z.land flags (Z.lnot mask_flags)) mode w).1)) never w) ∧
  (∀ flags mode o, spec_find path (abs m.(fds)) = Some o → reuses_freed_block = true →
     wp (open path flags mode m) (λ '(fd, m') w', fd = data o ∧ fd_inv base m' w' ∧
       spec_find path (abs m'.(fds)) = Some o) never w).
Proof.
  intros Hinv. split_and!.
  - intros mode. by apply create_ok.
  - unfold remove. wp_step. eapply wp_mono; [| |by apply drop_ok]; [|done].
    intros [old m'] w1 (Hinv' & Ha & _). wp_step. eapply extern_fds; [exact Hinv'|apply unlink_fds|].
    intros e w2 Hinv2. apply wp_ret. split; [done|]. by rewrite Ha, spec_find_removed.
  - unfold expire. wp_step. eapply wp_mono; [| |by apply drop_ok]; [|done].
    intros [old m'] w1 (Hinv' & Ha & -> & _). apply wp_ret. split_and!; [done| |done].
    by rewrite Ha, spec_find_removed.
  - unfold close. wp_step. eapply wp_mono; [| |by apply flush_ok]; [|done].
    intros [e m'] w1 (_ & -> & Hi). by apply wp_ret.
  - intros flags mode. by apply open_new_ok.
  - intros flags mode o Hf Hheap. eapply wp_mono; [| |by apply open_cached_ok]; [|done].
    intros [fd m'] w' (-> & Hinv' & Ha & _). split_and!; [done|done|]. rewrite Ha. cbn [spec_find].
    destruct Hinv as (Hw & _). destruct (spec_find_perm _ _ _ Hw Hf) as [Hk _]. by rewrite decide_True.
Qed.

Lemma wp_ub {A} (x : M W A) w : wp x (λ _ _, False) (λ _, True) w → (x w).1 = UB.
Proof. unfold wp. by destruct (x w) as [[a|] w']. Qed.

(** Opening a path that is already cached always uses an iterator to a node
    that is gone: undefined behaviour by the language, whatever the system answers.
    (What it yields where the freed block is reused at once is part of
    [descriptors_tracked].) *)
Theorem cached_open_dangles base path flags mode m w :
  reuses_freed_block = false → fd_inv base m w → spec_find path (abs m.(fds)) ≠ None →
  (open path flags mode m w).1 = UB ∧ (get_file_handler path m w).1 = UB.
Proof.
  intros Hheap (Hw & Hm & Ht) Hf. assert (Hopen : ∀ flags mode, (open path flags mode m w).1 = UB).
  { clear flags mode. intros flags mode. unfold open, Lru.find.
    destruct (lruindex m.(fds) !! path) as [it|] eqn:Hk.
    2: { apply find_iff in Hk; [done|done]. }
    destruct (indexed _ _ _ Hw Hk) as (o & Ho & Hin & Hko). rewrite Ho.
    destruct (refresh_moves m.(fds) path it Hw Hk) as (l & Hhit & Hgone). rewrite Hhit.
    apply wp_ub. wp_step. wp_step. wp_step.
    apply (wp_consequence _ _ (λ _ _, True)); [|intros _ w1 _].
    - destruct (negb _); [by apply wp_extern|by apply wp_ret].
    - wp_step. wp_step. wp_step. rewrite Hheap, Hgone. by wp_step. }
  split; [apply Hopen|]. unfold get_file_handler. specialize (Hopen O_RDWR 436).
  unfold mbind, M_bind. by destruct (open path O_RDWR 436 m w) as [[]].
Qed.
End props.
End FdManager.

(** ** A concrete system

    Two free descriptors, 3 and 4; every file has [fw_head] bytes of data, a hole
    of [fw_gap] bytes and [fw_tail] more bytes of data. *)
Record fworld : Type := FWorld {
  fw_open : gset Z;
  fw_head : N;
  fw_gap : N;
  fw_tail : N;
  fw_attrs : gmap (Z * string) string;
}.
Definition fw_set (o : gset Z) (w : fworld) : fworld := FWorld o (fw_head w) (fw_gap w) (fw_tail w) (fw_attrs w).
Definition cap (n : N) : Z := Z.min (Z.of_N n) (2 ^ 60).
Definition head_end (w : fworld) : Z := cap (fw_head w).
Definition gap_end (w : fworld) : Z := head_end w + cap (fw_gap w).
Definition fw_len (w : fworld) : Z := gap_end w + cap (fw_tail w).
Definition fw_data (w : fworld) (x : Z) : bool :=
  ((0 <=? x) && (x <? head_end w)) || ((gap_end w <=? x) && (x <? fw_len w)).
Definition fw_seek_data (w : fworld) (off : Z) : Z :=
  if off <? head_end w then off
  else if (gap_end w <? fw_len w) && (off <? fw_len w) then Z.max off (gap_end w) else -1.
Definition fw_seek_hole (w : fworld) (off : Z) : Z :=
  if off <? head_end w then (if head_end w <? gap_end w then head_end w else fw_len w)
  else if off <? gap_end w then off else if off <? fw_len w then fw_len w else -1.

#[export] Instance model_posix : Posix fworld := {|
  sys_errno _ := 2;
  sys_open _ _ _ w :=
    if decide (3 ∉ fw_open w) then (3, fw_set ({[3]} ∪ fw_open w) w)
    else if decide (4 ∉ fw_open w) then (4, fw_set ({[4]} ∪ fw_open w) w) else (-1, w);
  sys_close fd w := (0, fw_set (fw_open w ∖ {[fd]}) w);
  sys_ftruncate _ _ w := (0, w);
  sys_fsync _ w := (0, w);
  sys_unlink _ w := (0, w);
  sys_lseek fd off wh w :=
    (if decide (fd ∈ fw_open w) then
       if wh =? SEEK_DATA then fw_seek_data w off else if wh =? SEEK_HOLE then fw_seek_hole w off else fw_len w
     else -1, w);
  sys_fallocate _ _ _ _ w := (0, w);
  sys_fgetxattr fd name _ w :=
    (match fw_attrs w !! (fd, name) with Some v => (CxxString.size v, v) | None => (-1, "") end, w);
  sys_fsetxattr fd name v w :=
    (0, FWorld (fw_open w) (fw_head w) (fw_gap w) (fw_tail w) (<[(fd, name) := v]> (fw_attrs w)));
|}.
#[export] Instance model_roaring : Roaring := {|
  bitmap := string;
  rb_create := "";
  rb_deserialize s := match s with String _ b => Some b | _ => None end;
  rb_serialize b := String "b" b;
  rb_from_range min max step := if max <=? min then None else Some "r";
  rb_add_range_closed b _ _ := b;
|}.
#[export] Instance model_roaring_laws : RoaringLaws.
Proof. split; [done|]. intros b. unfold CxxString.size. cbn. lia. Qed.
#[export] Instance model_xattr : XattrLaws fworld.
Proof.
  refine {| xattr w fd name := fw_attrs w !! (fd, name) |}.
  - intros fd name v w _. cbn. apply lookup_insert_eq.
  - intros fd name n v w Hv _. cbn. by rewrite Hv.
Defined.

Lemma layout_order w : 0 ≤ head_end w ≤ gap_end w ∧ gap_end w ≤ fw_len w < 2 ^ 63.
Proof. unfold fw_len, gap_end, head_end, cap. lia. Qed.
Lemma fw_data_spec w x : fw_data w x = true ↔ 0 ≤ x < head_end w ∨ gap_end w ≤ x < fw_len w.
Proof. unfold fw_data. rewrite orb_true_iff, !andb_true_iff, !Z.leb_le, !Z.ltb_lt. done. Qed.
Lemma fw_data_false w x : ¬ (0 ≤ x < head_end w ∨ gap_end w ≤ x < fw_len w) → fw_data w x = false.
Proof. rewrite <-fw_data_spec. by destruct (fw_data w x). Qed.

#[export] Instance model_posix_laws : PosixLaws fworld.
Proof.
  refine {| open_fds := fw_open; file_len w fd := if decide (fd ∈ fw_open w) then fw_len w else 2 ^ 64 - 1; has_data w _ := fw_data w |}; try done.
  - intros p f m w. cbn. repeat case_decide; [left|left|right]; done.
  - intros w fd Ho. pose proof (layout_order w). rewrite decide_True by done. lia.
  - intros w fd Ho. by rewrite decide_False.
  - intros fd w Ho. cbn. by rewrite !decide_True by done.
  - intros fd off w r Ho Hr Hoff Hne. cbn in *. rewrite decide_True in Hr by done. rewrite decide_True by done. pose proof (layout_order w). unfold fw_seek_data in Hr.
    destruct (Z.ltb_spec off (head_end w)); [|destruct (Z.ltb_spec (gap_end w) (fw_len w)),
      (Z.ltb_spec off (fw_len w)); cbn [andb] in Hr; try congruence]; subst r.
    + split_and!; [lia|lia|apply fw_data_spec; lia|intros; lia].
    + split_and!; [lia|lia|apply fw_data_spec; lia|]. intros x Hx. apply fw_data_false. lia.
  - intros fd off w Ho Hr Hoff x Hx. cbn in *. rewrite decide_True in Hr, Hx by done. pose proof (layout_order w). unfold fw_seek_data in Hr.
    destruct (Z.ltb_spec off (head_end w)); [lia|].
    destruct (Z.ltb_spec (gap_end w) (fw_len w)), (Z.ltb_spec off (fw_len w)); cbn [andb] in Hr; try lia;
      apply fw_data_false; lia.
  - intros fd off w Ho Hoff. cbn in *. rewrite decide_True in Hoff by done. rewrite !decide_True by done. pose proof (layout_order w). unfold fw_seek_hole.
    destruct (Z.ltb_spec off (head_end w)).
    + destruct (Z.ltb_spec (head_end w) (gap_end w)); (split_and!; [lia|lia| |]);
        try (intros; apply fw_data_false; lia); intros; apply fw_data_spec; lia.
    + destruct (Z.ltb_spec off (gap_end w)); [|destruct (Z.ltb_spec off (fw_len w)); [|lia]];
        (split_and!; [lia|lia| |]); try (intros; apply fw_data_false; lia); intros; apply fw_data_spec; lia.
Defined.

(** ** Concrete runs *)
Section witness.
Local Instance strict_heap : Allocator := {| reuses_freed_block := false |}.
Let m0 : FdManager.t := FdManager.init.
Let w0 : fworld := FWorld ∅ 5 3 2 ∅.
(** the same with descriptor 3 open *)
Let w3 : fworld := fw_set {[3]} w0.
Let h0 : HvsFileHandler.t := HvsFileHandler.make 3.
Let b0 : bitmap := "xyz".

Theorem find_holes_exact_witness :
  wp (HvsFileHandler.find_holes_in_range 2 9 h0) (λ r _, ∃ rs, r = Some rs ∧
    HvsFileHandler.runs false (has_data w3 (HvsFileHandler.fd h0)) 2
      (Z.min 9 (file_len w3 (HvsFileHandler.fd h0))) rs) never w3.
Proof. exact (HvsFileHandler.find_holes_exact 2 9 h0 w3 ltac:(lia) ltac:(by vm_compute)). Defined.

Theorem find_data_exact_witness :
  wp (HvsFileHandler.find_data_in_range 2 9 h0) (λ r _, ∃ rs, r = Some rs ∧
    HvsFileHandler.runs true (has_data w3 (HvsFileHandler.fd h0)) 2
      (Z.min 9 (file_len w3 (HvsFileHandler.fd h0))) rs) never w3.
Proof.
  refine (HvsFileHandler.find_data_exact 2 9 h0 w3 _ _); [lia|].
  vm_compute. reflexivity.
Defined.

Theorem bitmap_survives_witness :
  let h := HvsFileHandler.set_bitmap 1 (Some b0) h0 in
  let w := (HvsFileHandler.flush_bitmap 1 h w0).2 in
  (HvsFileHandler.get_bitmap 1 false h0 w).1 = Val (Some b0, HvsFileHandler.mk 3 {[1 := Some b0]} "").
Proof.
  destruct (HvsFileHandler.bitmap_survives 1 b0 (HvsFileHandler.set_bitmap 1 (Some b0) h0) w0) as [Hf Hg];
    [done|apply lookup_insert_eq|by vm_compute|]. cbn zeta. rewrite Hf. by apply Hg.
Defined.

Lemma fd_inv0 : FdManager.fd_inv ∅ m0 w0.
Proof.
  destruct (make_wf (K := string) (V := Z) 0) as [Hw _]. split_and!; [exact Hw|done|].
  change (FdManager.cached m0) with (@nil Z). split_and!; [constructor|set_solver|done].
Qed.

Theorem descriptors_tracked_witness :
  wp (FdManager.open "/a" O_RDWR 436 m0) (λ '(fd, m') w', FdManager.fd_inv ∅ m' w') never w0.
Proof.
  destruct (FdManager.descriptors_tracked ∅ "/a" m0 w0 fd_inv0) as (_ & _ & _ & _ & Hopen & _).
  eapply wp_mono; [| |apply (Hopen O_RDWR 436); done]; [|done]. by intros [fd m'] w' [? _].
Defined.

Let opened_a : FdManager.t * fworld :=
  match FdManager.get_file_handler "/a" m0 w0 with (Val (_, m), w) => (m, w) | (UB, w) => (m0, w) end.

Theorem cached_open_dangles_witness :
  (FdManager.open "/a" O_RDWR 436 opened_a.1 opened_a.2).1 = UB.
Proof.
  apply (FdManager.cached_open_dangles ∅ "/a" O_RDWR 436 opened_a.1 opened_a.2); [done| |by vm_compute].
  unfold opened_a. pose proof (FdManager.open_new_ok ∅ "/a" O_RDWR 436 m0 w0 fd_inv0 eq_refl ltac:(done)) as Ho.
  unfold FdManager.get_file_handler, mbind, M_bind. unfold wp in Ho.
  destruct (FdManager.open "/a" O_RDWR 436 m0 w0) as [[[fd m]|] w]; [|done].
  destruct Ho as [Hinv _]. destruct (fd <? 0); [exact Hinv|]. by destruct (FdManager.file_handlers m !! fd).
Defined.

(** Byte 0, a hole, and one more byte of data at 4 GiB. *)
Let w1 : fworld := FWorld {[3]} 1 (2 ^ 32 - 1) 1 ∅.

(** In a file of more than 4 GiB the search for data may never end: the
    offset where data resumes is cut to 32 bits and leads back to the start, so
    no number of rounds suffices. *)
Theorem find_data_never_ends fuel holes :
  (HvsFileHandler.find_data_loop fuel 3 0 (2 ^ 32 + 1) holes w1).1 = Val None.
Proof.
  revert holes. induction fuel as [|fuel IH]; intros holes; cbn [HvsFileHandler.find_data_loop]; [done|].
  change (0 <? 2 ^ 32 + 1) with true. cbn iota.
  assert (Hs : HvsFileHandler.seek 3 0 SEEK_HOLE w1 = (Val 1, w1)) by by vm_compute.
  assert (Hd : sys_lseek 3 (to_i64 1) SEEK_DATA w1 = (2 ^ 32, w1)) by by vm_compute.
  unfold mbind at 1, M_bind at 1. rewrite Hs. change ((0 <? 1) && (2 ^ 32 + 1 <=? 1)) with false. cbn iota.
  change (0 <? 1) with true. cbn iota. unfold mbind, M_bind, extern. rewrite Hd.
  change (to_u64 (to_i32 (2 ^ 32))) with 0. apply IH.
Qed.

(** The handler of a closed file is handed to the next file that gets its
    descriptor number, with the bitmaps of the first. *)
Theorem handler_outlives_file :
  ('(_, m) ← FdManager.get_file_handler "/a" m0;
   let h := HvsFileHandler.set_bitmap 1 (Some b0) (default h0 (FdManager.file_handlers m !! 3)) in
   let m := FdManager.mk (FdManager.fds m) (<[3 := h]> (FdManager.file_handlers m)) (FdManager.max_fd_num m) in
   '(_, m) ← FdManager.expire "/a" m;
   '(fd, m) ← FdManager.get_file_handler "/b" m;
   mret (fd, (FdManager.file_handlers m !! 3) ≫= λ h, HvsFileHandler.bitmaps h !! 1) : M fworld _) w0
  = (Val (Some 3, Some (Some b0)), fw_set {[3]} w0).
Proof. vm_compute. done. Qed.
End witness.
