(* ===== verification/Op.v ===== *)
(** * Requests and replies of the I/O proxy (common/pb/op.proto)

    The messages the clients and the proxies exchange, the file system calls the
    request handlers make ([Fs], in addition to those of FdManager.v), paths of
    [std::experimental::filesystem], and [ProxyOP::get_attr], which the request
    handlers (ProxyOp.v) and the replication (Replica.v) share. *)
From S2P Require Import Prelude CxxString Lru FdManager.

(** ** Messages *)

Module OpType.
Inductive t : Type :=
| statfs | getattr | rename | access | utimens | lock
| setxattr | getxattr | listxattr | removexattr
| chmod | chown
| truncate | open | read | write | flush | release | fsync | create | write_buf | read_buf
| fallocate | flock
| mkdir | rmdir | opendir | readdir | releasedir | fsyncdir
| readlink | unlink | symlink | link
| bmap | ioctl | poll
| rep_init_space | rep_remove_space | rep_update_index | rep_sync_data
(** proto3 keeps the numbers it does not know *)
| unknown_type (n : Z).
#[global] Instance t_eq_dec : EqDecision t.
Proof. solve_decision. Defined.
End OpType.

Inductive NodeType : Type := RegularFile | Directory | Link.
#[export] Instance NodeType_eq_dec : EqDecision NodeType.
Proof. solve_decision. Defined.

Module Attr.
Record t : Type := mk {
  size : Z;
  type : NodeType;
  permission : Z;
  ctime : Z;
  mtime : Z;
}.
Definition init : t := mk 0 RegularFile 0 0 0.
End Attr.

Module IOParam.
Record t : Type := mk {
  offset : Z;
  size : Z;
}.
End IOParam.

Module OpRequest.
Inductive additional_param : Type :=
| no_param
| noadditional (b : bool)
| newpath_param (s : string)
| xattr_param (s : string)
| io_param_case (p : IOParam.t).

Record t : Type := mk {
  id : Z;
  filepath : string;
  type : OpType.t;
  extra : string;
  additional : additional_param;
  mode : Z;
  size : Z;
  data : string;
}.
Definition init : t := mk 0 "" OpType.statfs "" no_param 0 0 "".

(** The getters of a [oneof]: the default value when another case is set. *)
Definition newpath (r : t) : string := match r.(additional) with newpath_param s => s | _ => "" end.
Definition xattr_name (r : t) : string := match r.(additional) with xattr_param s => s | _ => "" end.
Definition io_param (r : t) : IOParam.t := match r.(additional) with io_param_case p => p | _ => IOParam.mk 0 0 end.

Definition set_type (v : OpType.t) (r : t) : t :=
  mk r.(id) r.(filepath) v r.(extra) r.(additional) r.(mode) r.(size) r.(data).
Definition set_extra (v : string) (r : t) : t :=
  mk r.(id) r.(filepath) r.(type) v r.(additional) r.(mode) r.(size) r.(data).
Definition set_data (v : string) (r : t) : t :=
  mk r.(id) r.(filepath) r.(type) r.(extra) r.(additional) r.(mode) r.(size) v.
End OpRequest.

Module OpReply.
Inductive additional_result : Type :=
| no_result
| noadditional (b : bool)
| data_result (s : string)
| attr_result (a : Attr.t).

Record t : Type := mk {
  id : Z;
  err_code : Z;
  additional : additional_result;
  entry_names : list string;
  entries : list Attr.t;
  io_params : list IOParam.t;
}.
Definition init : t := mk 0 0 no_result [] [] [].

Definition data (r : t) : string := match r.(additional) with data_result s => s | _ => "" end.

Definition set_id (v : Z) (r : t) : t :=
  mk v r.(err_code) r.(additional) r.(entry_names) r.(entries) r.(io_params).
(** [err_code] is an [int32]. *)
Definition set_err_code (v : Z) (r : t) : t :=
  mk r.(id) (to_i32 v) r.(additional) r.(entry_names) r.(entries) r.(io_params).
Definition set_data (v : string) (r : t) : t :=
  mk r.(id) r.(err_code) (data_result v) r.(entry_names) r.(entries) r.(io_params).
Definition set_attr (v : Attr.t) (r : t) : t :=
  mk r.(id) r.(err_code) (attr_result v) r.(entry_names) r.(entries) r.(io_params).
Definition add_entry (name : string) (a : Attr.t) (r : t) : t :=
  mk r.(id) r.(err_code) r.(additional) (r.(entry_names) ++ [name]) (r.(entries) ++ [a]) r.(io_params).
Definition add_io_param (p : IOParam.t) (r : t) : t :=
  mk r.(id) r.(err_code) r.(additional) r.(entry_names) r.(entries) (r.(io_params) ++ [p]).
End OpReply.

(** ** Paths *)

Definition is_sep (c : ascii) : bool := Ascii.eqb c "/".
Fixpoint last_char (s : string) : option ascii :=
  match s with
  | "" => None
  | String c "" => Some c
  | String _ s => last_char s
  end.
(** [a / b]: a separator is added unless one of the two is empty or one is there
    already. *)
Definition path_append (a b : string) : string :=
  match last_char a, b with
  | Some c, String d _ => if is_sep c || is_sep d then a +:+ b else a +:+ "/" +:+ b
  | _, _ => a +:+ b
  end.
Infix "/+" := path_append (at level 40, left associativity).

(** [*path.begin()]: the root directory, or what comes before the first
    separator; the empty path has no element. *)
Definition path_begin (p : string) : option string :=
  match p with
  | "" => None
  | String c _ =>
      if is_sep c then Some "/"
      else Some (match find_char "/" p with Some i => substr 0 i p | None => p end)
  end.

(** ** File system calls *)

(** What the code reads of [struct stat]. *)
Record stat_buf : Type := StatBuf {
  st_mode : Z;
  st_size : Z;
  st_mtime : Z;
  st_ctime : Z;
}.
Definition S_IFMT : Z := 61440.
Definition S_IFLNK : Z := 40960.
Definition S_IFREG : Z := 32768.
Definition S_IFDIR : Z := 16384.
Definition AT_SYMLINK_NOFOLLOW : Z := 256.
Definition XATTR_CREATE : Z := 1.
Definition EEXIST : Z := 17.
Definition EBADF : Z := 9.
Definition ENXIO : Z := 6.
Definition EMLINK : Z := 31.

(** The calls named [sys_] return what the C function returns; the functions of
    [std::filesystem] return the value of their error code. A directory stream is
    the list of the names [readdir] has still to deliver. *)
Class Fs (W : Type) `{Posix W} : Type := {
  sys_stat : string → W → (Z * stat_buf) * W;
  fs_rename : string → string → W → Z * W;
  fs_permissions : string → Z → W → Z * W;
  fs_resize_file : string → Z → W → Z * W;
  fs_create_directory : string → W → Z * W;
  fs_remove : string → W → Z * W;
  sys_utimensat : string → (Z * Z) → (Z * Z) → Z → W → Z * W;
  sys_opendir : string → W → option (list string) * W;
  sys_closedir_null : W → Z * W;
  sys_pread : Z → Z → Z → W → (Z * string) * W;
  sys_pwrite : Z → string → Z → W → Z * W;
  sys_setxattr : string → string → string → Z → W → Z * W;
  sys_getxattr : string → string → Z → W → (Z * string) * W;
  sys_listxattr : string → Z → W → (Z * string) * W;
  sys_removexattr : string → string → W → Z * W;
  sys_mkdir : string → Z → W → Z * W;
  sys_creat : string → Z → W → Z * W;
  sys_truncate : string → Z → W → Z * W;
}.

Section calls.
Context {W : Type} `{Posix W, !Fs W}.

Definition errno : M W Z := extern (λ w, (sys_errno w, w)).

(** The [n] bytes at [p.c_str() + pos]: the terminating NUL can be read, what
    follows it cannot. *)
Definition bytes_of (p : string) (pos n : Z) : M W string :=
  if (0 <=? pos) && (pos + n <=? CxxString.size p + 1)
  then mret (substr (Z.to_nat pos) (Z.to_nat n) (p +:+ String zero ""))
  else undefined.

(** [ProxyOP::get_attr]: the error, or the attributes. Devices and sockets keep
    the default type, a regular file. *)
Definition get_attr (path : string) : M W (Z * Attr.t) :=
  '(err, st) ← extern (sys_stat (c_str path));
  if err =? -1 then e ← errno; mret (- e, Attr.init)
  else
    let fmt := Z.land st.(st_mode) S_IFMT in
    mret (0, Attr.mk (to_u64 st.(st_size))
      (if fmt =? S_IFDIR then Directory else if fmt =? S_IFREG then RegularFile
       else if fmt =? S_IFLNK then Link else RegularFile)
      (to_i32 st.(st_mode)) (to_u64 st.(st_ctime)) (to_u64 st.(st_mtime))).
End calls.
