(* ===== verification/Files.v ===== *)
(** * File contents

    [FaultFreeDisk] adds to [PosixLaws] (FdManager.v) what reading, writing, extending
    and punching holes do to the bytes of a file and to its holes, for a regular
    file on a local disk without faults, that is not full and whose calls no signal
    interrupts: a read yields what is there, a write takes the whole range, an
    extension and a punched hole succeed. POSIX allows all of these to fall short,
    so [FaultFreeDisk] is a hypothesis of the theorems that mention file contents,
    and each of them names it. A hole is a run of whole pages that were never
    written or were punched; it reads as zeros. [mem] is a file system in memory
    that satisfies the laws: the concrete runs of the proxy use it. *)
From S2P Require Import Prelude CxxString Lru FdManager Op.

Notation page_size := HvsFileHandler.page_size.
Definition page_of (x : Z) : Z := x / page_size.

(** Byte [i] of a string that is read as a buffer. *)
Definition byte_at (s : string) (i : Z) : ascii := default zero (String.get (Z.to_nat i) s).

Section laws.
Context (W : Type) `{!Posix W, !PosixLaws W, !Fs W}.

Class FaultFreeDisk : Type := {
  content : W → Z → Z → ascii;
  (** a regular file open for reading and writing, on a disk without faults *)
  live : W → Z → Prop;
  live_open w fd : live w fd → fd ∈ open_fds w;
  (** the attribute of a replicated space *)
  centres : W → string → option string;
  getxattr_centres p w v : centres w p = Some v → CxxString.size v ≤ 256 →
    (sys_getxattr p HvsFileHandler.centers_name 256 w).1 = (CxxString.size v, v);
  data_inside w fd x : has_data w fd x = true → 0 ≤ x < file_len w fd;
  data_pages w fd x y : page_of x = page_of y → 0 ≤ x < file_len w fd → 0 ≤ y < file_len w fd →
    has_data w fd x = has_data w fd y;
  content_hole w fd x : has_data w fd x = false → content w fd x = zero;
  lseek_files fd off wh w : let w' := (sys_lseek fd off wh w).2 in
    (∀ x, content w' fd x = content w fd x) ∧ (live w fd → live w' fd) ∧ (∀ p, centres w' p = centres w p);
  pread_ok fd n off w : live w fd → 0 ≤ n → 0 ≤ off →
    let '((r, bytes), w') := sys_pread fd n off w in
    r = Z.min n (Z.max 0 (file_len w fd - off)) ∧ CxxString.size bytes = r ∧
    (∀ i, 0 ≤ i < r → byte_at bytes i = content w fd (off + i)) ∧
    live w' fd ∧ file_len w' fd = file_len w fd ∧
    (∀ x, has_data w' fd x = has_data w fd x) ∧ (∀ x, content w' fd x = content w fd x) ∧
    (∀ p, centres w' p = centres w p);
  pwrite_ok fd s off w : live w fd → 0 ≤ off → 0 < CxxString.size s → off + CxxString.size s < 2 ^ 63 →
    let n := CxxString.size s in
    let '(r, w') := sys_pwrite fd s off w in
    r = n ∧ live w' fd ∧ file_len w' fd = Z.max (file_len w fd) (off + n) ∧
    (∀ x, content w' fd x = if (off <=? x) && (x <? off + n) then byte_at s (x - off) else content w fd x) ∧
    (∀ x, off ≤ x < off + n → has_data w' fd x = true) ∧
    (∀ x, has_data w fd x = true → has_data w' fd x = true) ∧
    (∀ x, 0 ≤ x < file_len w fd → page_of x < page_of off ∨ page_of (off + n - 1) < page_of x →
       has_data w' fd x = has_data w fd x) ∧
    (∀ p, centres w' p = centres w p);
  ftruncate_ok fd n w : live w fd → file_len w fd ≤ n < 2 ^ 63 →
    let w' := (sys_ftruncate fd n w).2 in
    live w' fd ∧ file_len w' fd = n ∧ (∀ x, content w' fd x = content w fd x) ∧
    (∀ x, 0 ≤ x < file_len w fd → has_data w' fd x = has_data w fd x) ∧
    (∀ p, centres w' p = centres w p);
  punch_ok fd off n w : live w fd → 0 ≤ off → 0 < n → off + n < 2 ^ 63 →
    off mod page_size = 0 → n mod page_size = 0 →
    let '(r, w') := sys_fallocate fd (Z.lor FALLOC_FL_PUNCH_HOLE FALLOC_FL_KEEP_SIZE) off n w in
    r = 0 ∧ live w' fd ∧ file_len w' fd = file_len w fd ∧
    (∀ x, content w' fd x = if (off <=? x) && (x <? off + n) then zero else content w fd x) ∧
    (∀ x, has_data w' fd x = if (off <=? x) && (x <? off + n) then false else has_data w fd x) ∧
    (∀ p, centres w' p = centres w p);
  (** extended attributes do not touch the contents *)
  attr_files w w' : Prop :=
    (∀ fd, file_len w' fd = file_len w fd ∧ (live w fd → live w' fd) ∧
      (∀ x, has_data w' fd x = has_data w fd x) ∧ (∀ x, content w' fd x = content w fd x)) ∧
    (∀ p, centres w' p = centres w p);
  fgetxattr_files fd name n w : attr_files w (sys_fgetxattr fd name n w).2;
  fsetxattr_files fd name v w : name ≠ HvsFileHandler.centers_name → attr_files w (sys_fsetxattr fd name v w).2;
  getxattr_files p name n w : attr_files w (sys_getxattr p name n w).2;
}.
End laws.
Arguments content {W _ _ _ _} _ _ _.
Arguments live {W _ _ _ _} _ _.
Arguments centres {W _ _ _ _} _ _.
Arguments attr_files {W _ _ _ _} _ _.

(** ** A file system in memory *)

Record file : Type := File {
  f_len : N;
  f_pages : gset Z;
  f_bytes : gmap Z ascii;
}.
Definition empty_file : file := File 0 ∅ ∅.

(** Lengths stay below 2^63. *)
Definition f_size (f : file) : Z := Z.min (Z.of_N (f_len f)) (2 ^ 63 - 1).
Definition f_data (f : file) (x : Z) : bool :=
  (0 <=? x) && (x <? f_size f) && bool_decide (page_of x ∈ f_pages f).
Definition f_content (f : file) (x : Z) : ascii :=
  if f_data f x then default zero (f_bytes f !! x) else zero.
(** The bytes that are data. *)
Definition live_bytes (f : file) : gmap Z ascii := filter (λ kv, f_data f kv.1 = true) (f_bytes f).

Fixpoint string_map (s : string) (off : Z) : gmap Z ascii :=
  match s with "" => ∅ | String c s => <[off := c]> (string_map s (off + 1)) end.
Definition pages_between (a b : Z) : gset Z := list_to_set (seqZ (page_of a) (page_of b - page_of a + 1)).

Definition f_write (off : Z) (s : string) (f : file) : file :=
  let n := CxxString.size s in
  if n =? 0 then f
  else File (Z.to_N (Z.max (f_size f) (off + n))) (pages_between off (off + n - 1) ∪ f_pages f)
         (string_map s off ∪ live_bytes f).
(** The pages of what is cut off are dropped. *)
Definition f_truncate (n : Z) (f : file) : file :=
  let n := Z.max 0 n in
  File (Z.to_N n) (filter (λ p, p * page_size < n) (f_pages f))
    (filter (λ kv, kv.1 < n) (live_bytes f)).
(** Whole pages. *)
Definition f_punch (off n : Z) (f : file) : file :=
  File (f_len f) (filter (λ p, ¬ (off ≤ p * page_size < off + n)) (f_pages f)) (live_bytes f).
Fixpoint f_read (off : Z) (n : nat) (f : file) : string :=
  match n with
  | 0%nat => ""
  | S n => String (f_content f off) (f_read (off + 1) n f)
  end.

(** The first of [n] positions from [off] that satisfies [p]. *)
Fixpoint scan (p : Z → bool) (off : Z) (n : nat) : option Z :=
  match n with
  | 0%nat => None
  | S n => if p off then Some off else scan p (off + 1) n
  end.

Record mem : Type := Mem {
  m_next : Z;
  m_fds : gmap Z string;
  m_files : gmap string file;
  m_dirs : gmap string (list string);
  m_attrs : gmap (string * string) string;
  m_errno : Z;
}.
Definition mem_init : mem := Mem 3 ∅ ∅ ∅ ∅ 0.
Definition set_file (p : string) (f : file) (w : mem) : mem :=
  Mem (m_next w) (m_fds w) (<[p := f]> (m_files w)) (m_dirs w) (m_attrs w) (m_errno w).
Definition set_attrs (a : gmap (string * string) string) (w : mem) : mem :=
  Mem (m_next w) (m_fds w) (m_files w) (m_dirs w) a (m_errno w).
Definition fail {A} (e : Z) (a : A) (w : mem) : A * mem :=
  (a, Mem (m_next w) (m_fds w) (m_files w) (m_dirs w) (m_attrs w) e).

Definition fd_file (w : mem) (fd : Z) : option (string * file) :=
  p ← m_fds w !! fd; f ← m_files w !! p; Some (p, f).
Definition fd_len (w : mem) (fd : Z) : Z := match fd_file w fd with Some (_, f) => f_size f | None => 0 end.
Definition fd_data (w : mem) (fd x : Z) : bool := match fd_file w fd with Some (_, f) => f_data f x | None => false end.
Definition fd_content (w : mem) (fd x : Z) : ascii := match fd_file w fd with Some (_, f) => f_content f x | None => zero end.

Definition mem_open (p : string) (flags : Z) (w : mem) : Z * mem :=
  let make := negb (Z.land flags O_CREAT =? 0) in
  match m_files w !! p with
  | None => if make then
              if decide (0 ≤ m_next w ∧ m_next w ∉ dom (m_fds w))
              then (m_next w, Mem (m_next w + 1) (<[m_next w := p]> (m_fds w)) (<[p := empty_file]> (m_files w))
                                (m_dirs w) (m_attrs w) (m_errno w))
              else fail 24 (-1) w
            else fail ENOENT (-1) w
  | Some _ => if decide (0 ≤ m_next w ∧ m_next w ∉ dom (m_fds w))
              then (m_next w, Mem (m_next w + 1) (<[m_next w := p]> (m_fds w)) (m_files w)
                                (m_dirs w) (m_attrs w) (m_errno w))
              else fail 24 (-1) w
  end.
Definition mem_lseek (fd off wh : Z) (w : mem) : Z * mem :=
  let len := fd_len w fd in
  if decide (fd ∉ dom (m_fds w)) then fail EBADF (-1) w else
  (if wh =? SEEK_DATA then default (-1) (scan (fd_data w fd) off (Z.to_nat (len - off)))
   else if wh =? SEEK_HOLE then
     if off <? len then default len (scan (λ x, negb (fd_data w fd x)) off (Z.to_nat (len - off))) else -1
   else len, w).
Definition on_fd (fd : Z) (g : file → file) (r : Z) (w : mem) : Z * mem :=
  match fd_file w fd with
  | Some (p, f) => (r, set_file p (g f) w)
  | None => fail EBADF (-1) w
  end.
Definition mem_attr (p name : string) (w : mem) : Z * string :=
  match m_attrs w !! (p, name) with Some v => (CxxString.size v, v) | None => (-1, "") end.
Definition fd_path (w : mem) (fd : Z) : string := default "" (m_fds w !! fd).

#[export] Instance mem_posix : Posix mem := {|
  sys_errno w := Z.max 1 (m_errno w);
  sys_open p flags _ w := mem_open p flags w;
  sys_close fd w := (0, Mem (m_next w) (delete fd (m_fds w)) (m_files w) (m_dirs w) (m_attrs w) (m_errno w));
  sys_ftruncate fd n w := on_fd fd (f_truncate n) 0 w;
  sys_fsync _ w := (0, w);
  sys_unlink p w := (0, Mem (m_next w) (m_fds w) (delete p (m_files w)) (m_dirs w) (m_attrs w) (m_errno w));
  sys_lseek fd off wh w := mem_lseek fd off wh w;
  sys_fallocate fd mode off n w :=
    if (mode =? Z.lor FALLOC_FL_PUNCH_HOLE FALLOC_FL_KEEP_SIZE) && (0 <=? off) && (0 <? n)
    then on_fd fd (f_punch off n) 0 w else fail EINVAL (-1) w;
  sys_fgetxattr fd name _ w := (mem_attr (fd_path w fd) name w, w);
  sys_fsetxattr fd name v w := (0, set_attrs (<[(fd_path w fd, name) := v]> (m_attrs w)) w);
|}.

#[export] Instance mem_fs : Fs mem := {|
  sys_stat p w :=
    match m_files w !! p with
    | Some f => ((0, StatBuf S_IFREG (f_size f) 0 0), w)
    | None => match m_dirs w !! p with
              | Some _ => ((0, StatBuf S_IFDIR 0 0 0), w)
              | None => fail ENOENT (-1, StatBuf 0 0 0 0) w
              end
    end;
  fs_rename _ _ w := (0, w);
  fs_permissions _ _ w := (0, w);
  fs_resize_file p n w :=
    match m_files w !! p with
    | Some f => (0, set_file p (f_truncate n f) w)
    | None => (ENOENT, w)
    end;
  fs_create_directory _ w := (0, w);
  fs_remove _ w := (0, w);
  sys_utimensat _ _ _ _ w := (0, w);
  sys_opendir p w := (m_dirs w !! p, w);
  sys_closedir_null w := fail EINVAL (-1) w;
  sys_pread fd n off w :=
    match fd_file w fd with
    | Some (_, f) => let k := Z.min n (Z.max 0 (f_size f - off)) in ((k, f_read off (Z.to_nat k) f), w)
    | None => fail EBADF (-1, "") w
    end;
  sys_pwrite fd s off w := on_fd fd (f_write off s) (CxxString.size s) w;
  sys_setxattr p name v _ w := (0, set_attrs (<[(p, name) := v]> (m_attrs w)) w);
  sys_getxattr p name _ w := (mem_attr p name w, w);
  sys_listxattr _ _ w := ((0, ""), w);
  sys_removexattr p name w := (0, set_attrs (delete (p, name) (m_attrs w)) w);
  sys_mkdir p _ w := (0, Mem (m_next w) (m_fds w) (m_files w) (<[p := []]> (m_dirs w)) (m_attrs w) (m_errno w));
  sys_creat p _ w :=
    let '(fd, w) := mem_open p O_CREAT w in
    (fd, if fd =? -1 then w else set_file p empty_file w);
  sys_truncate p n w :=
    match m_files w !! p with
    | Some f => (0, set_file p (f_truncate n f) w)
    | None => fail ENOENT (-1) w
    end;
|}.

(** *** It satisfies the laws *)

Lemma f_size_range f : 0 ≤ f_size f < 2 ^ 63.
Proof. unfold f_size. lia. Qed.

Lemma f_data_spec f x : f_data f x = true ↔ 0 ≤ x < f_size f ∧ page_of x ∈ f_pages f.
Proof. unfold f_data. rewrite !andb_true_iff, bool_decide_eq_true, Z.leb_le, Z.ltb_lt. tauto. Qed.

Lemma scan_Some p off n r : scan p off n = Some r →
  off ≤ r < off + Z.of_nat n ∧ p r = true ∧ ∀ x, off ≤ x < r → p x = false.
Proof.
  revert off. induction n as [|n IH]; intros off; cbn [scan]; [done|]. destruct (p off) eqn:Hp.
  - intros [= <-]. split_and!; [lia..|done|]. intros. lia.
  - intros (Hr & Hpr & Hx)%IH. split_and!; [lia..|done|]. intros x Hx'.
    destruct (decide (x = off)) as [->|]; [done|]. apply Hx. lia.
Qed.
Lemma scan_None p off n : scan p off n = None → ∀ x, off ≤ x < off + Z.of_nat n → p x = false.
Proof.
  revert off. induction n as [|n IH]; intros off; cbn [scan]; [lia|]. destruct (p off) eqn:Hp; [done|].
  intros Hn x Hx. destruct (decide (x = off)) as [->|]; [done|]. apply (IH _ Hn). lia.
Qed.

Lemma fd_len_range w fd : 0 ≤ fd_len w fd < 2 ^ 63.
Proof. unfold fd_len. destruct (fd_file w fd) as [[p f]|]; [apply f_size_range|lia]. Qed.

Lemma mem_open_result p flags w : let '(fd, w') := mem_open p flags w in
  (0 ≤ fd ∧ fd ∉ dom (m_fds w) ∧ dom (m_fds w') = {[fd]} ∪ dom (m_fds w)) ∨
  (fd = -1 ∧ 0 < Z.max 1 (m_errno w') ∧ dom (m_fds w') = dom (m_fds w)).
Proof.
  unfold mem_open, fail. repeat case_match; destruct_and?; simplify_eq;
    first [right; split_and!; [done|lia|done]|left; split_and!; [done..|apply dom_insert_L]].
Qed.

(** What a descriptor that is not open is said to have is a convention of the laws. *)
Definition mem_len (w : mem) (fd : Z) : Z := if decide (fd ∈ dom (m_fds w)) then fd_len w fd else 2 ^ 64 - 1.

Lemma mem_len_live w fd p f : fd_file w fd = Some (p, f) → mem_len w fd = f_size f ∧ fd ∈ dom (m_fds w).
Proof.
  intros Hf. assert (Hd : fd ∈ dom (m_fds w)).
  { apply elem_of_dom. unfold fd_file in Hf. by destruct (m_fds w !! fd). }
  unfold mem_len, fd_len. by rewrite decide_True, Hf.
Qed.

Lemma mem_lseek_open fd off wh w : fd ∈ dom (m_fds w) → (mem_lseek fd off wh w).1 =
  (let len := mem_len w fd in
   if wh =? SEEK_DATA then default (-1) (scan (fd_data w fd) off (Z.to_nat (len - off)))
   else if wh =? SEEK_HOLE then
     if off <? len then default len (scan (λ x, negb (fd_data w fd x)) off (Z.to_nat (len - off))) else -1
   else len).
Proof. intros Hd. unfold mem_lseek, mem_len. by rewrite decide_False, decide_True by tauto. Qed.

(** Seeking changes the error number at most. *)
Lemma mem_lseek_errno fd off wh w : ∃ e, (mem_lseek fd off wh w).2 =
  Mem (m_next w) (m_fds w) (m_files w) (m_dirs w) (m_attrs w) e.
Proof.
  unfold mem_lseek, fail. case_decide; [by eexists|]. exists (m_errno w). by destruct w.
Qed.

#[export] Instance mem_posix_laws : PosixLaws mem.
Proof.
  refine {| open_fds w := dom (m_fds w); file_len := mem_len; has_data := fd_data |}; try done.
  - intros p f m w. apply mem_open_result.
  - intros fd w. cbn. apply dom_delete_L.
  - intros fd n w. cbn. unfold on_fd, fail. by destruct (fd_file w fd) as [[]|].
  - intros fd off wh w. cbn. by destruct (mem_lseek_errno fd off wh w) as [e ->].
  - intros w fd Hd. unfold mem_len. rewrite decide_True by done. apply fd_len_range.
  - intros w fd Hd. unfold mem_len. by rewrite decide_False.
  - intros fd off wh w fd'. cbn. by destruct (mem_lseek_errno fd off wh w) as [e ->].
  - intros fd off wh w fd' x. cbn. by destruct (mem_lseek_errno fd off wh w) as [e ->].
  - intros fd w Hd. cbn [sys_lseek mem_posix]. by rewrite mem_lseek_open.
  - intros fd off w r Hd Hr Hoff Hne. cbn [sys_lseek mem_posix] in Hr. rewrite mem_lseek_open in Hr by done. cbn in Hr.
    destruct (scan _ _ _) as [x|] eqn:Hs; [|by subst]. cbn in Hr. subst x. apply scan_Some in Hs as (Hr & Hp & Hx).
    destruct (decide (off < mem_len w fd)); [|lia]. split_and!; [lia|lia|done|done].
  - intros fd off w Hd Hr Hoff x Hx. cbn [sys_lseek mem_posix] in Hr. rewrite mem_lseek_open in Hr by done. cbn in Hr.
    destruct (scan _ _ _) as [y|] eqn:Hs.
    + apply scan_Some in Hs. cbn in Hr. lia.
    + eapply scan_None; [exact Hs|]. lia.
  - intros fd off w Hd Hoff. cbn [sys_lseek mem_posix]. rewrite mem_lseek_open by done. cbn.
    destruct (Z.ltb_spec off (mem_len w fd)); [|lia]. destruct (scan _ _ _) as [y|] eqn:Hs; cbn.
    + apply scan_Some in Hs as (Hr & Hp & Hx). split_and!; [lia..| |].
      * intros _. by apply negb_true_iff.
      * intros x Hx'. by apply negb_false_iff, Hx.
    + split_and!; [lia..|lia|]. intros x Hx. apply negb_false_iff. apply (scan_None _ _ _ Hs). lia.
Defined.

Lemma string_map_lookup s off x :
  string_map s off !! x = if (off <=? x) && (x <? off + CxxString.size s) then Some (byte_at s (x - off)) else None.
Proof.
  unfold CxxString.size. revert off. induction s as [|c s IH]; intros off; cbn [string_map String.length].
  { rewrite lookup_empty. destruct (Z.leb_spec off x), (Z.ltb_spec x (off + Z.of_nat 0)); cbn; done || lia. }
  destruct (decide (x = off)) as [->|Hne].
  - rewrite lookup_insert_eq. destruct (Z.leb_spec off off), (Z.ltb_spec off (off + Z.of_nat (S (String.length s)))); try lia.
    cbn. by rewrite Z.sub_diag.
  - rewrite lookup_insert_ne by done. rewrite IH.
    destruct (Z.leb_spec (off + 1) x), (Z.leb_spec off x), (Z.ltb_spec x (off + 1 + Z.of_nat (String.length s))),
      (Z.ltb_spec x (off + Z.of_nat (S (String.length s)))); cbn [andb]; try done; try lia.
    unfold byte_at. replace (Z.to_nat (x - off)) with (S (Z.to_nat (x - (off + 1)))) by lia. done.
Qed.

Lemma live_bytes_lookup f x : default zero (live_bytes f !! x) = f_content f x.
Proof.
  unfold live_bytes, f_content. destruct (f_bytes f !! x) as [c|] eqn:Hx.
  - destruct (f_data f x) eqn:Hd.
    + by rewrite (map_lookup_filter_Some_2 _ _ _ c).
    + rewrite map_lookup_filter_None_2; [done|]. right. intros y _. cbn. congruence.
  - rewrite map_lookup_filter_None_2 by (by left). by destruct (f_data f x).
Qed.

Lemma pages_between_spec a b p : p ∈ pages_between a b ↔ page_of a ≤ p ≤ page_of b.
Proof. unfold pages_between. rewrite elem_of_list_to_set, elem_of_seqZ. lia. Qed.

Lemma page_of_mono a b : a ≤ b → page_of a ≤ page_of b.
Proof. intros. unfold page_of, page_size. apply Z.div_le_mono; lia. Qed.

Lemma f_write_size off s f : 0 ≤ off → 0 < CxxString.size s → off + CxxString.size s < 2 ^ 63 →
  f_size (f_write off s f) = Z.max (f_size f) (off + CxxString.size s).
Proof.
  intros. unfold f_write. destruct (Z.eqb_spec (CxxString.size s) 0); [lia|].
  unfold f_size at 1. cbn [f_len]. pose proof (f_size_range f). lia.
Qed.

Lemma f_write_data off s f x : 0 ≤ off → 0 < CxxString.size s → off + CxxString.size s < 2 ^ 63 →
  f_data (f_write off s f) x = true ↔
  0 ≤ x < Z.max (f_size f) (off + CxxString.size s) ∧
  (page_of off ≤ page_of x ≤ page_of (off + CxxString.size s - 1) ∨ page_of x ∈ f_pages f).
Proof.
  intros Ho Hs Hm. rewrite f_data_spec, f_write_size by done. unfold f_write.
  destruct (Z.eqb_spec (CxxString.size s) 0); [lia|]. cbn [f_pages].
  by rewrite elem_of_union, pages_between_spec.
Qed.

Lemma f_write_content off s f x : 0 ≤ off → 0 < CxxString.size s → off + CxxString.size s < 2 ^ 63 →
  f_content (f_write off s f) x =
  if (off <=? x) && (x <? off + CxxString.size s) then byte_at s (x - off) else f_content f x.
Proof.
  intros Ho Hs Hm. unfold f_content at 1. pose proof (f_write_data off s f x Ho Hs Hm) as Hd.
  assert (Hb : f_bytes (f_write off s f) = string_map s off ∪ live_bytes f).
  { unfold f_write. destruct (Z.eqb_spec (CxxString.size s) 0); [lia|done]. }
  rewrite Hb, lookup_union, string_map_lookup.
  destruct (Z.leb_spec off x) as [H1|H1], (Z.ltb_spec x (off + CxxString.size s)) as [H2|H2]; cbn [andb].
  1: { destruct (f_data (f_write off s f) x) eqn:Hx; [by destruct (live_bytes f !! x)|].
       exfalso. assert (f_data (f_write off s f) x = true); [|congruence]. apply f_write_data; try done.
       split; [lia|left]. split; apply page_of_mono; lia. }
  all: rewrite (left_id_L None _), live_bytes_lookup;
    destruct (f_data (f_write off s f) x) eqn:Hx; [done|]; unfold f_content;
    destruct (f_data f x) eqn:Hf; [|done]; exfalso; apply f_data_spec in Hf as [Hf1 Hf2];
    assert (f_data (f_write off s f) x = true); [|congruence]; apply f_write_data; try done;
    (split; [lia|by right]).
Qed.

Lemma f_truncate_size n f : f_size f ≤ n < 2 ^ 63 → f_size (f_truncate n f) = n.
Proof. intros. pose proof (f_size_range f). unfold f_truncate, f_size. cbn [f_len]. lia. Qed.

Lemma page_of_below x n : 0 ≤ x < n → page_of x * page_size < n.
Proof. intros. unfold page_of, page_size. pose proof (Z.mul_div_le x (2 ^ 12)). lia. Qed.

Lemma f_truncate_data n f x : f_size f ≤ n < 2 ^ 63 → 0 ≤ x < f_size f →
  f_data (f_truncate n f) x = f_data f x.
Proof.
  intros Hn Hx. apply eq_true_iff_eq. rewrite !f_data_spec, f_truncate_size by done.
  unfold f_truncate. cbn [f_pages]. rewrite elem_of_filter, Z.max_r by lia.
  split; [naive_solver lia|]. intros [? ?]. split_and!; [lia..| |done]. apply page_of_below. lia.
Qed.

Lemma f_truncate_content n f x : f_size f ≤ n < 2 ^ 63 → f_content (f_truncate n f) x = f_content f x.
Proof.
  intros Hn. pose proof (f_size_range f). unfold f_content at 1.
  assert (Hb : default zero (f_bytes (f_truncate n f) !! x) = f_content f x).
  { rewrite <-live_bytes_lookup. unfold f_truncate. cbn [f_bytes]. rewrite Z.max_r by lia.
    destruct (live_bytes f !! x) as [c|] eqn:Hl.
    - rewrite (map_lookup_filter_Some_2 _ _ _ c); [done|done|]. cbn.
      apply map_lookup_filter_Some in Hl as [_ Hd]. cbn in Hd. apply f_data_spec in Hd. lia.
    - rewrite map_lookup_filter_None_2; [done|by left]. }
  rewrite Hb. destruct (f_data (f_truncate n f) x) eqn:Hd; [done|].
  unfold f_content. destruct (f_data f x) eqn:Hf; [|done]. exfalso.
  pose proof Hf as Hf'. apply f_data_spec in Hf'. rewrite f_truncate_data in Hd by (done || lia). congruence.
Qed.

Lemma aligned_page off n x : off mod page_size = 0 → n mod page_size = 0 →
  off ≤ page_of x * page_size < off + n ↔ off ≤ x < off + n.
Proof.
  unfold page_of, page_size. intros Ho Hn. apply Z.div_exact in Ho; [|done]. apply Z.div_exact in Hn; [|done].
  pose proof (Z.div_mod x (2 ^ 12) ltac:(done)). pose proof (Z.mod_pos_bound x (2 ^ 12) ltac:(lia)). nia.
Qed.

Lemma f_punch_data off n f x : off mod page_size = 0 → n mod page_size = 0 →
  f_data (f_punch off n f) x = if (off <=? x) && (x <? off + n) then false else f_data f x.
Proof.
  intros Ho Hn. apply eq_true_iff_eq. rewrite f_data_spec. unfold f_punch. cbn [f_pages].
  rewrite elem_of_filter, (aligned_page off n x) by done. change (f_size _) with (f_size f) at 1.
  destruct (Z.leb_spec off x), (Z.ltb_spec x (off + n)); cbn [andb]; rewrite ?f_data_spec; intuition lia.
Qed.

Lemma f_punch_content off n f x : off mod page_size = 0 → n mod page_size = 0 →
  f_content (f_punch off n f) x = if (off <=? x) && (x <? off + n) then zero else f_content f x.
Proof.
  intros Ho Hn. unfold f_content at 1. rewrite f_punch_data by done.
  destruct ((off <=? x) && (x <? off + n)); [done|]. change (f_bytes (f_punch off n f)) with (live_bytes f).
  rewrite live_bytes_lookup. unfold f_content. by destruct (f_data f x).
Qed.

Lemma f_read_spec off n f :
  CxxString.size (f_read off n f) = Z.of_nat n ∧
  ∀ i, 0 ≤ i < Z.of_nat n → byte_at (f_read off n f) i = f_content f (off + i).
Proof.
  unfold CxxString.size, byte_at. revert off. induction n as [|n IH]; intros off; cbn [f_read String.length].
  { split; [done|lia]. }
  destruct (IH (off + 1)) as [Hl Hi]. split; [lia|]. intros i Hr.
  destruct (decide (i = 0)) as [->|Hne]; [cbn; by rewrite Z.add_0_r|].
  replace (Z.to_nat i) with (S (Z.to_nat (i - 1))) by lia. cbn [String.get].
  rewrite Hi by lia. f_equal. lia.
Qed.

Lemma fd_file_set w fd p f g : fd_file w fd = Some (p, f) → fd_file (set_file p g w) fd = Some (p, g).
Proof.
  unfold fd_file. intros Hf. apply bind_Some in Hf as (q & Hq & Hf). apply bind_Some in Hf as (g' & Hg & [= -> ->]).
  unfold set_file. cbn [m_fds m_files]. rewrite Hq. unfold mbind, option_bind. by rewrite lookup_insert_eq.
Qed.

Definition mem_live (w : mem) (fd : Z) : Prop := is_Some (fd_file w fd).

#[export] Instance mem_file_laws : FaultFreeDisk mem.
Proof.
  refine {| content := fd_content; live := mem_live;
            centres w p := m_attrs w !! (p, HvsFileHandler.centers_name) |}.
  - intros w fd [[p f] Hf]. by apply (mem_len_live w fd p f).
  - intros p w v Hv _. cbn. unfold mem_attr. by rewrite Hv.
  - intros w fd x. cbn. unfold fd_data. destruct (fd_file w fd) as [[p f]|] eqn:Hf; [|done].
    destruct (mem_len_live _ _ _ _ Hf) as [-> _]. by intros [? _]%f_data_spec.
  - intros w fd x y Hxy Hx Hy. cbn in *. unfold fd_data. destruct (fd_file w fd) as [[p f]|] eqn:Hf; [|done].
    destruct (mem_len_live _ _ _ _ Hf) as [Hlen _]. rewrite Hlen in *. apply eq_true_iff_eq. rewrite !f_data_spec, Hxy. intuition lia.
  - intros w fd x. cbn. unfold fd_data, fd_content, f_content. destruct (fd_file w fd) as [[p f]|]; [|done].
    by intros ->.
  - intros fd off wh w. cbn. destruct (mem_lseek_errno fd off wh w) as [e ->]. done.
  - intros fd n off w [[p f] Hf] Hn Hoff. cbn. rewrite Hf. destruct (mem_len_live _ _ _ _ Hf) as [-> _].
    unfold fd_data, fd_content. rewrite Hf.
    pose proof (f_read_spec off (Z.to_nat (n `min` (0 `max` (f_size f - off)))) f) as [Hl Hb].
    split_and!; [done|lia| |by eexists|done..]. intros i Hi. apply Hb. lia.
  - intros fd s off w [[p f] Hf] Hoff Hs Hmax. cbn -[CxxString.size]. unfold on_fd. rewrite Hf.
    pose proof (fd_file_set w fd p f (f_write off s f) Hf) as Hf'.
    destruct (mem_len_live _ _ _ _ Hf) as [-> _]. destruct (mem_len_live _ _ _ _ Hf') as [-> _].
    unfold fd_data, fd_content. rewrite Hf, Hf'. split_and!.
    + done.
    + by eexists.
    + by apply f_write_size.
    + intros x. by apply f_write_content.
    + intros x Hx. apply f_write_data; [done..|]. split; [lia|left]. split; apply page_of_mono; lia.
    + intros x [Hx1 Hx2]%f_data_spec. apply f_write_data; [done..|]. split; [lia|by right].
    + intros x Hx Hp. apply eq_true_iff_eq. rewrite f_write_data, f_data_spec by done.
      split; intros [? Hq]; (split; [lia|]); [destruct Hq; [lia|done]|by right].
    + done.
  - intros fd n w [[p f] Hf] Hn. cbn. unfold on_fd. rewrite Hf. cbn [snd].
    pose proof (fd_file_set w fd p f (f_truncate n f) Hf) as Hf'.
    cbn in Hn. destruct (mem_len_live _ _ _ _ Hf) as [Hlen _]. rewrite Hlen in *. destruct (mem_len_live _ _ _ _ Hf') as [-> _].
    unfold fd_data, fd_content. rewrite Hf, Hf'. split_and!.
    + by eexists.
    + by apply f_truncate_size.
    + intros x. by apply f_truncate_content.
    + intros x Hx. by apply f_truncate_data.
    + done.
  - intros fd off n w [[p f] Hf] Hoff Hn Hmax Ha Hb. cbn.
    destruct (Z.leb_spec 0 off), (Z.ltb_spec 0 n); cbn [andb]; try lia. rewrite Z.eqb_refl. cbn [andb].
    unfold on_fd. rewrite Hf. pose proof (fd_file_set w fd p f (f_punch off n f) Hf) as Hf'.
    destruct (mem_len_live _ _ _ _ Hf) as [-> _]. destruct (mem_len_live _ _ _ _ Hf') as [-> _].
    unfold fd_data, fd_content. rewrite Hf, Hf'. split_and!; [done|by eexists|done|..].
    + intros x. by apply f_punch_content.
    + intros x. by apply f_punch_data.
    + done.
  - done.
  - intros fd name v w Hn. split; [done|]. intros p. cbn. apply lookup_insert_ne. congruence.
  - done.
Defined.
