(* ===== verification/SyncIo.v ===== *)
(** * Operations as objects (msg/op.h, io_proxy/sync_io.cc, io_proxy/proxy_op.cc)

    The interface of the I/O proxy the UDT sessions still queue their operations for:
    an [OP] carries its arguments and takes its results, [sync_io] carries it out with
    system calls, and [prepare_op] and [do_op] are what a worker does with it. The
    descriptors are those of FdManager.v. *)
From S2P Require Import Prelude CxxString Lru FdManager Op Files.

(** ** System calls, in addition to those of [Posix] and [Fs] *)

(** The fields of [struct stat] the program copies. *)
Record struct_stat : Type := Stat {
  s_dev : Z; s_ino : Z; s_mode : Z; s_nlink : Z; s_uid : Z; s_gid : Z; s_rdev : Z;
  s_size : Z; s_blksize : Z; s_blocks : Z;
  s_atim : Z * Z; s_mtim : Z * Z; s_ctim : Z * Z;  (** seconds and nanoseconds *)
}.
Definition no_stat : struct_stat := Stat 0 0 0 0 0 0 0 0 0 0 (0, 0) (0, 0) (0, 0).
Record dirent : Type := Dirent { d_name : string; d_off : Z }.

Class SyncCalls (W : Type) : Type := {
  sys_stat_all : string → W → (Z * struct_stat) * W;
  sys_fstat : Z → W → (Z * struct_stat) * W;
  (** [opendir], [readdir] to the end and [closedir]: the entries, and the error that
      ends them, if it is one *)
  sys_read_dir : string → W → option (list dirent * option Z) * W;
  sys_rename : string → string → W → Z * W;
  sys_rmdir : string → W → Z * W;
  sys_link : string → string → W → Z * W;
  sys_symlink : string → string → W → Z * W;
  sys_readlink : string → Z → W → (Z * string) * W;
  sys_access : string → Z → W → Z * W;
  sys_chmod : string → Z → W → Z * W;
  sys_chown : string → Z → Z → W → Z * W;
}.

(** ** The objects *)

Module OP.
Record t : Type := mk {
  id : Z;
  fid : Z;
  open_flags : Z;
  error_code : Z;
  should_prepare : bool;
}.
Definition set_error_code (v : Z) (op : t) : t := mk op.(id) op.(fid) op.(open_flags) (to_i32 v) op.(should_prepare).
Definition set_id (v : Z) (op : t) : t := mk v op.(fid) op.(open_flags) op.(error_code) op.(should_prepare).
Definition set_should_prepare (v : bool) (op : t) : t := mk op.(id) op.(fid) op.(open_flags) op.(error_code) v.
End OP.

Module IOProxyMetadataOP.
Inductive Operation : Type := stat | open | close | flush | readdir | rename | access | utimes | chmod | chown.
Record t : Type := mk {
  base : OP.t;
  operation : Operation;
  path : string;
  newpath : string;
  buf : option struct_stat;   (** null until [prepare_op] *)
  mode : Z;
  sec0n : Z; sec0s : Z; sec1n : Z; sec1s : Z;
  uid : Z;
  gid : Z;
  dirvector : list dirent;
}.
Definition set_base (v : OP.t) (op : t) : t :=
  mk v op.(operation) op.(path) op.(newpath) op.(buf) op.(mode) op.(sec0n) op.(sec0s) op.(sec1n) op.(sec1s)
    op.(uid) op.(gid) op.(dirvector).
Definition set_error_code (v : Z) (op : t) : t := set_base (OP.set_error_code v op.(base)) op.
Definition set_buf (v : option struct_stat) (op : t) : t :=
  mk op.(base) op.(operation) op.(path) op.(newpath) v op.(mode) op.(sec0n) op.(sec0s) op.(sec1n) op.(sec1s)
    op.(uid) op.(gid) op.(dirvector).
Definition set_dirvector (v : list dirent) (op : t) : t :=
  mk op.(base) op.(operation) op.(path) op.(newpath) op.(buf) op.(mode) op.(sec0n) op.(sec0s) op.(sec1n) op.(sec1s)
    op.(uid) op.(gid) v.
End IOProxyMetadataOP.

Module IOProxyDataOP.
Inductive Operation : Type := read | write | truncate | mkdir | rmdir | create | unlink | link | symlink | readlink.
Record t : Type := mk {
  base : OP.t;
  operation : Operation;
  path : string;
  obuf : option (Z * string);   (** null until [prepare_op]; the size of the block, and the bytes written to it *)
  ibuf : string;
  size : Z;
  offset : Z;
  mode : Z;
  linkbuf : string;
  newpath : string;
}.
Definition set_base (v : OP.t) (op : t) : t :=
  mk v op.(operation) op.(path) op.(obuf) op.(ibuf) op.(size) op.(offset) op.(mode) op.(linkbuf) op.(newpath).
Definition set_error_code (v : Z) (op : t) : t := set_base (OP.set_error_code v op.(base)) op.
Definition set_obuf (v : option (Z * string)) (op : t) : t :=
  mk op.(base) op.(operation) op.(path) v op.(ibuf) op.(size) op.(offset) op.(mode) op.(linkbuf) op.(newpath).
Definition set_size (v : Z) (op : t) : t :=
  mk op.(base) op.(operation) op.(path) op.(obuf) op.(ibuf) (to_u64 v) op.(offset) op.(mode) op.(linkbuf) op.(newpath).
Definition set_linkbuf (v : string) (op : t) : t :=
  mk op.(base) op.(operation) op.(path) op.(obuf) op.(ibuf) op.(size) op.(offset) op.(mode) v op.(newpath).
Definition error_code (op : t) : Z := op.(base).(OP.error_code).
End IOProxyDataOP.
Notation data_op := IOProxyDataOP.t.
Notation metadata_op := IOProxyMetadataOP.t.
Inductive op_ptr : Type :=
| IO_PROXY_METADATA (op : metadata_op)
| IO_PROXY_DATA (op : data_op).

(** ** The calls *)

Module sync_io.
Section sync_io.
Context {W : Type} `{Posix W, !Fs W, !SyncCalls W, Roaring, Allocator}.
Implicit Types (path : string) (fdm : FdManager.t) (op : data_op) (mop : metadata_op).

(** What most of the functions do with the result of their call. *)
Definition or_errno (ret : Z) : M W Z := if ret =? -1 then e ← errno; mret (- e) else mret ret.

Definition sopen (pathname : string) (flags mode : Z) (op : OP.t) : M W (Z * OP.t) :=
  fd ← extern (sys_open (c_str pathname) flags mode);
  if fd =? -1 then e ← errno; mret (fd, OP.set_error_code (- e) op) else mret (fd, OP.set_error_code 0 op).
Definition sclose (fd : Z) (op : OP.t) : Z * OP.t := (0, OP.set_error_code 0 op).

(** [pread] into the block; past its end is undefined, and a null block is refused. *)
Definition EFAULT : Z := 14.
Definition pread_block (fd : Z) (buf : option (Z * string)) (count offset : Z) : M W (Z * Z * option (Z * string)) :=
  match buf with
  | None => mret (-1, EFAULT, None)
  | Some (cap, bytes) =>
      if cap <? count then undefined
      else
        '(ret, got) ← extern (sys_pread fd count offset);
        if ret =? -1 then e ← errno; mret (ret, e, buf)
        else mret (ret, 0, Some (cap, got +:+ substr_from (String.length got) bytes))
  end.
Definition sread_fd (fd count offset : Z) op : M W (Z * data_op) :=
  '(ret, e, buf) ← pread_block fd op.(IOProxyDataOP.obuf) count offset;
  let op := IOProxyDataOP.set_obuf buf op in
  mret (ret, IOProxyDataOP.set_error_code (if ret =? -1 then - e else 0) op).
(** The error of [open] is overwritten by that of the read. *)
Definition sread path (count offset : Z) op fdm : M W (Z * data_op * FdManager.t) :=
  '(fd, fdm) ← FdManager.open path (Z.lor op.(IOProxyDataOP.base).(OP.open_flags) O_RDWR) 429 fdm;
  let op := IOProxyDataOP.set_error_code (if fd <? 0 then - fd else 0) op in
  '(ret, op) ← sread_fd fd count offset op;
  mret (ret, op, fdm).

Definition swrite_fd (fd : Z) (buf : string) (count offset : Z) op : M W (Z * data_op) :=
  if CxxString.size buf <? count then undefined
  else
    ret ← extern (sys_pwrite fd (str_take (Z.to_nat count) buf) offset);
    if ret =? -1 then e ← errno; mret (ret, IOProxyDataOP.set_error_code (- e) op)
    else mret (ret, IOProxyDataOP.set_error_code ret op).
(** Again while the descriptor is bad; [None]: the fuel did not suffice. *)
Fixpoint swrite (fuel : nat) path (buf : string) (count offset : Z) op fdm : M W (option (Z * data_op * FdManager.t)) :=
  match fuel with
  | 0%nat => mret None
  | S fuel =>
      '(fd, fdm) ← FdManager.open path (Z.lor op.(IOProxyDataOP.base).(OP.open_flags) O_RDWR) 429 fdm;
      if fd <? 0 then mret (Some (fd, IOProxyDataOP.set_error_code (- fd) op, fdm))
      else
        '(ret, op) ← swrite_fd fd buf count offset (IOProxyDataOP.set_error_code 0 op);
        if IOProxyDataOP.error_code op =? - EBADF then
          '(_, fdm) ← FdManager.expire path fdm;
          swrite fuel path buf count offset op fdm
        else mret (Some (ret, op, fdm))
  end.

Definition sstat (pathname : string) mop : M W (Z * metadata_op) :=
  _ ← deref mop.(IOProxyMetadataOP.buf);
  '(ret, st) ← extern (sys_stat_all (c_str pathname));
  if ret =? -1 then e ← errno; mret (ret, IOProxyMetadataOP.set_error_code (- e) mop)
  else mret (ret, IOProxyMetadataOP.set_error_code 0 (IOProxyMetadataOP.set_buf (Some st) mop)).
Definition sfstat (fd : Z) mop : M W (Z * metadata_op) :=
  _ ← deref mop.(IOProxyMetadataOP.buf);
  '(ret, st) ← extern (sys_fstat fd);
  if ret =? -1 then e ← errno; mret (ret, IOProxyMetadataOP.set_error_code (- e) mop)
  else mret (ret, IOProxyMetadataOP.set_error_code 0 (IOProxyMetadataOP.set_buf (Some st) mop)).

(** [errno] is set to zero before every [readdir] but the first. *)
Definition sreaddir path mop : M W (Z * metadata_op) :=
  dp ← extern (sys_read_dir (c_str path));
  match dp with
  | None => e ← errno; mret (to_i32 (- e), IOProxyMetadataOP.set_error_code (- e) mop)
  | Some ([], err) =>
      stale ← errno;
      let e := default stale err in
      mret (to_i32 (- e), IOProxyMetadataOP.set_error_code (- e) mop)
  | Some (entries, err) =>
      let e := default 0 err in
      mret (to_i32 e, IOProxyMetadataOP.set_error_code (- e)
              (IOProxyMetadataOP.set_dirvector (mop.(IOProxyMetadataOP.dirvector) ++ entries) mop))
  end.

Definition struncate path (length : Z) fdm : M W (Z * FdManager.t) :=
  '(_, fdm) ← FdManager.expire path fdm;
  ret ← extern (sys_truncate (c_str path) length);
  ret ← or_errno ret; mret (ret, fdm).
Definition srename path (newpath : string) fdm : M W (Z * FdManager.t) :=
  '(_, fdm) ← FdManager.expire path fdm;
  '(_, fdm) ← FdManager.expire newpath fdm;
  ret ← extern (sys_rename (c_str path) (c_str newpath));
  ret ← or_errno ret; mret (ret, fdm).
Definition smkdir path (mode : Z) : M W Z := ret ← extern (sys_mkdir (c_str path) mode); or_errno ret.
Definition srmdir path : M W Z := ret ← extern (sys_rmdir (c_str path)); or_errno ret.
Definition screate path (mode : Z) fdm : M W (Z * FdManager.t) := FdManager.create path mode fdm.
Definition sunlink path fdm : M W (Z * FdManager.t) := FdManager.remove path fdm.
Definition slink path (newpath : string) : M W Z := ret ← extern (sys_link (c_str path) (c_str newpath)); or_errno ret.
(** The error is found and not returned. *)
Definition saccess path (mode : Z) : M W Z :=
  ret ← extern (sys_access (c_str path) mode);
  _ ← or_errno ret; mret 0.
(** The paths are absolute, so that the directory they are relative to does not matter. *)
Definition sutimes path (sec0n sec0s sec1n sec1s : Z) : M W Z :=
  ret ← extern (sys_utimensat (c_str path) (sec0s, sec0n) (sec1s, sec1n) 0); or_errno ret.
Definition ssymlink (target newlinkpath : string) : M W Z :=
  ret ← extern (sys_symlink (c_str target) (c_str newlinkpath)); or_errno ret.
(** Into an array of [size] bytes, whose size must be positive; the result is zero
    whatever came of it. *)
Definition sreadlink path op : M W (Z * data_op) :=
  if op.(IOProxyDataOP.size) <=? 0 then undefined
  else
    '(ret, target) ← extern (sys_readlink (c_str path) (op.(IOProxyDataOP.size) - 1));
    ret' ← or_errno (to_i32 ret);
    mret (0, if 0 <=? ret' then IOProxyDataOP.set_linkbuf (c_str (str_take (Z.to_nat ret') target)) op else op).
Definition schmod path (mode : Z) fdm : M W (Z * FdManager.t) :=
  '(_, fdm) ← FdManager.expire path fdm;
  ret ← extern (sys_chmod (c_str path) mode);
  ret ← or_errno ret; mret (ret, fdm).
Definition schown path (uid gid : Z) fdm : M W (Z * FdManager.t) :=
  '(_, fdm) ← FdManager.expire path fdm;
  ret ← extern (sys_chown (c_str path) uid gid);
  ret ← or_errno ret; mret (ret, fdm).
End sync_io.
End sync_io.

(** ** The dispatch *)

Module OpObjects.
Import sync_io.
Section dispatch.
Context {W : Type} `{Posix W, !Fs W, !SyncCalls W, Roaring, Allocator}.
Implicit Types (fdm : FdManager.t) (op : data_op) (mop : metadata_op).

Definition prepare_op (p : op_ptr) : op_ptr :=
  match p with
  | IO_PROXY_METADATA mop =>
      if mop.(IOProxyMetadataOP.base).(OP.should_prepare) then IO_PROXY_METADATA (IOProxyMetadataOP.set_buf (Some no_stat) mop) else p
  | IO_PROXY_DATA op =>
      if op.(IOProxyDataOP.base).(OP.should_prepare) then IO_PROXY_DATA (IOProxyDataOP.set_obuf (Some (op.(IOProxyDataOP.size), "")) op) else p
  end.

Definition ioproxy_do_metadata_op mop fdm : M W (metadata_op * FdManager.t) :=
  let path := mop.(IOProxyMetadataOP.path) in
  let set (r : Z * FdManager.t) : M W (metadata_op * FdManager.t) := mret (IOProxyMetadataOP.set_error_code r.1 mop, r.2) in
  match mop.(IOProxyMetadataOP.operation) with
  | IOProxyMetadataOP.stat => '(_, mop) ← sstat path mop; mret (mop, fdm)
  | IOProxyMetadataOP.open => r ← FdManager.open path (Z.lor mop.(IOProxyMetadataOP.base).(OP.open_flags) O_RDWR) 420 fdm; set r
  | IOProxyMetadataOP.close => r ← FdManager.close path fdm; set r
  | IOProxyMetadataOP.flush => r ← FdManager.flush path fdm; set r
  | IOProxyMetadataOP.readdir => '(_, mop) ← sreaddir path mop; mret (mop, fdm)
  | IOProxyMetadataOP.rename => r ← srename path mop.(IOProxyMetadataOP.newpath) fdm; set r
  | IOProxyMetadataOP.access => e ← saccess path mop.(IOProxyMetadataOP.mode); set (e, fdm)
  | IOProxyMetadataOP.utimes =>
      e ← sutimes path mop.(IOProxyMetadataOP.sec0n) mop.(IOProxyMetadataOP.sec0s) mop.(IOProxyMetadataOP.sec1n) mop.(IOProxyMetadataOP.sec1s);
      set (e, fdm)
  | IOProxyMetadataOP.chmod => r ← schmod path (to_u32 mop.(IOProxyMetadataOP.mode)) fdm; set r
  | IOProxyMetadataOP.chown => r ← schown path mop.(IOProxyMetadataOP.uid) mop.(IOProxyMetadataOP.gid) fdm; set r
  end.

(** [None]: the fuel of a write did not suffice. *)
Definition ioproxy_do_data_op (fuel : nat) op fdm : M W (option (data_op * FdManager.t)) :=
  let path := c_str op.(IOProxyDataOP.path) in
  let newpath := c_str op.(IOProxyDataOP.newpath) in
  let set (r : Z * FdManager.t) : M W (option (data_op * FdManager.t)) := mret (Some (IOProxyDataOP.set_error_code r.1 op, r.2)) in
  match op.(IOProxyDataOP.operation) with
  | IOProxyDataOP.read =>
      '(ret, op, fdm) ← sread path op.(IOProxyDataOP.size) op.(IOProxyDataOP.offset) op fdm;
      mret (Some (IOProxyDataOP.set_size ret op, fdm))
  | IOProxyDataOP.write =>
      r ← swrite fuel path op.(IOProxyDataOP.ibuf) op.(IOProxyDataOP.size) op.(IOProxyDataOP.offset) op fdm;
      mret ('(_, op, fdm) ← r; Some (op, fdm))
  | IOProxyDataOP.truncate => r ← struncate path op.(IOProxyDataOP.offset) fdm; set r
  | IOProxyDataOP.mkdir => e ← smkdir path op.(IOProxyDataOP.mode); set (e, fdm)
  | IOProxyDataOP.rmdir => e ← srmdir path; set (e, fdm)
  | IOProxyDataOP.create => r ← screate path op.(IOProxyDataOP.mode) fdm; set r
  | IOProxyDataOP.unlink => r ← sunlink path fdm; set r
  | IOProxyDataOP.link => e ← slink path newpath; set (e, fdm)
  | IOProxyDataOP.symlink => e ← ssymlink path newpath; set (e, fdm)
  | IOProxyDataOP.readlink => '(e, op) ← sreadlink path op; mret (Some (IOProxyDataOP.set_error_code e op, fdm))
  end.

(** [do_op], up to its callback. *)
Definition do_op (fuel : nat) (p : op_ptr) fdm : M W (option (op_ptr * FdManager.t)) :=
  match p with
  | IO_PROXY_METADATA mop => '(mop, fdm) ← ioproxy_do_metadata_op mop fdm; mret (Some (IO_PROXY_METADATA mop, fdm))
  | IO_PROXY_DATA op => r ← ioproxy_do_data_op fuel op fdm; mret ('(op, fdm) ← r; Some (IO_PROXY_DATA op, fdm))
  end.
End dispatch.
End OpObjects.

(** ** Proofs *)

Lemma bytes_ext s t : CxxString.size s = CxxString.size t → (∀ i, 0 ≤ i < CxxString.size s → byte_at s i = byte_at t i) → s = t.
Proof.
  revert t. induction s as [|c s IH]; intros [|d t] Hl Hb; try done. unfold CxxString.size in Hl, Hb. cbn [String.length] in Hl, Hb.
  f_equal; [exact (Hb 0 ltac:(lia))|]. apply IH; unfold CxxString.size; [lia|]. intros i Hi.
  specialize (Hb (i + 1) ltac:(lia)). unfold byte_at in *. rewrite Z2Nat.inj_add in Hb by lia. change (Z.to_nat 1) with 1%nat in Hb.
  by rewrite Nat.add_1_r in Hb.
Qed.

Section props.
Import sync_io OpObjects FdManager.
Context {W : Type} `{PosixLaws W, !Fs W, !FaultFreeDisk W, !SyncCalls W, Roaring, Allocator}.
Implicit Types (m : FdManager.t) (op : data_op) (w : W).

Lemma run_bind {A B} (x : M W A) (k : A → M W B) w a w1 : x w = (Val a, w1) → (x ≫= k) w = k a w1.
Proof. intros Hx. unfold mbind, M_bind. by rewrite Hx. Qed.

Definition plain (flags : Z) : Prop := Z.land flags O_TRUNC = 0.
Lemma plain_rdwr flags : plain flags → Z.land (Z.lor flags O_RDWR) O_TRUNC = 0.
Proof. unfold plain. intros Hf. by rewrite Z.land_lor_distr_l, Hf. Qed.

(** The operations of the UDT sessions on a path whose descriptor is open. *)
Lemma object_write_ok fuel fd op m w :
  reuses_freed_block = true → ready (c_str op.(IOProxyDataOP.path)) fd m → live w fd →
  op.(IOProxyDataOP.operation) = IOProxyDataOP.write → plain op.(IOProxyDataOP.base).(OP.open_flags) →
  op.(IOProxyDataOP.size) = CxxString.size op.(IOProxyDataOP.ibuf) → 0 < op.(IOProxyDataOP.size) < 2 ^ 31 →
  0 ≤ op.(IOProxyDataOP.offset) → op.(IOProxyDataOP.offset) + op.(IOProxyDataOP.size) < 2 ^ 63 →
  ∃ m', do_op (S fuel) (IO_PROXY_DATA op) m w =
      (Val (Some (IO_PROXY_DATA (IOProxyDataOP.set_error_code op.(IOProxyDataOP.size) op), m')),
       (sys_pwrite fd op.(IOProxyDataOP.ibuf) op.(IOProxyDataOP.offset) w).2) ∧
    ready (c_str op.(IOProxyDataOP.path)) fd m'.
Proof.
  intros Hheap Hr Hl Hop Hfl Hsz Hn Hoff Hend.
  destruct (open_ready _ fd (Z.lor op.(IOProxyDataOP.base).(OP.open_flags) O_RDWR) 429 m Hheap Hr (plain_rdwr _ Hfl)) as (m1 & Ho & Hr1 & _).
  exists m1. split; [|done]. unfold do_op, ioproxy_do_data_op. rewrite Hop. cbn [swrite]. unfold mbind, M_bind, option_bind. rewrite Ho.
  assert (Hfd : 0 ≤ fd) by apply Hr. rewrite (proj2 (Z.ltb_ge fd 0)) by lia. unfold swrite_fd.
  cbn [IOProxyDataOP.set_error_code IOProxyDataOP.set_base]. rewrite <-Hsz, Z.ltb_irrefl. unfold mbind, M_bind, extern. rewrite Hsz. unfold CxxString.size at 1. rewrite Nat2Z.id, str_take_all by done.
  pose proof (pwrite_ok _ fd op.(IOProxyDataOP.ibuf) op.(IOProxyDataOP.offset) w Hl Hoff ltac:(lia) ltac:(lia)) as Hpw. cbn zeta in Hpw.
  destruct (sys_pwrite _ _ _ w) as [r w1]. destruct Hpw as [-> _]. rewrite (proj2 (Z.eqb_neq _ (-1))) by lia.
  unfold mret, M_ret. change (IOProxyDataOP.error_code _) with (to_i32 (CxxString.size (IOProxyDataOP.ibuf op))).
  rewrite to_i32_id by (unfold in_i32; lia). rewrite (proj2 (Z.eqb_neq _ (- EBADF))) by (unfold EBADF; lia). rewrite <-Hsz. done.
Qed.

Lemma object_read_ok fuel fd op m w bytes :
  reuses_freed_block = true → ready (c_str op.(IOProxyDataOP.path)) fd m → live w fd →
  op.(IOProxyDataOP.operation) = IOProxyDataOP.read → plain op.(IOProxyDataOP.base).(OP.open_flags) →
  op.(IOProxyDataOP.base).(OP.should_prepare) = true →
  op.(IOProxyDataOP.size) = CxxString.size bytes → 0 ≤ op.(IOProxyDataOP.size) < 2 ^ 64 → 0 ≤ op.(IOProxyDataOP.offset) →
  op.(IOProxyDataOP.offset) + op.(IOProxyDataOP.size) ≤ file_len w fd →
  (∀ i, 0 ≤ i < CxxString.size bytes → content w fd (op.(IOProxyDataOP.offset) + i) = byte_at bytes i) →
  ∃ m' w', do_op fuel (prepare_op (IO_PROXY_DATA op)) m w =
      (Val (Some (IO_PROXY_DATA (IOProxyDataOP.set_error_code 0 (IOProxyDataOP.set_obuf (Some (op.(IOProxyDataOP.size), bytes)) op)), m')), w') ∧
    ready (c_str op.(IOProxyDataOP.path)) fd m' ∧ live w' fd.
Proof.
  intros Hheap Hr Hl Hop Hfl Hprep Hsz Hn Hoff Hend Hbytes. unfold prepare_op. rewrite Hprep.
  destruct (open_ready _ fd (Z.lor op.(IOProxyDataOP.base).(OP.open_flags) O_RDWR) 429 m Hheap Hr (plain_rdwr _ Hfl)) as (m1 & Ho & Hr1 & _).
  assert (Hfd : 0 ≤ fd) by apply Hr.
  pose proof (pread_ok _ fd op.(IOProxyDataOP.size) op.(IOProxyDataOP.offset) w Hl ltac:(lia) Hoff) as Hpr.
  destruct (sys_pread fd _ _ w) as [[r got] w1] eqn:Hp. destruct Hpr as (Hret & Hgot & Hb & Hl1 & _).
  assert (r = op.(IOProxyDataOP.size)) as -> by lia.
  assert (got = bytes) as -> by (apply bytes_ext; [congruence|]; intros i Hi; rewrite Hgot in Hi; rewrite Hb, Hbytes by congruence; done).
  exists m1, w1. split_and!; [|done..]. unfold do_op, ioproxy_do_data_op. cbn [IOProxyDataOP.operation IOProxyDataOP.set_obuf]. rewrite Hop.
  unfold sread, mbind, M_bind. cbn [IOProxyDataOP.base IOProxyDataOP.path IOProxyDataOP.newpath IOProxyDataOP.size IOProxyDataOP.offset]. rewrite Ho.
  unfold sread_fd, pread_block. rewrite (proj2 (Z.ltb_ge fd 0)) by lia. unfold mbind, M_bind. cbn. rewrite Z.ltb_irrefl.
  unfold extern. rewrite Hp, (proj2 (Z.eqb_neq _ (-1))) by lia. unfold mret, M_ret. rewrite (proj2 (Z.eqb_neq _ (-1))) by lia.
  unfold substr_from. rewrite str_drop_all by (cbn; lia). rewrite append_nil_r.
  unfold IOProxyDataOP.set_size, IOProxyDataOP.set_error_code, IOProxyDataOP.set_obuf, IOProxyDataOP.set_base. cbn.
  rewrite to_u64_id by (unfold in_u64; lia). done.
Qed.

(** Where the freed block is not handed out again, an operation on a path that is open
    ends the proxy. *)
Lemma object_write_dangles fuel fd op m w :
  reuses_freed_block = false → ready (c_str op.(IOProxyDataOP.path)) fd m →
  op.(IOProxyDataOP.operation) = IOProxyDataOP.write → plain op.(IOProxyDataOP.base).(OP.open_flags) →
  do_op (S fuel) (IO_PROXY_DATA op) m w = (UB, w).
Proof.
  intros Hheap Hr Hop Hfl. unfold do_op, ioproxy_do_data_op. rewrite Hop. cbn [swrite]. unfold mbind, M_bind, option_bind.
  by rewrite (open_ready_dangles _ fd (Z.lor op.(IOProxyDataOP.base).(OP.open_flags) O_RDWR) 429 m w Hheap Hr (plain_rdwr _ Hfl)).
Qed.

(** C17: what is written is what is read, as far as one line of [FdManager::open]
    lets it. On a disk without faults, with the file open in the proxy before, a
    write and a read of the same range, of less than 2 GiB, that the sessions queue are
    carried out one after the other, both without flags that open treats apart. Both open the path again, which reads a list node just freed.
    Where the allocator has handed that block out again for the node put in its
    place, both report success and the read yields the bytes written, whole; where it
    has not, the write ends the proxy with nothing written. *)
Theorem write_then_read fuel fd wop rop m w :
  ready (c_str wop.(IOProxyDataOP.path)) fd m → live w fd →
  wop.(IOProxyDataOP.operation) = IOProxyDataOP.write → rop.(IOProxyDataOP.operation) = IOProxyDataOP.read →
  plain wop.(IOProxyDataOP.base).(OP.open_flags) → plain rop.(IOProxyDataOP.base).(OP.open_flags) →
  rop.(IOProxyDataOP.base).(OP.should_prepare) = true → rop.(IOProxyDataOP.path) = wop.(IOProxyDataOP.path) →
  rop.(IOProxyDataOP.offset) = wop.(IOProxyDataOP.offset) → rop.(IOProxyDataOP.size) = wop.(IOProxyDataOP.size) →
  wop.(IOProxyDataOP.size) = CxxString.size wop.(IOProxyDataOP.ibuf) → 0 < wop.(IOProxyDataOP.size) < 2 ^ 31 →
  0 ≤ wop.(IOProxyDataOP.offset) → wop.(IOProxyDataOP.offset) + wop.(IOProxyDataOP.size) < 2 ^ 63 →
  if reuses_freed_block then
    wp (r ← do_op (S fuel) (IO_PROXY_DATA wop) m; '(done, m) ← deref r;
        r ← do_op (S fuel) (prepare_op (IO_PROXY_DATA rop)) m; '(got, m) ← deref r; mret (done, got))
      (λ '(done, got) _, done = IO_PROXY_DATA (IOProxyDataOP.set_error_code wop.(IOProxyDataOP.size) wop) ∧
        got = IO_PROXY_DATA (IOProxyDataOP.set_error_code 0 (IOProxyDataOP.set_obuf (Some (wop.(IOProxyDataOP.size), wop.(IOProxyDataOP.ibuf))) rop)))
      never w
  else do_op (S fuel) (IO_PROXY_DATA wop) m w = (UB, w).
Proof.
  intros Hr Hl Hw Hrd Hfw Hfr Hprep Hpath Hoff Hsz Hlen Hn Ho He.
  destruct reuses_freed_block eqn:Hheap; [|by apply (object_write_dangles _ fd)].
  destruct (object_write_ok fuel fd wop m w Hheap Hr Hl Hw Hfw Hlen Hn Ho He) as (m1 & Hdo & Hr1).
  pose proof (pwrite_ok _ fd wop.(IOProxyDataOP.ibuf) wop.(IOProxyDataOP.offset) w Hl Ho ltac:(lia) ltac:(lia)) as Hpw. cbn zeta in Hpw.
  destruct (sys_pwrite _ _ _ w) as [r w1] eqn:Hpe. destruct Hpw as (_ & Hl1 & Hlen1 & Hc & _). cbn [snd] in Hdo.
  rewrite <-Hpath in Hr1.
  destruct (object_read_ok (S fuel) fd rop m1 w1 wop.(IOProxyDataOP.ibuf) Hheap Hr1 Hl1 Hrd Hfr Hprep ltac:(congruence) ltac:(lia) ltac:(lia) ltac:(lia))
    as (m2 & w2 & Hread & _).
  { intros i Hi. rewrite Hc, Hoff. rewrite (proj2 (Z.leb_le _ _)), (proj2 (Z.ltb_lt _ _)) by lia. cbn [andb]. f_equal. lia. }
  unfold wp. unfold mbind, M_bind. rewrite Hdo. cbn [deref]. unfold mret, M_ret. rewrite Hread, Hsz. done.
Qed.
End props.

(** ** A run on the file system in memory *)
Module OpRuns.
Import FdManager OpObjects.
#[export] Instance fast_heap : Allocator := {| reuses_freed_block := true |}.
#[export] Instance mem_calls : SyncCalls mem := {|
  sys_stat_all p w :=
    match m_files w !! p with
    | Some f => ((0, Stat 0 0 S_IFREG 1 0 0 0 (f_size f) 0 0 (0, 0) (0, 0) (0, 0)), w)
    | None => fail ENOENT (-1, no_stat) w
    end;
  sys_fstat _ w := fail EBADF (-1, no_stat) w;
  sys_read_dir p w := (match m_dirs w !! p with Some names => Some (map (λ n, Dirent n 0) names, None) | None => None end, w);
  sys_rename _ _ w := (0, w);
  sys_rmdir _ w := (0, w);
  sys_link _ _ w := (0, w);
  sys_symlink _ _ w := (0, w);
  sys_readlink _ _ w := fail EINVAL (-1, "") w;
  sys_access p _ w := match m_files w !! p with Some _ => (0, w) | None => fail ENOENT (-1) w end;
  sys_chmod _ _ w := (0, w);
  sys_chown _ _ _ w := (0, w);
|}.
Definition base (id : Z) : OP.t := OP.mk id 0 0 (-1) true.
Definition wop : data_op := IOProxyDataOP.mk (base 0) IOProxyDataOP.write "/data/f" None "hello" 5 100 0 "" "".
Definition rop : data_op := IOProxyDataOP.mk (base 1) IOProxyDataOP.read "/data/f" None "" 5 100 0 "" "".
(** An empty file, opened. *)
Definition disk : mem := Mem 3 ∅ {["/data/f" := empty_file]} {["/data" := ["f"]]} ∅ 0.
Definition opened : FdManager.t * mem :=
  match get_file_handler "/data/f" FdManager.init disk with
  | (Val (_, m), w) => (m, w)
  | (UB, w) => (FdManager.init, w)
  end.
Lemma opened_ready : ready "/data/f" 3 opened.1.
Proof.
  split_and!; [|done|by eexists; split; reflexivity|by eexists; split; reflexivity].
  unfold opened. destruct (make_wf (K := string) (V := Z) 0) as [Hw Ha].
  assert (Hinv : fd_inv ∅ FdManager.init disk) by (split_and!; [exact Hw|done|]; split_and!; [constructor|set_solver|done]).
  pose proof (open_new_ok ∅ "/data/f" O_RDWR 436 FdManager.init disk Hinv eq_refl ltac:(done)) as Ho.
  unfold get_file_handler, mbind, M_bind. unfold wp in Ho.
  destruct (FdManager.open "/data/f" O_RDWR 436 FdManager.init disk) as [[[fd m]|] w]; [|done].
  destruct Ho as [[Hwf _] _]. destruct (fd <? 0); [exact Hwf|]. by destruct (file_handlers m !! fd).
Qed.
End OpRuns.
Import OpRuns.

Lemma write_then_read_witness :
  match (r ← OpObjects.do_op 1 (IO_PROXY_DATA wop) opened.1; '(_, m) ← deref r;
         r ← OpObjects.do_op 1 (OpObjects.prepare_op (IO_PROXY_DATA rop)) m; '(got, _) ← deref r; mret got) opened.2 with
  | (Val (IO_PROXY_DATA op), _) => op.(IOProxyDataOP.obuf) = Some (5, "hello") ∧ IOProxyDataOP.error_code op = 0
  | _ => False
  end.
Proof.
  assert (Hlive : live (W := mem) opened.2 3) by (by eexists).
  pose proof (write_then_read 0 3 wop rop opened.1 opened.2 opened_ready Hlive eq_refl eq_refl eq_refl eq_refl eq_refl
    eq_refl eq_refl eq_refl eq_refl ltac:(done) ltac:(done) ltac:(done)) as H.
  change reuses_freed_block with true in H. cbv iota in H.
  unfold wp, mbind, M_bind in *. destruct (OpObjects.do_op 1 (IO_PROXY_DATA wop) opened.1 opened.2) as [[r|] w]; [|done].
  destruct r as [[fin m]|]; [|done]. unfold deref, mret, M_ret in *. destruct (OpObjects.do_op 1 _ m w) as [[[[got m']|]|] w']; [|done..].
  destruct H as [_ ->]. split; reflexivity.
Defined.
