(* ===== verification/Replica.v ===== *)
(** * Replication between centres (io_proxy/replica_mgr.cc)

    [ReplicaMgr] of one I/O proxy: the queue of requests that have to be repeated
    in the other centres of a space, the creation of a replicated space, the index
    updates and the transfer of data. A call of another proxy is the interface
    [Grpc], a function of the world; protobuf's text form of the directory listing
    is [Protobuf]. Files are held by their descriptor number: the shared handler is
    the entry of [file_handlers] (FdManager.v). Dereferencing a null handler or a
    null bitmap, an unknown centre, an uncaught exception and a call that never
    returns are all [undefined]. *)
From S2P Require Import Prelude CxxString Json Records Lru FdManager Op.

Class Grpc (W : Type) : Type := {
  (** the reply of the proxy at the address, [None] when the call failed *)
  grpc_submit : string → OpRequest.t → W → option OpReply.t * W;
}.
Class Protobuf : Type := {
  pb_serialize : OpReply.t → string;
  (** what parsing leaves in a fresh message *)
  pb_parse : string → OpReply.t;
}.

(** A [char] as an [int] (signed, as on x86), and back. *)
Definition schar (c : ascii) : Z := if byte_of c <? 128 then byte_of c else byte_of c - 256.
Definition char_of (z : Z) : ascii := ascii_of_N (Z.to_N (z mod 256)).
(** [s[0]] of a [std::string]. *)
Definition front (s : string) : ascii := match s with String c _ => c | "" => zero end.
(** The centre a byte of a centre list stands for: [uint32_t id = cids[i]]. *)
Definition centre_id (c : ascii) : Z := to_u32 (schar c).

(** [boost::split] at ",/|" with adjacent separators compressed. *)
Definition is_cid_sep (c : ascii) : bool := existsb (Ascii.eqb c) [","; "/"; "|"]%char.
Fixpoint split_cids (after_sep : bool) (s : string) : list string :=
  match s with
  | "" => [""]
  | String c s =>
      if is_cid_sep c then (if after_sep then split_cids true s else "" :: split_cids true s)
      else match split_cids false s with
           | p :: ps => String c p :: ps
           | [] => [String c ""]
           end
  end.

Module ReplicaMgr.
Record t : Type := mk {
  ioproxys : gmap Z IOProxyNode.t;
  mcid : Z;
  (** channels by proxy and number: the address each was opened to *)
  operators : gmap string string;
  m_new : list OpRequest.t;
}.
Definition m_max_new : Z := 1024 * 1024.
Definition init : t := mk ∅ 0 ∅ [].
Definition set_mcid (v : Z) (r : t) : t := mk r.(ioproxys) v r.(operators) r.(m_new).
Definition set_ioproxys (v : gmap Z IOProxyNode.t) (r : t) : t := mk v r.(mcid) r.(operators) r.(m_new).
Definition set_operators (v : gmap string string) (r : t) : t := mk r.(ioproxys) r.(mcid) v r.(m_new).
Definition set_new (v : list OpRequest.t) (r : t) : t := mk r.(ioproxys) r.(mcid) r.(operators) v.
End ReplicaMgr.

(** The parts of one [IOProxy] that handle requests. *)
Module IOProxy.
Section proxy.
Context `{Roaring}.
Record t : Type := mk {
  data_path : string;
  fdm : FdManager.t;
  repm : ReplicaMgr.t;
}.
Definition set_fdm (v : FdManager.t) (p : t) : t := mk p.(data_path) v p.(repm).
Definition set_repm (v : ReplicaMgr.t) (p : t) : t := mk p.(data_path) p.(fdm) v.
Definition handler (fd : Z) (p : t) : option HvsFileHandler.t := p.(fdm).(FdManager.file_handlers) !! fd.
Definition set_handler (fd : Z) (h : HvsFileHandler.t) (p : t) : t :=
  set_fdm (FdManager.mk p.(fdm).(FdManager.fds) (<[fd := h]> p.(fdm).(FdManager.file_handlers))
    p.(fdm).(FdManager.max_fd_num)) p.
End proxy.
End IOProxy.

Module Replication.
Import ReplicaMgr.
Notation proxy := IOProxy.t.

Definition centers_attr : string := HvsFileHandler.centers_name.
Definition sync_blk : Z := 0x20000.

Section replica.
Context {W : Type} `{Posix W, !Fs W, Roaring, Allocator, Grpc W, Protobuf}.
(** A bound on the directories of a space, for the walk of
    [_replicate_space_request]. *)
Variable walk_fuel : nat.

(** ** Start-up *)

(** [stoi] of the configured centre, cut to the [uint8_t] it is stored in. *)
Definition start (center_id : string) (r : t) : M W t :=
  id ← deref (stoi center_id);
  mret (set_mcid (id mod 256) r).

(** The proxies the manager lists, as [IOProxy::fresh_stat] records them. A centre
    that is no number throws in the continuation of the request: the library drops
    the exception and what follows is not done. *)
Fixpoint learn (nodes : list IOProxyNode.t) (r : t) : bool * t :=
  match nodes with
  | [] => (true, r)
  | iop :: nodes =>
      match stoi iop.(IOProxyNode.cid) with
      | Some id => learn nodes (set_ioproxys (<[to_u32 id := iop]> r.(ioproxys)) r)
      | None => (false, r)
      end
  end.

(** ** Channels *)

(** A number missing from [ioproxys] gives a null node, which is dereferenced. *)
Definition get_operator (node : option IOProxyNode.t) (channel_id : Z) (r : t) : M W (string * t) :=
  node ← deref node;
  let channel_key := node.(IOProxyNode.uuid) +:+ pretty channel_id in
  match r.(operators) !! channel_key with
  | Some oper => mret (oper, r)
  | None =>
      let target_str := snprintf 256 (c_str node.(IOProxyNode.ip) +:+ ":" +:+ pretty (to_u32 node.(IOProxyNode.rpc_port))) in
      mret (target_str, set_operators (<[channel_key := target_str]> r.(operators)) r)
  end.

(** [oper->Submit(request, reply)] to a centre: the reply is left as it was
    initialised when the call fails. *)
Definition submit_to (id : Z) (request : OpRequest.t) (r : t) : M W (OpReply.t * t) :=
  '(oper, r) ← get_operator (r.(ioproxys) !! id) 100 r;
  reply ← extern (grpc_submit oper request);
  mret (default OpReply.init reply, r).

(** ** The queue *)

(** The loop of [_flush] over the centres of one request. *)
Fixpoint flush_centres (cids : string) (request : OpRequest.t) (r : t) : M W t :=
  match cids with
  | "" => mret r
  | String c cids =>
      if centre_id c =? r.(mcid) then flush_centres cids request r
      else
        '(_, r) ← submit_to (centre_id c) request r;
        flush_centres cids request r
  end.

(** The request as it is sent: a write becomes an index update, and the sender
    names itself; [None] for the attributes that belong to the replication. *)
Definition outgoing (mcid : Z) (request : OpRequest.t) : option OpRequest.t :=
  let request :=
    if decide (request.(OpRequest.type) = OpType.write)
    then OpRequest.set_type OpType.rep_update_index request else request in
  if bool_decide (request.(OpRequest.type) = OpType.setxattr) &&
     String.eqb (substr 0 9 (OpRequest.xattr_name request)) "user.gvds"
  then None
  else Some (OpRequest.set_extra (String (char_of mcid) "") request).

Fixpoint flush_requests (q : list OpRequest.t) (r : t) : M W t :=
  match q with
  | [] => mret r
  | request :: q =>
      match outgoing r.(mcid) request with
      | None => flush_requests q r
      | Some out =>
          r ← flush_centres request.(OpRequest.extra) out r;
          flush_requests q r
      end
  end.
Definition flush (r : t) : M W t := flush_requests r.(m_new) (set_new [] r).

(** When the queue is over its bound the call waits until the flusher has taken
    it, which the flusher does in [flush]. *)
Definition submit_replicated_request (request : OpRequest.t) (r : t) : M W t :=
  r ← (if m_max_new <? Z.of_nat (length r.(m_new)) then flush r else mret r);
  mret (set_new (r.(m_new) ++ [request]) r).

(** ** Handlers of the requests of other proxies *)

(** The files and directories of a listing, made under the data path. *)
Definition make_node (name : string) (a : Attr.t) (origin : Z) (p : proxy) : M W proxy :=
  let nodepath := p.(IOProxy.data_path) /+ name in
  p ← match a.(Attr.type) with
      | Directory => _ ← extern (sys_mkdir (c_str nodepath) a.(Attr.permission)); mret p
      | RegularFile =>
          _ ← extern (sys_creat (c_str nodepath) a.(Attr.permission));
          _ ← extern (sys_truncate (c_str nodepath) (to_i64 a.(Attr.size)));
          '(fh, fdm) ← FdManager.get_file_handler nodepath p.(IOProxy.fdm);
          let p := IOProxy.set_fdm fdm p in
          fd ← deref fh;
          h ← deref (IOProxy.handler fd p);
          mret (IOProxy.set_handler fd (HvsFileHandler.set_bitmap origin (rb_from_range 0 a.(Attr.size) 1) h) p)
      | Link => mret p
      end;
  _ ← extern (sys_utimensat (c_str nodepath) (to_i64 a.(Attr.ctime), 0) (to_i64 a.(Attr.mtime), 0) AT_SYMLINK_NOFOLLOW);
  mret p.
Fixpoint make_nodes (names : list string) (attrs : list Attr.t) (origin : Z) (p : proxy) : M W proxy :=
  match names, attrs with
  | [], _ => mret p
  | name :: names, a :: attrs => p ← make_node name a origin p; make_nodes names attrs origin p
  | _ :: _, [] => undefined
  end.

Definition _handle_create_replicated_space (request : OpRequest.t) (reply : OpReply.t) (p : proxy) : M W (OpReply.t * proxy) :=
  let rep_space_path := p.(IOProxy.data_path) /+ request.(OpRequest.filepath) in
  err ← extern (sys_mkdir (c_str rep_space_path) 509);
  e ← errno;
  if (err =? -1) && negb (e =? EEXIST) then mret (OpReply.set_err_code (- e) reply, p)
  else
    sz ← extern (sys_setxattr (c_str rep_space_path) centers_attr request.(OpRequest.extra) XATTR_CREATE);
    if sz =? -1 then e ← errno; mret (OpReply.set_err_code (- e) reply, p)
    else
      let dir_entries := pb_parse request.(OpRequest.data) in
      p ← make_nodes dir_entries.(OpReply.entry_names) dir_entries.(OpReply.entries)
            (schar (front request.(OpRequest.extra))) p;
      mret (OpReply.set_err_code 0 reply, p).

(** The ranges read one after the other: what was read of each, concatenated,
    and where it belongs; or the error. *)
Fixpoint read_ranges (fd : Z) (ranges : list (Z * Z)) (buf : string) (reply : OpReply.t) : M W (option string * OpReply.t) :=
  match ranges with
  | [] => mret (Some buf, reply)
  | (off1, off2) :: ranges =>
      '(ret, bytes) ← extern (sys_pread fd (off2 - off1) (to_i64 off1));
      if ret =? -1 then e ← errno; mret (None, OpReply.set_err_code (- e) reply)
      else read_ranges fd ranges (buf +:+ str_take (Z.to_nat ret) bytes)
             (OpReply.add_io_param (IOParam.mk off1 ret) reply)
  end.

Definition _handle_file_sync_data (request : OpRequest.t) (reply : OpReply.t) (p : proxy) : M W (OpReply.t * proxy) :=
  let filepath := p.(IOProxy.data_path) /+ request.(OpRequest.filepath) in
  let off := (OpRequest.io_param request).(IOParam.offset) in
  let len := (OpRequest.io_param request).(IOParam.size) in
  '(fd, fdm) ← FdManager.get_file_handler filepath p.(IOProxy.fdm);
  let p := IOProxy.set_fdm fdm p in
  fd ← deref fd;
  h ← deref (IOProxy.handler fd p);
  data_ranges ← HvsFileHandler.find_data_in_range off (to_u64 (off + len)) h;
  data_ranges ← deref data_ranges;
  '(buf, reply) ← read_ranges h.(HvsFileHandler.fd) data_ranges "" reply;
  match buf with
  | Some buf => mret (OpReply.set_err_code 0 (OpReply.set_data buf reply), p)
  | None => mret (reply, p)
  end.

Definition _handle_file_index_update (request : OpRequest.t) (reply : OpReply.t) (p : proxy) : M W (OpReply.t * proxy) :=
  let filepath := p.(IOProxy.data_path) /+ request.(OpRequest.filepath) in
  let off := (OpRequest.io_param request).(IOParam.offset) in
  let len := (OpRequest.io_param request).(IOParam.size) in
  '(fd, fdm) ← FdManager.get_file_handler filepath p.(IOProxy.fdm);
  let p := IOProxy.set_fdm fdm p in
  fd ← deref fd;
  h ← deref (IOProxy.handler fd p);
  let id := byte_of (front request.(OpRequest.extra)) in
  if decide (request.(OpRequest.type) = OpType.rep_update_index) then
    '(bitmap, h) ← HvsFileHandler.get_bitmap id true h;
    bitmap ← deref bitmap;
    let bitmap := rb_add_range_closed bitmap (to_u32 (off / sync_blk)) (to_u32 (to_u64 (off + len) / sync_blk)) in
    let h := HvsFileHandler.set_bitmap id (Some bitmap) h in
    _ ← HvsFileHandler.punch_hole_local off len h;
    _ ← HvsFileHandler.flush_bitmap id h;
    mret (OpReply.set_err_code 0 reply, IOProxy.set_handler fd h p)
  else undefined.

(** ** Pulling data from the other centres *)

(** Writing what a reply carries: each range takes the next bytes of the data. *)
Fixpoint write_ranges (fd : Z) (params : list IOParam.t) (data : string) (cursor : Z) : M W unit :=
  match params with
  | [] => mret tt
  | q :: params =>
      bytes ← bytes_of data cursor q.(IOParam.size);
      _ ← extern (sys_pwrite fd bytes (to_i64 q.(IOParam.offset)));
      write_ranges fd params data (to_i32 (cursor + q.(IOParam.size)))
  end.
Fixpoint pull_centres (cids : string) (fd : Z) (request : OpRequest.t) (r : t) : M W t :=
  match cids with
  | "" => mret r
  | String c cids =>
      if centre_id c =? r.(mcid) then pull_centres cids fd request r
      else
        '(reply, r) ← submit_to (centre_id c) request r;
        _ ← write_ranges fd reply.(OpReply.io_params) (OpReply.data reply) 0;
        pull_centres cids fd request r
  end.

(** The attribute of the space a path is in: [None] when there is none. *)
Definition space_centres (path : string) (p : proxy) : M W (option string) :=
  space ← deref (path_begin path);
  '(sz, cid) ← extern (sys_getxattr (c_str (p.(IOProxy.data_path) /+ space)) centers_attr 256);
  mret (if sz =? -1 then None else Some (str_take (Z.to_nat sz) (HvsFileHandler.buffer 256 cid))).

Definition sync_filedata (path : string) (off len : Z) (p : proxy) : M W (Z * proxy) :=
  '(fh, fdm) ← FdManager.get_file_handler (p.(IOProxy.data_path) /+ path) p.(IOProxy.fdm);
  let p := IOProxy.set_fdm fdm p in
  fd ← deref fh;
  h ← deref (IOProxy.handler fd p);
  holes ← HvsFileHandler.find_holes_in_range off (to_u64 (off + len)) h;
  holes ← deref holes;
  if (length holes =? 0)%nat then mret (0, p)
  else
    cids ← space_centres path p;
    match cids with
    | None => mret (0, p)
    | Some cids =>
        let request := OpRequest.mk 0 path OpType.rep_sync_data "" (OpRequest.io_param_case (IOParam.mk off len)) 0 0 "" in
        r ← pull_centres cids h.(HvsFileHandler.fd) request p.(IOProxy.repm);
        mret (0, IOProxy.set_repm r p)
    end.

Definition sync_unalign_page (path : string) (off len : Z) (p : proxy) : M W (Z * proxy) :=
  let page := HvsFileHandler.page_size in
  let end_ := to_u64 (off + len) in
  p ← (if negb (Z.land off HvsFileHandler.page_mask =? 0)
       then '(_, p) ← sync_filedata path (to_u64 (off / page * page)) page p; mret p else mret p);
  p ← (if negb (Z.land end_ HvsFileHandler.page_mask =? 0)
       then '(_, p) ← sync_filedata path (to_u64 (end_ / page * page)) page p; mret p else mret p);
  mret (0, p).

(** ** Creating a replicated space *)

(** The entries of one directory: what is added to the listing, and the
    directories pushed. *)
Fixpoint walk_entries (data_path cur_dir : string) (names dirs : list string) (reply : OpReply.t)
    : M W (list string * OpReply.t) :=
  match names with
  | [] => mret (dirs, reply)
  | filename :: names =>
      if String.eqb filename "." || String.eqb filename ".."
      then walk_entries data_path cur_dir names dirs reply
      else
        '(err, attr) ← get_attr (data_path /+ cur_dir /+ filename);
        if negb (err =? 0) then walk_entries data_path cur_dir names dirs reply
        else
          let dirs := if decide (attr.(Attr.type) = Directory) then cur_dir /+ filename :: dirs else dirs in
          walk_entries data_path cur_dir names dirs (OpReply.add_entry (cur_dir /+ filename) attr reply)
  end.
(** The stack is a list, its top first. *)
Fixpoint walk (fuel : nat) (data_path : string) (dirs : list string) (reply : OpReply.t) : M W OpReply.t :=
  match dirs with
  | [] => mret reply
  | cur_dir :: dirs =>
      match fuel with
      | 0%nat => undefined
      | S fuel =>
          dp ← extern (sys_opendir (c_str (data_path /+ cur_dir)));
          match dp with
          | None => _ ← extern sys_closedir_null; walk fuel data_path dirs reply
          | Some names =>
              '(dirs, reply) ← walk_entries data_path cur_dir names dirs reply;
              walk fuel data_path dirs reply
          end
      end
  end.
Definition _replicate_space_request (space cids : string) (p : proxy) : M W OpRequest.t :=
  dir_entries ← walk walk_fuel p.(IOProxy.data_path) [space] OpReply.init;
  mret (OpRequest.mk 0 space OpType.rep_init_space cids OpRequest.no_param 0 0 (pb_serialize dir_entries)).

(** The centres named in the request, one byte each; [None] when one has no
    proxy. *)
Fixpoint compress_cids (tmp : list string) (r : t) (cids : string) : M W (option string) :=
  match tmp with
  | [] => mret (Some cids)
  | cid :: tmp =>
      id ← deref (stoi cid);
      match r.(ioproxys) !! to_u32 id with
      | None => mret None
      | Some _ => compress_cids tmp r (cids +:+ String (char_of id) "")
      end
  end.
Fixpoint init_centres (cids : string) (request : OpRequest.t) (r : t) : M W t :=
  match cids with
  | "" => mret r
  | String c cids => '(_, r) ← submit_to (centre_id c) request r; init_centres cids request r
  end.

Definition create_replicated_space (filepath cids_str : string) (p : proxy) : M W (Z * proxy) :=
  let r := p.(IOProxy.repm) in
  cids ← compress_cids (split_cids false cids_str) r (String (char_of r.(mcid)) "");
  match cids with
  | None => mret (- ENXIO, p)
  | Some cids =>
      space ← deref (path_begin filepath);
      sz ← extern (sys_setxattr (c_str (p.(IOProxy.data_path) /+ space)) centers_attr cids XATTR_CREATE);
      if sz =? -1 then mret (- EMLINK, p)
      else
        request ← _replicate_space_request space cids p;
        r ← init_centres (substr_from 1 cids) request r;
        mret (0, IOProxy.set_repm r p)
  end.

(** ** What is replicated *)

Definition readonly (t : OpType.t) : bool :=
  match t with
  | OpType.getattr | OpType.access | OpType.getxattr | OpType.listxattr | OpType.read
  | OpType.flush | OpType.release | OpType.fsync | OpType.write_buf | OpType.read_buf
  | OpType.opendir | OpType.releasedir | OpType.readdir | OpType.fsyncdir
  | OpType.readlink | OpType.bmap | OpType.ioctl | OpType.poll => true
  | _ => false
  end.
Definition modifies (t : OpType.t) : bool :=
  match t with
  | OpType.open | OpType.rename | OpType.utimens | OpType.lock | OpType.setxattr
  | OpType.removexattr | OpType.chmod | OpType.chown | OpType.truncate | OpType.create
  | OpType.fallocate | OpType.flock | OpType.mkdir | OpType.rmdir | OpType.unlink
  | OpType.symlink | OpType.link => true
  | _ => false
  end.

(** Queueing a request that took effect in a space with other centres. *)
Definition queue_replica (request : OpRequest.t) (reply : OpReply.t) (p : proxy) : M W (OpReply.t * proxy) :=
  if reply.(OpReply.err_code) <? 0 then mret (reply, p)
  else
    cids ← space_centres request.(OpRequest.filepath) p;
    match cids with
    | None => mret (reply, p)
    | Some cids =>
        if CxxString.size cids <? 2 then mret (reply, p)
        else
          r ← submit_replicated_request (OpRequest.set_extra cids request) p.(IOProxy.repm);
          mret (reply, IOProxy.set_repm r p)
    end.

Definition handle_replica_async (request : OpRequest.t) (reply : OpReply.t) (p : proxy) : M W (OpReply.t * proxy) :=
  if String.eqb request.(OpRequest.filepath) "" then mret (reply, p)
  else if readonly request.(OpRequest.type) then mret (reply, p)
  else if modifies request.(OpRequest.type) then
    if CxxString.size request.(OpRequest.extra) =? 0 then queue_replica request reply p else mret (reply, p)
  else match request.(OpRequest.type) with
  | OpType.write => queue_replica (OpRequest.set_data "" request) reply p
  | OpType.rep_init_space => _handle_create_replicated_space request reply p
  | OpType.rep_sync_data => _handle_file_sync_data request reply p
  | OpType.rep_update_index => _handle_file_index_update request reply p
  | _ => queue_replica request reply p
  end.
End replica.

(** ** The queue is delivered *)

(** A network that remembers the calls made. *)
Class GrpcLog (W : Type) `{Grpc W} : Type := {
  sent : W → list (string * OpRequest.t);
  submit_logs t r w : sent (grpc_submit t r w).2 = sent w ++ [(t, r)];
}.

(** The key of the channel a proxy is called on, and the address it leads to. *)
Definition channel_key (node : IOProxyNode.t) : string := node.(IOProxyNode.uuid) +:+ pretty 100.
Definition target (node : IOProxyNode.t) : string :=
  snprintf 256 (c_str node.(IOProxyNode.ip) +:+ ":" +:+ pretty (to_u32 node.(IOProxyNode.rpc_port))).

Section delivery.
Context {W : Type} `{GrpcLog W}.
Implicit Types (r : t) (w : W).

(** Every channel leads to the proxy it was opened for; proxies that share an
    identifier are at one address. *)
Definition channels_ok r : Prop :=
  (∀ i j n1 n2, r.(ioproxys) !! i = Some n1 → r.(ioproxys) !! j = Some n2 →
     channel_key n1 = channel_key n2 → target n1 = target n2) ∧
  (∀ i n a, r.(ioproxys) !! i = Some n → r.(operators) !! channel_key n = Some a → a = target n).

Lemma get_operator_ok i node r : channels_ok r → r.(ioproxys) !! i = Some node →
  ∃ r', (∀ w, get_operator (r.(ioproxys) !! i) 100 r w = (Val (target node, r'), w)) ∧ channels_ok r' ∧
    r'.(ioproxys) = r.(ioproxys) ∧ r'.(mcid) = r.(mcid) ∧ r'.(m_new) = r.(m_new).
Proof.
  intros [Hinj Hch] Hi. unfold get_operator. rewrite Hi. cbn [deref]. unfold mbind, M_bind, mret, M_ret.
  fold (channel_key node) (target node). destruct (r.(operators) !! channel_key node) as [a|] eqn:Ho.
  - rewrite (Hch _ _ _ Hi Ho). by exists r.
  - eexists. split; [done|]. split; [|done]. split; [exact Hinj|]. cbn. intros j n a Hj.
    destruct (decide (channel_key node = channel_key n)) as [He|He].
    + rewrite He, lookup_insert_eq. intros [= <-]. by apply (Hinj i j).
    + rewrite lookup_insert_ne by done. by apply (Hch j).
Qed.

(** The calls that deliver a queue: one per request and other centre, in order. *)
Definition address r (id : Z) : string := default "" (target <$> r.(ioproxys) !! id).
Fixpoint calls_for r (cids : string) (out : OpRequest.t) : list (string * OpRequest.t) :=
  match cids with
  | "" => []
  | String c cids =>
      if centre_id c =? r.(mcid) then calls_for r cids out
      else (address r (centre_id c), out) :: calls_for r cids out
  end.
Definition deliveries r (q : list OpRequest.t) : list (string * OpRequest.t) :=
  q ≫= λ request, match outgoing r.(mcid) request with
                  | Some out => calls_for r request.(OpRequest.extra) out
                  | None => []
                  end.
Lemma deliveries_cons r request q : deliveries r (request :: q) =
  match outgoing r.(mcid) request with Some out => calls_for r request.(OpRequest.extra) out | None => [] end
  ++ deliveries r q.
Proof. done. Qed.
Fixpoint known r (cids : string) : Prop :=
  match cids with
  | "" => True
  | String c cids => (centre_id c = r.(mcid) ∨ is_Some (r.(ioproxys) !! centre_id c)) ∧ known r cids
  end.

(** What delivering leaves alone. *)
Definition same_centres r r' : Prop := r'.(ioproxys) = r.(ioproxys) ∧ r'.(mcid) = r.(mcid).
Lemma same_known r r' cids : same_centres r r' → known r cids → known r' cids.
Proof. intros [Hp Hm]. induction cids as [|c cids IH]; cbn; [done|]. rewrite Hp, Hm. intros [? ?]. auto. Qed.
Lemma same_calls r r' cids out : same_centres r r' → calls_for r' cids out = calls_for r cids out.
Proof. intros [Hp Hm]. induction cids as [|c cids IH]; cbn; [done|]. unfold address. by rewrite Hp, Hm, IH. Qed.

Lemma flush_centres_delivers cids out r w : channels_ok r → known r cids →
  wp (flush_centres cids out r) (λ r' w', same_centres r r' ∧ channels_ok r' ∧ r'.(m_new) = r.(m_new) ∧
    sent w' = sent w ++ calls_for r cids out) never w.
Proof.
  revert r w. induction cids as [|c cids IH]; intros r w Hch Hk; cbn [flush_centres calls_for].
  { apply wp_ret. by rewrite (right_id_L [] (++)). }
  destruct Hk as [Hc Hk]. destruct (Z.eqb_spec (centre_id c) r.(mcid)) as [|Hne]; [by apply IH|].
  destruct Hc as [|[node Hn]]; [done|]. unfold submit_to. rewrite Hn.
  destruct (get_operator_ok _ _ _ Hch Hn) as (r1 & Hrun & Hch1 & Hp1 & Hm1 & Hq1). rewrite Hn in Hrun.
  apply wp_bind, wp_bind. unfold wp at 1. rewrite Hrun. wp_step. apply wp_extern. apply wp_ret.
  assert (Hs : same_centres r r1) by done.
  eapply wp_mono; [| |apply (IH r1); [done|by eapply same_known]]; [|done].
  intros r' w' ([Hp Hm] & Hch' & Hq & Hw). split_and!; [split; congruence|done|congruence|].
  rewrite Hw, submit_logs, (same_calls r r1) by done. unfold address. rewrite Hn. by rewrite <-(assoc_L (++)).
Qed.

(** C3: the flusher empties the queue and delivers it. Where every centre the queued
    requests name is this one or has a proxy in the table, and every channel made so
    far leads to the proxy it is named for, a turn of the flusher submits each request
    in the order of the queue, once for every name of another centre that its space
    has, to the proxy of that centre, with the name of this centre put in: a write as
    an index update, the setting of the replication's own attributes not at all. What
    comes of a call is not looked at, and a failed one is not repeated. *)
Theorem flush_delivers r w : channels_ok r → Forall (λ q, known r q.(OpRequest.extra)) r.(m_new) →
  wp (flush r) (λ r' w', r'.(m_new) = [] ∧ same_centres r r' ∧ channels_ok r' ∧
    sent w' = sent w ++ deliveries r r.(m_new)) never w.
Proof.
  intros Hch Hk. unfold flush.
  enough (Hgen : ∀ q r0 w0, same_centres r r0 → channels_ok r0 → Forall (λ q, known r q.(OpRequest.extra)) q →
    wp (flush_requests q r0) (λ r' w', r'.(m_new) = r0.(m_new) ∧ same_centres r r' ∧ channels_ok r' ∧
      sent w' = sent w0 ++ deliveries r q) never w0).
  { eapply wp_mono; [| |apply (Hgen r.(m_new) (set_new [] r) w); done]; done. }
  clear Hch Hk w. induction q as [|request q IH]; intros r0 w0 Hs Hch Hk; cbn [flush_requests].
  { apply wp_ret. change (deliveries r []) with (@nil (string * OpRequest.t)). by rewrite (right_id_L [] (++)). }
  apply Forall_cons in Hk as [Hreq Hk]. rewrite deliveries_cons.
  pose proof Hs as [_ Hm]. rewrite Hm. destruct (outgoing (mcid r) request) as [out|]; [|by apply IH].
  wp_step. eapply wp_mono; [| |apply flush_centres_delivers; [done|by eapply same_known]]; [|done].
  intros r1 w1 ([Hp1 Hm1] & Hch1 & Hq1 & Hw1). assert (Hs1 : same_centres r r1) by (destruct Hs; split; congruence).
  eapply wp_mono; [| |by apply IH]; [|done]. intros r2 w2 (Hq2 & Hs2 & Hch2 & Hw2). split_and!; [congruence|done|done|].
  rewrite Hw2, Hw1, (same_calls r r0) by done. by rewrite <-(assoc_L (++)).
Qed.
End delivery.

(** A network that only remembers. *)
#[export] Instance log_grpc : Grpc (list (string * OpRequest.t)) := {|
  grpc_submit t r w := (None, w ++ [(t, r)]);
|}.
#[export] Instance log_sent : GrpcLog (list (string * OpRequest.t)).
Proof. refine {| sent w := w |}. done. Defined.

Section delivery_witness.
Let node (id : Z) : IOProxyNode.t := IOProxyNode.mk 8000 0 "10.0.0.1" "" IOProxyNode.Running (pretty id) (pretty id).
Let write : OpRequest.t :=
  OpRequest.mk 0 "s/f" OpType.write (String (char_of 1) (String (char_of 2) (String (char_of 3) "")))
    (OpRequest.io_param_case (IOParam.mk 0 10)) 0 0 "".
Let r0 : t := mk {[2 := node 2; 3 := node 3]} 1 ∅ [write].

Theorem flush_delivers_witness :
  wp (flush r0) (λ r' w', r'.(m_new) = [] ∧ same_centres r0 r' ∧ channels_ok r' ∧
    sent w' = sent ([] : list (string * OpRequest.t)) ++ deliveries r0 [write]) never [].
Proof.
  apply (flush_delivers r0 []).
  - split; [|intros i n a _ Ha; discriminate Ha]. intros i j n1 n2 Hi Hj _.
    assert (Ht : ∀ k n, r0.(ioproxys) !! k = Some n → n = node 2 ∨ n = node 3).
    { intros k n. cbn. intros [[_ <-]|[_ [_ <-]%lookup_singleton_Some]]%lookup_insert_Some; auto. }
    by destruct (Ht i n1 Hi) as [->| ->], (Ht j n2 Hj) as [->| ->].
  - apply Forall_singleton. cbn [known write OpRequest.extra]. split_and!; [by left|right; by eexists|right; by eexists|done].
Defined.
End delivery_witness.
End Replication.
