(* ===== verification/ProxyOp.v ===== *)
(** * Request handlers of the I/O proxy (io_proxy/proxy_op.cc)

    [do_op] carries one request out on the local file system and hands it to the
    replication (Replica.v). The reply is filled as the code fills it: the
    [err_code] of a success is zero, a descriptor or a number of bytes. Workers of
    the proxy run [do_op] one request at a time each; a run of it is one step
    here. The older [OP] interface (no longer reachable from a request) is in
    SyncIo.v. *)
From S2P Require Import Prelude CxxString Json Records Lru FdManager Op Replica.

Module ProxyOP.
Import OpReply Replication.
Notation proxy := IOProxy.t.

Section handlers.
Context {W : Type} `{Posix W, !Fs W, Roaring, Allocator, Grpc W, Protobuf}.
Variable walk_fuel : nat.

Definition fs_perms_mask : Z := 4095.

(** [-errno] when a call returned -1. *)
Definition err_if (err : Z) (reply : OpReply.t) : M W OpReply.t :=
  if err =? -1 then e ← errno; mret (set_err_code (- e) reply) else mret reply.
(** The same, and the result of the call otherwise. *)
Definition err_or (err : Z) (reply : OpReply.t) : M W OpReply.t :=
  if err =? -1 then e ← errno; mret (set_err_code (- e) reply) else mret (set_err_code err reply).

(** [fdm.open] on behalf of a request. *)
Definition fdm_open (path : string) (flags mode : Z) (p : proxy) : M W (Z * proxy) :=
  '(fd, fdm) ← FdManager.open path flags mode p.(IOProxy.fdm);
  mret (fd, IOProxy.set_fdm fdm p).

(** The entries of a directory: those that cannot be looked at are left out. *)
Fixpoint list_entries (dir : string) (names : list string) (reply : OpReply.t) : M W OpReply.t :=
  match names with
  | [] => mret reply
  | filename :: names =>
      '(err, attr) ← get_attr (dir /+ filename);
      if negb (err =? 0) then list_entries dir names reply
      else list_entries dir names (add_entry filename attr reply)
  end.

(** [::closedir(NULL)] runs before [errno] is read when there is no stream. *)
Definition do_readdir (dir : string) (reply : OpReply.t) : M W OpReply.t :=
  dp ← extern (sys_opendir (c_str dir));
  match dp with
  | None => _ ← extern sys_closedir_null; e ← errno; mret (set_err_code (- e) reply)
  | Some [] => e ← errno; mret (set_err_code (- e) reply)
  | Some names => list_entries dir names reply
  end.

Definition do_read (request : OpRequest.t) (reply : OpReply.t) (p : proxy) : M W (OpReply.t * proxy) :=
  let off := (OpRequest.io_param request).(IOParam.offset) in
  let size := (OpRequest.io_param request).(IOParam.size) in
  '(fd, p) ← fdm_open (p.(IOProxy.data_path) /+ request.(OpRequest.filepath)) O_RDWR 429 p;
  if fd <? 0 then mret (set_err_code fd reply, p)
  else
    '(_, p) ← sync_filedata request.(OpRequest.filepath) off size p;
    '(ret, bytes) ← extern (sys_pread fd size (to_i64 off));
    if ret =? -1 then e ← errno; mret (set_err_code (- e) reply, p)
    else mret (set_err_code ret (set_data (HvsFileHandler.buffer (Z.to_nat size) bytes) reply), p).

Definition do_write (request : OpRequest.t) (reply : OpReply.t) (p : proxy) : M W (OpReply.t * proxy) :=
  let off := (OpRequest.io_param request).(IOParam.offset) in
  let size := (OpRequest.io_param request).(IOParam.size) in
  '(fd, p) ← fdm_open (p.(IOProxy.data_path) /+ request.(OpRequest.filepath)) O_RDWR 429 p;
  if fd <? 0 then mret (set_err_code fd reply, p)
  else
    '(_, p) ← sync_unalign_page request.(OpRequest.filepath) off size p;
    bytes ← bytes_of request.(OpRequest.data) 0 size;
    ret ← extern (sys_pwrite fd bytes (to_i64 off));
    reply ← err_or ret reply;
    mret (reply, p).

(** The [switch] of [do_op]. *)
Definition perform (request : OpRequest.t) (reply : OpReply.t) (p : proxy) : M W (OpReply.t * proxy) :=
  let path := p.(IOProxy.data_path) /+ request.(OpRequest.filepath) in
  let param := OpRequest.io_param request in
  match request.(OpRequest.type) with
  | OpType.getattr =>
      '(err, attr) ← get_attr path;
      mret (if negb (err =? 0) then set_err_code err reply else set_err_code 0 (set_attr attr reply), p)
  | OpType.rename =>
      ec ← extern (fs_rename path (p.(IOProxy.data_path) /+ OpRequest.newpath request));
      mret (set_err_code (- ec) reply, p)
  | OpType.utimens =>
      let ts := (to_i64 param.(IOParam.size), to_i64 param.(IOParam.offset)) in
      err ← extern (sys_utimensat (c_str path) ts ts AT_SYMLINK_NOFOLLOW);
      reply ← err_if err reply; mret (reply, p)
  | OpType.chmod =>
      ec ← extern (fs_permissions path (Z.land request.(OpRequest.mode) fs_perms_mask));
      mret (set_err_code (- ec) reply, p)
  | OpType.truncate =>
      ec ← extern (fs_resize_file path request.(OpRequest.size));
      mret (set_err_code (- ec) reply, p)
  | OpType.open =>
      '(fd, p) ← fdm_open path (to_i32 (Z.lor request.(OpRequest.mode) O_RDWR)) 420 p;
      mret (set_err_code fd reply, p)
  | OpType.release =>
      '(err, fdm) ← FdManager.close path p.(IOProxy.fdm);
      mret (set_err_code err reply, IOProxy.set_fdm fdm p)
  | OpType.create =>
      '(err, fdm) ← FdManager.create path (to_i32 request.(OpRequest.mode)) p.(IOProxy.fdm);
      mret (set_err_code err reply, IOProxy.set_fdm fdm p)
  | OpType.fallocate =>
      '(fd, p) ← fdm_open path (Z.lor O_CREAT O_RDWR) 438 p;
      if 0 <? fd then
        err ← extern (sys_fallocate fd (to_i32 request.(OpRequest.mode))
                (to_i64 param.(IOParam.offset)) (to_i64 param.(IOParam.size)));
        reply ← err_if err reply; mret (reply, p)
      else mret (set_err_code (- EBADF) reply, p)
  | OpType.mkdir => ec ← extern (fs_create_directory path); mret (set_err_code (- ec) reply, p)
  | OpType.rmdir => ec ← extern (fs_remove path); mret (set_err_code (- ec) reply, p)
  | OpType.readdir => reply ← do_readdir path reply; mret (reply, p)
  | OpType.read => do_read request reply p
  | OpType.write => do_write request reply p
  | OpType.unlink =>
      '(ret, fdm) ← FdManager.remove path p.(IOProxy.fdm);
      mret (set_err_code ret reply, IOProxy.set_fdm fdm p)
  | OpType.setxattr =>
      if String.eqb (OpRequest.xattr_name request) "user.replicate.create" then
        '(err, p) ← create_replicated_space walk_fuel request.(OpRequest.filepath) request.(OpRequest.data) p;
        mret (set_err_code err reply, p)
      else
        value ← bytes_of request.(OpRequest.data) 0 request.(OpRequest.size);
        err ← extern (sys_setxattr (c_str path) (c_str (OpRequest.xattr_name request)) value
                (to_i32 request.(OpRequest.mode)));
        reply ← err_if err reply; mret (reply, p)
  | OpType.getxattr =>
      '(err, value) ← extern (sys_getxattr (c_str path) (c_str (OpRequest.xattr_name request)) request.(OpRequest.size));
      reply ← err_or err reply;
      mret (if err =? -1 then reply
            else set_data (HvsFileHandler.buffer (Z.to_nat request.(OpRequest.size)) value) reply, p)
  | OpType.listxattr =>
      '(err, value) ← extern (sys_listxattr (c_str path) request.(OpRequest.size));
      reply ← err_or err reply;
      mret (if err =? -1 then reply
            else set_data (HvsFileHandler.buffer (Z.to_nat request.(OpRequest.size)) value) reply, p)
  | OpType.removexattr =>
      err ← extern (sys_removexattr (c_str path) (c_str (OpRequest.xattr_name request)));
      reply ← err_or err reply; mret (reply, p)
  | _ => mret (reply, p)
  end.

Definition do_op (request : OpRequest.t) (reply : OpReply.t) (p : proxy) : M W (OpReply.t * proxy) :=
  '(reply, p) ← perform request (set_err_code 0 (set_id request.(OpRequest.id) reply)) p;
  handle_replica_async request reply p.
End handlers.

(** ** Replication settles

    Nothing is assumed of the system here: the properties hold of every run that
    returns, and runs that do not return are let through by [anything]. *)
Section settle.
Context {W : Type} `{Posix W, !Fs W, Roaring, Allocator, Grpc W, Protobuf}.
Variable walk_fuel : nat.
Implicit Types (p : proxy) (r : ReplicaMgr.t) (w : W).

Definition anything : W → Prop := λ _, True.
Definition queue_of p : list OpRequest.t := p.(IOProxy.repm).(ReplicaMgr.m_new).
Definition table_of p : gmap Z IOProxyNode.t := p.(IOProxy.repm).(ReplicaMgr.ioproxys).

Lemma wp_call {A B} (m : M W A) (k : A → M W B) Q w :
  (∀ a w', wp (k a) Q anything w') → wp (m ≫= k) Q anything w.
Proof. intros Hk. apply wp_bind. unfold wp at 1. destruct (m w) as [[a|] w']; [apply Hk|done]. Qed.

Lemma wp_then {A B} (m : M W A) (k : A → M W B) P Q w :
  wp m P anything w → (∀ a w', P a w' → wp (k a) Q anything w') → wp (m ≫= k) Q anything w.
Proof. intros Hm Hk. apply wp_bind. eapply wp_mono; [| |exact Hm]; [exact Hk|done]. Qed.

(** One step past a call whose result does not matter. *)
Ltac skip_step :=
  lazymatch goal with
  | |- wp (mret _) _ _ _ => apply wp_ret
  | |- wp undefined _ _ _ => by apply wp_undefined
  | |- wp (extern _) _ _ _ => apply wp_extern
  | |- wp (deref _) _ _ _ => apply wp_deref; [intros|done]
  | |- wp (mbind _ (mret _)) _ _ _ => apply wp_bind, wp_ret
  | |- wp (mbind _ (if _ then _ else _)) _ _ _ => apply wp_bind, wp_if; intro
  | |- wp (mbind _ (match ?x with _ => _ end)) _ _ _ => apply wp_bind; destruct x eqn:?
  | |- wp (mbind _ _) _ _ _ => apply wp_call; intros
  | |- wp (if decide _ then _ else _) _ _ _ => case_decide
  | |- wp (if _ then _ else _) _ _ _ => apply wp_if; intro
  | |- wp (match ?x with _ => _ end) _ _ _ => destruct x eqn:?
  end.

(** What the connections do not show of the replication: the requests but those of
    the replication itself, and every reading, leave it as it is. *)
Section view.
Context {B : Type} (view : ReplicaMgr.t → B) (view_operators : ∀ o r, view (ReplicaMgr.set_operators o r) = view r).
Let seen p : B := view p.(IOProxy.repm).

Lemma get_operator_seen node ch r w :
  wp (get_operator node ch r) (λ '(_, r') _, view r' = view r) anything w.
Proof. unfold get_operator. repeat skip_step; first [done|apply view_operators]. Qed.

Lemma submit_to_seen id request r w :
  wp (submit_to id request r) (λ '(_, r') _, view r' = view r) anything w.
Proof.
  unfold submit_to. eapply wp_then; [apply get_operator_seen|]. intros [oper r'] w' Hr.
  repeat skip_step. done.
Qed.

Lemma pull_centres_seen cids fd request r w :
  wp (pull_centres cids fd request r) (λ r' _, view r' = view r) anything w.
Proof.
  revert r w. induction cids as [|c cids IH]; intros r w; cbn [pull_centres]; [by apply wp_ret|].
  skip_step; [apply IH|]. eapply wp_then; [apply submit_to_seen|]. intros [reply r'] w' Hr.
  skip_step. eapply wp_mono; [| |apply IH]; [|done]. cbn. intros r2 _ ->. done.
Qed.

Lemma init_centres_seen cids request r w :
  wp (init_centres cids request r) (λ r' _, view r' = view r) anything w.
Proof.
  revert r w. induction cids as [|c cids IH]; intros r w; cbn [init_centres]; [by apply wp_ret|].
  eapply wp_then; [apply submit_to_seen|]. intros [reply r'] w' Hr.
  eapply wp_mono; [| |apply IH]; [|done]. cbn. intros r2 _ ->. done.
Qed.

Lemma sync_filedata_seen path off len p w :
  wp (sync_filedata path off len p) (λ '(_, p') _, seen p' = seen p) anything w.
Proof.
  unfold sync_filedata. repeat (lazymatch goal with
    | |- wp (mbind _ (pull_centres _ _ _ _)) _ _ _ => fail
    | _ => skip_step end); try done.
  eapply wp_then; [apply pull_centres_seen|]. intros r2 w2 Hr. by apply wp_ret.
Qed.

Lemma sync_maybe_seen (b : bool) path off len p w :
  wp (if b then '(_, p) ← sync_filedata path off len p; mret p else mret p)
    (λ p' _, seen p' = seen p) anything w.
Proof.
  skip_step; [|by apply wp_ret]. eapply wp_then; [apply sync_filedata_seen|].
  intros [e p'] w' Hp. by apply wp_ret.
Qed.

Lemma sync_unalign_page_seen path off len p w :
  wp (sync_unalign_page path off len p) (λ '(_, p') _, seen p' = seen p) anything w.
Proof.
  unfold sync_unalign_page. eapply wp_then; [apply sync_maybe_seen|]. intros p1 w1 Hp1.
  eapply wp_then; [apply sync_maybe_seen|]. intros p2 w2 Hp2. apply wp_ret. congruence.
Qed.

Lemma create_replicated_space_seen filepath cids p w :
  wp (create_replicated_space walk_fuel filepath cids p) (λ '(_, p') _, seen p' = seen p) anything w.
Proof.
  unfold create_replicated_space. repeat (lazymatch goal with
    | |- wp (mbind _ (init_centres _ _ _)) _ _ _ => fail
    | _ => skip_step end); try done.
  eapply wp_then; [apply init_centres_seen|]. intros r2 w2 Hr. by apply wp_ret.
Qed.

Lemma make_node_seen name a origin p w :
  wp (make_node name a origin p) (λ p' _, seen p' = seen p) anything w.
Proof.
  unfold make_node. apply wp_then with (P := λ p' _, seen p' = seen p).
  - destruct (a.(Attr.type)); repeat skip_step; done.
  - intros p' w' Hp. repeat skip_step. done.
Qed.

Lemma make_nodes_seen names attrs origin p w :
  wp (make_nodes names attrs origin p) (λ p' _, seen p' = seen p) anything w.
Proof.
  revert attrs p w. induction names as [|n names IH]; intros attrs p w; cbn [make_nodes]; [by apply wp_ret|].
  destruct attrs as [|a attrs]; [by apply wp_undefined|].
  eapply wp_then; [apply make_node_seen|]. intros p' w' Hp.
  eapply wp_mono; [| |apply IH]; [|done]. cbn. intros p2 _ ->. done.
Qed.

Lemma handle_create_seen request reply p w :
  wp (_handle_create_replicated_space request reply p) (λ '(_, p') _, seen p' = seen p) anything w.
Proof.
  unfold _handle_create_replicated_space. repeat (lazymatch goal with
    | |- wp (mbind _ (make_nodes _ _ _ _)) _ _ _ => fail
    | _ => skip_step end); try done.
  eapply wp_then; [apply make_nodes_seen|]. intros p2 w2 Hp. by apply wp_ret.
Qed.

Lemma handle_sync_seen request reply p w :
  wp (_handle_file_sync_data request reply p) (λ '(_, p') _, seen p' = seen p) anything w.
Proof. unfold _handle_file_sync_data. repeat skip_step; done. Qed.

Lemma handle_index_seen request reply p w :
  wp (_handle_file_index_update request reply p) (λ '(_, p') _, seen p' = seen p) anything w.
Proof. unfold _handle_file_index_update. repeat skip_step; done. Qed.

Lemma fdm_open_seen path flags mode p w :
  wp (fdm_open path flags mode p) (λ '(_, p') _, seen p' = seen p) anything w.
Proof. unfold fdm_open. repeat skip_step. done. Qed.

Ltac seen_step :=
  first
  [ eapply wp_then;
    [first [ apply fdm_open_seen | apply sync_filedata_seen | apply sync_unalign_page_seen
           | apply create_replicated_space_seen ]|]; intros [? ?] ? ?
  | skip_step ].

Lemma perform_seen request reply p w :
  wp (perform walk_fuel request reply p) (λ '(_, p') _, seen p' = seen p) anything w.
Proof.
  unfold perform, do_read, do_write.
  destruct request.(OpRequest.type); repeat seen_step; done || congruence.
Qed.
End view.

(** The types the code neither knows as readers nor as modifiers nor as requests
    of the replication: they are repeated whoever sent them. *)
Definition bounces (t : OpType.t) : bool :=
  match t with
  | OpType.statfs | OpType.rep_remove_space | OpType.unknown_type _ => true
  | _ => false
  end.

Lemma outgoing_extra mcid request out :
  outgoing mcid request = Some out → CxxString.size out.(OpRequest.extra) = 1 ∧
  out.(OpRequest.type) ≠ OpType.write ∧
  bounces out.(OpRequest.type) = bounces request.(OpRequest.type).
Proof.
  unfold outgoing. case_decide as Hw; (case_match; [done|]); intros [= <-]; cbn; rewrite ?Hw; done.
Qed.

(** C29: replication settles: whatever a proxy sends to another centre from its
    queue, the receiver carries out without queueing anything itself, so no request
    is ever sent back or on; the exceptions are the types that bounce. Nothing is
    assumed of the system. *)
Theorem replication_settles mcid request out reply p w :
  outgoing mcid request = Some out → bounces request.(OpRequest.type) = false →
  wp (do_op walk_fuel out reply p) (λ '(_, p') _, queue_of p' = queue_of p) anything w.
Proof.
  intros Hout Hb. apply outgoing_extra in Hout as (Hsz & Hnw & Hb'). rewrite Hb in Hb'.
  unfold do_op. eapply wp_then; [by apply (perform_seen ReplicaMgr.m_new)|].
  intros [reply' p'] w' Hq. fold (queue_of p') (queue_of p) in Hq. rewrite <-Hq.
  unfold handle_replica_async. rewrite Hsz. change (1 =? 0) with false.
  skip_step; [by apply wp_ret|]. skip_step; [by apply wp_ret|]. skip_step; [by apply wp_ret|].
  destruct out.(OpRequest.type); try done.
  - by apply (handle_create_seen ReplicaMgr.m_new).
  - by apply (handle_index_seen ReplicaMgr.m_new).
  - by apply (handle_sync_seen ReplicaMgr.m_new).
Qed.

(** ** The table of proxies *)

(** What a proxy does after its start: it carries requests out, and its flusher
    sends the queue; the system may have changed in any way in between. *)
Inductive works p : proxy → Prop :=
| works_request request reply reply' p' w w' :
    do_op walk_fuel request reply p w = (Val (reply', p'), w') → works p p'
| works_flush r' w w' :
    flush p.(IOProxy.repm) w = (Val r', w') → works p (IOProxy.set_repm r' p).

Lemma flush_centres_table cids request r w :
  wp (flush_centres cids request r) (λ r' _, r'.(ReplicaMgr.ioproxys) = r.(ReplicaMgr.ioproxys)) anything w.
Proof.
  revert r w. induction cids as [|c cids IH]; intros r w; cbn [flush_centres]; [by apply wp_ret|].
  skip_step; [apply IH|]. eapply wp_then; [by apply (submit_to_seen ReplicaMgr.ioproxys)|]. intros [reply r'] w' Hr.
  eapply wp_mono; [| |apply IH]; [|done]. cbn. intros r2 _ ->. done.
Qed.
Lemma flush_requests_table q r w :
  wp (flush_requests q r) (λ r' _, r'.(ReplicaMgr.ioproxys) = r.(ReplicaMgr.ioproxys)) anything w.
Proof.
  revert r w. induction q as [|request q IH]; intros r w; cbn [flush_requests]; [by apply wp_ret|].
  destruct (outgoing _ _); [|apply IH]. eapply wp_then; [apply flush_centres_table|]. intros r1 w1 Hr.
  eapply wp_mono; [| |apply IH]; [|done]. cbn. intros r2 _ ->. done.
Qed.
Lemma flush_table r w : wp (flush r) (λ r' _, r'.(ReplicaMgr.ioproxys) = r.(ReplicaMgr.ioproxys)) anything w.
Proof. exact (flush_requests_table _ (ReplicaMgr.set_new [] r) w). Qed.

Lemma queue_replica_table request reply p w :
  wp (queue_replica request reply p) (λ '(_, p') _, table_of p' = table_of p) anything w.
Proof.
  unfold queue_replica, submit_replicated_request. skip_step; [by apply wp_ret|]. skip_step. destruct a as [cids|]; [|by apply wp_ret].
  skip_step; [by apply wp_ret|]. apply wp_then with (P := λ r' _, r'.(ReplicaMgr.ioproxys) = table_of p).
  - apply wp_then with (P := λ r' _, r'.(ReplicaMgr.ioproxys) = table_of p).
    + skip_step; [apply flush_table|by apply wp_ret].
    + intros r1 w1 Hr. by apply wp_ret.
  - intros r1 w1 Hr. by apply wp_ret.
Qed.
Lemma do_op_table request reply p w :
  wp (do_op walk_fuel request reply p) (λ '(_, p') _, table_of p' = table_of p) anything w.
Proof.
  unfold do_op. eapply wp_then; [by apply (perform_seen ReplicaMgr.ioproxys)|].
  intros [reply' p'] w' Hq. fold (table_of p') (table_of p) in Hq. rewrite <-Hq. unfold handle_replica_async.
  do 2 (skip_step; [by apply wp_ret|]). skip_step; [skip_step; [apply queue_replica_table|by apply wp_ret]|].
  destruct request.(OpRequest.type); try apply queue_replica_table.
  - by apply (handle_create_seen ReplicaMgr.ioproxys).
  - by apply (handle_index_seen ReplicaMgr.ioproxys).
  - by apply (handle_sync_seen ReplicaMgr.ioproxys).
Qed.

(** Nothing a proxy does changes the table of proxies it has learned. *)
Lemma works_table p p' : rtc works p p' → table_of p' = table_of p.
Proof.
  induction 1 as [p|p p1 p2 Hw _ IH]; [done|]. rewrite IH.
  destruct Hw as [request reply reply' p1 w w' Hrun|r' w w' Hrun].
  - exact (wp_val _ (λ '(_, p') _, table_of p' = table_of p) anything w _ w' (do_op_table request reply p w) Hrun).
  - exact (wp_val _ (λ r' _, r'.(ReplicaMgr.ioproxys) = table_of p) anything w r' w' (flush_table p.(IOProxy.repm) w) Hrun).
Qed.

Lemma buffer_take n v : (String.length v ≤ n)%nat → str_take (String.length v) (HvsFileHandler.buffer n v) = v.
Proof.
  intros Hv. unfold HvsFileHandler.buffer. rewrite (str_take_all n v) by done. apply str_take_append.
Qed.

(** The attribute of a replicated space, read as the code reads it. *)
Lemma space_centres_run path space p cids w w' :
  path_begin path = Some space →
  sys_getxattr (c_str (p.(IOProxy.data_path) /+ space)) centers_attr 256 w = ((CxxString.size cids, cids), w') →
  CxxString.size cids ≤ 256 →
  space_centres path p w = (Val (Some cids), w').
Proof.
  intros Hp Hx Hs. unfold space_centres. rewrite Hp. cbn [deref]. unfold mbind, M_bind, mret, M_ret, extern.
  rewrite Hx. unfold CxxString.size in *. destruct (Z.eqb_spec (Z.of_nat (String.length cids)) (-1)); [lia|].
  by rewrite Nat2Z.id, buffer_take by lia.
Qed.

(** The types that bounce never settle: a proxy that receives one from another
    centre, about a space with two centres or more, queues it for all of them
    again, and so does every receiver, for ever. A request whose type was never set
    is one of them. *)
Theorem bounces_for_ever mcid request out reply p w space cids w' :
  outgoing mcid request = Some out → bounces request.(OpRequest.type) = true →
  path_begin out.(OpRequest.filepath) = Some space →
  sys_getxattr (c_str (p.(IOProxy.data_path) /+ space)) centers_attr 256 w = ((CxxString.size cids, cids), w') →
  2 ≤ CxxString.size cids ≤ 256 → Z.of_nat (length (queue_of p)) ≤ ReplicaMgr.m_max_new →
  ∃ next, wp (do_op walk_fuel out reply p) (λ '(_, p') _, queue_of p' = queue_of p ++ [next]) never w ∧
    bounces next.(OpRequest.type) = true ∧ next.(OpRequest.filepath) = out.(OpRequest.filepath) ∧
    ∀ mcid', ∃ out', outgoing mcid' next = Some out' ∧ out' = OpRequest.set_extra (String (char_of mcid') "") out.
Proof.
  intros Hout Hb Hp Hx Hs Hq. apply outgoing_extra in Hout as (_ & _ & Hb'). rewrite Hb in Hb'.
  exists (OpRequest.set_extra cids out). split_and!; [|done|done|].
  - unfold do_op. apply wp_bind.
    assert (Hperf : perform walk_fuel out (set_err_code 0 (set_id out.(OpRequest.id) reply)) p =
      mret (set_err_code 0 (set_id out.(OpRequest.id) reply), p)) by (unfold perform; revert Hb'; by destruct out.(OpRequest.type)).
    rewrite Hperf. apply wp_ret. unfold handle_replica_async.
    destruct (String.eqb_spec out.(OpRequest.filepath) "") as [He|_]; [by rewrite He in Hp|].
    assert (Ht : readonly out.(OpRequest.type) = false ∧ modifies out.(OpRequest.type) = false)
      by (revert Hb'; by destruct out.(OpRequest.type)). destruct Ht as [-> ->].
    assert (Hqr : wp (queue_replica out (set_err_code 0 (set_id out.(OpRequest.id) reply)) p)
      (λ '(_, p') _, queue_of p' = queue_of p ++ [OpRequest.set_extra cids out]) never w).
    { unfold queue_replica. change (err_code _ <? 0) with false. cbn iota. apply wp_bind.
      unfold wp at 1. rewrite (space_centres_run _ _ _ _ _ _ Hp Hx) by lia.
      destruct (Z.ltb_spec (CxxString.size cids) 2); [lia|]. apply wp_bind. unfold submit_replicated_request.
      change (ReplicaMgr.m_new (IOProxy.repm p)) with (queue_of p).
      destruct (Z.ltb_spec ReplicaMgr.m_max_new (Z.of_nat (length (queue_of p)))); [lia|].
      wp_step. apply wp_ret, wp_ret, wp_ret. done. }
    revert Hb'. by destruct out.(OpRequest.type).
  - intros mcid'. eexists. split; [|done]. unfold outgoing. cbn [OpRequest.type OpRequest.set_extra].
    rewrite (decide_False (P := out.(OpRequest.type) = OpType.write)) by (revert Hb'; by destruct out.(OpRequest.type)).
    cbn [OpRequest.type OpRequest.set_extra].
    rewrite (bool_decide_false (out.(OpRequest.type) = OpType.setxattr)) by (revert Hb'; by destruct out.(OpRequest.type)). done.
Qed.
End settle.
End ProxyOP.
