(* ===== verification/Pages.v ===== *)
(** * What the handlers of one proxy do to a file

    The transfer of data between centres, seen from one disk: which bytes the
    reply to a synchronisation carries ([read_ranges_ok]), what writing them does
    ([write_ranges_ok]) and what an index update removes ([punch_ok_local]). The
    composition of two centres is in Cluster.v. *)
From S2P Require Import Prelude CxxString Json Records Lru FdManager Op Files Replica ProxyOp.
Import HvsFileHandler (page_size, in_ranges, runs, separated).

(** ** Strings as buffers *)

Lemma byte_at_app_l s t i : 0 ≤ i < CxxString.size s → byte_at (s +:+ t) i = byte_at s i.
Proof.
  unfold CxxString.size, byte_at. intros Hi. f_equal. remember (Z.to_nat i) as k eqn:Hk.
  assert (Hlt : (k < String.length s)%nat) by lia. clear i Hi Hk. revert k Hlt.
  induction s as [|c s IH]; intros [|k] Hk; cbn in *; try lia; [done|]. apply IH. lia.
Qed.

Lemma byte_at_app_r s t i : 0 ≤ i → byte_at (s +:+ t) (CxxString.size s + i) = byte_at t i.
Proof.
  unfold CxxString.size, byte_at. intros Hi. f_equal.
  replace (Z.to_nat (Z.of_nat (String.length s) + i)) with (String.length s + Z.to_nat i)%nat by lia.
  induction s as [|c s IH]; [done|]. cbn. exact IH.
Qed.

Lemma get_str_take n s k : (k < n)%nat → String.get k (str_take n s) = String.get k s.
Proof.
  revert s k. induction n as [|n IH]; intros s k Hk; [lia|]. destruct s as [|c s]; [done|].
  destruct k as [|k]; [done|]. cbn. apply IH. lia.
Qed.
Lemma get_str_drop n s k : String.get k (str_drop n s) = String.get (n + k) s.
Proof. revert s. induction n as [|n IH]; intros s; [done|]. destruct s as [|c s]; [by destruct k|]. apply IH. Qed.

Lemma byte_at_substr pos n s i : 0 ≤ pos → 0 ≤ i < n →
  byte_at (substr (Z.to_nat pos) (Z.to_nat n) s) i = byte_at s (pos + i).
Proof.
  intros Hp Hi. unfold byte_at, substr. f_equal. rewrite get_str_take by lia. rewrite get_str_drop.
  f_equal. lia.
Qed.
Lemma size_substr pos n s : 0 ≤ pos → 0 ≤ n → pos + n ≤ CxxString.size s →
  CxxString.size (substr (Z.to_nat pos) (Z.to_nat n) s) = n.
Proof. unfold CxxString.size, substr. rewrite length_str_take, length_str_drop. lia. Qed.

(** [n] bytes of a string that has them. *)
Lemma bytes_of_ok {W} s pos n Q (w : W) : 0 ≤ pos → 0 ≤ n → pos + n ≤ CxxString.size s →
  (∀ b, CxxString.size b = n → (∀ i, 0 ≤ i < n → byte_at b i = byte_at s (pos + i)) → Q b w) →
  wp (bytes_of s pos n) Q never w.
Proof.
  intros Hpos Hn Hs HQ. unfold bytes_of. destruct (Z.leb_spec 0 pos); [|lia].
  destruct (Z.leb_spec (pos + n) (CxxString.size s + 1)); [|lia]. cbn [andb]. apply wp_ret, HQ.
  - apply size_substr; [done..|]. rewrite size_app. pose proof (size_nonneg (String zero "")). lia.
  - intros i Hi. rewrite byte_at_substr by lia. apply byte_at_app_l. lia.
Qed.

Lemma bytes_of_all {W} s : bytes_of s 0 (CxxString.size s) = mret (M := M W) s.
Proof.
  unfold bytes_of. change (0 <=? 0) with true. destruct (Z.leb_spec (0 + CxxString.size s) (CxxString.size s + 1)); [|lia].
  cbn [andb]. unfold CxxString.size, substr. rewrite Nat2Z.id. f_equal. cbn [Z.to_nat str_drop]. apply str_take_append.
Qed.

(** ** Files *)
Section file.
Context {W : Type} `{Posix W, !PosixLaws W, !Fs W, !FaultFreeDisk W}.
Implicit Types (w : W) (fd : Z).

(** The file behind a descriptor is as it was. *)
Definition same_file fd w w' : Prop :=
  (live w fd → live w' fd) ∧ file_len w' fd = file_len w fd ∧
  (∀ x, has_data w' fd x = has_data w fd x) ∧ (∀ x, content w' fd x = content w fd x) ∧
  ∀ p, centres w' p = centres w p.

#[export] Instance same_file_preorder fd : PreOrder (same_file fd).
Proof.
  split.
  - intros w. by split_and!.
  - intros w1 w2 w3 (Ha & Hb & Hc & Hd & He) (Ha' & Hb' & Hc' & Hd' & He').
    split_and!; [auto|congruence|intros; by rewrite Hc'|intros; by rewrite Hd'|intros; by rewrite He'].
Qed.

Lemma same_lseek fd off wh w : same_file fd w (sys_lseek fd off wh w).2.
Proof.
  destruct (lseek_files W fd off wh w) as (Hc & Hl & Hp).
  split_and!; [done|by apply lseek_len|intros; by apply lseek_data|done..].
Qed.
Lemma same_attr fd w w' : attr_files w w' → same_file fd w w'.
Proof. intros [Hf Hp]. destruct (Hf fd) as (Hl & Hv & Hd & Hc). by split_and!. Qed.

(** The searches, and that they change nothing. *)
Lemma find_holes_run `{Roaring} from to h w : 0 ≤ from → h.(HvsFileHandler.fd) ∈ open_fds w →
  wp (HvsFileHandler.find_holes_in_range from to h) (λ r w', (∃ rs, r = Some rs ∧
    runs false (has_data w h.(HvsFileHandler.fd)) from (Z.min to (file_len w h.(HvsFileHandler.fd))) rs) ∧
    same_file h.(HvsFileHandler.fd) w w') never w.
Proof.
  intros Hfrom Ho. eapply wp_and; [by apply HvsFileHandler.find_holes_in_range_ok|].
  apply HvsFileHandler.find_holes_frame; [|done]. intros off wh w' ->. apply same_lseek.
Qed.
Lemma find_data_run `{Roaring} from to h w : 0 ≤ from → file_len w h.(HvsFileHandler.fd) < 2 ^ 31 →
  wp (HvsFileHandler.find_data_in_range from to h) (λ r w', (∃ rs, r = Some rs ∧
    runs true (has_data w h.(HvsFileHandler.fd)) from (Z.min to (file_len w h.(HvsFileHandler.fd))) rs) ∧
    same_file h.(HvsFileHandler.fd) w w') never w.
Proof.
  intros Hfrom Hs. eapply wp_and; [by apply HvsFileHandler.find_data_in_range_ok|].
  apply HvsFileHandler.find_data_frame; [|done]. intros off wh w' ->. apply same_lseek.
Qed.

(** ** What a reply carries *)

(** The ranges [params] with their bytes, one after the other, at [cursor]. *)
Fixpoint carries (params : list IOParam.t) (data : string) (cursor : Z) (c : Z → ascii) : Prop :=
  match params with
  | [] => True
  | q :: params =>
      (∀ i, 0 ≤ i < q.(IOParam.size) → byte_at data (cursor + i) = c (q.(IOParam.offset) + i)) ∧
      cursor + q.(IOParam.size) ≤ CxxString.size data ∧
      carries params data (cursor + q.(IOParam.size)) c
  end.
Definition params_of (rs : list (Z * Z)) : list IOParam.t := (λ p, IOParam.mk p.1 (p.2 - p.1)) <$> rs.

Lemma carries_prefix ps data rest cursor c : 0 ≤ cursor → Forall (λ q, 0 ≤ q.(IOParam.size)) ps →
  carries ps data cursor c → carries ps (data +:+ rest) cursor c.
Proof.
  revert cursor. induction ps as [|q ps IH]; intros cursor Hcur Hpos; [done|].
  apply Forall_cons in Hpos as [Hq Hpos]. intros (Hb & Hs & Hc). split_and!.
  - intros i Hi. rewrite byte_at_app_l by lia. by apply Hb.
  - rewrite size_app. pose proof (size_nonneg rest). lia.
  - apply IH; [lia|done|done].
Qed.

Lemma separated_in lo rs x : separated lo rs → in_ranges x rs → lo ≤ x.
Proof.
  revert lo. induction rs as [|[a b] rs IH]; intros lo Hs Hx; [by apply HvsFileHandler.in_ranges_nil in Hx|].
  destruct Hs as (? & ? & Hs). apply HvsFileHandler.in_ranges_cons in Hx as [?|Hx]; [lia|]. apply (IH _ Hs) in Hx. lia.
Qed.

(** Ranges that lie inside the file, from [lo]. *)
Definition inside n lo rs : Prop := separated lo rs ∧ 0 ≤ lo ∧ ∀ x, in_ranges x rs → x < n.
Lemma inside_cons n lo a b rs : inside n lo ((a, b) :: rs) → lo ≤ a ∧ a < b ∧ b ≤ n ∧ inside n b rs.
Proof.
  intros ((Ha & Hb & Hs) & Hlo & Hin). split_and!; [done|done| |].
  - assert (b - 1 < n); [|lia]. apply Hin, HvsFileHandler.in_ranges_cons. left. lia.
  - split_and!; [|lia|intros x Hx; apply Hin, HvsFileHandler.in_ranges_cons; by right].
    eapply HvsFileHandler.separated_weaken; [|done]. lia.
Qed.

Lemma read_ranges_ok fd rs lo buf reply w c : live w fd → inside (file_len w fd) lo rs →
  (∀ x, content w fd x = c x) →
  wp (Replication.read_ranges fd rs buf reply) (λ '(res, reply') w', same_file fd w w' ∧
    reply' = OpReply.mk reply.(OpReply.id) reply.(OpReply.err_code) reply.(OpReply.additional)
      reply.(OpReply.entry_names) reply.(OpReply.entries) (reply.(OpReply.io_params) ++ params_of rs) ∧
    ∃ rest, res = Some (buf +:+ rest) ∧
    carries (params_of rs) (buf +:+ rest) (CxxString.size buf) c) never w.
Proof.
  revert lo buf reply w. induction rs as [|[a b] rs IH]; intros lo buf reply w Hl Hin Hc; cbn [Replication.read_ranges].
  { apply wp_ret. split_and!; [done|by destruct reply; cbn; rewrite app_nil_r|]. exists "". by rewrite append_nil_r. }
  pose proof (len_range w fd (live_open _ _ _ Hl)) as Hlen. assert (Hlo : 0 ≤ lo) by apply Hin. apply inside_cons in Hin as (Ha & Hab & Hbn & Hin).
  wp_step. apply wp_extern. rewrite HvsFileHandler.signed_id by lia.
  pose proof (pread_ok W fd (b - a) a w Hl ltac:(lia) ltac:(lia)) as Hp.
  destruct (sys_pread fd (b - a) a w) as [[r bytes] w1]. cbn [fst snd].
  destruct Hp as (Hr & Hsz & Hb & Hl1 & Hlen1 & Hd1 & Hc1 & Hx1). assert (Hrv : r = b - a) by lia. clear Hr. rewrite Hrv in *. clear Hrv r.
  destruct (Z.eqb_spec (b - a) (-1)); [lia|].
  rewrite str_take_all by (unfold CxxString.size in *; lia).
  eapply wp_mono; [| |apply (IH b); [done|by rewrite Hlen1|intros x; by rewrite Hc1]]; [|done].
  intros [res reply'] w2 (Hsame & -> & rest & -> & Hcar).
  assert (Hcut : (buf +:+ bytes) +:+ rest = buf +:+ (bytes +:+ rest)) by (by rewrite append_assoc).
  rewrite Hcut in *. split_and!.
  - etransitivity; [|exact Hsame]. by split_and!.
  - unfold OpReply.add_io_param. cbn. by rewrite <-app_assoc.
  - exists (bytes +:+ rest). split; [done|]. cbn [params_of fmap list_fmap carries fst snd IOParam.size IOParam.offset].
    split_and!.
    + intros i Hi. rewrite byte_at_app_r, byte_at_app_l by lia. rewrite <-Hc. apply Hb. lia.
    + rewrite !size_app. pose proof (size_nonneg rest). lia.
    + rewrite size_app, Hsz in Hcar. exact Hcar.
Qed.

(** What writing the ranges leaves. *)
Definition wrote fd rs (c : Z → ascii) w w' : Prop :=
  live w' fd ∧ file_len w' fd = file_len w fd ∧
  (∀ x, in_ranges x rs ∧ content w' fd x = c x ∧ has_data w' fd x = true ∨
        ¬ in_ranges x rs ∧ content w' fd x = content w fd x ∧ (has_data w fd x = true → has_data w' fd x = true)) ∧
  (∀ y, 0 ≤ y < file_len w fd → (∀ x, in_ranges x rs → page_of x ≠ page_of y) → has_data w' fd y = has_data w fd y) ∧
  ∀ p, centres w' p = centres w p.

(** A page that a range touches contains a byte of the range. *)
Lemma page_hit a b y : a < b → page_of a ≤ page_of y ≤ page_of (b - 1) → ∃ x, a ≤ x < b ∧ page_of x = page_of y.
Proof.
  intros Hab [Hlo Hhi]. exists (Z.max a (page_of y * page_size)). unfold page_of, page_size in *.
  pose proof (Z.div_mod a (2 ^ 12) ltac:(done)). pose proof (Z.mod_pos_bound a (2 ^ 12) ltac:(lia)).
  pose proof (Z.div_mod (b - 1) (2 ^ 12) ltac:(done)). pose proof (Z.mod_pos_bound (b - 1) (2 ^ 12) ltac:(lia)).
  split; [nia|]. destruct (Z.max_spec a (y / 2 ^ 12 * 2 ^ 12)) as [[_ ->]|[? ->]]; [by rewrite Z.div_mul|].
  apply Z.le_antisymm; [done|]. rewrite <-(Z.div_mul (y / 2 ^ 12) (2 ^ 12)) by done. by apply Z.div_le_mono.
Qed.

Lemma write_ranges_ok fd rs lo data cursor w c : live w fd → inside (file_len w fd) lo rs →
  file_len w fd < 2 ^ 31 → 0 ≤ cursor ≤ lo → carries (params_of rs) data cursor c →
  wp (Replication.write_ranges fd (params_of rs) data cursor) (λ _ w', wrote fd rs c w w') never w.
Proof.
  revert lo cursor w. induction rs as [|[a b] rs IH]; intros lo cursor w Hl Hin Hsm Hcur Hc;
    cbn [params_of fmap list_fmap Replication.write_ranges IOParam.size IOParam.offset fst snd].
  { apply wp_ret. split_and!; try done. intros x. right. split; [apply HvsFileHandler.in_ranges_nil|done]. }
  assert (Hlo : 0 ≤ lo) by apply Hin. apply inside_cons in Hin as (Ha & Hab & Hbn & Hin).
  destruct Hc as (Hbytes & Hsz & Hc). cbn [IOParam.size IOParam.offset fst snd] in *.
  wp_step. apply bytes_of_ok; [lia..|]. intros bs Hbs Hbb. wp_step. apply wp_extern.
  rewrite HvsFileHandler.signed_id by lia.
  pose proof (pwrite_ok W fd bs a w Hl ltac:(lia) ltac:(lia) ltac:(lia)) as Hp. cbn zeta in Hp. rewrite Hbs in Hp.
  destruct (sys_pwrite fd bs a w) as [r w1]. cbn [fst snd].
  destruct Hp as (_ & Hl1 & Hlen1 & Hc1 & Hd1 & Hk1 & Hf1 & Hx1).
  replace (a + (b - a)) with b in * by lia. assert (Hlen : file_len w1 fd = file_len w fd) by lia.
  rewrite to_i32_id by (unfold in_i32; lia).
  eapply wp_mono; [| |apply (IH b); [done|by rewrite Hlen|by rewrite Hlen|lia|done]]; [|done].
  intros _ w2 (Hl2 & Hlen2 & Hx2 & Hf2 & Hp2). split_and!; [done|congruence| | |intros p; by rewrite Hp2].
  - intros x. specialize (Hc1 x). rewrite HvsFileHandler.in_ranges_cons.
    destruct (Hx2 x) as [(Hr & Hcx & Hdx)|(Hr & Hcx & Hdx)]; [left; auto|].
    destruct (decide (a ≤ x < b)) as [Hin'|Hout].
    + left. split_and!; [by left| |auto]. rewrite Hcx, Hc1.
      destruct (Z.leb_spec a x), (Z.ltb_spec x b); cbn [andb]; try lia.
      rewrite Hbb, Hbytes by lia. f_equal. lia.
    + right. split_and!; [tauto| |auto]. rewrite Hcx, Hc1.
      destruct (Z.leb_spec a x), (Z.ltb_spec x b); cbn [andb]; try lia; done.
  - intros y Hy Hno. rewrite Hf2; [|by rewrite Hlen|].
    + apply Hf1; [done|]. destruct (decide (page_of y < page_of a)); [by left|].
      destruct (decide (page_of (b - 1) < page_of y)); [by right|]. exfalso.
      destruct (page_hit a b y) as (x & Hx & Hpx); [done|lia|].
      apply (Hno x); [|done]. apply HvsFileHandler.in_ranges_cons. by left.
    + intros x Hx. apply Hno, HvsFileHandler.in_ranges_cons. by right.
Qed.

(** Writing touches nothing else of the world. *)
Lemma write_ranges_frame (I : W → Prop) fd params data cursor w :
  (∀ s off w, I w → I (sys_pwrite fd s off w).2) → I w →
  wp (Replication.write_ranges fd params data cursor) (λ _ w', I w') I w.
Proof.
  intros HI. revert cursor w. induction params as [|q params IH]; intros cursor w Hw;
    cbn [Replication.write_ranges]; [by apply wp_ret|].
  wp_step. unfold bytes_of. apply wp_if; intros _; [|by apply wp_undefined]. wp_step. wp_step. apply wp_extern. auto.
Qed.

(** ** What an index update removes *)

(** The pages a range touches. *)
Definition touched off len x : Prop := page_of off ≤ page_of x ≤ page_of (off + len - 1).

Lemma align_touched off len : 0 ≤ off → 0 < len → off + len < 2 ^ 62 →
  ∃ a b, HvsFileHandler.align off len = (a, b) ∧ 0 ≤ a ∧ a < b < 2 ^ 63 ∧
    a mod page_size = 0 ∧ (b - a) mod page_size = 0 ∧ ∀ x, a ≤ x < b ↔ touched off len x.
Proof.
  intros Hoff Hlen Hmax. unfold HvsFileHandler.align. rewrite HvsFileHandler.unsigned_id by lia.
  cbv zeta. assert (Hland : Z.land (off + len) HvsFileHandler.page_mask = (off + len) mod 2 ^ 12)
    by (change HvsFileHandler.page_mask with (Z.ones 12); by rewrite Z.land_ones).
  rewrite Hland, !HvsFileHandler.land_page by lia. clear Hland. unfold touched, page_of, page_size.
  set (e := off + len) in *.
  pose proof (Z.div_mod off (2 ^ 12) ltac:(done)). pose proof (Z.mod_pos_bound off (2 ^ 12) ltac:(lia)).
  pose proof (Z.div_mod (e - 1) (2 ^ 12) ltac:(done)). pose proof (Z.mod_pos_bound (e - 1) (2 ^ 12) ltac:(lia)).
  pose proof (Z.div_mod e (2 ^ 12) ltac:(done)). pose proof (Z.mod_pos_bound e (2 ^ 12) ltac:(lia)).
  set (q := off / 2 ^ 12) in *. set (q1 := (e - 1) / 2 ^ 12) in *.
  assert (He : (if negb (e mod 2 ^ 12 =? 0) then to_u64 (e - e mod 2 ^ 12 + 2 ^ 12) else e) = (q1 + 1) * 2 ^ 12).
  { destruct (Z.eqb_spec (e mod 2 ^ 12) 0); cbn [negb]; [nia|]. rewrite HvsFileHandler.unsigned_id by lia. nia. }
  rewrite He. exists (off - off mod 2 ^ 12), ((q1 + 1) * 2 ^ 12).
  assert (Ha : off - off mod 2 ^ 12 = q * 2 ^ 12) by lia. rewrite Ha. split_and!; [done|nia|nia|nia| | |].
  - by apply Z.mod_mul.
  - rewrite <-Z.mul_sub_distr_r. by apply Z.mod_mul.
  - intros x. pose proof (Z.div_mod x (2 ^ 12) ltac:(done)). pose proof (Z.mod_pos_bound x (2 ^ 12) ltac:(lia)).
    set (qx := x / 2 ^ 12) in *. split; intros; nia.
Qed.

Lemma punch_ok_local `{Roaring} off len (h : HvsFileHandler.t) w :
  live w h.(HvsFileHandler.fd) → 0 ≤ h.(HvsFileHandler.fd) → 0 ≤ off → 0 < len → off + len < 2 ^ 62 →
  wp (HvsFileHandler.punch_hole_local off len h) (λ ok w', let fd := h.(HvsFileHandler.fd) in
    ok = true ∧ live w' fd ∧ file_len w' fd = Z.max (file_len w fd) (off + len) ∧
    (∀ x, touched off len x → content w' fd x = zero ∧ has_data w' fd x = false) ∧
    (∀ x, ¬ touched off len x → content w' fd x = content w fd x ∧
       (0 ≤ x < file_len w fd → has_data w' fd x = has_data w fd x)) ∧
    (∀ p, centres w' p = centres w p)) never w.
Proof.
  intros Hl Hfd Hoff Hlen Hmax. unfold HvsFileHandler.punch_hole_local. set (fd := h.(HvsFileHandler.fd)) in *.
  destruct (Z.ltb_spec fd 0); [lia|]. wp_step. apply wp_extern.
  pose proof (live_open _ _ _ Hl) as Ho. rewrite lseek_end by done.
  destruct (same_lseek fd 0 SEEK_END w) as (Hl1 & Hlen1 & Hd1 & Hc1 & Hx1). specialize (Hl1 Hl).
  set (w1 := (sys_lseek fd 0 SEEK_END w).2) in *. pose proof (len_range w fd Ho).
  rewrite !HvsFileHandler.unsigned_id by lia. cbn zeta.
  destruct (align_touched off len Hoff Hlen Hmax) as (a & b & -> & Ha & Hab & Hma & Hmb & Ht).
  wp_step. eapply wp_mono with (Q := λ _ w2, live w2 fd ∧ file_len w2 fd = Z.max (file_len w fd) (off + len) ∧
    (∀ x, content w2 fd x = content w fd x) ∧ (∀ x, 0 ≤ x < file_len w fd → has_data w2 fd x = has_data w fd x) ∧
    (∀ p, centres w2 p = centres w p)); [| |apply wp_if; intros He].
  - intros _ w2 (Hl2 & Hlen2 & Hc2 & Hd2 & Hx2). wp_step. apply wp_extern.
    rewrite (HvsFileHandler.unsigned_id (b - a)), !HvsFileHandler.signed_id by lia.
    pose proof (punch_ok W fd a (b - a) w2 Hl2 ltac:(lia) ltac:(lia) ltac:(lia) Hma Hmb) as Hp.
    destruct (sys_fallocate fd _ a (b - a) w2) as [r w3]. destruct Hp as (-> & Hl3 & Hlen3 & Hc3 & Hd3 & Hx3).
    replace (a + (b - a)) with b in * by lia. cbn [fst snd]. apply wp_ret. split_and!; [done|done|lia| | |].
    + intros x Hx%Ht. rewrite Hc3, Hd3. destruct (Z.leb_spec a x), (Z.ltb_spec x b); cbn [andb]; done || lia.
    + intros x Hx. rewrite Hc3, Hd3. rewrite <-Ht in Hx.
      destruct (Z.leb_spec a x), (Z.ltb_spec x b); cbn [andb]; try lia; auto.
    + intros p. by rewrite Hx3.
  - done.
  - apply wp_extern. rewrite HvsFileHandler.signed_id by lia.
    destruct (ftruncate_ok W fd (off + len) w1 Hl1 ltac:(lia)) as (Hl2 & Hlen2 & Hc2 & Hd2 & Hx2).
    split_and!; [done|lia|intros; by rewrite Hc2|intros; rewrite Hd2; [auto|lia]|intros; by rewrite Hx2].
  - apply wp_ret. split_and!; [done|lia|done|intros; auto|done].
Qed.
End file.

(** ** A proxy that serves a file *)
Section serve.
Context {W : Type} `{Posix W, !PosixLaws W, !Fs W, !FaultFreeDisk W, Roaring, Allocator, Grpc W, Protobuf}.
Variable walk_fuel : nat.
Implicit Types (p : IOProxy.t) (w : W).

(** The file is open on [fd], and the bitmap of centre [id] is in memory. *)
Definition serves file fd id p : Prop :=
  FdManager.ready (p.(IOProxy.data_path) /+ file) fd p.(IOProxy.fdm) ∧
  ∃ h b, IOProxy.handler fd p = Some h ∧ h.(HvsFileHandler.fd) = fd ∧
    h.(HvsFileHandler.bitmaps) !! id = Some (Some b).
(** What no request to the file changes. *)
Definition same_proxy p p' : Prop :=
  p'.(IOProxy.data_path) = p.(IOProxy.data_path) ∧ p'.(IOProxy.repm) = p.(IOProxy.repm).

(** Opening it again, through the handler table or not. *)
Lemma serves_handler file fd id p : reuses_freed_block = true → serves file fd id p →
  ∃ m h b, (∀ w, FdManager.get_file_handler (p.(IOProxy.data_path) /+ file) p.(IOProxy.fdm) w = (Val (Some fd, m), w)) ∧
    serves file fd id (IOProxy.set_fdm m p) ∧ IOProxy.handler fd (IOProxy.set_fdm m p) = Some h ∧
    h.(HvsFileHandler.fd) = fd ∧ h.(HvsFileHandler.bitmaps) !! id = Some (Some b) ∧ 0 ≤ fd.
Proof.
  intros Hheap (Hr & h & b & Hh & Hfd & Hb).
  destruct (FdManager.get_file_handler_ready _ _ _ Hheap Hr) as (m & Hrun & Hr' & Hfh & _).
  exists m, h, b. unfold serves, IOProxy.handler in *. cbn [IOProxy.fdm IOProxy.set_fdm IOProxy.data_path]. rewrite Hfh.
  split_and!; [done|done|by exists h, b|done..|by destruct Hr as (_ & ? & _)].
Qed.
Lemma serves_open file fd id flags mode p : reuses_freed_block = true → serves file fd id p →
  Z.land flags O_TRUNC = 0 →
  ∃ p', (∀ w, ProxyOP.fdm_open (p.(IOProxy.data_path) /+ file) flags mode p w = (Val (fd, p'), w)) ∧
    serves file fd id p' ∧ same_proxy p p' ∧ 0 ≤ fd.
Proof.
  intros Hheap (Hr & h & b & Hh & Hfd & Hb) Hfl.
  destruct (FdManager.open_ready _ _ _ mode _ Hheap Hr Hfl) as (m & Hrun & Hr' & Hfh & _).
  exists (IOProxy.set_fdm m p). split_and!; [|split; [done|]|done|by destruct Hr as (_ & ? & _)].
  - intros w. unfold ProxyOP.fdm_open, mbind, M_bind. by rewrite Hrun.
  - unfold IOProxy.handler in *. cbn [IOProxy.fdm IOProxy.set_fdm]. rewrite Hfh. by exists h, b.
Qed.
Lemma serves_open_dangles file fd id flags mode p w : reuses_freed_block = false → serves file fd id p →
  Z.land flags O_TRUNC = 0 → ProxyOP.fdm_open (p.(IOProxy.data_path) /+ file) flags mode p w = (UB, w).
Proof.
  intros Hheap [Hr _] Hfl. unfold ProxyOP.fdm_open, mbind, M_bind.
  by rewrite (FdManager.open_ready_dangles _ _ _ _ _ w Hheap Hr Hfl).
Qed.
(** Changing the handler of the file. *)
Lemma serves_set_handler file fd id h h' b p :
  serves file fd id p → IOProxy.handler fd p = Some h → h'.(HvsFileHandler.fd) = fd →
  h'.(HvsFileHandler.bitmaps) !! id = Some (Some b) → serves file fd id (IOProxy.set_handler fd h' p).
Proof.
  intros ((Hw & Hfd & Ho & _) & _) _ Hf Hb. unfold serves, IOProxy.handler, IOProxy.set_handler.
  cbn [IOProxy.fdm IOProxy.set_fdm FdManager.file_handlers IOProxy.data_path].
  rewrite lookup_insert_eq. split; [|by exists h', b].
  split_and!; [done..|]. exists h'. cbn. by rewrite lookup_insert_eq.
Qed.

Lemma wp_run_eq {A B} (m : M W A) (k : A → M W B) a Q E w :
  m w = (Val a, w) → wp (k a) Q E w → wp (m ≫= k) Q E w.
Proof. intros Hm Hk. apply wp_bind. unfold wp at 1. by rewrite Hm. Qed.

Definition sync_request file off len : OpRequest.t :=
  OpRequest.mk 0 file OpType.rep_sync_data "" (OpRequest.io_param_case (IOParam.mk off len)) 0 0 "".

(** The reply to a synchronisation: the data of the window, and nothing changed. *)
Lemma serve_sync file fd id off len reply p w :
  reuses_freed_block = true → file ≠ "" → serves file fd id p → live w fd → file_len w fd < 2 ^ 31 →
  0 ≤ off → 0 ≤ len → off + len < 2 ^ 63 → reply.(OpReply.io_params) = [] →
  wp (ProxyOP.do_op walk_fuel (sync_request file off len) reply p) (λ '(reply', p') w',
    serves file fd id p' ∧ same_proxy p p' ∧ same_file fd w w' ∧
    ∃ rs, runs true (has_data w fd) off (Z.min (off + len) (file_len w fd)) rs ∧
      reply'.(OpReply.io_params) = params_of rs ∧
      carries (params_of rs) (OpReply.data reply') 0 (content w fd)) never w.
Proof.
  intros Hheap Hfile Hs Hl Hsm Hoff Hlen Hmax Hio. unfold ProxyOP.do_op.
  change (ProxyOP.perform walk_fuel (sync_request file off len) ?r p) with (mret (M := M W) (r, p)).
  wp_step. wp_step. unfold Replication.handle_replica_async. cbn [sync_request OpRequest.filepath OpRequest.type Replication.readonly Replication.modifies].
  destruct (String.eqb_spec file "") as [|_]; [done|]. unfold Replication._handle_file_sync_data.
  cbn [sync_request OpRequest.filepath OpRequest.io_param OpRequest.additional IOParam.offset IOParam.size].
  destruct (serves_handler _ _ _ _ Hheap Hs) as (m & h & b & Hrun & Hs' & Hh & Hfd & Hb & Hpos).
  eapply wp_run_eq; [apply Hrun|]. cbn beta iota. wp_step. wp_step. rewrite Hh. wp_step. wp_step.
  rewrite (HvsFileHandler.unsigned_id (off + len)) by lia. wp_step.
  eapply wp_mono; [| |apply find_data_run; [done|by rewrite Hfd]]; [|done]. rewrite Hfd.
  intros r w1 [(rs & -> & Hruns) Hsame]. wp_step. wp_step. wp_step.
  assert (Hin : inside (file_len w1 fd) off rs).
  { destruct Hsame as (_ & -> & _). destruct Hruns as [Hsep Hin]. split_and!; [done|done|].
    intros x Hx%Hin. lia. }
  eapply wp_mono; [| |apply (read_ranges_ok fd rs off "" _ w1 (content w fd)); [by apply Hsame|done|]]; [|done|by apply Hsame].
  intros [res reply'] w2 (Hsame2 & -> & rest & -> & Hc). wp_step. split_and!; [done|done|by etransitivity|].
  exists rs. split_and!; [done| |exact Hc]. cbn. by rewrite Hio.
Qed.

(** An index update removes the pages the write touched. *)
Lemma serve_update file fd request off len reply p w :
  let id := byte_of (front request.(OpRequest.extra)) in
  reuses_freed_block = true → file ≠ "" → serves file fd id p → live w fd →
  request.(OpRequest.type) = OpType.rep_update_index → request.(OpRequest.filepath) = file →
  OpRequest.io_param request = IOParam.mk off len → 0 ≤ off → 0 < len → off + len < 2 ^ 62 →
  wp (ProxyOP.do_op walk_fuel request reply p) (λ '(_, p') w', serves file fd id p' ∧ same_proxy p p' ∧
    live w' fd ∧ file_len w' fd = Z.max (file_len w fd) (off + len) ∧
    (∀ x, touched off len x → content w' fd x = zero ∧ has_data w' fd x = false) ∧
    (∀ x, ¬ touched off len x → content w' fd x = content w fd x ∧
       (0 ≤ x < file_len w fd → has_data w' fd x = has_data w fd x)) ∧
    (∀ q, centres w' q = centres w q)) never w.
Proof.
  intros id Hheap Hfile Hs Hl Ht Hf Hio Hoff Hlen Hmax. unfold ProxyOP.do_op, ProxyOP.perform. rewrite Ht. cbn iota.
  wp_step. wp_step. unfold Replication.handle_replica_async. rewrite Ht, Hf. cbn [Replication.readonly Replication.modifies].
  destruct (String.eqb_spec file "") as [|_]; [done|]. unfold Replication._handle_file_index_update. fold id.
  rewrite Ht, Hf, Hio. cbn [IOParam.offset IOParam.size].
  destruct (serves_handler _ _ _ _ Hheap Hs) as (m & h & b & Hrun & Hs' & Hh & Hfd & Hb & Hpos).
  eapply wp_run_eq; [apply Hrun|]. cbn beta iota. wp_step. wp_step. rewrite Hh. wp_step. wp_step.
  rewrite decide_True by done. wp_step. unfold HvsFileHandler.get_bitmap. rewrite Hfd, Hb.
  destruct (Z.ltb_spec fd 0); [lia|]. wp_step. wp_step. wp_step. wp_step. set (b' := rb_add_range_closed _ _ _).
  set (h' := HvsFileHandler.set_bitmap id (Some b') h).
  assert (Hfd' : h'.(HvsFileHandler.fd) = fd) by done.
  assert (Hb' : h'.(HvsFileHandler.bitmaps) !! id = Some (Some b')) by apply lookup_insert_eq.
  eapply wp_mono; [| |apply punch_ok_local; rewrite ?Hfd'; done]; [|done]. rewrite Hfd'. cbn zeta.
  intros ok w1 (_ & Hl1 & Hlen1 & Hp1 & Hk1 & Hx1). wp_step. unfold HvsFileHandler.flush_bitmap. rewrite Hfd', Hb'.
  destruct (Z.ltb_spec fd 0); [lia|]. wp_step. wp_step. wp_step. apply wp_extern. wp_step. wp_step.
  destruct (same_attr fd _ _ (fsetxattr_files W fd (HvsFileHandler.bitmap_name id) (rb_serialize b') w1
    ltac:(discriminate))) as (Hl2 & Hlen2 & Hd2 & Hc2 & Hx2).
  split_and!; [by eapply serves_set_handler|done|auto|by rewrite Hlen2| | |].
  - intros x Hx. rewrite Hc2, Hd2. auto.
  - intros x Hx. rewrite Hc2, Hd2. auto.
  - intros q. by rewrite Hx2.
Qed.
End serve.
