(* ===== verification/Cluster.v ===== *)
(** * Two centres that share a space

    Each centre has a disk and a proxy; a proxy reaches the other one through the
    interface [Grpc], whose instance here runs the other proxy's [do_op] on the
    other disk. The two disks together hold one file: a byte that is data in a
    centre is the byte of the file, and what is a hole in both is zero ([agree]).
    [history_refines] shows that a history of requests, sent to either proxy, is a
    history of that one file. *)
From S2P Require Import Prelude CxxString Json Records Lru FdManager Op Files Replica ProxyOp Pages.
Import HvsFileHandler (page_size, in_ranges, runs, separated).

(** ** A disk with something beside it *)
Section lift.
Context {D S : Type}.

Definition on_disk {A} (f : D → A * D) (w : D * S) : A * (D * S) := let '(a, d) := f w.1 in (a, (d, w.2)).

#[export] Instance lift_posix `{Posix D} : Posix (D * S) := {|
  sys_errno w := sys_errno w.1;
  sys_open p f m := on_disk (sys_open p f m);
  sys_close fd := on_disk (sys_close fd);
  sys_ftruncate fd n := on_disk (sys_ftruncate fd n);
  sys_fsync fd := on_disk (sys_fsync fd);
  sys_unlink p := on_disk (sys_unlink p);
  sys_lseek fd off wh := on_disk (sys_lseek fd off wh);
  sys_fallocate fd mode off n := on_disk (sys_fallocate fd mode off n);
  sys_fgetxattr fd name n := on_disk (sys_fgetxattr fd name n);
  sys_fsetxattr fd name v := on_disk (sys_fsetxattr fd name v);
|}.
#[export] Instance lift_fs `{Fs D} : Fs (D * S) := {|
  sys_stat p := on_disk (sys_stat p);
  fs_rename p q := on_disk (fs_rename p q);
  fs_permissions p m := on_disk (fs_permissions p m);
  fs_resize_file p n := on_disk (fs_resize_file p n);
  fs_create_directory p := on_disk (fs_create_directory p);
  fs_remove p := on_disk (fs_remove p);
  sys_utimensat p a m f := on_disk (sys_utimensat p a m f);
  sys_opendir p := on_disk (sys_opendir p);
  sys_closedir_null := on_disk sys_closedir_null;
  sys_pread fd n off := on_disk (sys_pread fd n off);
  sys_pwrite fd s off := on_disk (sys_pwrite fd s off);
  sys_setxattr p name v f := on_disk (sys_setxattr p name v f);
  sys_getxattr p name n := on_disk (sys_getxattr p name n);
  sys_listxattr p n := on_disk (sys_listxattr p n);
  sys_removexattr p name := on_disk (sys_removexattr p name);
  sys_mkdir p m := on_disk (sys_mkdir p m);
  sys_creat p m := on_disk (sys_creat p m);
  sys_truncate p n := on_disk (sys_truncate p n);
|}.

(** A law of the disk, for the pair: [c] is the call it is about. *)
Ltac lift law c :=
  cbn; unfold on_disk; cbn; pose proof law; first [by destruct c | by destruct c as [[? ?] ?]].

#[export] Instance lift_posix_laws `{PosixLaws D} : PosixLaws (D * S).
Proof.
  refine {| open_fds w := open_fds w.1; file_len w := file_len w.1; has_data w := has_data w.1 |}.
  - intros p f m [d s]. lift (open_result p f m d) (sys_open p f m d).
  - intros fd [d s]. lift (close_fds fd d) (sys_close fd d).
  - intros fd n [d s]. lift (ftruncate_fds fd n d) (sys_ftruncate fd n d).
  - intros fd [d s]. lift (fsync_fds fd d) (sys_fsync fd d).
  - intros p [d s]. lift (unlink_fds p d) (sys_unlink p d).
  - intros fd off wh [d s]. lift (lseek_fds fd off wh d) (sys_lseek fd off wh d).
  - intros w. apply len_range.
  - intros w. apply len_closed.
  - intros fd off wh [d s] fd'. lift (lseek_len fd off wh d fd') (sys_lseek fd off wh d).
  - intros fd off wh [d s] fd' x. lift (lseek_data fd off wh d fd' x) (sys_lseek fd off wh d).
  - intros fd [d s] Ho. lift (lseek_end fd d Ho) (sys_lseek fd 0 SEEK_END d).
  - intros fd off [d s] r Ho. lift (seek_data_found fd off d r Ho) (sys_lseek fd off SEEK_DATA d).
  - intros fd off [d s] Ho. lift (seek_data_none fd off d Ho) (sys_lseek fd off SEEK_DATA d).
  - intros fd off [d s] Ho. lift (seek_hole fd off d Ho) (sys_lseek fd off SEEK_HOLE d).
Defined.

#[export] Instance lift_file_laws `{FaultFreeDisk D} : FaultFreeDisk (D * S).
Proof.
  refine {| content w := content w.1; live w := live w.1; centres w := centres w.1 |}.
  - intros w. exact (live_open D w.1).
  - intros p [d s] v. lift (getxattr_centres D p d v) (sys_getxattr p HvsFileHandler.centers_name 256 d).
  - intros w. exact (data_inside D w.1).
  - intros w. exact (data_pages D w.1).
  - intros w. exact (content_hole D w.1).
  - intros fd off wh [d s]. lift (lseek_files D fd off wh d) (sys_lseek fd off wh d).
  - intros fd n off [d s]. lift (pread_ok D fd n off d) (sys_pread fd n off d).
  - intros fd t off [d s]. lift (pwrite_ok D fd t off d) (sys_pwrite fd t off d).
  - intros fd n [d s]. lift (ftruncate_ok D fd n d) (sys_ftruncate fd n d).
  - intros fd off n [d s]. lift (punch_ok D fd off n d) (sys_fallocate fd (Z.lor FALLOC_FL_PUNCH_HOLE FALLOC_FL_KEEP_SIZE) off n d).
  - intros fd name n [d s]. lift (fgetxattr_files D fd name n d) (sys_fgetxattr fd name n d).
  - intros fd name v [d s] Hn. lift (fsetxattr_files D fd name v d Hn) (sys_fsetxattr fd name v d).
  - intros p name n [d s]. lift (getxattr_files D p name n d) (sys_getxattr p name n d).
Defined.
End lift.

(** ** One file on two disks *)
Section agree.
Context {D : Type} `{Posix D, !PosixLaws D, !Fs D, !FaultFreeDisk D}.
Implicit Types (d : D) (v : Z → ascii).

(** What one disk holds of a file of [n] bytes with contents [v]. *)
Definition holds d fd n v : Prop :=
  live d fd ∧ file_len d fd = n ∧ ∀ x, has_data d fd x = true → content d fd x = v x.
(** The two disks hold all of it between them. *)
Definition agree d1 fd1 d2 fd2 n v : Prop :=
  n < 2 ^ 31 ∧ holds d1 fd1 n v ∧ holds d2 fd2 n v ∧
  ∀ x, has_data d1 fd1 x = false → has_data d2 fd2 x = false → v x = zero.

Lemma agree_sym d1 fd1 d2 fd2 n v : agree d1 fd1 d2 fd2 n v → agree d2 fd2 d1 fd1 n v.
Proof. intros (Hn & Ha & Hb & Hz). split_and!; auto. Qed.

(** Bytes that are the file's, as far as they lie in the window. *)
Definition filled d fd n v lo hi : Prop := ∀ x, lo ≤ x < hi → x < n → content d fd x = v x.

(** What a pull may change: bytes become the file's. *)
Definition better fd v d d' : Prop :=
  live d' fd ∧ file_len d' fd = file_len d fd ∧
  (∀ x, content d' fd x = content d fd x ∨ content d' fd x = v x) ∧ ∀ q, centres d' q = centres d q.

Lemma better_filled fd v d d' n lo hi : better fd v d d' → filled d fd n v lo hi → filled d' fd n v lo hi.
Proof. intros (_ & _ & Hc & _) Hf x Hx Hn. destruct (Hc x) as [->|]; auto. Qed.
Lemma better_trans fd v d1 d2 d3 : better fd v d1 d2 → better fd v d2 d3 → better fd v d1 d3.
Proof.
  intros (_ & Hl & Hc & Hx) (Hv' & Hl' & Hc' & Hx'). split_and!; [done|congruence| |intros; by rewrite Hx'].
  intros x. destruct (Hc' x) as [->|]; auto.
Qed.

Lemma same_agree d1 fd1 d2 fd2 d1' d2' n v :
  same_file fd1 d1 d1' → same_file fd2 d2 d2' → agree d1 fd1 d2 fd2 n v → agree d1' fd1 d2' fd2 n v.
Proof.
  intros (Ha1 & Ha2 & Ha3 & Ha4 & _) (Hb1 & Hb2 & Hb3 & Hb4 & _) (Hn & (H1 & H2 & H3) & (H4 & H5 & H6) & Hz).
  split_and!; [done| | |].
  - split_and!; [auto|congruence|]. intros x. rewrite Ha3, Ha4. auto.
  - split_and!; [auto|congruence|]. intros x. rewrite Hb3, Hb4. auto.
  - intros x. rewrite Ha3, Hb3. auto.
Qed.

(** A window of whole pages, up to the end of the file. *)
Definition whole_pages n off len : Prop :=
  0 ≤ off ∧ 0 ≤ len ∧ off mod page_size = 0 ∧ ((off + len) mod page_size = 0 ∨ n ≤ off + len).
Lemma whole_pages_closed n off len x y : whole_pages n off len → off ≤ x < off + len → page_of y = page_of x →
  y < n → off ≤ y < off + len.
Proof.
  unfold whole_pages, page_of, page_size. intros (Hoff & Hlen & Ho & He) Hx Hp Hy.
  pose proof (Z.div_mod off (2 ^ 12) ltac:(done)). pose proof (Z.div_mod (off + len) (2 ^ 12) ltac:(done)).
  pose proof (Z.div_mod x (2 ^ 12) ltac:(done)). pose proof (Z.mod_pos_bound x (2 ^ 12) ltac:(lia)).
  pose proof (Z.div_mod y (2 ^ 12) ltac:(done)). pose proof (Z.mod_pos_bound y (2 ^ 12) ltac:(lia)).
  destruct He as [He|He]; nia.
Qed.

(** Writing the other disk's data of such a window. *)
Lemma pull_agree d1 fd1 d2 fd2 n v off len rs d1' :
  agree d1 fd1 d2 fd2 n v → whole_pages n off len →
  runs true (has_data d2 fd2) off (Z.min (off + len) n) rs → wrote fd1 rs (content d2 fd2) d1 d1' →
  agree d1' fd1 d2 fd2 n v ∧ better fd1 v d1 d1' ∧ filled d1' fd1 n v off (off + len).
Proof.
  intros (Hn & (Hl1 & Hn1 & Hd1) & (Hl2 & Hn2 & Hd2) & Hz) Hw [_ Hrs] (Hl' & Hn' & Hx & Hpg & Hc).
  assert (Hsame : ∀ x, ¬ in_ranges x rs → 0 ≤ x < n → has_data d1' fd1 x = has_data d1 fd1 x).
  { intros x Hno Hxn. apply Hpg; [lia|]. intros y Hy Hp. apply Hno. apply Hrs in Hy as [Hy Hdy]. apply Hrs.
    pose proof (whole_pages_closed n off len y x Hw ltac:(lia) (eq_sym Hp) ltac:(lia)). destruct Hw as (? & ? & _).
    split; [lia|]. rewrite <-Hdy. apply (data_pages D); [done|lia|lia]. }
  assert (Hd1' : ∀ x, has_data d1' fd1 x = true → content d1' fd1 x = v x).
  { intros x Hdx. destruct (Hx x) as [(Hr & -> & _)|(Hr & -> & _)].
    - apply Hd2. by apply Hrs in Hr as [_ ?].
    - apply Hd1. rewrite <-Hsame; [done..|]. apply (data_inside D) in Hdx. lia. }
  split_and!.
  - split_and!; [done| |done|]; [split_and!; [done|congruence|done]|]. intros x Hf1 Hf2. apply Hz; [|done].
    destruct (has_data d1 fd1 x) eqn:Hdx; [|done]. destruct (Hx x) as [(_ & _ & ?)|(_ & _ & Hk)]; [congruence|].
    rewrite Hk in Hf1 by done. done.
  - split_and!; [done|done| |done]. intros x. destruct (Hx x) as [(Hr & -> & _)|(_ & -> & _)]; [right|by left].
    apply Hd2. by apply Hrs in Hr as [_ ?].
  - intros x Hxw Hxn. destruct (has_data d1' fd1 x) eqn:Hdx; [by apply Hd1'|].
    destruct (Hx x) as [(_ & _ & ?)|(Hr & Hcx & Hk)]; [congruence|].
    assert (Hf2 : has_data d2 fd2 x = false).
    { destruct (has_data d2 fd2 x) eqn:Hd; [|done]. exfalso. apply Hr, Hrs. split; [lia|done]. }
    assert (Hf1 : has_data d1 fd1 x = false) by (destruct (has_data d1 fd1 x); [by rewrite Hk in Hdx|done]).
    rewrite Hz by done. by apply (content_hole D).
Qed.

(** The bytes of the file once [s] is written at [off]. *)
Definition overwrite off s v : Z → ascii :=
  λ x, if (off <=? x) && (x <? off + CxxString.size s) then byte_at s (x - off) else v x.
Lemma overwrite_inside off s v x : off ≤ x < off + CxxString.size s → overwrite off s v x = byte_at s (x - off).
Proof. intros Hx. unfold overwrite. by rewrite (proj2 (andb_true_iff _ _)) by lia. Qed.
Lemma overwrite_outside off s v x : x < off ∨ off + CxxString.size s ≤ x → overwrite off s v x = v x.
Proof. intros Hx. unfold overwrite. by rewrite (proj2 (andb_false_iff _ _)) by lia. Qed.

(** Writing on one disk, where the pages it touches are filled, and removing them
    from the other. *)
Lemma write_agree d1 fd1 d2 fd2 n v off s r d1' d2' :
  let len := CxxString.size s in
  agree d1 fd1 d2 fd2 n v → 0 ≤ off → 0 < len → off + len < 2 ^ 31 →
  (∀ x, touched off len x → x < n → content d1 fd1 x = v x ∨ off ≤ x < off + len) →
  sys_pwrite fd1 s off d1 = (r, d1') →
  live d2' fd2 → file_len d2' fd2 = Z.max (file_len d2 fd2) (off + len) →
  (∀ x, touched off len x → has_data d2' fd2 x = false) →
  (∀ x, ¬ touched off len x → content d2' fd2 x = content d2 fd2 x ∧
     (0 ≤ x < file_len d2 fd2 → has_data d2' fd2 x = has_data d2 fd2 x)) →
  agree d1' fd1 d2' fd2 (Z.max n (off + len)) (overwrite off s v).
Proof.
  intros len (Hn & (Hl1 & Hn1 & Hd1) & (Hl2 & Hn2 & Hd2) & Hz) Hoff Hlen Hmax Hfill Hw Hl2' Hn2' Ht Hk.
  pose proof (pwrite_ok D fd1 s off d1 Hl1 Hoff Hlen ltac:(lia)) as Hp. rewrite Hw in Hp. fold len in Hp. cbn zeta in Hp.
  destruct Hp as (_ & Hl1' & Hn1' & Hc & Hdat & Hkeep & Hfar & _).
  assert (Hout : ∀ x, n ≤ x → v x = zero).
  { intros x Hx. apply Hz; [destruct (has_data d1 fd1 x) eqn:Hd|destruct (has_data d2 fd2 x) eqn:Hd];
      try done; apply (data_inside D) in Hd; lia. }
  assert (Hzero : ∀ x, n ≤ x → content d1 fd1 x = zero ∧ content d2 fd2 x = zero).
  { intros x Hx. split; apply (content_hole D); [destruct (has_data d1 fd1 x) eqn:Hd|destruct (has_data d2 fd2 x) eqn:Hd];
      try done; apply (data_inside D) in Hd; lia. }
  assert (Hfar' : ∀ x, ¬ touched off len x → 0 ≤ x < n → has_data d1' fd1 x = has_data d1 fd1 x).
  { intros x Hx Hxn. apply Hfar; [lia|]. unfold touched in Hx. lia. }
  unfold overwrite. fold len. split_and!; [lia|split_and!; [done|lia|]|split_and!; [done|lia|]|].
  - intros x Hdx. rewrite Hc. destruct (Z.leb_spec off x), (Z.ltb_spec x (off + len)); cbn [andb]; [done|..].
    all: destruct (decide (touched off len x)) as [Hx|Hx]; [destruct (decide (x < n)) as [Hxn|Hxn];
      [destruct (Hfill x Hx Hxn); [done|lia]|rewrite Hout by lia; by apply Hzero; lia]|].
    all: destruct (decide (x < n)) as [Hxn|Hxn]; [|rewrite Hout by lia; by apply Hzero; lia].
    all: apply Hd1; rewrite <-Hfar'; [done..|]; apply (data_inside D) in Hdx; lia.
  - intros x Hdx. destruct (decide (touched off len x)) as [Hx|Hx]; [by rewrite Ht in Hdx|].
    assert (Hin : ¬ (off ≤ x < off + len)).
    { intros Hin. apply Hx. unfold touched. split; apply page_of_mono; lia. }
    destruct (Z.leb_spec off x), (Z.ltb_spec x (off + len)); cbn [andb]; try lia.
    all: destruct (Hk x Hx) as [-> Hkx]; destruct (decide (x < n)) as [Hxn|Hxn];
      [|rewrite Hout by lia; by apply Hzero; lia].
    all: apply Hd2; rewrite <-Hkx; [done|]; apply (data_inside D) in Hdx; lia.
  - intros x Hf1 Hf2. destruct (decide (off ≤ x < off + len)) as [Hin|Hin]; [by rewrite Hdat in Hf1|].
    assert (Hgoal : v x = zero).
    { destruct (decide (0 ≤ x < n)) as [Hxn|Hxn].
      - destruct (decide (touched off len x)) as [Hx|Hx].
        + exfalso. assert (0 ≤ x < file_len d1' fd1) by lia.
          destruct (page_hit off (off + len) x ltac:(lia) Hx) as (y & Hy & Hpy).
          rewrite (data_pages D d1' fd1 x y) in Hf1; [|by rewrite Hpy|lia|lia]. by rewrite Hdat in Hf1.
        + apply Hz; [by rewrite <-Hfar'|]. destruct (Hk x Hx) as [_ Hkx]. rewrite <-Hkx; [done|lia].
      - destruct (decide (n ≤ x)); [by apply Hout|]. apply Hz;
          [destruct (has_data d1 fd1 x) eqn:Hd|destruct (has_data d2 fd2 x) eqn:Hd];
          try done; apply (data_inside D) in Hd; lia. }
    destruct (Z.leb_spec off x), (Z.ltb_spec x (off + len)); cbn [andb]; done || lia.
Qed.
End agree.

(** ** Two proxies *)
Section cluster.
Context {D : Type} `{Posix D, !PosixLaws D, !Fs D, !FaultFreeDisk D, Roaring, Allocator, Grpc D, Protobuf}.
Variable walk_fuel : nat.

(** A centre: its disk, its proxy, and the address the proxy listens on. *)
Record site : Type := Site {
  s_addr : string;
  s_proxy : IOProxy.t;
  s_disk : D;
}.

(** The network: a call runs the other proxy, and fails when that crashes. *)
#[export] Instance net : Grpc (D * site) := {|
  grpc_submit target request w :=
    let s := w.2 in
    if String.eqb target (s_addr s) then
      match ProxyOP.do_op walk_fuel request OpReply.init (s_proxy s) (s_disk s) with
      | (Val (reply, p), d) => (Some reply, (w.1, Site (s_addr s) p d))
      | (UB, d) => (None, (w.1, Site (s_addr s) (s_proxy s) d))
      end
    else (None, w)
|}.

(** Who a centre is: its number and the descriptor of the file there. *)
Record centre : Type := Centre {
  c_id : Z;
  c_fd : Z;
}.

(** The proxy knows the other centre's, and its channel, if open, leads there. *)
Import Replication (channel_key, target).
Definition link id addr (r : ReplicaMgr.t) : Prop := ∃ node,
  r.(ReplicaMgr.ioproxys) !! id = Some node ∧ target node = addr ∧
  (r.(ReplicaMgr.operators) !! channel_key node = None ∨ r.(ReplicaMgr.operators) !! channel_key node = Some addr).

Lemma get_operator_run {W : Type} id addr r : link id addr r →
  ∃ r', (∀ w : W, Replication.get_operator (r.(ReplicaMgr.ioproxys) !! id) 100 r w = (Val (addr, r'), w)) ∧
    link id addr r' ∧ r'.(ReplicaMgr.mcid) = r.(ReplicaMgr.mcid) ∧ r'.(ReplicaMgr.m_new) = r.(ReplicaMgr.m_new) ∧
    r'.(ReplicaMgr.ioproxys) = r.(ReplicaMgr.ioproxys).
Proof.
  intros (node & Hn & Ht & Ho). unfold Replication.get_operator. rewrite Hn. fold (channel_key node) (target node).
  destruct Ho as [Ho|Ho].
  - exists (ReplicaMgr.set_operators (<[channel_key node := addr]> r.(ReplicaMgr.operators)) r). split_and!; [|..|done|done|done].
    + intros w. unfold deref, mbind, M_bind, mret, M_ret. unfold channel_key in *. rewrite Ho. fold (target node). by rewrite Ht.
    + exists node. split_and!; [done|done|]. right. cbn. apply lookup_insert_eq.
  - exists r. split_and!; [|by exists node; auto|done..]. intros w. unfold deref, mbind, M_bind, mret, M_ret.
    unfold channel_key in *. by rewrite Ho.
Qed.

(** One call of the other centre. *)
Lemma submit_ok id request r d s (Q : OpReply.t * ReplicaMgr.t → D * site → Prop) :
  link id (s_addr s) r →
  (∀ r', link id (s_addr s) r' → r'.(ReplicaMgr.mcid) = r.(ReplicaMgr.mcid) → r'.(ReplicaMgr.m_new) = r.(ReplicaMgr.m_new) →
   wp (ProxyOP.do_op walk_fuel request OpReply.init (s_proxy s))
     (λ '(reply, p) d', Q (reply, r') (d, Site (s_addr s) p d')) never (s_disk s)) →
  wp (Replication.submit_to id request r) Q never (d, s).
Proof.
  intros Hlink Hq. unfold Replication.submit_to. destruct (get_operator_run (W := D * site) id _ r Hlink) as (r' & Hrun & Hl' & Hm & Hn & _).
  apply wp_bind. unfold wp at 1. rewrite Hrun. wp_step. apply wp_extern. cbn [grpc_submit net fst snd].
  rewrite String.eqb_refl. specialize (Hq r' Hl' Hm Hn). unfold wp in Hq.
  destruct (ProxyOP.do_op _ _ _ _ _) as [[[reply p]|] d']; [|done]. cbn [fst snd default]. by apply wp_ret.
Qed.

(** ** A file of the two *)
Variables (file space cids : string).
Hypothesis Hspace : path_begin file = Some space.
Hypothesis Hcids : 2 ≤ CxxString.size cids ≤ 256.

(** The centres of a list, as numbers. *)
Definition names (cs : string) : list Z := centre_id <$> list_ascii_of_string cs.
(** The byte a centre is known by to the others. *)
Definition tag (id : Z) : Z := byte_of (char_of id).

(** One centre of the pair. *)
Definition member (me other : centre) (addr : string) (s : site) : Prop :=
  serves file (c_fd me) (tag (c_id other)) (s_proxy s) ∧
  link (c_id other) addr (IOProxy.repm (s_proxy s)) ∧
  (IOProxy.repm (s_proxy s)).(ReplicaMgr.mcid) = c_id me ∧
  (IOProxy.repm (s_proxy s)).(ReplicaMgr.m_new) = [] ∧
  centres (s_disk s) (c_str ((s_proxy s).(IOProxy.data_path) /+ space)) = Some cids.
Definition partners (me other : centre) : Prop :=
  c_id me ≠ c_id other ∧ (∀ z, z ∈ names cids → z = c_id me ∨ z = c_id other) ∧
  c_id me ∈ names cids ∧ c_id other ∈ names cids.

Definition cluster_inv (me other : centre) n v (a b : site) : Prop :=
  member me other (s_addr b) a ∧ member other me (s_addr a) b ∧
  agree (s_disk a) (c_fd me) (s_disk b) (c_fd other) n v.

Lemma cluster_inv_sym me other n v a b : cluster_inv me other n v a b → cluster_inv other me n v b a.
Proof. intros (Ha & Hb & Hag). split_and!; [done|done|by apply agree_sym]. Qed.

(** What a peer keeps while it serves the other one. *)
Lemma member_served me other addr s p d :
  member me other addr s → serves file (c_fd me) (tag (c_id other)) p → same_proxy (s_proxy s) p →
  (∀ q, centres d q = centres (s_disk s) q) → member me other addr (Site (s_addr s) p d).
Proof.
  intros (_ & Hl & Hm & Hn & Hc) Hs [Hd Hr] Hq. unfold member. cbn [s_proxy s_disk]. rewrite Hd, Hr, Hq. by split_and!.
Qed.

(** What follows is where the allocator hands the freed block out again at once. *)
Section reused.
Hypothesis Hheap : reuses_freed_block = true.

Lemma file_named : file ≠ "".
Proof. intros ->. done. Qed.

(** Writing what was received, on this side of the network. *)
Lemma write_ranges_here fd rs lo data w c : live w.1 fd → inside (file_len w.1 fd) lo rs →
  file_len w.1 fd < 2 ^ 31 → 0 ≤ lo → carries (params_of rs) data 0 c →
  wp (Replication.write_ranges fd (params_of rs) data 0) (λ _ w', wrote fd rs c w.1 w'.1 ∧ w'.2 = w.2) never (w : D * site).
Proof.
  intros Hl Hin Hsm Hlo Hc. eapply wp_and.
  - eapply wp_mono; [| |apply (write_ranges_ok (W := D * site) fd rs lo data 0 w c); done]; done.
  - apply (write_ranges_frame (λ w', w'.2 = w.2)); [|done].
    intros t o [dw bw] <-. cbn. unfold on_disk. cbn. by destruct (sys_pwrite fd t o dw).
Qed.

(** Pulling a window of whole pages from every other centre of a list. *)
Definition pulled me other addr n v (r : ReplicaMgr.t) d (b : site) (r' : ReplicaMgr.t) (w' : D * site) : Prop :=
  link (c_id other) (s_addr b) r' ∧ r'.(ReplicaMgr.mcid) = r.(ReplicaMgr.mcid) ∧
  r'.(ReplicaMgr.m_new) = r.(ReplicaMgr.m_new) ∧ s_addr w'.2 = s_addr b ∧ member other me addr w'.2 ∧
  agree w'.1 (c_fd me) (s_disk w'.2) (c_fd other) n v ∧ better (c_fd me) v d w'.1.

Lemma pull_centres_ok me other addr n v cs off len r d b :
  (∀ z, z ∈ names cs → z = c_id me ∨ z = c_id other) → c_id me ≠ c_id other →
  link (c_id other) (s_addr b) r → r.(ReplicaMgr.mcid) = c_id me → member other me addr b →
  agree d (c_fd me) (s_disk b) (c_fd other) n v → whole_pages n off len → off + len < 2 ^ 63 →
  wp (Replication.pull_centres cs (c_fd me) (sync_request file off len) r) (λ r' w',
    pulled me other addr n v r d b r' w' ∧
    (c_id other ∈ names cs → filled w'.1 (c_fd me) n v off (off + len))) never (d, b).
Proof.
  intros Hn Hne. revert r d b. induction cs as [|c cs IH]; intros r d b Hl Hm Hb Hag Hw Hmax; cbn [Replication.pull_centres].
  { apply wp_ret. cbn. split; [|set_solver]. split_and!; try done. destruct Hag as (_ & (? & _) & _). split_and!; auto. }
  assert (Hn' : ∀ z, z ∈ names cs → z = c_id me ∨ z = c_id other) by (intros z Hz; apply Hn; by right).
  specialize (IH Hn'). rewrite Hm. destruct (Z.eqb_spec (centre_id c) (c_id me)) as [Hc|Hc].
  { eapply wp_mono; [| |by apply IH]; [|done]. intros r' w' [Hp Hf]. split; [done|].
    intros [Ho|Ho]%elem_of_cons; [congruence|auto]. }
  assert (Hco : centre_id c = c_id other) by (destruct (Hn (centre_id c)); [left|congruence|done]). rewrite Hco.
  wp_step. apply submit_ok; [done|]. intros r1 Hl1 Hm1 Hn1. destruct Hb as (Hs & Hbr).
  pose proof Hag as (Hsm & (Hla & Hna & _) & (Hlb & Hnb & _) & _). pose proof Hw as (Hoff & Hlen & _).
  eapply wp_mono; [| |apply (serve_sync walk_fuel file (c_fd other) (tag (c_id me)) off len); try done]; [|done|apply file_named|by rewrite Hnb].
  intros [reply p] d2 (Hs2 & Hp2 & Hsame & rs & Hrs & Hio & Hcar). cbn beta iota.
  wp_step. rewrite Hio, Hnb in *.
  assert (Hin : inside (file_len d (c_fd me)) off rs).
  { rewrite Hna. destruct Hrs as [Hsep Hr]. split_and!; [done|done|]. intros x Hx%Hr. lia. }
  eapply wp_mono; [| |apply (write_ranges_here (c_fd me) rs off _ (d, Site (s_addr b) p d2)); cbn [fst]; [done|done|by rewrite Hna|done|exact Hcar]];
    [|done].
  intros _ [d1 b1] [Hwrote Hb1]. cbn [fst snd] in *. subst b1.
  destruct (pull_agree d (c_fd me) (s_disk b) (c_fd other) n v off len rs d1 Hag Hw Hrs Hwrote) as (Hag1 & Hbet & Hfill).
  assert (Hag2 : agree d1 (c_fd me) d2 (c_fd other) n v) by (eapply same_agree; [reflexivity|exact Hsame|exact Hag1]).
  assert (Hb2 : member other me addr (Site (s_addr b) p d2)) by (apply (member_served _ _ _ b); [by split|done|done|apply Hsame]).
  eapply wp_mono; [| |apply (IH r1 d1 (Site (s_addr b) p d2)); try done; congruence]; [|done].
  intros r' [d' b'] [(Hl' & Hm' & Hn2 & Ha' & Hb' & Hag' & Hbet') _]. cbn [fst snd] in *. split.
  - split_and!; try done; [congruence|congruence|by eapply better_trans].
  - intros _. by eapply better_filled.
Qed.

(** The part of the pair the other side of a request sees: [a] while its proxy
    works on its disk. *)
Definition here (a : site) (p : IOProxy.t) (d : D) : site := Site (s_addr a) p d.

Lemma space_centres_here me other addr a p (w : D * site) Q :
  member me other addr (here a p w.1) →
  (∀ w', same_file (c_fd me) w w' → w'.2 = w.2 → Q (Some cids) w') →
  wp (Replication.space_centres file p) Q never w.
Proof.
  intros (_ & _ & _ & _ & Hc) HQ. cbn [here s_proxy s_disk] in Hc. destruct w as [d b].
  pose proof (getxattr_centres D _ _ _ Hc ltac:(lia)) as Hx.
  pose proof (same_attr (c_fd me) _ _ (getxattr_files D (c_str (p.(IOProxy.data_path) /+ space)) HvsFileHandler.centers_name 256 d)) as Hs.
  cbn [fst] in Hx. destruct (sys_getxattr (c_str (p.(IOProxy.data_path) /+ space)) HvsFileHandler.centers_name 256 d) as [x d'] eqn:Hcall.
  cbn [fst snd] in *. subst x. unfold wp.
  rewrite (ProxyOP.space_centres_run file space p cids (d, b) (d', b) Hspace); [by apply HQ| |lia].
  cbn. unfold on_disk. cbn. unfold Replication.centers_attr. by rewrite Hcall.
Qed.

(** Completing a window of whole pages. *)
Lemma sync_filedata_ok me other n v off len a b p d :
  partners me other → cluster_inv me other n v (here a p d) b → whole_pages n off len → off + len < 2 ^ 63 →
  wp (Replication.sync_filedata file off len p) (λ '(_, p') '(d', b'), s_addr b' = s_addr b ∧
    cluster_inv me other n v (here a p' d') b' ∧ p'.(IOProxy.data_path) = p.(IOProxy.data_path) ∧
    better (c_fd me) v d d' ∧ filled d' (c_fd me) n v off (off + len)) never (d, b).
Proof.
  intros (Hne & Hnames & Hme & Hother) (Ha & Hb & Hag) Hw Hmax. unfold Replication.sync_filedata.
  pose proof Ha as (Hs & Hl & Hm & Hnew & Hc). cbn [here s_proxy s_disk s_addr] in *.
  destruct (serves_handler (W := D * site) _ _ _ _ Hheap Hs) as (m & h & bm & Hrun & Hs' & Hh & Hfd & Hbm & Hpos).
  eapply wp_run_eq; [apply Hrun|]. cbn beta iota. wp_step. wp_step. rewrite Hh. wp_step. wp_step.
  pose proof Hag as (Hsm & (Hla & Hna & Hda) & _ & _). pose proof Hw as (Hoff & Hlen & _).
  rewrite (HvsFileHandler.unsigned_id (off + len)) by lia. wp_step.
  eapply wp_mono; [| |eapply wp_and; [apply (find_holes_run (W := D * site) off (off + len) h); [done|rewrite Hfd; exact (live_open D d _ Hla)]|
    apply (HvsFileHandler.find_holes_frame (λ w', w'.2 = b)); [|done]]]; [|done|].
  2: { intros o wh [dw bw] <-. cbn. unfold on_disk. cbn. by destruct (sys_lseek _ o wh dw). }
  rewrite Hfd. intros r [d1 b1] [[(rs & -> & Hrs) Hsame] Hb1]. cbn in Hb1. subst b1.
  change (same_file (c_fd me) d d1) in Hsame.
  change (has_data (d, b) (c_fd me)) with (has_data d (c_fd me)) in Hrs.
  change (file_len (d, b) (c_fd me)) with (file_len d (c_fd me)) in Hrs. rewrite Hna in Hrs.
  wp_step. wp_step. set (p1 := IOProxy.set_fdm m p) in *.
  assert (Hag1 : agree d1 (c_fd me) (s_disk b) (c_fd other) n v) by (eapply same_agree; [exact Hsame|reflexivity|done]).
  assert (Ha1 : member me other (s_addr b) (here a p1 d1)).
  { split_and!; try done. cbn [here s_disk s_proxy]. destruct Hsame as (_ & _ & _ & _ & Hx). by rewrite Hx. }
  assert (Hbet1 : better (c_fd me) v d d1).
  { destruct Hsame as (Hv & Hle & _ & Hcc & Hx). split_and!; [auto|done|intros x; left; auto|done]. }
  apply wp_if; intros Hlenrs.
  - assert (rs = []) as -> by (destruct rs; [done|discriminate Hlenrs]).
    apply wp_ret. split_and!; [done| |done|done|]; [by split_and!|]. intros x Hx Hxn.
    apply (better_filled _ _ d d1 n off (off + len) Hbet1); [|done|done]. clear x Hx Hxn. intros x Hx Hxn. apply Hda.
    destruct (has_data d (c_fd me) x) eqn:Hd; [done|]. exfalso. apply (HvsFileHandler.in_ranges_nil x), Hrs. split; [lia|done].
  - wp_step. apply (space_centres_here me other (s_addr b) a p1 (d1, b)); [done|].
    intros [d2 b2] Hsame2 Hb2. cbn in Hb2. subst b2. change (same_file (c_fd me) d1 d2) in Hsame2.
    assert (Hag2 : agree d2 (c_fd me) (s_disk b) (c_fd other) n v) by (eapply same_agree; [exact Hsame2|reflexivity|done]).
    wp_step.
    eapply wp_mono; [| |apply (pull_centres_ok me other (s_addr a) n v cids off len); done]; [|done].
    intros r' [d3 b3] [(Hl3 & Hm3 & Hn3 & Ha3 & Hb3 & Hag3 & Hbet3) Hfill]. cbn [fst snd] in *. apply wp_ret.
    split_and!; [done| |done| |by apply Hfill].
    + split_and!; [|done|done]. unfold member. cbn [here s_proxy s_disk IOProxy.set_repm IOProxy.repm IOProxy.data_path s_addr] in *.
      rewrite Ha3. split_and!; [done|done|rewrite Hm3; exact Hm|rewrite Hn3; exact Hnew|].
      destruct Hbet3 as (_ & _ & _ & Hx3). rewrite Hx3. destruct Hsame2 as (_ & _ & _ & _ & Hx2). rewrite Hx2.
      destruct Hsame as (_ & _ & _ & _ & Hx). by rewrite Hx.
    + eapply better_trans; [exact Hbet1|]. eapply better_trans; [|exact Hbet3].
      destruct Hsame2 as (Hv & Hle & _ & Hcc & Hx). split_and!; [apply Hv, Hag1|done|intros x; left; auto|done].
Qed.

(** The steps a request may take before it writes. *)
Definition ready_for me other n v a b p d (p' : IOProxy.t) (w' : D * site) : Prop :=
  s_addr w'.2 = s_addr b ∧ cluster_inv me other n v (here a p' w'.1) w'.2 ∧
  p'.(IOProxy.data_path) = p.(IOProxy.data_path) ∧ better (c_fd me) v d w'.1.

(** Completing the page [x] is in, if it has to be. *)
Lemma sync_page_ok me other n v (c : bool) x a b p d :
  partners me other → cluster_inv me other n v (here a p d) b → 0 ≤ x < 2 ^ 62 →
  wp (if c then '(_, p) ← Replication.sync_filedata file (to_u64 (x / page_size * page_size)) page_size p; mret p else mret p)
    (λ p' w', ready_for me other n v a b p d p' w' ∧
      (c = true → ∀ y, page_of y = page_of x → y < n → content w'.1 (c_fd me) y = v y)) never (d, b).
Proof.
  intros Hp Hinv Hx. assert (Hpos : 0 ≤ x / page_size * page_size ≤ x).
  { unfold page_size. pose proof (Z.div_mod x (2 ^ 12) ltac:(done)). pose proof (Z.mod_pos_bound x (2 ^ 12) ltac:(lia)).
    pose proof (Z.div_pos x (2 ^ 12) ltac:(lia) ltac:(lia)). lia. }
  apply wp_if; intros Hc.
  - rewrite HvsFileHandler.unsigned_id by lia. wp_step.
    eapply wp_mono; [| |apply (sync_filedata_ok me other n v (x / page_size * page_size) page_size a b p d); [done|done| |unfold page_size in *; lia]]; [|done|].
    + intros [e p'] [d' b'] (Ha & Hinv' & Hd & Hb & Hf). apply wp_ret. split; [by split_and!|].
      intros _ y Hy Hyn. apply Hf; [|done]. unfold page_of, page_size in *.
      pose proof (Z.div_mod y (2 ^ 12) ltac:(done)). pose proof (Z.mod_pos_bound y (2 ^ 12) ltac:(lia)). lia.
    + split_and!; [lia|done|unfold page_size; by apply Z.mod_mul|]. left. unfold page_size.
      rewrite <-(Z.mul_1_l (2 ^ 12)) at 3. rewrite <-Z.mul_add_distr_r. by apply Z.mod_mul.
  - apply wp_ret. split; [|by rewrite Hc]. pose proof Hinv as (_ & _ & _ & (Hl & _) & _). split_and!; try done.
    split_and!; [done..|by left|done].
Qed.

Lemma land_page_mask x : 0 ≤ x → Z.land x HvsFileHandler.page_mask = x mod page_size.
Proof. intros. unfold HvsFileHandler.page_mask. change 0xFFF with (Z.ones 12). by rewrite Z.land_ones. Qed.

(** Before a write, the pages it covers in part are complete. *)
Lemma sync_unalign_page_ok me other n v off len a b p d :
  partners me other → cluster_inv me other n v (here a p d) b → 0 ≤ off → 0 < len → off + len < 2 ^ 62 →
  wp (Replication.sync_unalign_page file off len p) (λ '(_, p') w', ready_for me other n v a b p d p' w' ∧
    ∀ x, touched off len x → x < n → content w'.1 (c_fd me) x = v x ∨ off ≤ x < off + len) never (d, b).
Proof.
  intros Hp Hinv Hoff Hlen Hmax. unfold Replication.sync_unalign_page. cbn zeta.
  rewrite (HvsFileHandler.unsigned_id (off + len)), !land_page_mask by lia. wp_step.
  eapply wp_mono; [| |apply (sync_page_ok me other n v _ off a b p d); [done|done|lia]]; [|done].
  intros p1 [d1 b1] [(Ha1 & Hinv1 & Hd1 & Hb1) Hf1]. cbn [fst snd] in *. wp_step.
  eapply wp_mono; [| |apply (sync_page_ok me other n v _ (off + len) a b1 p1 d1); [done|done|lia]]; [|done].
  intros p2 [d2 b2] [(Ha2 & Hinv2 & Hd2 & Hb2) Hf2]. cbn [fst snd] in *. apply wp_ret. split.
  - split_and!; cbn [fst snd]; [congruence|done|congruence|by eapply better_trans].
  - cbn [fst]. intros x Hx Hxn. destruct (decide (off ≤ x < off + len)) as [|Hout]; [by right|left].
    unfold touched in Hx. destruct (decide (x < off)) as [Hlo|Hhi].
    + assert (Hpx : page_of x = page_of off) by (apply Z.le_antisymm; [apply page_of_mono; lia|lia]).
      assert (Hc : negb (off mod page_size =? 0) = true).
      { apply negb_true_iff, Z.eqb_neq. intros Hm. unfold page_of, page_size in *.
        pose proof (Z.div_mod x (2 ^ 12) ltac:(done)). pose proof (Z.mod_pos_bound x (2 ^ 12) ltac:(lia)).
        pose proof (Z.div_mod off (2 ^ 12) ltac:(done)). lia. }
      destruct Hb2 as (_ & _ & Hcc & _). destruct (Hcc x) as [-> | ->]; [|done]. by apply Hf1.
    + assert (Hpx : page_of x = page_of (off + len) ∧ (off + len) mod page_size ≠ 0).
      { unfold page_of, page_size in *. destruct Hx as [_ Hx].
        pose proof (Z.div_mod x (2 ^ 12) ltac:(done)). pose proof (Z.mod_pos_bound x (2 ^ 12) ltac:(lia)).
        pose proof (Z.div_mod (off + len) (2 ^ 12) ltac:(done)). pose proof (Z.mod_pos_bound (off + len) (2 ^ 12) ltac:(lia)).
        pose proof (Z.div_mod (off + len - 1) (2 ^ 12) ltac:(done)). pose proof (Z.mod_pos_bound (off + len - 1) (2 ^ 12) ltac:(lia)).
        split; nia. }
      apply Hf2; [|apply Hpx|done]. apply negb_true_iff, Z.eqb_neq, Hpx.
Qed.

(** ** Requests to one of the two *)

Definition read_request (id off len : Z) : OpRequest.t :=
  OpRequest.mk id file OpType.read "" (OpRequest.io_param_case (IOParam.mk off len)) 0 0 "".
Definition write_request (id off : Z) (s : string) : OpRequest.t :=
  OpRequest.mk id file OpType.write "" (OpRequest.io_param_case (IOParam.mk off (CxxString.size s))) 0 0 s.

Lemma byte_at_buffer k s i : 0 ≤ i < CxxString.size s → (String.length s ≤ k)%nat →
  byte_at (HvsFileHandler.buffer k s) i = byte_at s i.
Proof. intros Hi Hk. unfold HvsFileHandler.buffer. rewrite str_take_all by done. by apply byte_at_app_l. Qed.

Lemma size_buffer k s : CxxString.size (HvsFileHandler.buffer k s) = Z.of_nat k.
Proof.
  unfold HvsFileHandler.buffer. rewrite size_app. unfold CxxString.size. rewrite length_str_take.
  assert (Hz : ∀ n, String.length (HvsFileHandler.zeros n) = n) by (induction n; cbn; congruence). rewrite Hz. lia.
Qed.

(** Opening the file again does not change the pair. *)
Lemma member_open me other addr a p d p' :
  member me other addr (here a p d) → serves file (c_fd me) (tag (c_id other)) p' → same_proxy p p' →
  member me other addr (here a p' d).
Proof.
  intros (_ & Hl & Hm & Hn & Hc) Hs [Hd Hr]. unfold member. cbn [here s_proxy s_disk] in *. rewrite Hd, Hr. by split_and!.
Qed.

Lemma do_read_ok me other n v id off len a b p d :
  partners me other → cluster_inv me other n v (here a p d) b → whole_pages n off len → off + len < 2 ^ 63 →
  wp (ProxyOP.do_op walk_fuel (read_request id off len) OpReply.init p) (λ '(reply, p') w',
    ready_for me other n v a b p d p' w' ∧
    reply.(OpReply.err_code) = Z.min len (Z.max 0 (n - off)) ∧
    reply.(OpReply.err_code) ≤ CxxString.size (OpReply.data reply) ∧
    ∀ i, 0 ≤ i < reply.(OpReply.err_code) → byte_at (OpReply.data reply) i = v (off + i)) never (d, b).
Proof.
  intros Hp Hinv Hw Hmax. pose proof Hw as (Hoff & Hlen & _). unfold ProxyOP.do_op, ProxyOP.perform.
  cbn [read_request OpRequest.type OpRequest.id]. unfold ProxyOP.do_read.
  cbn [read_request OpRequest.filepath OpRequest.io_param OpRequest.additional IOParam.offset IOParam.size].
  pose proof Hinv as (Ha & Hb & Hag). pose proof Ha as (Hs & _).
  destruct (serves_open (W := D * site) _ _ _ O_RDWR 429 _ Hheap Hs eq_refl) as (p1 & Hrun & Hs1 & Hp1 & Hpos).
  wp_step. eapply wp_run_eq; [apply Hrun|]. cbn beta iota. destruct (Z.ltb_spec (c_fd me) 0); [lia|]. wp_step.
  eapply wp_mono; [| |apply (sync_filedata_ok me other n v off len a b p1 d); [done| |done|done]]; [|done|].
  2: { split_and!; [by eapply member_open|done|done]. }
  intros [e p2] [d2 b2] (Ha2 & Hinv2 & Hd2 & Hb2 & Hf2). wp_step. apply wp_extern.
  rewrite HvsFileHandler.signed_id by lia. pose proof Hb2 as (Hl2 & Hn2 & _).
  pose proof Hag as (Hsm & (_ & Hna & _) & _). cbn [here s_disk] in Hna.
  pose proof (pread_ok (D * site) (c_fd me) len off (d2, b2) Hl2 Hlen Hoff) as Hpr.
  assert (Hfr : (sys_pread (c_fd me) len off (d2, b2)).2.2 = b2).
  { cbn. unfold on_disk. cbn. by destruct (sys_pread (c_fd me) len off d2) as [[? ?] ?]. }
  destruct (sys_pread (c_fd me) len off (d2, b2)) as [[r bytes] [d3 b3]]. cbn [fst snd] in *. subst b3.
  destruct Hpr as (Hr & Hsz & Hbytes & Hl3 & Hlen3 & Hd3 & Hc3 & Hx3).
  change (file_len (d2, b2) (c_fd me)) with (file_len d2 (c_fd me)) in Hr. rewrite Hn2, Hna in Hr.
  destruct (Z.eqb_spec r (-1)); [lia|]. apply wp_ret. unfold Replication.handle_replica_async.
  cbn [read_request OpRequest.filepath OpRequest.type Replication.readonly].
  destruct (String.eqb_spec file "") as [He|_]; [by destruct (file_named He)|]. apply wp_ret.
  assert (Hsame : same_file (c_fd me) d2 d3) by (by split_and!).
  cbn [OpReply.err_code OpReply.set_err_code OpReply.data OpReply.set_data OpReply.additional].
  rewrite to_i32_id by (unfold in_i32; lia). split; [split_and!; cbn [fst snd]; [exact Ha2| |by rewrite Hd2; apply Hp1|]|split; [done|split]].
  - destruct Hinv2 as ((Hs2 & Hl & Hm & Hnw & Hc) & Hb' & Hag2). split_and!; [|done|by eapply same_agree].
    split_and!; try done. cbn [here s_disk s_proxy]. destruct Hsame as (_ & _ & _ & _ & Hx). rewrite Hx. exact Hc.
  - eapply better_trans; [exact Hb2|]. destruct Hsame as (Hv & Hle & _ & Hcc & Hx).
    split_and!; [done|done|intros x; left; apply Hcc|done].
  - pose proof (size_buffer (Z.to_nat len) bytes). lia.
  - intros i Hi. rewrite byte_at_buffer by (unfold CxxString.size in *; lia). rewrite Hbytes by lia.
    change (content d2 (c_fd me) (off + i) = v (off + i)). apply Hf2; lia.
Qed.

(** An index update, once or more, seen from the disk it works on. *)
Definition updated fd off len (d d' : D) : Prop :=
  live d' fd ∧ file_len d' fd = Z.max (file_len d fd) (off + len) ∧
  (∀ x, touched off len x → has_data d' fd x = false) ∧
  (∀ x, ¬ touched off len x → content d' fd x = content d fd x ∧
     (0 ≤ x < file_len d fd → has_data d' fd x = has_data d fd x)) ∧
  ∀ q, centres d' q = centres d q.
Lemma updated_trans fd off len d1 d2 d3 : updated fd off len d1 d2 → updated fd off len d2 d3 → updated fd off len d1 d3.
Proof.
  intros (_ & Hn & _ & Hk & Hx) (Hl' & Hn' & Ht' & Hk' & Hx'). split_and!; [done|lia|done| |intros q; by rewrite Hx'].
  intros x Hx0. destruct (Hk x Hx0) as [Hc Hd], (Hk' x Hx0) as [Hc' Hd']. split; [congruence|].
  intros Hr. rewrite Hd' by lia. auto.
Qed.

(** Telling every other centre of a list about a write. *)
Lemma flush_centres_ok me other addr cs request off len r (d : D) b :
  (∀ z, z ∈ names cs → z = c_id me ∨ z = c_id other) → c_id me ≠ c_id other →
  link (c_id other) (s_addr b) r → r.(ReplicaMgr.mcid) = c_id me → member other me addr b →
  live (s_disk b) (c_fd other) → request.(OpRequest.type) = OpType.rep_update_index →
  request.(OpRequest.filepath) = file → byte_of (front request.(OpRequest.extra)) = tag (c_id me) →
  OpRequest.io_param request = IOParam.mk off len → 0 ≤ off → 0 < len → off + len < 2 ^ 62 →
  wp (Replication.flush_centres cs request r) (λ r' w', w'.1 = d ∧ s_addr w'.2 = s_addr b ∧
    link (c_id other) (s_addr b) r' ∧ r'.(ReplicaMgr.mcid) = r.(ReplicaMgr.mcid) ∧
    r'.(ReplicaMgr.m_new) = r.(ReplicaMgr.m_new) ∧ member other me addr w'.2 ∧
    (w'.2 = b ∨ updated (c_fd other) off len (s_disk b) (s_disk w'.2)) ∧
    (c_id other ∈ names cs → updated (c_fd other) off len (s_disk b) (s_disk w'.2))) never (d, b).
Proof.
  intros Hn Hne Hl Hm Hb Hlive Ht Hf Htag Hio Hoff Hlen Hmax. revert r b Hl Hm Hb Hlive.
  induction cs as [|c cs IH]; intros r b Hl Hm Hb Hlive; cbn [Replication.flush_centres].
  { apply wp_ret. split_and!; try done; [by left|set_solver]. }
  assert (Hn' : ∀ z, z ∈ names cs → z = c_id me ∨ z = c_id other) by (intros z Hz; apply Hn; by right).
  specialize (IH Hn'). rewrite Hm. destruct (Z.eqb_spec (centre_id c) (c_id me)) as [Hc|Hc].
  { eapply wp_mono; [| |by apply IH]; [|done]. intros r' w' (H1' & H2' & H3' & H4' & H5' & H6' & H7' & H8').
    split_and!; try done; [congruence|]. intros [Ho|Ho]%elem_of_cons; [congruence|auto]. }
  assert (Hco : centre_id c = c_id other) by (destruct (Hn (centre_id c)); [left|congruence|done]). rewrite Hco.
  wp_step. apply submit_ok; [done|]. intros r1 Hl1 Hm1 Hn1. pose proof Hb as (Hs & _). rewrite <-Htag in Hs.
  eapply wp_mono; [| |apply (serve_update walk_fuel file (c_fd other) request off len); try done; apply file_named]; [|done].
  rewrite Htag. intros [reply p] d2 (Hs2 & Hp2 & Hl2 & Hn2 & Ht2 & Hk2 & Hx2). cbn beta iota.
  assert (Hu : updated (c_fd other) off len (s_disk b) d2) by (split_and!; [done|done|apply Ht2|done|done]).
  assert (Hb2 : member other me addr (Site (s_addr b) p d2)) by (by apply (member_served _ _ _ b)).
  eapply wp_mono; [| |apply (IH r1 (Site (s_addr b) p d2)); try done; congruence]; [|done].
  intros r' w' (H1' & H2' & H3' & H4' & H5' & H6' & H7' & H8'). cbn [s_addr s_disk] in *.
  assert (Hu' : updated (c_fd other) off len (s_disk b) (s_disk w'.2)).
  { destruct H7' as [->|H7']; [done|by eapply updated_trans]. }
  split_and!; try done; [congruence..|by right].
Qed.

(** A request is carried out, and the flusher takes what it queued. *)
Definition handle (request : OpRequest.t) (p : IOProxy.t) : M (D * site) (OpReply.t * IOProxy.t) :=
  '(reply, p) ← ProxyOP.do_op walk_fuel request OpReply.init p;
  r ← Replication.flush p.(IOProxy.repm);
  mret (reply, IOProxy.set_repm r p).

(** What is queued for a write: the request without its data. *)
Definition queued (id off : Z) (s : string) : OpRequest.t :=
  OpRequest.set_extra cids (OpRequest.set_data "" (write_request id off s)).

Lemma queue_replica_ok me other addr a p request reply (w : D * site) Q :
  member me other addr (here a p w.1) → request.(OpRequest.filepath) = file → 0 ≤ reply.(OpReply.err_code) →
  (∀ w', same_file (c_fd me) w w' → w'.2 = w.2 →
     Q (reply, IOProxy.set_repm (ReplicaMgr.set_new [OpRequest.set_extra cids request] p.(IOProxy.repm)) p) w') →
  wp (Replication.queue_replica request reply p) Q never w.
Proof.
  intros Hm Hf He HQ. pose proof Hm as (_ & _ & _ & Hnew & _). cbn [here s_proxy] in Hnew.
  unfold Replication.queue_replica. destruct (Z.ltb_spec reply.(OpReply.err_code) 0); [lia|]. rewrite Hf.
  wp_step. apply (space_centres_here me other addr a p w); [done|]. intros w' Hs Hw'.
  destruct (Z.ltb_spec (CxxString.size cids) 2); [lia|]. wp_step. unfold Replication.submit_replicated_request.
  rewrite Hnew. change (ReplicaMgr.m_max_new <? Z.of_nat (length [])) with false. cbn iota.
  wp_step. wp_step. wp_step. wp_step. rewrite Hnew. by apply HQ.
Qed.

Lemma do_write_ok me other n v id off s a b p d :
  partners me other → cluster_inv me other n v (here a p d) b →
  0 ≤ off → 0 < CxxString.size s → off + CxxString.size s < 2 ^ 31 →
  wp (ProxyOP.do_op walk_fuel (write_request id off s) OpReply.init p) (λ '(reply, p') w',
    reply.(OpReply.err_code) = CxxString.size s ∧ ∃ p1 d1 d2 r, ready_for me other n v a b p d p1 (d1, w'.2) ∧
    (∀ x, touched off (CxxString.size s) x → x < n → content d1 (c_fd me) x = v x ∨ off ≤ x < off + CxxString.size s) ∧
    sys_pwrite (c_fd me) s off d1 = (r, d2) ∧ same_file (c_fd me) d2 w'.1 ∧
    p' = IOProxy.set_repm (ReplicaMgr.set_new [queued id off s] p1.(IOProxy.repm)) p1) never (d, b).
Proof.
  intros Hp Hinv Hoff Hsz Hmax. unfold ProxyOP.do_op, ProxyOP.perform.
  cbn [write_request OpRequest.type OpRequest.id]. unfold ProxyOP.do_write.
  cbn [write_request OpRequest.filepath OpRequest.io_param OpRequest.additional OpRequest.data IOParam.offset IOParam.size].
  pose proof Hinv as (Ha & Hb & Hag). pose proof Ha as (Hs & _).
  destruct (serves_open (W := D * site) _ _ _ O_RDWR 429 _ Hheap Hs eq_refl) as (p1 & Hrun & Hs1 & Hp1 & Hpos).
  wp_step. eapply wp_run_eq; [apply Hrun|]. cbn beta iota. destruct (Z.ltb_spec (c_fd me) 0); [lia|]. wp_step.
  eapply wp_mono; [| |apply (sync_unalign_page_ok me other n v off (CxxString.size s) a b p1 d); [done| |done|done|lia]]; [|done|].
  2: { split_and!; [by eapply member_open|done|done]. }
  intros [e p2] [d1 b1] [(Ha2 & Hinv2 & Hd2 & Hb2) Hfill]. cbn [fst snd] in *. pose proof Hinv2 as (Hm2 & _).
  wp_step. rewrite bytes_of_all. wp_step. wp_step. apply wp_extern.
  rewrite HvsFileHandler.signed_id by lia.
  pose proof (pwrite_ok D (c_fd me) s off d1 (proj1 Hb2) Hoff Hsz ltac:(lia)) as Hpw. cbn zeta in Hpw.
  destruct (sys_pwrite (c_fd me) s off d1) as [r d2] eqn:Hw. destruct Hpw as (-> & Hl2 & _ & _ & _ & _ & _ & Hx2).
  assert (Hcall : sys_pwrite (c_fd me) s off (d1, b1) = (CxxString.size s, (d2, b1))).
  { cbn. unfold on_disk. cbn. by rewrite Hw. }
  rewrite Hcall. cbn [fst snd]. wp_step. unfold ProxyOP.err_or. destruct (Z.eqb_spec (CxxString.size s) (-1)); [lia|].
  wp_step. wp_step. unfold Replication.handle_replica_async.
  cbn [write_request OpRequest.filepath OpRequest.type Replication.readonly Replication.modifies].
  destruct (String.eqb_spec file "") as [He|_]; [by destruct (file_named He)|].
  apply (queue_replica_ok me other (s_addr b1) a p2); [| |cbn; rewrite to_i32_id by (unfold in_i32; lia); lia|].
  - destruct Hm2 as (? & ? & ? & ? & Hc). split_and!; try done. cbn [here s_disk s_proxy fst] in *. by rewrite Hx2.
  - done.
  - intros [d3 b3] Hsame Hb3. cbn in Hb3. subst b3. split; [cbn; by rewrite to_i32_id by (unfold in_i32; lia)|].
    exists p2, d1, d2, (CxxString.size s). split_and!; try done. split_and!; try done. rewrite Hd2. apply Hp1.
Qed.

(** What the flusher sends for a write. *)
Lemma outgoing_write mcid id off s : ∃ out, Replication.outgoing mcid (queued id off s) = Some out ∧
  out.(OpRequest.type) = OpType.rep_update_index ∧ out.(OpRequest.filepath) = file ∧
  byte_of (front out.(OpRequest.extra)) = tag mcid ∧
  OpRequest.io_param out = IOParam.mk off (CxxString.size s).
Proof. eexists. split; [reflexivity|]. by split_and!. Qed.

Lemma handle_write_ok me other n v id off s a b p d :
  partners me other → cluster_inv me other n v (here a p d) b →
  0 ≤ off → 0 < CxxString.size s → off + CxxString.size s < 2 ^ 31 →
  wp (handle (write_request id off s) p) (λ '(reply, p') w', s_addr w'.2 = s_addr b ∧
    reply.(OpReply.err_code) = CxxString.size s ∧
    cluster_inv me other (Z.max n (off + CxxString.size s)) (overwrite off s v) (here a p' w'.1) w'.2) never (d, b).
Proof.
  intros Hp Hinv Hoff Hsz Hmax. unfold handle. wp_step.
  eapply wp_mono; [| |by apply (do_write_ok me other n v id off s a b p d)]; [|done].
  intros [reply p'] [d3 b1] (Herr & p1 & d1 & d2 & r & (Haddr & Hinv1 & _ & _) & Hfill & Hw & Hsame & ->). cbn [fst snd] in *.
  destruct Hinv1 as (Ha1 & Hb1 & Hag1). pose proof Ha1 as (Hs1 & Hl1 & Hm1 & Hn1 & Hc1). cbn [here s_proxy s_disk s_addr] in *.
  unfold Replication.flush. cbn [IOProxy.repm IOProxy.set_repm ReplicaMgr.m_new ReplicaMgr.set_new Replication.flush_requests ReplicaMgr.mcid].
  destruct (outgoing_write (ReplicaMgr.mcid (IOProxy.repm p1)) id off s) as (out & Hout & Ht & Hf & Htag & Hio). rewrite Hout.
  change (OpRequest.extra (queued id off s)) with cids. destruct Hp as (Hne & Hnames & _ & Hother).
  wp_step. wp_step. rewrite Hm1 in Htag. pose proof Hag1 as (_ & (Hla & Hna & _) & (Hlb & Hnb & _) & _).
  eapply wp_mono; [| |apply (flush_centres_ok me other (s_addr a) cids out off (CxxString.size s)); try done; lia]; [|done].
  intros r' [d4 b4] (Hd4 & Ha4 & Hl4 & Hm4 & Hn4 & Hb4 & _ & Hu). cbn [fst snd] in *. subst d4.
  destruct (Hu Hother) as (Hul & Hun & Hut & Huk & Hux). wp_step. wp_step.
  pose proof (write_agree d1 (c_fd me) (s_disk b1) (c_fd other) n v off s r d2 (s_disk b4) Hag1 Hoff Hsz Hmax Hfill Hw Hul Hun Hut Huk) as Hag4.
  split_and!; [cbn [snd]; congruence|done|]. split_and!; [|done|].
  - split_and!; cbn [fst snd here s_proxy s_disk IOProxy.set_repm IOProxy.repm IOProxy.data_path].
    + exact Hs1.
    + rewrite Ha4. exact Hl4.
    + rewrite Hm4. exact Hm1.
    + exact Hn4.
    + destruct Hsame as (_ & _ & _ & _ & Hx). rewrite Hx.
      pose proof (pwrite_ok D (c_fd me) s off d1 Hla Hoff Hsz ltac:(lia)) as Hpw. rewrite Hw in Hpw. cbn zeta in Hpw.
      destruct Hpw as (_ & _ & _ & _ & _ & _ & _ & Hx2). by rewrite Hx2.
  - cbn [here s_disk]. eapply same_agree; [exact Hsame|reflexivity|done].
Qed.

Lemma handle_read_ok me other n v id off len a b p d :
  partners me other → cluster_inv me other n v (here a p d) b → whole_pages n off len → off + len < 2 ^ 63 →
  wp (handle (read_request id off len) p) (λ '(reply, p') w', s_addr w'.2 = s_addr b ∧
    reply.(OpReply.err_code) = Z.min len (Z.max 0 (n - off)) ∧
    reply.(OpReply.err_code) ≤ CxxString.size (OpReply.data reply) ∧
    (∀ i, 0 ≤ i < reply.(OpReply.err_code) → byte_at (OpReply.data reply) i = v (off + i)) ∧
    cluster_inv me other n v (here a p' w'.1) w'.2) never (d, b).
Proof.
  intros Hp Hinv Hw Hmax. unfold handle. wp_step.
  eapply wp_mono; [| |by apply (do_read_ok me other n v id off len a b p d)]; [|done].
  intros [reply p'] [d1 b1] ((Haddr & Hinv1 & _ & _) & Herr & Hsz & Hdata). cbn [fst snd] in *.
  destruct Hinv1 as ((Hs1 & Hl1 & Hm1 & Hn1 & Hc1) & Hb1 & Hag1). cbn [here s_proxy s_disk s_addr] in *.
  unfold Replication.flush. rewrite Hn1. cbn [Replication.flush_requests]. wp_step. wp_step. wp_step.
  by split_and!.
Qed.

(** ** Histories *)

(** What clients do to the file, through the proxy of one centre or of the other. *)
Inductive file_op : Type :=
| Write (off : Z) (s : string)
| Read (off len : Z).
Definition to_request (op : file_op) : OpRequest.t :=
  match op with Write off s => write_request 0 off s | Read off len => read_request 0 off len end.

(** The file the two stand for: its length and its bytes. *)
Definition file_after (op : file_op) (f : Z * (Z → ascii)) : Z * (Z → ascii) :=
  match op with
  | Write off s => (Z.max f.1 (off + CxxString.size s), overwrite off s f.2)
  | Read _ _ => f
  end.
Definition file_answer (op : file_op) (f : Z * (Z → ascii)) (reply : OpReply.t) : Prop :=
  match op with
  | Write off s => reply.(OpReply.err_code) = CxxString.size s
  | Read off len => reply.(OpReply.err_code) = Z.min len (Z.max 0 (f.1 - off)) ∧
      reply.(OpReply.err_code) ≤ CxxString.size (OpReply.data reply) ∧
      ∀ i, 0 ≤ i < reply.(OpReply.err_code) → byte_at (OpReply.data reply) i = f.2 (off + i)
  end.
(** Non-empty writes within 2 GiB, and reads of whole pages. *)
Definition in_bounds (op : file_op) (n : Z) : Prop :=
  match op with
  | Write off s => 0 ≤ off ∧ 0 < CxxString.size s ∧ off + CxxString.size s < 2 ^ 31
  | Read off len => whole_pages n off len ∧ off + len < 2 ^ 63
  end.

(** One request at the left or at the right centre. *)
Definition at_left (request : OpRequest.t) (c : site * site) : outcome OpReply.t * (site * site) :=
  let '(a, b) := c in
  match handle request (s_proxy a) (s_disk a, b) with
  | (Val (reply, p), (d, b)) => (Val reply, (Site (s_addr a) p d, b))
  | (UB, (d, b)) => (UB, (Site (s_addr a) (s_proxy a) d, b))
  end.
Definition swap (c : site * site) : site * site := (c.2, c.1).
Definition at_right (request : OpRequest.t) (c : site * site) : outcome OpReply.t * (site * site) :=
  let '(o, c) := at_left request (swap c) in (o, swap c).

(** The replies to a history; it ends at the first crash. *)
Fixpoint run (ops : list (bool * file_op)) (c : site * site) : list OpReply.t * (site * site) :=
  match ops with
  | [] => ([], c)
  | (lhs, op) :: ops =>
      match (if lhs : bool then at_left else at_right) (to_request op) c with
      | (Val reply, c) => let '(replies, c) := run ops c in (reply :: replies, c)
      | (UB, c) => ([], c)
      end
  end.
Fixpoint file_run (ops : list (bool * file_op)) (replies : list OpReply.t) (f : Z * (Z → ascii)) : Prop :=
  match ops, replies with
  | [], [] => True
  | (_, op) :: ops, reply :: replies => file_answer op f reply ∧ file_run ops replies (file_after op f)
  | _, _ => False
  end.
Fixpoint all_in_bounds (ops : list (bool * file_op)) (f : Z * (Z → ascii)) : Prop :=
  match ops with
  | [] => True
  | (_, op) :: ops => in_bounds op f.1 ∧ all_in_bounds ops (file_after op f)
  end.
Definition final_file (ops : list (bool * file_op)) (f : Z * (Z → ascii)) : Z * (Z → ascii) :=
  foldl (λ f op, file_after op.2 f) f ops.

Lemma at_left_ok me other op f c : partners me other → cluster_inv me other f.1 f.2 c.1 c.2 → in_bounds op f.1 →
  ∃ reply c', at_left (to_request op) c = (Val reply, c') ∧ file_answer op f reply ∧
    s_addr c'.1 = s_addr c.1 ∧ s_addr c'.2 = s_addr c.2 ∧
    cluster_inv me other (file_after op f).1 (file_after op f).2 c'.1 c'.2.
Proof.
  intros Hp Hinv Hop. destruct c as [a b], f as [n v]. cbn [fst snd] in *. unfold at_left.
  assert (Hinv' : cluster_inv me other n v (here a (s_proxy a) (s_disk a)) b) by (by destruct a).
  destruct op as [off s|off len]; cbn [to_request in_bounds file_after file_answer fst snd] in *.
  - destruct Hop as (Hoff & Hsz & Hmax).
    destruct (wp_run _ _ _ (handle_write_ok me other n v 0 off s a b _ _ Hp Hinv' Hoff Hsz Hmax)) as ([reply p] & [d b'] & -> & Haddr & He & Hi).
    eexists _, _. split_and!; [done|done|done|exact Haddr|]. exact Hi.
  - destruct Hop as [Hw Hmax].
    destruct (wp_run _ _ _ (handle_read_ok me other n v 0 off len a b _ _ Hp Hinv' Hw Hmax)) as ([reply p] & [d b'] & -> & Haddr & He & Hsz & Hd & Hi).
    eexists _, _. split_and!; [done|done|done|done|done|exact Haddr|]. exact Hi.
Qed.

Lemma partners_sym me other : partners me other → partners other me.
Proof. intros (Hne & Hn & Hm & Ho). split_and!; [by apply not_eq_sym| |done|done]. intros z Hz. destruct (Hn z Hz); auto. Qed.

Lemma at_right_ok me other op f c : partners me other → cluster_inv me other f.1 f.2 c.1 c.2 → in_bounds op f.1 →
  ∃ reply c', at_right (to_request op) c = (Val reply, c') ∧ file_answer op f reply ∧
    s_addr c'.1 = s_addr c.1 ∧ s_addr c'.2 = s_addr c.2 ∧
    cluster_inv me other (file_after op f).1 (file_after op f).2 c'.1 c'.2.
Proof.
  intros Hp Hinv%cluster_inv_sym Hop.
  destruct (at_left_ok other me op f (swap c) (partners_sym _ _ Hp) Hinv Hop) as (reply & c' & Hrun & Hans & Ha & Hb & Hinv').
  exists reply, (swap c'). unfold at_right. rewrite Hrun. split_and!; [done|done|exact Hb|exact Ha|]. by apply cluster_inv_sym.
Qed.

End reused.

(** Where it does not, a request ends the proxy it was sent to before anything else. *)
Lemma handle_ends me other addr s op d b : reuses_freed_block = false → member me other addr s →
  handle (to_request op) (s_proxy s) (d, b) = (UB, (d, b)).
Proof.
  intros Hheap (Hs & _).
  pose proof (serves_open_dangles (W := D * site) _ _ _ O_RDWR 429 _ (d, b) Hheap Hs eq_refl) as Ho.
  unfold handle, mbind, M_bind.
  enough (ProxyOP.do_op walk_fuel (to_request op) OpReply.init (s_proxy s) (d, b) = (UB, (d, b))) as -> by done.
  unfold ProxyOP.do_op, ProxyOP.perform, mbind, M_bind.
  by destruct op; cbn [to_request write_request read_request OpRequest.type OpRequest.id];
    unfold ProxyOP.do_write, ProxyOP.do_read, mbind, M_bind; cbn [OpRequest.filepath write_request read_request]; rewrite Ho.
Qed.
Lemma request_ends me other n v c op : reuses_freed_block = false → cluster_inv me other n v c.1 c.2 →
  at_left (to_request op) c = (UB, c) ∧ at_right (to_request op) c = (UB, c).
Proof.
  intros Hheap (Ha & Hb & _). destruct c as [[aa pa da] [ab pb db]]. cbn [fst snd] in *.
  unfold at_right, at_left, swap. cbn [fst snd].
  rewrite (handle_ends _ _ _ (Site aa pa da) op da _ Hheap Ha), (handle_ends _ _ _ (Site ab pb db) op db _ Hheap Hb). done.
Qed.

(** C1: two centres are one file, as far as one line of [FdManager::open] lets
    them. The two disks hold a file between them, open in both proxies; every
    history of writes within 2 GiB and of reads of whole pages is sent to either
    proxy, one request at a time with the flusher run after each, on disks and a
    network without faults. A request opens the path that is open already, and that
    reads a list node just freed. Where the allocator has handed the freed block
    out again for the node put in its place, every request is answered as the one
    file would answer it, none crashes and the two disks end up holding the final
    file; where it has not, already the first request ends its proxy, with no
    answer and nothing changed on either disk. *)
Theorem history_refines me other ops f c :
  partners me other → cluster_inv me other f.1 f.2 c.1 c.2 → all_in_bounds ops f →
  let '(replies, c') := run ops c in
  if reuses_freed_block then
    file_run ops replies f ∧ cluster_inv me other (final_file ops f).1 (final_file ops f).2 c'.1 c'.2
  else replies = [] ∧ c' = c.
Proof.
  intros Hp. destruct reuses_freed_block eqn:Hheap.
  - revert f c. induction ops as [|[lhs op] ops IH]; intros f c Hinv Hops; cbn [run]; [done|].
    destruct Hops as [Hop Hops].
    assert (Hstep : ∃ reply c', (if lhs : bool then at_left else at_right) (to_request op) c = (Val reply, c') ∧
      file_answer op f reply ∧ cluster_inv me other (file_after op f).1 (file_after op f).2 c'.1 c'.2).
    { destruct lhs; [destruct (at_left_ok Hheap me other op f c Hp Hinv Hop) as (reply & c' & Hrun & Hans & _ & _ & Hinv')
        |destruct (at_right_ok Hheap me other op f c Hp Hinv Hop) as (reply & c' & Hrun & Hans & _ & _ & Hinv')]; by exists reply, c'. }
    destruct Hstep as (reply & c' & -> & Hans & Hinv'). specialize (IH _ _ Hinv' Hops).
    destruct (run ops c') as [replies c'']. destruct IH as [Hr Hi]. by split_and!.
  - intros Hinv _. destruct ops as [|[lhs op] ops]; cbn [run]; [done|].
    destruct (request_ends me other _ _ c op Hheap Hinv) as [Hl Hr]. by destruct lhs; rewrite ?Hl, ?Hr.
Qed.
End cluster.
