(* ===== verification/ClusterRuns.v ===== *)
(** * Concrete runs of two centres

    Two centres on file systems in memory ([mem], Files.v): the witness of
    [history_refines], and runs outside its bounds: a read of part of a page that
    loses data in both centres, a replica of an empty file that crashes the proxy,
    and the witnesses of what is said of the queue (ProxyOp.v). *)
From S2P Require Import Prelude CxxString Json Records Lru FdManager Op Files Replica ProxyOp Pages Cluster.

Section runs.
Local Instance fast_heap : Allocator := {| reuses_freed_block := true |}.
(** The disks are reached through one call at a time: a proxy that serves makes no
    call of its own. *)
Local Instance no_calls : Grpc mem := {| grpc_submit _ _ w := (None, w) |}.
Local Instance listing : Protobuf := {| pb_serialize _ := ""; pb_parse _ := OpReply.add_entry "s/e" Attr.init OpReply.init |}.

Definition file : string := "s/f".
Definition cids : string := String (char_of 1) (String (char_of 2) "").
Definition fuel : nat := 10.

(** The disk of a centre: the space with its attribute, and the empty file. *)
Definition disk : mem := Mem 3 ∅ {["/d/s/f" := empty_file]} {["/d/s" := ["f"]]}
  {[("/d/s", HvsFileHandler.centers_name) := cids]} 0.
Definition node (id : Z) : IOProxyNode.t := IOProxyNode.mk 8000 0 ("10.0.0." +:+ pretty id) "" IOProxyNode.Running (pretty id) (pretty id).
Definition addr (id : Z) : string := Replication.target (node id).

Definition opened : FdManager.t * mem :=
  match FdManager.get_file_handler "/d/s/f" FdManager.init disk with
  | (Val (_, m), w) => (m, w)
  | (UB, w) => (FdManager.init, w)
  end.
(** A proxy that has opened the file, with the bitmap of the other centre. *)
Definition proxy (id other : Z) : IOProxy.t :=
  IOProxy.set_handler 3 (HvsFileHandler.set_bitmap other (Some rb_create) (HvsFileHandler.make 3))
    (IOProxy.mk "/d" opened.1 (ReplicaMgr.mk {[other := node other]} id ∅ [])).
Definition centre_site (id other : Z) : site := Site (addr id) (proxy id other) opened.2.
Definition one : centre := Centre 1 3.
Definition two : centre := Centre 2 3.
Definition both : site * site := (centre_site 1 2, centre_site 2 1).

Lemma opened_wf : wf opened.1.(FdManager.fds).
Proof.
  unfold opened. destruct (make_wf (K := string) (V := Z) 0) as [Hw Ha].
  assert (Hinv : FdManager.fd_inv ∅ FdManager.init disk).
  { split_and!; [exact Hw|done|]. change (FdManager.cached FdManager.init) with (@nil Z).
    split_and!; [constructor|set_solver|done]. }
  pose proof (FdManager.open_new_ok ∅ "/d/s/f" O_RDWR 436 FdManager.init disk Hinv eq_refl ltac:(done)) as Ho.
  unfold FdManager.get_file_handler, mbind, M_bind. unfold wp in Ho.
  destruct (FdManager.open "/d/s/f" O_RDWR 436 FdManager.init disk) as [[[fd m]|] w]; [|done].
  destruct Ho as [[Hwf _] _]. destruct (fd <? 0); [exact Hwf|]. by destruct (FdManager.file_handlers m !! fd).
Qed.

Lemma runs_inv : cluster_inv file "s" cids one two 0 (λ _, zero) both.1 both.2.
Proof.
  assert (Hm : ∀ id other, id = 1 ∧ other = 2 ∨ id = 2 ∧ other = 1 →
    member file "s" cids (Centre id 3) (Centre other 3) (addr other) (centre_site id other)).
  { intros id other Hid. split_and!.
    - split; [split_and!; [apply opened_wf|done| |]|].
      + by eexists; split; reflexivity.
      + eexists. split; reflexivity.
      + destruct Hid as [[-> ->]|[-> ->]]; eexists _, _; split_and!; reflexivity.
    - destruct Hid as [[-> ->]|[-> ->]]; (eexists; split_and!; [reflexivity|reflexivity|left; reflexivity]).
    - done.
    - done.
    - destruct Hid as [[-> ->]|[-> ->]]; reflexivity. }
  assert (Hh : holds opened.2 3 0 (λ _, zero)).
  { split_and!; [eexists; reflexivity|reflexivity|]. intros x. change (fd_data opened.2 3 x = true → fd_content opened.2 3 x = zero).
    unfold fd_data, fd_content. replace (fd_file opened.2 3) with (Some ("/d/s/f", empty_file)) by reflexivity.
    intros [Hx _]%f_data_spec. change (f_size empty_file) with 0 in Hx. lia. }
  split_and!; [apply Hm; auto|apply Hm; auto|]. by split_and!.
Qed.

Let history : list (bool * file_op) :=
  [(true, Write 4090 "hello, world"); (false, Write 4099 "CENTRE"); (false, Read 0 8192); (true, Read 4096 4096)].

Theorem history_refines_witness :
  let '(replies, c') := run fuel file history both in
  file_run history replies (0, λ _, zero) ∧
  cluster_inv file "s" cids one two (final_file history (0, λ _, zero)).1 (final_file history (0, λ _, zero)).2 c'.1 c'.2.
Proof.
  apply (history_refines fuel file "s" cids eq_refl ltac:(by split) one two history (0, λ _, zero) both).
  - split_and!; [done| |by left|by right; left]. intros z. vm_compute. intros Hz.
    repeat (apply elem_of_cons in Hz as [->|Hz]; [auto|]). by apply elem_of_nil in Hz.
  - apply runs_inv.
  - cbn. unfold whole_pages. split_and!; try (by vm_compute); try done; try lia; by vm_compute; auto.
Defined.

(** The answers to a history: the codes, and the data read. *)
Let answers (ops : list (bool * file_op)) : list (Z * string) :=
  (λ r, (OpReply.err_code r, OpReply.data r)) <$> (run fuel file ops both).1.
(** NUL bytes. *)
Let nul (n : nat) : string := HvsFileHandler.zeros n.

(** The bound on reads is needed: reading part of a page that is a hole here
    pulls only that part, which makes the page data here, with zeros around it. The
    next read returns the zeros, and the next write makes the other centre drop its
    copy of the page: what it had written is lost in both centres, without an
    error. *)
Theorem partial_read_loses_data :
  answers [(false, Write 0 "abcdefghij"); (true, Read 2 3); (true, Read 0 10); (true, Write 9 "J"); (false, Read 0 10)]
  = [(10, ""); (3, "cde"); (10, nul 2 +:+ "cde" +:+ nul 5); (1, ""); (10, nul 2 +:+ "cde" +:+ nul 4 +:+ "J")].
Proof. vm_compute. reflexivity. Qed.

(** An empty file that is replicated crashes the proxy of the replica at the
    first write to it elsewhere: the bitmap made from its length is a null pointer,
    which the update of the index dereferences. *)
Theorem empty_replica_crashes :
  let p := IOProxy.mk "/d" FdManager.init (ReplicaMgr.mk ∅ 2 ∅ []) in
  let create := OpRequest.mk 0 "s" OpType.rep_init_space cids OpRequest.no_param 0 0 "" in
  let update := OpRequest.mk 0 "s/e" OpType.rep_update_index (String (char_of 1) "")
    (OpRequest.io_param_case (IOParam.mk 0 10)) 0 0 "" in
  let '(created, w) := ProxyOP.do_op fuel create OpReply.init p mem_init in
  match created with
  | Val (reply, p) => OpReply.err_code reply = 0 ∧
      ('(fd, m) ← FdManager.get_file_handler "/d/s/e" (IOProxy.fdm p);
       mret (fd ≫= λ fd, FdManager.file_handlers m !! fd ≫= λ h, HvsFileHandler.bitmaps h !! 1)) w = (Val (Some None), w) ∧
      (ProxyOP.do_op fuel update OpReply.init p w).1 = UB
  | UB => False
  end.
Proof. vm_compute. by split_and!. Qed.

(** ** What settles and what bounces *)

Let write : OpRequest.t :=
  OpRequest.mk 0 file OpType.write cids (OpRequest.io_param_case (IOParam.mk 0 10)) 0 0 "".
Let statfs : OpRequest.t := OpRequest.mk 0 file OpType.statfs cids OpRequest.no_param 0 0 "".
Let sent (r : OpRequest.t) : OpRequest.t := default r (Replication.outgoing 1 r).

Theorem replication_settles_witness :
  wp (ProxyOP.do_op fuel (sent write) OpReply.init (proxy 2 1))
    (λ '(_, p') _, ProxyOP.queue_of p' = ProxyOP.queue_of (proxy 2 1)) ProxyOP.anything opened.2.
Proof.
  apply (ProxyOP.replication_settles fuel 1 write (sent write) OpReply.init (proxy 2 1) opened.2); reflexivity.
Defined.

Theorem bounces_for_ever_witness :
  ∃ next, wp (ProxyOP.do_op fuel (sent statfs) OpReply.init (proxy 2 1))
      (λ '(_, p') _, ProxyOP.queue_of p' = ProxyOP.queue_of (proxy 2 1) ++ [next]) never opened.2 ∧
    ProxyOP.bounces next.(OpRequest.type) = true ∧ next.(OpRequest.filepath) = (sent statfs).(OpRequest.filepath) ∧
    ∀ mcid', ∃ out', Replication.outgoing mcid' next = Some out' ∧
      out' = OpRequest.set_extra (String (char_of mcid') "") (sent statfs).
Proof.
  apply (ProxyOP.bounces_for_ever fuel 1 statfs (sent statfs) OpReply.init (proxy 2 1) opened.2 "s" cids opened.2);
    [reflexivity..|by split|done].
Defined.
End runs.
