(* ===== verification/StatCache.v ===== *)
(** * The attribute cache of the client (client/cache_mod.cc)

    [ClientCache] remembers the attributes of paths, and the paths known not to
    exist, up to a configured number of attributes. Every method runs under one
    lock, so a method is one step; the blocks of the memory pool are owned by one
    entry each, so an entry is the attributes it holds. *)
From S2P Require Import Prelude.

Module ClientCache.

Inductive Status : Type := FOUND | NOT_FOUND | FOUND_MISSING.
#[export] Instance status_eq_dec : EqDecision Status.
Proof. solve_decision. Defined.

Section cache.
(** [struct stat], copied as a whole. *)
Context {stat : Type}.

Record t : Type := mk {
  missing : gset string;
  cached : gmap string stat;
  stat_cache_ct : Z;
  max_stat_cache_ct : Z;
}.

(** [start] with the configured size. *)
Definition start (max : Z) : t := mk ∅ ∅ 0 max.

Definition lookup (key : string) (c : t) : Status * option stat :=
  if decide (key ∈ c.(missing)) then (FOUND_MISSING, None)
  else match c.(cached) !! key with
  | None => (NOT_FOUND, None)
  | Some res => (FOUND, Some res)
  end.

(** The status, and what is copied to the destination. *)
Definition get_stat (path : string) (c : t) : Status * option stat :=
  match lookup path c with
  | (FOUND, res) => (FOUND, res)
  | (fd_res, _) => (fd_res, None)
  end.

Definition set_stat (path : string) (st_buf : option stat) (c : t) : bool * t :=
  match st_buf with
  | None => (true, mk ({[path]} ∪ c.(missing)) c.(cached) c.(stat_cache_ct) c.(max_stat_cache_ct))
  | Some s =>
      let c := mk (c.(missing) ∖ {[path]}) c.(cached) c.(stat_cache_ct) c.(max_stat_cache_ct) in
      match (lookup path c).1 with
      | FOUND => (true, mk c.(missing) (<[path := s]> c.(cached)) c.(stat_cache_ct) c.(max_stat_cache_ct))
      | _ =>
          if c.(max_stat_cache_ct) <=? c.(stat_cache_ct) then (false, c)
          else (true, mk c.(missing) (<[path := s]> c.(cached)) (c.(stat_cache_ct) + 1) c.(max_stat_cache_ct))
      end
  end.

Definition expire_stat (path : string) (c : t) : t :=
  let removed := bool_decide (is_Some (c.(cached) !! path)) in
  mk (c.(missing) ∖ {[path]}) (delete path c.(cached))
    (if removed then c.(stat_cache_ct) - 1 else c.(stat_cache_ct)) c.(max_stat_cache_ct).

(** ** What the cache promises *)

(** The calls that change it, in the order of the lock. *)
Inductive event : Type :=
| SetStat (path : string) (st_buf : option stat)
| ExpireStat (path : string).

Definition step (c : t) (e : event) : t :=
  match e with
  | SetStat path s => (set_stat path s c).2
  | ExpireStat path => expire_stat path c
  end.
Definition run (es : list event) (c : t) : t := foldl step c es.

(** The last thing the cache was told about a path. *)
Fixpoint last_event (path : string) (es : list event) : option event :=
  match es with
  | [] => None
  | e :: es =>
      match last_event path es with
      | Some e' => Some e'
      | None => if String.eqb (match e with SetStat p _ => p | ExpireStat p => p end) path then Some e else None
      end
  end.

(** The counter counts, and the limit holds. *)
Definition wf (c : t) : Prop :=
  c.(stat_cache_ct) = Z.of_nat (Datatypes.length (map_to_list c.(cached))) ∧
  c.(stat_cache_ct) ≤ Z.max 0 c.(max_stat_cache_ct).

(** ** Proofs *)

Lemma count_size (m : gmap string stat) : Datatypes.length (map_to_list m) = size m.
Proof. apply length_map_to_list. Qed.

Lemma step_wf e c : wf c → wf (step c e).
Proof.
  unfold wf. rewrite !count_size. intros [Hct Hmax].
  destruct e as [path [s|]|path]; cbn [step]; [| |unfold expire_stat; cbn].
  - unfold set_stat, lookup. cbn [missing]. rewrite decide_False by set_solver. cbn [cached].
    destruct (cached c !! path) as [s'|] eqn:Hp; cbn.
    + rewrite map_size_insert_Some by eauto. done.
    + destruct (Z.leb_spec (max_stat_cache_ct c) (stat_cache_ct c)); cbn; [done|].
      rewrite map_size_insert_None by done. lia.
  - cbn. done.
  - destruct (cached c !! path) as [s'|] eqn:Hp; cbn.
    + rewrite map_size_delete_Some by eauto.
      assert (size (cached c) ≠ 0%nat); [|lia]. intros H0%map_size_empty_inv. by rewrite H0 in Hp.
    + rewrite delete_id by done. done.
Qed.

Lemma run_snoc es e c : run (es ++ [e]) c = step (run es c) e.
Proof. unfold run. by rewrite foldl_app. Qed.

Lemma last_event_snoc path es e :
  last_event path (es ++ [e]) =
  if String.eqb (match e with SetStat p _ => p | ExpireStat p => p end) path then Some e else last_event path es.
Proof.
  induction es as [|e' es IH]; cbn; [by destruct (String.eqb _ path)|]. rewrite IH.
  by destruct (String.eqb (match e with SetStat p _ => p | ExpireStat p => p end) path).
Qed.

(** What a step does to the answer for every path. *)
Lemma step_view e c path :
  match e with
  | SetStat p None => get_stat path (step c e) = if String.eqb p path then (FOUND_MISSING, None) else get_stat path c
  | SetStat p (Some s) =>
      get_stat path (step c e) = if String.eqb p path then (if (set_stat p (Some s) c).1 then (FOUND, Some s) else (NOT_FOUND, None))
                                 else get_stat path c
  | ExpireStat p => get_stat path (step c e) = if String.eqb p path then (NOT_FOUND, None) else get_stat path c
  end.
Proof.
  unfold get_stat. destruct e as [p [s|]|p]; cbn [step].
  - unfold set_stat, lookup. cbn [missing cached]. rewrite (decide_False (P := p ∈ missing c ∖ {[p]})) by set_solver.
    destruct (String.eqb_spec p path) as [->|Hne].
    + destruct (cached c !! path) eqn:Hp; cbn;
        [|destruct (_ <=? _) eqn:?; cbn]; rewrite decide_False by set_solver; rewrite ?lookup_insert_eq, ?Hp; done.
    + destruct (cached c !! p) eqn:Hp; cbn; [|destruct (_ <=? _); cbn];
        rewrite ?lookup_insert_ne by done; repeat case_decide; done || set_solver.
  - unfold lookup. cbn. destruct (String.eqb_spec p path) as [->|Hne].
    + by rewrite decide_True by set_solver.
    + repeat case_decide; done || set_solver.
  - unfold lookup, expire_stat. cbn. destruct (String.eqb_spec p path) as [->|Hne].
    + rewrite decide_False by set_solver. by rewrite lookup_delete_eq.
    + rewrite lookup_delete_ne by done. repeat case_decide; done || set_solver.
Qed.

(** Attributes of a path find room: it has some already, or the limit is not reached. *)
Definition room (path : string) (c : t) : bool :=
  bool_decide (is_Some (c.(cached) !! path)) || (Z.of_nat (size c.(cached)) <? c.(max_stat_cache_ct)).
Lemma set_stat_room path s c : wf c → (set_stat path (Some s) c).1 = room path c.
Proof.
  unfold wf, set_stat, lookup, room. rewrite count_size. intros [Hct _]. cbn [missing cached].
  rewrite decide_False by set_solver. destruct (cached c !! path) eqn:Hp; cbn; [done|].
  destruct (Z.leb_spec (max_stat_cache_ct c) (stat_cache_ct c)), (Z.ltb_spec (Z.of_nat (size (cached c))) (max_stat_cache_ct c)); lia || done.
Qed.
Lemma run_max es c : (run es c).(max_stat_cache_ct) = c.(max_stat_cache_ct).
Proof.
  induction es as [|e es IH] using rev_ind; [done|]. rewrite run_snoc. destruct e as [p [s|]|p]; cbn; [|done|done].
  unfold set_stat. cbn. destruct (lookup _ _).1; [done|..]; by destruct (_ <=? _).
Qed.

Lemma run_wf es max : wf (run es (start max)).
Proof.
  induction es as [|e es IH] using rev_ind; [|rewrite run_snoc; by apply step_wf].
  unfold wf. cbn [run foldl start cached stat_cache_ct max_stat_cache_ct]. rewrite map_to_list_empty. cbn. lia.
Qed.

(** What the cache answers for a path after some calls. *)
Definition told (path : string) (max : Z) (es : list event) (answer : Status * option stat) : Prop :=
  match last_event path es with
  | Some (SetStat _ (Some s)) => ∃ before after, es = before ++ SetStat path (Some s) :: after ∧ last_event path after = None ∧
      answer = if room path (run before (start max)) then (FOUND, Some s) else (NOT_FOUND, None)
  | Some (SetStat _ None) => answer = (FOUND_MISSING, None)
  | Some (ExpireStat _) | None => answer = (NOT_FOUND, None)
  end.
Lemma told_snoc path max es e answer :
  match e with SetStat p _ => p | ExpireStat p => p end ≠ path → told path max es answer → told path max (es ++ [e]) answer.
Proof.
  intros He%String.eqb_neq. unfold told. rewrite last_event_snoc, He. destruct (last_event path es) as [[p [s|]|p]|]; try done.
  intros (before & after & -> & Hn & ->). exists before, (after ++ [e]). split_and!; [by rewrite <-(assoc_L (++))| |done].
  by rewrite last_event_snoc, He.
Qed.

(** C38: the cache is never stale. Whatever was called before, the answer for a path
    is what the cache was last told about it: that it is missing, that nothing is
    known, or its attributes. Attributes are not known only where, at the call that
    set them, the path had none in the cache and the cache was at its limit. The
    cache never holds more attributes than its limit. *)
Theorem cache_never_stale es max path :
  let c := run es (start max) in
  wf c ∧ c.(max_stat_cache_ct) = max ∧ told path max es (get_stat path c).
Proof.
  cbn zeta. split_and!; [apply run_wf|apply run_max|].
  induction es as [|e es IH] using rev_ind; [done|]. rewrite run_snoc.
  pose proof (step_view e (run es (start max)) path) as Hv.
  destruct e as [p [s|]|p]; cbn beta iota in Hv; rewrite Hv;
    (destruct (String.eqb_spec p path) as [->|Hne]; [|by apply told_snoc]); unfold told; rewrite last_event_snoc, String.eqb_refl;
    [|done|done].
  exists es, []. split_and!; [done..|]. by rewrite set_stat_room by apply run_wf.
Qed.
End cache.
End ClientCache.
