(* ===== verification/ClientZone.v ===== *)
(** * Paths on the client (client/zone_mod.cc, client/graph_mod.cc)

    [ClientZone] keeps the zones of the user, as the manager last sent them, and
    resolves a path "/zone/space/rest"; [ClientGraph] chooses an I/O proxy for it.
    [None] is undefined behaviour, or a call that never returns. The locks of
    [ClientZone] are always released; the shared lock of [ClientGraph] is counted,
    because one path of [get_mapping] returns without releasing it. *)
From S2P Require Import Prelude CxxString Json Records Datastore Instances IoproxyMgr.

(** ** [splitWithStl] *)

(** The loop; each round cuts one piece off. *)
Fixpoint split_loop (fuel : nat) (pattern strs : string) (resVec : list string) : option (list string) :=
  match String.index 0 pattern strs with
  | None => Some resVec
  | Some pos =>
      match fuel with
      | 0%nat => None
      | S fuel => split_loop fuel pattern (substr_from (pos + 1) strs) (resVec ++ [substr 0 pos strs])
      end
  end.
Definition splitWithStl (str pattern : string) : option (list string) :=
  if String.eqb "" str then Some []
  else let strs := str +:+ pattern in split_loop (String.length strs) pattern strs [].

(** The pieces between the slashes of a text. *)
Definition slash : ascii := "/".
Fixpoint pieces (s : string) : list string :=
  match s with
  | EmptyString => [""]
  | String c s =>
      if Ascii.eqb slash c then "" :: pieces s
      else match pieces s with
      | p :: ps => String c p :: ps
      | [] => [String c ""]
      end
  end.

Lemma prefix_slash s : String.prefix "/" s = match s with String c _ => Ascii.eqb slash c | _ => false end.
Proof.
  destruct s as [|[[] [] [] [] [] [] [] []] s]; reflexivity || by destruct s.
Qed.

Lemma index_slash s : String.index 0 "/" s = find_char slash s.
Proof.
  induction s as [|c s IH]; [done|]. cbn [find_char]. rewrite <-IH.
  change (String.index 0 "/" (String c s)) with
    (if String.prefix "/" (String c s) then Some 0%nat
     else match String.index 0 "/" s with Some n => Some (S n) | None => None end).
  rewrite prefix_slash. destruct (Ascii.eqb slash c); [done|]. by destruct (String.index 0 "/" s).
Qed.

Lemma pieces_app a b : find_char slash a = None → pieces (a +:+ String slash b) = a :: pieces b.
Proof.
  induction a as [|c a IH]; [done|]. rewrite append_cons. cbn [find_char pieces].
  destruct (Ascii.eqb slash c); [done|]. destruct (find_char slash a); [done|]. intros _. by rewrite IH.
Qed.

Lemma pieces_none a : find_char slash a = None → pieces a = [a].
Proof.
  induction a as [|c a IH]; [done|]. cbn [find_char pieces].
  destruct (Ascii.eqb slash c); [done|]. destruct (find_char slash a); [done|]. intros _. by rewrite IH.
Qed.

Lemma split_loop_pieces fuel s res :
  (String.length (s +:+ "/") ≤ fuel)%nat → split_loop fuel "/" (s +:+ "/") res = Some (res ++ pieces s).
Proof.
  revert s res. induction fuel as [|fuel IH]; intros s res Hf.
  { rewrite length_append in Hf. cbn in Hf. lia. }
  assert (Hsl : "/" = String slash "") by done.
  cbn [split_loop]. rewrite index_slash. destruct (find_char slash s) as [i|] eqn:Hi.
  - apply find_char_Some in Hi as (a & b & -> & <- & Ha).
    rewrite pieces_app by done. rewrite <-append_assoc, append_cons.
    rewrite find_char_append_None by done. cbn [find_char]. rewrite Ascii.eqb_refl. cbn [fmap option_fmap option_map].
    rewrite Nat.add_0_r. unfold substr, substr_from. cbn [str_drop]. rewrite str_take_append.
    rewrite Nat.add_1_r. replace (str_drop (S (String.length a)) (a +:+ String slash (b +:+ "/"))) with (b +:+ "/").
    + rewrite IH; [by rewrite <-(assoc_L (++))|]. rewrite !length_append in *. cbn in *. lia.
    + clear. induction a as [|c a IH]; [done|]. rewrite append_cons. cbn [String.length str_drop]. apply IH.
  - rewrite pieces_none by done. rewrite Hsl, find_char_append_None by done. cbn [find_char].
    rewrite Ascii.eqb_refl. cbn [fmap option_fmap option_map]. rewrite Nat.add_0_r.
    unfold substr, substr_from. cbn [str_drop]. rewrite str_take_append, Nat.add_1_r.
    replace (str_drop (S (String.length s)) (s +:+ String slash "")) with "".
    + by destruct fuel.
    + clear. induction s as [|c s IH]; [done|]. rewrite append_cons. cbn [String.length str_drop]. apply IH.
Qed.

(** Splitting at slashes always ends, and gives the pieces between them: none
    for the empty text, and one empty piece more for a text that ends with a
    slash. *)
Theorem splitWithStl_pieces str :
  splitWithStl str "/" = Some (if String.eqb "" str then [] else pieces str).
Proof.
  unfold splitWithStl. destruct (String.eqb "" str); [done|]. by apply split_loop_pieces.
Qed.

(** ** Zones *)
Module ClientZone.

Record t : Type := mk {
  zonemap : gmap string Zone.t;
  spaceuuid_to_metadatamap : gmap string Space.t;
}.
Definition init : t := mk ∅ ∅.

Section zone.
Context `{Rapidjson, Indet}.

(** [json_decode] into a [vector<shared_ptr<Zone>>]: a fresh [Zone] per element;
    an element that is not an object fails the assertion. *)
Definition decode_zone (v : json) : option Zone.t :=
  match v with
  | JObject l => Zone.deserialize_impl l Zone.init
  | _ => None
  end.
Definition decode_zones (text : string) : option (list Zone.t) :=
  match rj_parse (c_str text) with
  | Some (JArray vs) => mapM decode_zone vs
  | _ => Some []
  end.

(** The two maps after the zones of the list. *)
Definition add_zone (c : t) (it : Zone.t) : t :=
  mk (<[it.(Zone.zoneName) := it]> c.(zonemap))
    (foldl (λ m sp, <[sp.(Space.spaceID) := sp]> m) c.(spaceuuid_to_metadatamap) it.(Zone.spaceBicInfo)).

(** [GetZoneInfo], on the manager's answer. An answer without zones changes
    nothing. *)
Definition GetZoneInfo (inforesult : string) (c : t) : option (bool * t) :=
  zoneinfores ← (if String.eqb inforesult "" then Some [] else decode_zones inforesult);
  match zoneinfores with
  | [] => Some (false, c)
  | _ => Some (true, foldl add_zone init zoneinfores)
  end.

(** The last space of the name. *)
Definition find_space (name : string) (l : list Space.t) : option Space.t :=
  foldl (λ space it, if String.eqb it.(Space.spaceName) name then Some it else space) None l.

(** [path.find('/', pos)] from a position that may be [npos + 1 = 0]. *)
Definition find_slash (pos : option nat) (path : string) : option nat :=
  find_from slash (match pos with Some p => S p | None => 0%nat end) path.

Definition locatePosition (path : string) (c : t) : option (option Zone.t * option Space.t * string) :=
  namev ← splitWithStl path "/";
  let pos := find_from slash 1 path in
  let pos := find_slash pos path in
  zonename ← namev !! 1%nat;
  spacename ← namev !! 2%nat;
  let remotepath := match pos with None => "/" | Some p => substr_from p path end in
  match c.(zonemap) !! zonename with
  | Some zone => Some (Some zone, find_space spacename zone.(Zone.spaceBicInfo), remotepath)
  | None => Some (None, None, remotepath)
  end.

(** A missing identifier leaves a null pointer, which is dereferenced. *)
Definition spaceuuid_to_spacerpath (uuid : string) (c : t) : option string :=
  Space.spacePath <$> c.(spaceuuid_to_metadatamap) !! uuid.
Definition spaceuuid_to_hostcenterID (uuid : string) (c : t) : option string :=
  Space.hostCenterID <$> c.(spaceuuid_to_metadatamap) !! uuid.

(** Control leaves the function without a value when there are fewer than two
    pieces. *)
Definition isZoneSpacePath (path : string) (c : t) : option Z :=
  namev ← splitWithStl path "/";
  let nvsize := length namev in
  if String.eqb (c_str path) "/" then Some 0
  else match namev !! 1%nat with
  | Some z =>
      if negb (bool_decide (is_Some (c.(zonemap) !! z))) then Some (- ENOENT)
      else if (nvsize =? 2)%nat then Some 1
      else if (nvsize =? 3)%nat then Some 2 else Some 3
  | None => None
  end.

(** What [getattr] fills of [struct stat]; the times are the current one. *)
Record attributes : Type := Attributes {
  st_mode : Z;
  st_nlink : Z;
  st_size : Z;
  st_blocks : Z;
  st_uid : Z;
  st_gid : Z;
  st_time : Z;
}.
Definition S_IFDIR : Z := 16384.
Definition directory (now uid gid : Z) : attributes := Attributes (Z.lor S_IFDIR 493) 1 4096 8 uid gid now.

(** For a path with three pieces or more control leaves the function without a
    value. *)
Definition getattr (path : string) (now : Z) (c : t) : option (Z * attributes) :=
  namev ← splitWithStl path "/";
  let nvsize := length namev in
  if String.eqb path "/" then Some (0, directory now 0 0)
  else
    let z := default "" (namev !! 1%nat) in
    if (nvsize =? 2)%nat && negb (String.eqb z "") && bool_decide (is_Some (c.(zonemap) !! z))
    then Some (0, directory now 1000 1000)
    else if (nvsize <? 3)%nat then Some (- ENOENT, directory now 0 0) else None.

(** [filler] reports whether the entry did not fit; the order in which the hash
    map lists its keys is not specified and is that of [map_to_list] here. *)
Definition list_zone (c : t) : list string := (map_to_list c.(zonemap)).*1.
Definition list_space (zonename : string) (c : t) : list string :=
  match c.(zonemap) !! zonename with
  | Some zone => Space.spaceName <$> zone.(Zone.spaceBicInfo)
  | None => []
  end.
Fixpoint fill (filler : string → bool) (names filled : list string) : Z * list string :=
  match names with
  | [] => (0, filled)
  | n :: names => if filler n then (- ENOMEM, filled) else fill filler names (filled ++ [n])
  end.
Definition readdir (path : string) (filler : string → bool) (c : t) : option (Z * list string) :=
  namev ← splitWithStl path "/";
  let nvsize := length namev in
  if String.eqb path "/" then Some (fill filler (list_zone c) [])
  else
    let z := default "" (namev !! 1%nat) in
    if (nvsize =? 2)%nat && negb (String.eqb z "") then Some (fill filler (list_space z c) [])
    else if (nvsize <? 3)%nat then Some (- ENOENT, []) else Some (0, []).
End zone.

(** ** What [locatePosition] and [GetZoneInfo] promise *)
Section props.
Context `{RapidjsonLaws, Indet}.
Implicit Types c : t.

(** What can follow the name of a space in a path. *)
Definition tail_of_path (rest : string) : Prop := rest = "" ∨ ∃ s, rest = String slash s.

(** The result of [locatePosition] for the zone [z], the space [s] and [rest]. *)
Definition located (z s rest : string) (c : t) : option Zone.t * option Space.t * string :=
  (c.(zonemap) !! z,
   (c.(zonemap) !! z) ≫= λ zone, find_space s zone.(Zone.spaceBicInfo),
   if String.eqb rest "" then "/" else rest).

Lemma find_from_append a pos b :
  pos = String.length a → find_from slash pos (a +:+ b) = Nat.add pos <$> find_char slash b.
Proof. intros ->. unfold find_from. by rewrite str_drop_append. Qed.

Lemma locatePosition_path z s rest c :
  find_char slash z = None → find_char slash s = None → tail_of_path rest →
  locatePosition ("/" +:+ z +:+ "/" +:+ s +:+ rest) c = Some (located z s rest c).
Proof.
  intros Hz Hs Hrest. unfold locatePosition.
  assert (Hp : "/" +:+ z +:+ "/" +:+ s +:+ rest = String slash (z +:+ String slash (s +:+ rest))) by done.
  rewrite Hp. unfold splitWithStl. change (String.eqb "" (String slash _)) with false.
  rewrite split_loop_pieces by done. rewrite app_nil_l.
  cbn [mbind option_bind]. unfold mbind, option_bind.
  change (pieces (String slash (z +:+ String slash (s +:+ rest)))) with ("" :: pieces (z +:+ String slash (s +:+ rest))).
  rewrite pieces_app by done.
  assert (Hps : ∃ ps, pieces (s +:+ rest) = s :: ps).
  { destruct Hrest as [->|[r ->]]; [rewrite append_nil_r, pieces_none by done; by eexists|].
    rewrite pieces_app by done. by eexists. }
  destruct Hps as [ps ->]. cbn [lookup list_lookup].
  assert (Hone : find_from slash 1 (String slash (z +:+ String slash (s +:+ rest))) = Some (1 + String.length z)%nat).
  { change (find_from slash 1 (String slash "" +:+ (z +:+ String slash (s +:+ rest))) = Some (1 + String.length z)%nat).
    rewrite find_from_append by done. rewrite find_char_append_None by done. cbn. by rewrite Nat.add_0_r. }
  rewrite Hone. unfold find_slash.
  assert (Hd : String slash (z +:+ String slash (s +:+ rest)) = (String slash z +:+ String slash s) +:+ rest).
  { rewrite <-append_assoc. by cbn. }
  assert (Hl : (S (1 + String.length z) + String.length s)%nat = String.length (String slash z +:+ String slash s)).
  { rewrite length_append. cbn. lia. }
  assert (Htwo : find_from slash (S (1 + String.length z)) (String slash (z +:+ String slash (s +:+ rest))) =
    match rest with "" => None | _ => Some (S (1 + String.length z) + String.length s)%nat end).
  { rewrite <-append_cons. change (String slash (s +:+ rest)) with (String slash "" +:+ (s +:+ rest)).
    rewrite append_assoc, find_from_append by (rewrite length_append; cbn; lia).
    destruct Hrest as [->|[r ->]]; [by rewrite append_nil_r, Hs|].
    rewrite find_char_append_None by done. cbn. f_equal. lia. }
  rewrite Htwo, Hd. unfold located. destruct Hrest as [->|[r ->]].
  - cbn [String.eqb]. by destruct (zonemap c !! z).
  - cbn [String.eqb]. unfold substr_from. rewrite Hl, str_drop_append. by destruct (zonemap c !! z).
Qed.

(** A path that names no space has fewer than three pieces. *)
Lemma locatePosition_zone z c : find_char slash z = None → locatePosition ("/" +:+ z) c = None.
Proof.
  intros Hz. unfold locatePosition, splitWithStl.
  change ("/" +:+ z) with (String slash z). change (String.eqb "" (String slash _)) with false.
  rewrite split_loop_pieces by done. change (pieces (String slash z)) with ("" :: pieces z).
  by rewrite pieces_none.
Qed.

(** ** The zones that the manager sends *)
Definition zones_text (zs : list Zone.t) : string := rj_write (JArray (JObject ∘ Zone.serialize_impl <$> zs)).

Lemma decode_encode_zones zs :
  Forall (λ x, Zone.wf x ∧ x.(Zone.contains_spaceinfo) = true) zs → decode_zones (zones_text zs) = Some zs.
Proof.
  intros Hzs. unfold decode_zones, zones_text. rewrite rj_write_c_str, rj_parse_write.
  - induction Hzs as [|x zs [Hx Hb] _ IH]; [done|]. cbn [fmap list_fmap mapM compose].
    destruct (Zone.zone_deserialize_serialize x Zone.init Hx) as (y & Hy & _ & _ & Hxy & _).
    unfold Zone.deserialize, Zone.serialize in Hy.
    rewrite parse_serialize in Hy by (by apply Zone.serialize_wf).
    cbn [decode_zone]. rewrite Hy, (Hxy Hb eq_refl), IH. done.
  - constructor. rewrite Forall_fmap. eapply Forall_impl; [exact Hzs|]. intros x [Hx _]. cbn.
    constructor. by apply Zone.serialize_wf.
Qed.

Lemma add_zones_lookup zs c name :
  (foldl add_zone c zs).(zonemap) !! name =
  match last (filter (λ x, x.(Zone.zoneName) = name) zs) with Some x => Some x | None => c.(zonemap) !! name end.
Proof.
  revert c. induction zs as [|x zs IH] using rev_ind; intros c; [done|].
  rewrite foldl_app, filter_app. cbn [foldl add_zone zonemap]. rewrite filter_cons, filter_nil.
  case_decide as Hx.
  - rewrite last_snoc, <-Hx. by rewrite lookup_insert_eq.
  - rewrite app_nil_r, lookup_insert_ne by done. apply IH.
Qed.

(** A path "/zone/space/rest" leads to the zone of that name, its last space
    of that name (or none) and the rest of the path ("/" when nothing follows);
    a path that names no space is read out of bounds. *)
Theorem locatePosition_spec z s rest c :
  find_char slash z = None → find_char slash s = None → tail_of_path rest →
  locatePosition ("/" +:+ z +:+ "/" +:+ s +:+ rest) c = Some (located z s rest c) ∧
  locatePosition ("/" +:+ z) c = None.
Proof. intros Hz Hs Hr. split; [by apply locatePosition_path|by apply locatePosition_zone]. Qed.

(** What the manager sends is what the client resolves paths with: after the
    answer of "/zone/info" a path leads to the last zone sent under its name, with
    every space and every field as it was sent, and zones received before are
    forgotten; an answer without zones changes nothing. *)
Theorem GetZoneInfo_received zs c :
  Forall (λ x, Zone.wf x ∧ x.(Zone.contains_spaceinfo) = true) zs → zs ≠ [] → zones_text zs ≠ "" →
  (∃ c', GetZoneInfo (zones_text zs) c = Some (true, c') ∧
    ∀ z s rest, find_char slash z = None → find_char slash s = None → tail_of_path rest →
      let zone := last (filter (λ x, x.(Zone.zoneName) = z) zs) in
      locatePosition ("/" +:+ z +:+ "/" +:+ s +:+ rest) c' =
        Some (zone, zone ≫= λ x, find_space s x.(Zone.spaceBicInfo), if String.eqb rest "" then "/" else rest)) ∧
  GetZoneInfo "" c = Some (false, c).
Proof.
  intros Hzs Hne Ht. split; [|done]. unfold GetZoneInfo.
  destruct (String.eqb_spec (zones_text zs) ""); [done|]. rewrite decode_encode_zones by done.
  destruct zs as [|x zs]; [done|]. eexists. split; [done|].
  intros z s rest Hz Hs Hr. cbn zeta. rewrite locatePosition_path by done. unfold located.
  rewrite add_zones_lookup. cbn [zonemap init]. rewrite lookup_empty. by destruct (last _).
Qed.
End props.

(** ** Concrete runs *)
Section witness.
Let sp1 : Space.t := Space.mk "s1" "home" 5 "1" "x" "/u1/s1" "north" "disk" true [].
Let sp2 : Space.t := Space.mk "s2" "home" 7 "2" "y" "/u1/s2" "south" "disk" true [].
Let z1 : Zone.t := Zone.mk "id1" "work" "u1" [] ["s1"; "s2"] [sp1; sp2] 7 5 0 true.
Let c1 : t := mk {["work" := z1]} ∅.

Theorem locatePosition_spec_witness :
  locatePosition "/work/home/a/b" c1 = Some (Some z1, Some sp2, "/a/b") ∧ locatePosition "/work" c1 = None.
Proof.
  refine (locatePosition_spec "work" "home" "/a/b" c1 _ _ _); [done..|].
  right. by exists "a/b".
Defined.

Lemma z1_wf : Forall (λ x, Zone.wf x ∧ x.(Zone.contains_spaceinfo) = true) [z1].
Proof. constructor; [split; [|done]|done]. unfold Zone.wf. cbn. repeat constructor. Qed.

Theorem GetZoneInfo_received_witness :
  ∃ c', GetZoneInfo (zones_text [z1]) init = Some (true, c') ∧
    locatePosition "/work/home/a" c' = Some (Some z1, Some sp2, "/a").
Proof.
  destruct (GetZoneInfo_received [z1] init z1_wf) as [(c' & Hc & Hl) _]; [done|by vm_compute|].
  exists c'. split; [exact Hc|]. refine (Hl "work" "home" "/a" _ _ _); [done..|]. right. by exists "a".
Defined.
End witness.
End ClientZone.

(** ** I/O proxies *)
Module ClientGraph.

Record t : Type := mk {
  ioproxy_list : gmap string (list IOProxyNode.t);
  force_map : gmap string string;
  (** shared locks of [graph_mutex] that are held for ever *)
  readers : nat;
}.
Definition init : t := mk ∅ ∅ 0.

Section graph.
Context `{Rapidjson, Indet}.

Fixpoint first_running (l : list IOProxyNode.t) : option IOProxyNode.t :=
  match l with
  | [] => None
  | p :: l => if p.(IOProxyNode.status) =? IOProxyNode.Running then Some p else first_running l
  end.

Definition get_mapping (path : string) (z : ClientZone.t) (g : t) : option (option IOProxyNode.t * string * t) :=
  '(zone, space, rpath) ← ClientZone.locatePosition path z;
  match zone, space with
  | Some zone, Some space =>
      let g := mk g.(ioproxy_list) g.(force_map) (S g.(readers)) in
      let centerID := default space.(Space.hostCenterID) (g.(force_map) !! space.(Space.spaceID)) in
      match g.(ioproxy_list) !! centerID with
      | None => Some (None, rpath, g)
      | Some l =>
          let iop := first_running l in
          let g := mk g.(ioproxy_list) g.(force_map) (pred g.(readers)) in
          Some (iop, space.(Space.spacePath) +:+ rpath, g)
      end
  | _, _ => Some (None, rpath, g)
  end.

(** The exclusive lock is never obtained while a shared one is held for ever. *)
Definition set_force_mapping (path cid : string) (z : ClientZone.t) (g : t) : option (Z * t) :=
  '(zone, space, rpath) ← ClientZone.locatePosition path z;
  match zone, space with
  | Some zone, Some space =>
      if (g.(readers) =? 0)%nat
      then Some (0, mk g.(ioproxy_list) (<[space.(Space.spaceID) := cid]> g.(force_map)) g.(readers))
      else None
  | _, _ => Some (-1, g)
  end.

(** [json_decode] into a [map<string, shared_ptr<IOProxyNode>>]: every element is
    a new node, whose constructor draws [u]. *)
Definition decode_node (u : string) (v : json) : option IOProxyNode.t :=
  match v with
  | JObject l => Some (IOProxyNode.deserialize_impl l (IOProxyNode.init u))
  | _ => None
  end.
Fixpoint decode_nodes (u : string) (l : list (string * json)) (m : gmap string IOProxyNode.t)
    : option (gmap string IOProxyNode.t) :=
  match l with
  | [] => Some m
  | (k, v) :: l => n ← decode_node u v; decode_nodes u l (<[c_str k := n]> m)
  end.

(** The loop over one manager's proxies, in the order of their keys. *)
Definition add_proxy (m : gmap string (list IOProxyNode.t)) (iop : IOProxyNode.t) :=
  let cid := iop.(IOProxyNode.cid) in
  let l := match m !! cid with None => [] | Some _ => [] end in
  <[cid := l ++ [iop]]> m.

(** [fresh_ioproxy], on the managers' answers. *)
Fixpoint fresh_ioproxy (u : string) (answers : list string) (g : t) : option t :=
  match answers with
  | [] => Some g
  | res :: answers =>
      if String.eqb res "" then fresh_ioproxy u answers g
      else
        nodes ← match rj_parse (c_str res) with
                | Some (JObject l) => decode_nodes u l ∅
                | _ => Some ∅
                end;
        if (g.(readers) =? 0)%nat
        then fresh_ioproxy u answers
               (mk (foldl add_proxy g.(ioproxy_list) (snd <$> map_items nodes)) g.(force_map) g.(readers))
        else None
  end.
End graph.

(** ** Properties *)
Section props.
Context `{RapidjsonLaws, Indet}.

Lemma add_proxies_lookup l m cid :
  foldl add_proxy m l !! cid =
  match last (filter (λ p, p.(IOProxyNode.cid) = cid) l) with Some p => Some [p] | None => m !! cid end.
Proof.
  revert m. induction l as [|p l IH] using rev_ind; intros m; [done|].
  rewrite foldl_app, filter_app. cbn [foldl]. unfold add_proxy at 1. rewrite filter_cons, filter_nil.
  case_decide as Hp.
  - rewrite last_snoc, <-Hp, lookup_insert_eq. by destruct (foldl add_proxy m l !! _).
  - rewrite app_nil_r, lookup_insert_ne by done. apply IH.
Qed.

Definition node_member (kv : string * IOProxyNode.t) : string * json :=
  (c_str kv.1, JObject (IOProxyNode.serialize_impl kv.2)).
Definition member_wf (kv : string * IOProxyNode.t) : Prop := c_str kv.1 = kv.1 ∧ IOProxyNode.wf kv.2.

Lemma decode_encode_nodes u l m0 :
  Forall member_wf l → decode_nodes u (node_member <$> l) m0 = Some (foldl (λ m kv, <[kv.1 := kv.2]> m) m0 l).
Proof.
  intros Hl. revert m0. induction Hl as [|[k n] l [Hk Hn] _ IH]; intros m0; [done|]. cbn in *.
  pose proof (deser_ser_impl n (IOProxyNode.init u) Hn) as Hrt. cbn in Hrt. rewrite Hrt. cbn.
  rewrite c_str_idemp, Hk. unfold mbind, option_bind. by rewrite IH.
Qed.

Lemma foldl_insert_union (l : list (string * IOProxyNode.t)) (m0 : gmap string IOProxyNode.t) :
  NoDup l.*1 → foldl (λ m kv, <[kv.1 := kv.2]> m) m0 l = list_to_map l ∪ m0.
Proof.
  revert m0. induction l as [|[k n] l IH]; intros m0 Hnd; cbn.
  { by rewrite (left_id_L ∅ (∪)). }
  inversion_clear Hnd. rewrite IH by done. rewrite <-insert_union_l, insert_union_r; [done|].
  by apply not_elem_of_list_to_map_1.
Qed.

Lemma map_items_member_wf (m : gmap string IOProxyNode.t) :
  map_Forall (λ k n, c_str k = k ∧ IOProxyNode.wf n) m → Forall member_wf (map_items m).
Proof.
  intros Hm. rewrite (map_items_perm m), Forall_forall.
  intros [k n] Hin%elem_of_map_to_list. exact (Hm k n Hin).
Qed.

Lemma decode_map_items u (m : gmap string IOProxyNode.t) :
  map_Forall (λ k n, c_str k = k ∧ IOProxyNode.wf n) m →
  decode_nodes u (node_member <$> map_items m) ∅ = Some m.
Proof.
  intros Hm. rewrite decode_encode_nodes by (by apply map_items_member_wf).
  rewrite foldl_insert_union, (right_id_L ∅ (∪)).
  - f_equal. rewrite <-(list_to_map_to_list m) at 2. apply list_to_map_proper; [|apply map_items_perm].
    rewrite (map_items_perm m). apply NoDup_fst_map_to_list.
  - rewrite (map_items_perm m). apply NoDup_fst_map_to_list.
Qed.

Definition nodes_text (m : gmap string IOProxyNode.t) : string := rj_write (JObject (node_member <$> map_items m)).

Lemma parse_nodes_text (m : gmap string IOProxyNode.t) :
  map_Forall (λ k n, c_str k = k ∧ IOProxyNode.wf n) m →
  rj_parse (c_str (nodes_text m)) = Some (JObject (node_member <$> map_items m)).
Proof.
  intros Hm. unfold nodes_text. rewrite rj_write_c_str, rj_parse_write; [done|]. constructor.
  rewrite Forall_fmap. eapply Forall_impl; [by apply map_items_member_wf|].
  intros kv [_ Hn]. cbn. constructor. exact (ser_impl_wf kv.2 Hn).
Qed.

(** The client refreshes its proxies from what the manager's registry lists,
    but keeps one proxy per centre only, the last in the order of their UUIDs,
    whatever its status; centres without a proxy in the answer keep their old
    list. *)
Theorem fresh_ioproxy_keeps_last {W : Type} m u g :
  map_Forall (λ k n, c_str k = k ∧ IOProxyNode.wf n) m → g.(readers) = 0%nat → nodes_text m ≠ "" →
  ∀ w : W, wp (IOProxy_MGR.list m) (λ '(res, _) _,
    ∃ g', fresh_ioproxy u [res.(http_body)] g = Some g' ∧ g'.(force_map) = g.(force_map) ∧
      ∀ cid, g'.(ioproxy_list) !! cid =
        match last (filter (λ p, p.(IOProxyNode.cid) = cid) (map_items m).*2) with
        | Some p => Some [p]
        | None => g.(ioproxy_list) !! cid
        end) never w.
Proof.
  intros Hm Hg Ht w. unfold IOProxy_MGR.list. apply wp_ret. cbn [http_body].
  change (rj_write _) with (nodes_text m). cbn [fresh_ioproxy].
  destruct (String.eqb_spec (nodes_text m) ""); [done|]. rewrite parse_nodes_text, decode_map_items by done.
  unfold mbind, option_bind. rewrite Hg. cbn. eexists. split_and!; [done..|]. intros cid.
  apply add_proxies_lookup.
Qed.

(** A path into a centre that has no proxy leaves the mutex of the proxy list
    share-locked for ever: [get_mapping] returns no proxy and drops the prefix of
    the space from the path, and from then on no proxy list that arrives is ever
    stored and no centre is ever forced: both calls block. *)
Theorem get_mapping_lock_leak path cz g zone space rpath :
  ClientZone.locatePosition path cz = Some (Some zone, Some space, rpath) →
  g.(ioproxy_list) !! default space.(Space.hostCenterID) (g.(force_map) !! space.(Space.spaceID)) = None →
  ∃ g', get_mapping path cz g = Some (None, rpath, g') ∧ g'.(readers) = S g.(readers) ∧
    (∀ cid, set_force_mapping path cid cz g' = None) ∧
    (∀ u res answers, res ≠ "" → fresh_ioproxy u (res :: answers) g' = None).
Proof.
  intros Hl Hc. unfold get_mapping, set_force_mapping. rewrite Hl. unfold mbind, option_bind.
  cbn [ioproxy_list force_map readers]. rewrite Hc. eexists. split_and!; [done..|].
  intros u res answers Hr. cbn [fresh_ioproxy readers]. destruct (String.eqb_spec res ""); [done|].
  unfold mbind, option_bind. cbn. by case_match.
Qed.

(** A path whose centre has proxies is mapped to the first running one (to none
    if none is running) and to the path of the space on storage followed by the
    rest; the forced centre of the space, when there is one, is used in place of
    its own; no lock stays held. *)
Theorem get_mapping_spec path cz g zone space rpath l cid :
  ClientZone.locatePosition path cz = Some (Some zone, Some space, rpath) →
  g.(readers) = 0%nat →
  set_force_mapping path cid cz g = Some (0, mk g.(ioproxy_list) (<[space.(Space.spaceID) := cid]> g.(force_map)) 0) ∧
  (g.(ioproxy_list) !! cid = Some l →
    get_mapping path cz (mk g.(ioproxy_list) (<[space.(Space.spaceID) := cid]> g.(force_map)) 0) =
      Some (head (filter (λ p, p.(IOProxyNode.status) = IOProxyNode.Running) l),
            space.(Space.spacePath) +:+ rpath,
            mk g.(ioproxy_list) (<[space.(Space.spaceID) := cid]> g.(force_map)) 0)).
Proof.
  intros Hl Hr. unfold set_force_mapping, get_mapping. rewrite Hl. unfold mbind, option_bind. rewrite Hr.
  split; [done|]. intros Hc. cbn [ioproxy_list force_map readers]. rewrite lookup_insert_eq.
  change (default _ (Some cid)) with cid. rewrite Hc. cbn [pred]. repeat f_equal. clear Hc. induction l as [|p l IH]; [done|]. cbn [first_running].
  rewrite filter_cons. destruct (Z.eqb_spec (IOProxyNode.status p) IOProxyNode.Running); case_decide; done || auto.
Qed.
End props.

(** ** Concrete runs *)
Section witness.
Let sp1 : Space.t := Space.mk "s1" "home" 5 "1" "x" "/u1/s1" "north" "disk" true [].
Let z1 : Zone.t := Zone.mk "id1" "work" "u1" [] ["s1"] [sp1] 7 5 0 true.
Let c1 : ClientZone.t := ClientZone.mk {["work" := z1]} ∅.
Let p0 : IOProxyNode.t := IOProxyNode.mk 1 2 "10.0.0.1" "p0" IOProxyNode.Running "u0" "1".
Let p1 : IOProxyNode.t := IOProxyNode.mk 1 2 "10.0.0.2" "p1" IOProxyNode.Stopped "u1" "1".
Let m1 : gmap string IOProxyNode.t := <["u0" := p0]> {["u1" := p1]}.

Lemma m1_wf : map_Forall (λ k n, c_str k = k ∧ IOProxyNode.wf n) m1.
Proof. apply map_Forall_insert_2; [done|]. by apply map_Forall_singleton. Qed.

(** Two proxies of one centre, one of them running: the other one is kept. *)
Theorem fresh_ioproxy_keeps_last_witness :
  (∃ g', fresh_ioproxy "u" [nodes_text m1] init = Some g' ∧ g'.(ioproxy_list) !! "1" = Some [p1]) ∧
  first_running [p1] = None.
Proof.
  split; [|done]. assert (Ht : nodes_text m1 ≠ "") by by vm_compute.
  pose proof (fresh_ioproxy_keeps_last (W := unit) m1 "u" init m1_wf eq_refl Ht tt) as Hf.
  destruct Hf as (g' & Hg & _ & Hc). exists g'. split; [exact Hg|]. by rewrite (Hc "1").
Defined.

Theorem get_mapping_lock_leak_witness :
  ∃ g', get_mapping "/work/home/a" c1 init = Some (None, "/a", g') ∧ g'.(readers) = 1%nat ∧
    set_force_mapping "/work/home/a" "2" c1 g' = None.
Proof.
  destruct (get_mapping_lock_leak "/work/home/a" c1 init z1 sp1 "/a" eq_refl eq_refl) as (g' & Hg & Hr & Hs & _).
  exists g'. split; [exact Hg|]. split; [exact Hr|apply Hs].
Defined.

Theorem get_mapping_spec_witness :
  let g := mk {["2" := [p1; p0]]} (<["s1" := "2"]> ∅) 0 in
  get_mapping "/work/home/a" c1 g = Some (Some p0, "/u1/s1/a", g).
Proof.
  destruct (get_mapping_spec "/work/home/a" c1 (mk {["2" := [p1; p0]]} ∅ 0) z1 sp1 "/a" [p1; p0] "2" eq_refl eq_refl)
    as [_ Hg].
  exact (Hg eq_refl).
Defined.
End witness.
End ClientGraph.
