(* ===== verification/Fuse.v ===== *)
(** * File system operations of the client (client/gvds_fuse_impl.cc)

    Each callback of FUSE as a function of the client's state (zones, table of
    proxies, attribute cache, channels) and of the world. A path is mapped to a
    proxy and a remote path (ClientZone.v), the request goes through [Grpc]
    (Replica.v), and the attribute cache is [ClientCache] (StatCache.v). The write
    queue, the read-ahead and the UDT transport share their state with other
    threads: they are interfaces of the world. What a callback stores through a
    pointer is part of its result. *)
From S2P Require Import Prelude CxxString Json Records Datastore Instances Lru FdManager Op Replica StatCache ClientZone.

Definition EPERM : Z := 1.
Definition ENODATA : Z := 61.
Definition ENOTSUP : Z := 95.

(** What the callbacks fill of [struct stat]; the rest is zero. *)
Record statbuf : Type := Stat {
  fs_mode : Z;
  fs_nlink : Z;
  fs_uid : Z;
  fs_gid : Z;
  fs_size : Z;
  fs_blocks : Z;
  fs_atime : Z;
  fs_mtime : Z;
  fs_ctime : Z;
}.
(** The attributes of the virtual levels. *)
Definition of_virtual (a : ClientZone.attributes) : statbuf :=
  Stat (ClientZone.st_mode a) (ClientZone.st_nlink a) (ClientZone.st_uid a) (ClientZone.st_gid a)
    (ClientZone.st_size a) (ClientZone.st_blocks a) (ClientZone.st_time a) (ClientZone.st_time a) (ClientZone.st_time a).

(** The queue of asynchronous writes: [queue_buffer] returns when it has room. *)
Class WriteQueue (W : Type) : Type := {
  queue_buffer : IOProxyNode.t → string → Z → string → W → W;
}.
(** The read-ahead; [status] also copies to the destination. *)
Inductive ra_status : Type := MAY_SEQ_READ | UNLIKE_SEQ_READ | ON_LINK | IN_BUFFER | NOT_FOUND.
Class ReadAhead (W : Type) : Type := {
  ra_lookup : string → Z → Z → M W (ra_status * string);
  ra_set_task : IOProxyNode.t → string → Z → Z → Z → Z → M W bool;
  ra_clear_buf : string → M W ();
}.
(** [read_data] of the UDT transport: the error code and the data. *)
Class Udt (W : Type) : Type := {
  udt_read_data : IOProxyNode.t → string → Z → Z → M W (option (Z * string));
}.

Module Fuse.
Section fuse.
Context {W : Type} `{Grpc W, WriteQueue W, ReadAhead W, Udt W, Rapidjson, Indet}.
Variable ra_fuel : nat.

Record client : Type := Client {
  zone : ClientZone.t;
  graph : ClientGraph.t;
  cache : ClientCache.t (stat := statbuf);
  (** the channels opened, by proxy and number, and where they lead *)
  operators : gmap string string;
  (** the configuration *)
  use_udt : bool;
  async_mode : bool;
  readahead : Z;
}.
Implicit Types c : client.
Definition set_graph (g : ClientGraph.t) c : client :=
  Client c.(zone) g c.(cache) c.(operators) c.(use_udt) c.(async_mode) c.(readahead).
Definition set_cache (s : ClientCache.t) c : client :=
  Client c.(zone) c.(graph) s c.(operators) c.(use_udt) c.(async_mode) c.(readahead).
Definition set_operators (o : gmap string string) c : client :=
  Client c.(zone) c.(graph) c.(cache) o c.(use_udt) c.(async_mode) c.(readahead).

(** [ClientRpc::get_operator]. *)
Definition get_operator (node : IOProxyNode.t) (channel_id : Z) c : string * client :=
  let channel_key := node.(IOProxyNode.uuid) +:+ pretty channel_id in
  match c.(operators) !! channel_key with
  | Some oper => (oper, c)
  | None =>
      let target_str := snprintf 256 (c_str node.(IOProxyNode.ip) +:+ ":" +:+ pretty (to_u32 node.(IOProxyNode.rpc_port))) in
      (target_str, set_operators (<[channel_key := target_str]> c.(operators)) c)
  end.

(** A callback: its result and the client. *)
Notation op A := (client → M W (A * client)).

(** ** What the callbacks have in common *)

(** Fewer than four pieces: the path is above the contents of a space. *)
Definition too_high (path : string) : M W bool :=
  namev ← deref (splitWithStl path "/");
  mret (length namev <=? 3)%nat.
Definition get_mapping (path : string) c : M W (option IOProxyNode.t * string * client) :=
  '(iop, rpath, g) ← deref (ClientGraph.get_mapping path c.(zone) c.(graph));
  mret (iop, rpath, set_graph g c).
Definition caching c : bool := 0 <? c.(cache).(ClientCache.max_stat_cache_ct).
Definition expire_stat (rpath : string) c : client :=
  if caching c then set_cache (ClientCache.expire_stat rpath c.(cache)) c else c.
Definition set_stat (rpath : string) (st : option statbuf) c : client :=
  if caching c then set_cache (ClientCache.set_stat rpath st c.(cache)).2 c else c.
(** The reply, or [None] when the status is not [ok]. *)
Definition submit (iop : IOProxyNode.t) (request : OpRequest.t) : op (option OpReply.t) := λ c,
  let '(oper, c) := get_operator iop 0 c in
  reply ← extern (grpc_submit oper request);
  mret (reply, c).

Definition request (type : OpType.t) (rpath : string) : OpRequest.t :=
  OpRequest.mk 0 rpath type "" OpRequest.no_param 0 0 "".
Definition with_mode (mode : Z) (r : OpRequest.t) : OpRequest.t :=
  OpRequest.mk r.(OpRequest.id) r.(OpRequest.filepath) r.(OpRequest.type) r.(OpRequest.extra)
    r.(OpRequest.additional) (to_u32 mode) r.(OpRequest.size) r.(OpRequest.data).
Definition with_size (size : Z) (r : OpRequest.t) : OpRequest.t :=
  OpRequest.mk r.(OpRequest.id) r.(OpRequest.filepath) r.(OpRequest.type) r.(OpRequest.extra)
    r.(OpRequest.additional) r.(OpRequest.mode) (to_u64 size) r.(OpRequest.data).
Definition with_param (p : OpRequest.additional_param) (r : OpRequest.t) : OpRequest.t :=
  OpRequest.mk r.(OpRequest.id) r.(OpRequest.filepath) r.(OpRequest.type) r.(OpRequest.extra)
    p r.(OpRequest.mode) r.(OpRequest.size) r.(OpRequest.data).
Definition io_param (off size : Z) : OpRequest.additional_param :=
  OpRequest.io_param_case (IOParam.mk (to_u64 off) (to_u64 size)).

(** The request is sent and the result is the error code of the reply. *)
Definition send (iop : IOProxyNode.t) (r : OpRequest.t) : op Z := λ c,
  '(reply, c) ← submit iop r c;
  mret (match reply with Some reply => reply.(OpReply.err_code) | None => - ENOENT end, c).

(** The callbacks that map the path, forget its attributes and send one request;
    [deep] tells whether they refuse paths above the contents of a space. *)
Definition forward (deep : bool) (path : string) (r : string → OpRequest.t) : op Z := λ c,
  high ← (if deep then too_high path else mret false);
  if (high : bool) then mret (- EPERM, c)
  else
    '(iop, rpath, c) ← get_mapping path c;
    match iop with
    | None => mret (- ENOENT, c)
    | Some iop => send iop (r rpath) (expire_stat rpath c)
    end.

(** ** Attributes and directories *)

(** [memset] to zero, then what the reply tells. *)
Definition of_attr (a : Attr.t) : statbuf :=
  Stat (to_u32 a.(Attr.permission)) 1 1000 1000 (to_i64 a.(Attr.size)) 0
    (to_i64 a.(Attr.ctime)) (to_i64 a.(Attr.mtime)) (to_i64 a.(Attr.ctime)).
Definition reply_attr (r : OpReply.t) : Attr.t :=
  match r.(OpReply.additional) with OpReply.attr_result a => a | _ => Attr.init end.

Definition gvdsfs_getattr (path : string) (now : Z) : op (Z * option statbuf) := λ c,
  zs_res ← deref (ClientZone.isZoneSpacePath path c.(zone));
  if zs_res <? 0 then mret ((zs_res, None), c)
  else if zs_res <? 2 then
    '(err, st) ← deref (ClientZone.getattr path now c.(zone));
    mret ((err, Some (of_virtual st)), c)
  else
    '(iop, rpath, c) ← get_mapping path c;
    match iop with
    | None => mret ((- EPERM, None), c)
    | Some iop =>
        let '(found, st) := if caching c then ClientCache.get_stat rpath c.(cache) else (ClientCache.NOT_FOUND, None) in
        match found with
        | ClientCache.FOUND => mret ((0, st), c)
        | ClientCache.FOUND_MISSING => mret ((- ENOENT, None), c)
        | ClientCache.NOT_FOUND =>
            '(reply, c) ← submit iop (request OpType.getattr rpath) c;
            match reply with
            | None => mret ((- ENOENT, None), c)
            | Some reply =>
                if negb (reply.(OpReply.err_code) =? 0)
                then mret ((reply.(OpReply.err_code), None), set_stat rpath None c)
                else let st := of_attr (reply_attr reply) in
                     mret ((0, Some st), set_stat rpath (Some st) c)
            end
        end
    end.

(** [filler] tells whether an entry did not fit. *)
Fixpoint fill_entries (rpath : string) (filler : string → bool) (names : list string) (attrs : list Attr.t)
    (filled : list (string * statbuf)) : op (Z * list (string * statbuf)) := λ c,
  match names, attrs with
  | [], _ => mret ((0, filled), c)
  | name :: names, a :: attrs =>
      let st := of_attr a in
      if filler (c_str name) then mret ((- ENOMEM, filled), c)
      else fill_entries rpath filler names attrs (filled ++ [(c_str name, st)]) (set_stat (rpath /+ name) (Some st) c)
  | _ :: _, [] => undefined
  end.
(** The error code of the reply is not looked at. *)
Definition gvdsfs_readdir (path : string) (filler : string → bool) : op (Z * list (string * option statbuf)) := λ c,
  zs_res ← deref (ClientZone.isZoneSpacePath path c.(zone));
  if zs_res <? 0 then mret ((zs_res, []), c)
  else if zs_res <? 2 then
    '(err, names) ← deref (ClientZone.readdir path filler c.(zone));
    mret ((err, (λ n, (n, None)) <$> names), c)
  else
    '(iop, rpath, c) ← get_mapping path c;
    match iop with
    | None => mret ((- ENOENT, []), c)
    | Some iop =>
        '(reply, c) ← submit iop (request OpType.readdir rpath) c;
        match reply with
        | None => mret ((- ENOENT, []), c)
        | Some reply =>
            '((err, filled), c) ← fill_entries rpath filler reply.(OpReply.entry_names) reply.(OpReply.entries) [] c;
            mret ((err, (λ e, (e.1, Some e.2)) <$> filled), c)
        end
    end.

(** The result, and the handle stored in [fi->fh]. *)
Definition gvdsfs_open (path : string) (flags : Z) : op (Z * option Z) := λ c,
  zs_res ← deref (ClientZone.isZoneSpacePath path c.(zone));
  if zs_res <? 0 then mret ((zs_res, None), c)
  else if zs_res <? 2 then mret ((- ENOTSUP, None), c)
  else
    '(iop, rpath, c) ← get_mapping path c;
    match iop with
    | None => mret ((- ENOENT, None), c)
    | Some iop =>
        '(reply, c) ← submit iop (with_mode flags (request OpType.open rpath)) (expire_stat rpath c);
        match reply with
        | None => mret ((- ENOENT, None), c)
        | Some reply =>
            let retstat := reply.(OpReply.err_code) in
            mret (if 0 <? retstat then (0, Some retstat) else (retstat, None), c)
        end
    end.

(** ** Data *)

(** [memcpy] to the start of a buffer. *)
Definition blit (bytes buf : string) : string := bytes +:+ substr_from (String.length bytes) buf.

Definition sector (off : Z) : Z := Z.shiftr off 18.
(** The loop over the sectors, each of which is copied to the start of the
    buffer; [None]: the request has to be sent. *)
Fixpoint read_sectors (fuel : nat) (iop : IOProxyNode.t) (rpath : string) (offset readahead cur_off size_left read_size_total : Z)
    (buf : string) : M W (option Z * string) :=
  if size_left <=? 0 then mret (Some read_size_total, buf)
  else match fuel with
  | 0%nat => undefined
  | S fuel =>
      let cur_sec_left := Z.min size_left (to_u64 (Z.shiftl (sector cur_off + 1) 18 - cur_off)) in
      '(cache_st, bytes) ← ra_lookup rpath cur_off cur_sec_left;
      match cache_st with
      | IN_BUFFER =>
          read_sectors fuel iop rpath offset readahead (to_u64 (cur_off + cur_sec_left)) (size_left - cur_sec_left)
            (to_u64 (read_size_total + CxxString.size bytes)) (blit bytes buf)
      | MAY_SEQ_READ =>
          nt ← ra_set_task iop rpath 0 (sector offset) (to_u32 readahead) (to_u64 (-1));
          if (nt : bool) then read_sectors fuel iop rpath offset readahead cur_off size_left read_size_total buf
          else mret (None, buf)
      | _ => mret (None, buf)
      end
  end.

(** The result, and the buffer. *)
Definition gvdsfs_read (path buf : string) (size offset : Z) : op (Z * string) := λ c,
  '(iop, rpath, c) ← get_mapping path c;
  match iop with
  | None => mret ((- ENOENT, buf), c)
  | Some iop =>
      '(done, buf) ← (if negb (c.(readahead) =? 0)
                      then read_sectors ra_fuel iop rpath offset c.(readahead) (to_u64 offset) size 0 buf
                      else mret (None, buf));
      match done with
      | Some total => mret ((to_i32 total, buf), c)
      | None =>
          if c.(use_udt) then
            res ← udt_read_data iop rpath offset size;
            match res with
            | None => mret ((- ETIMEDOUT, buf), c)
            | Some (error_code, data) =>
                if error_code <? 0 then mret ((error_code, buf), c)
                else mret ((to_i32 (CxxString.size data), blit data buf), c)
            end
          else
            '(reply, c) ← submit iop (with_param (io_param offset size) (request OpType.read rpath)) c;
            match reply with
            | None => mret ((- ENOENT, buf), c)
            | Some reply =>
                let n := reply.(OpReply.err_code) in
                if n <=? 0 then mret ((n, buf), c)
                else bytes ← bytes_of (OpReply.data reply) 0 n; mret ((n, blit bytes buf), c)
            end
      end
  end.

Definition gvdsfs_write (path buf : string) (offset : Z) : op Z := λ c,
  let size := CxxString.size buf in
  '(iop, rpath, c) ← get_mapping path c;
  match iop with
  | None => mret (- ENOENT, c)
  | Some iop =>
      _ ← (if negb (c.(readahead) =? 0) then ra_clear_buf rpath else mret ());
      let c := expire_stat rpath c in
      if c.(async_mode) then
        _ ← extern (λ w, (tt, queue_buffer iop rpath (to_u64 offset) buf w));
        mret (to_i32 size, c)
      else
        send iop (OpRequest.set_data buf (with_param (io_param offset size) (request OpType.write rpath))) c
  end.

Definition gvdsfs_access (path : string) (mode : Z) : op Z := λ c,
  zs_res ← deref (ClientZone.isZoneSpacePath path c.(zone));
  if zs_res <? 0 then mret (zs_res, c)
  else if zs_res <? 2 then mret (0, c)
  else
    '(iop, rpath, c) ← get_mapping path c;
    match iop with
    | None => mret (- ENOENT, c)
    | Some iop => send iop (with_mode mode (request OpType.access rpath)) c
    end.

(** The length goes into [io_param]. *)
Definition gvdsfs_truncate (path : string) (size : Z) : op Z :=
  forward false path (λ rpath, with_param (io_param 0 size) (request OpType.truncate rpath)).

(** ** Directories, names, permissions *)
Definition gvdsfs_mkdir (path : string) (mode : Z) : op Z :=
  forward true path (λ rpath, with_mode mode (request OpType.mkdir rpath)).
Definition gvdsfs_unlink (path : string) : op Z := forward false path (request OpType.unlink).
Definition gvdsfs_rmdir (path : string) : op Z := forward true path (request OpType.rmdir).
Definition gvdsfs_chmod (path : string) (mode : Z) : op Z :=
  forward true path (λ rpath, with_mode mode (request OpType.chmod rpath)).
Definition gvdsfs_create (path : string) (mode : Z) : op Z :=
  forward true path (λ rpath, with_mode mode (request OpType.create rpath)).
(** The modification time: its seconds and nanoseconds. *)
Definition gvdsfs_utimens (path : string) (sec1s sec1n : Z) : op Z :=
  forward true path (λ rpath, with_param (io_param sec1n sec1s) (request OpType.utimens rpath)).

Definition gvdsfs_rename (path newpath : string) : op Z := λ c,
  high ← too_high path;
  if (high : bool) then mret (- EPERM, c)
  else
    '(siop, srpath, c) ← get_mapping path c;
    '(diop, drpath, c) ← get_mapping newpath c;
    match siop, diop with
    | Some siop, Some diop =>
        if negb (String.eqb siop.(IOProxyNode.uuid) diop.(IOProxyNode.uuid)) then mret (- ENOTSUP, c)
        else send siop (with_param (OpRequest.newpath_param drpath) (request OpType.rename srpath))
               (expire_stat drpath (expire_stat srpath c))
    | _, _ => mret (- ENOENT, c)
    end.

Definition gvdsfs_chown (path : string) : op Z := λ c,
  high ← too_high path;
  if (high : bool) then mret (- EPERM, c)
  else
    '(iop, rpath, c) ← get_mapping path c;
    match iop with
    | None => mret (- ENOENT, c)
    | Some _ => mret (- ENOTSUP, expire_stat rpath c)
    end.

(** ** Extended attributes *)
Definition gvdsfs_setxattr (path name value : string) (flags : Z) : op Z := λ c,
  high ← too_high path;
  if (high : bool) then mret (- EPERM, c)
  else if String.eqb name "user.gvds.visit.force" then
    '(_, g) ← deref (ClientGraph.set_force_mapping path value c.(zone) c.(graph));
    mret (0, set_graph g c)
  else
    '(iop, rpath, c) ← get_mapping path c;
    match iop with
    | None => mret (- ENOENT, c)
    | Some iop =>
        send iop (OpRequest.set_data value (with_size (CxxString.size value) (with_mode flags
          (with_param (OpRequest.xattr_param name) (request OpType.setxattr rpath))))) c
    end.

(** [name.rfind(s) == 0]: the last occurrence is at the start. *)
Definition rfind_is_zero (s name : string) : bool :=
  String.prefix s name && match String.index 1 s name with None => true | Some _ => false end.

(** A reply with data: the result, and the buffer. *)
Definition fetch (iop : IOProxyNode.t) (r : OpRequest.t) (value : string) : op (Z * string) := λ c,
  '(reply, c) ← submit iop r c;
  match reply with
  | None => mret ((- ENOENT, value), c)
  | Some reply =>
      let n := reply.(OpReply.err_code) in
      if 0 <? n then bytes ← bytes_of (OpReply.data reply) 0 n; mret ((n, blit bytes value), c)
      else mret ((n, value), c)
  end.
Definition gvdsfs_getxattr (path name value : string) (size : Z) : op (Z * string) := λ c,
  high ← too_high path;
  if (high : bool) then mret ((- ENODATA, value), c)
  else
    '(iop, rpath, c) ← get_mapping path c;
    match iop with
    | None => mret ((- ENODATA, value), c)
    | Some iop =>
        if rfind_is_zero "security.capability" name then mret ((- ENODATA, value), c)
        else fetch iop (with_size size (with_param (OpRequest.xattr_param name) (request OpType.getxattr rpath))) value c
    end.
Definition gvdsfs_listxattr (path value : string) (size : Z) : op (Z * string) := λ c,
  high ← too_high path;
  if (high : bool) then mret ((- EPERM, value), c)
  else
    '(iop, rpath, c) ← get_mapping path c;
    match iop with
    | None => mret ((- ENOENT, value), c)
    | Some iop => fetch iop (with_size size (request OpType.listxattr rpath)) value c
    end.
Definition gvdsfs_removexattr (path name : string) : op Z := λ c,
  high ← too_high path;
  if (high : bool) then mret (- EPERM, c)
  else
    '(iop, rpath, c) ← get_mapping path c;
    match iop with
    | None => mret (- ENOENT, c)
    | Some iop => send iop (with_param (OpRequest.xattr_param name) (request OpType.removexattr rpath)) c
    end.

(** [opendir], [mknod], [statfs], [flush], [release], [fsync] and [releasedir]
    answer success and do nothing; [readlink], [symlink] and [link] answer that
    they are not supported. *)
Definition gvdsfs_flush : op Z := λ c, mret (0, c).
Definition gvdsfs_fsync : op Z := λ c, mret (0, c).
Definition gvdsfs_release : op Z := λ c, mret (0, c).
Definition gvdsfs_readlink : op Z := λ c, mret (- ENOTSUP, c).
Definition gvdsfs_symlink : op Z := λ c, mret (- ENOTSUP, c).
Definition gvdsfs_link : op Z := λ c, mret (- ENOTSUP, c).
End fuse.
End Fuse.
