(* ===== verification/Pool.v ===== *)
(** * Pools of workers

    What the transition systems of WriteQueue.v and IoWorker.v share: the events that
    wait at several schedulers, and that every worker is in one place, with the
    state that place needs. *)
From S2P Require Import Prelude.

(** ** Lists of queues *)

(** The events of all schedulers, as one arrives and as one is taken. *)
Lemma join_post {A} (e : A) i (ll : list (list A)) : (i < length ll)%nat →
  mjoin (alter (λ l, l ++ [e]) i ll) ≡ₚ e :: mjoin ll.
Proof.
  revert i. induction ll as [|l ll IH]; intros [|i] Hi; cbn in *; [lia|lia|solve_Permutation|].
  rewrite IH by lia. solve_Permutation.
Qed.
Lemma join_take {A} (e : A) i l (ll : list (list A)) : ll !! i = Some (e :: l) → mjoin ll ≡ₚ e :: mjoin (<[i := l]> ll).
Proof.
  revert i. induction ll as [|l0 ll IH]; intros [|i] Hi; cbn in *; [done|done|by injection Hi as ->|].
  rewrite (IH i) by done. solve_Permutation.
Qed.

Lemma join_nil {A} (ll : list (list A)) : (∀ i e l, ll !! i ≠ Some (e :: l)) → mjoin ll = [].
Proof.
  intros Hll. apply elem_of_nil_inv. intros e He. apply list_elem_of_join in He as (l & He & Hl).
  apply list_elem_of_lookup in Hl as [i Hi]. destruct l as [|e' l]; [by apply elem_of_nil in He|]. by apply Hll in Hi.
Qed.
(** Equal parts, one after the other. *)
Lemma join_seq {A} (f : nat → A) per a n :
  mjoin ((λ i, f <$> seq (i * per) per) <$> seq a n) = f <$> seq (a * per) (n * per).
Proof.
  revert a. induction n as [|n IH]; intros a; [done|]. cbn [seq]. rewrite fmap_cons.
  match goal with |- mjoin (?x :: ?l) = _ => change (mjoin (x :: l)) with (x ++ mjoin l) end.
  rewrite IH, <-fmap_app. f_equal. replace (S n * per)%nat with (per + n * per)%nat by lia. rewrite seq_app. f_equal. f_equal; lia.
Qed.

Lemma delete_set {A} (i : nat) (y : A) (l : list A) : delete i (<[i := y]> l) = delete i l.
Proof. revert i. induction l as [|z l IH]; intros [|i]; cbn; [done..|]. by rewrite IH. Qed.
Lemma bind_set {A B} (f : A → list B) i x y (l : list A) : l !! i = Some x →
  ∃ rest, l ≫= f ≡ₚ f x ++ rest ∧ <[i := y]> l ≫= f ≡ₚ f y ++ rest.
Proof.
  intros Hi. exists (delete i l ≫= f). split; [by rewrite (delete_Permutation l i x) at 1|].
  apply lookup_lt_Some in Hi. rewrite (delete_Permutation (<[i:=y]> l) i y) by (by apply list_lookup_insert_eq).
  cbn. by rewrite delete_set.
Qed.

(** A weight of every element, summed up. *)
Lemma sum_set {A} (f : A → nat) i x y l : l !! i = Some x →
  (sum_list_with f (<[i := y]> l) + f x = sum_list_with f l + f y)%nat.
Proof.
  revert i. induction l as [|z l IH]; intros [|i] Hi; cbn in *; simplify_eq; [lia|].
  specialize (IH i Hi).
  assert (f z + sum_list_with f (<[i := y]> l) + f x = f z + sum_list_with f l + f y)%nat by lia. done.
Qed.

(** ** Places *)
Section placed.
Context {Role St : Type} {fits : Role → St → Prop}.
Implicit Types (ps : list (nat * Role)) (ws : list St).

Definition placed_by ps ws : Prop :=
  ps.*1 ≡ₚ seq 0 (length ws) ∧ ∀ w r, (w, r) ∈ ps → ∃ st, ws !! w = Some st ∧ fits r st.

Lemma placed_perm ps ps' ws : ps ≡ₚ ps' → placed_by ps ws → placed_by ps' ws.
Proof. intros Hp [Hw Hf]. split; [by rewrite <-Hp|]. intros w r. rewrite <-Hp. apply Hf. Qed.

Lemma placed_head w r ps ws : placed_by ((w, r) :: ps) ws → ∃ st, ws !! w = Some st ∧ fits r st.
Proof. intros [_ Hf]. apply Hf. by left. Qed.

Lemma placed_in w r ps ws : placed_by ps ws → (w, r) ∈ ps → ∃ st, ws !! w = Some st ∧ fits r st.
Proof. intros [_ Hf]. apply Hf. Qed.

(** One worker goes elsewhere, with the state that is needed there. *)
Lemma placed_move w r r' st ps ws : placed_by ((w, r) :: ps) ws → fits r' st → placed_by ((w, r') :: ps) (<[w := st]> ws).
Proof.
  intros [Hw Hf] Hr'. split; [by rewrite length_insert|].
  assert (Hnd : NoDup (w :: ps.*1)) by (cbn in Hw; rewrite Hw; apply NoDup_seq).
  destruct (Hf w r ltac:(by left)) as (st0 & Hst0 & _). intros w' r0 [[= -> ->]|Hin]%elem_of_cons.
  - exists st. split; [|done]. by apply list_lookup_insert_eq, lookup_lt_is_Some; exists st0.
  - destruct (Hf w' r0 ltac:(by right)) as (st' & Hst' & Hfit). exists st'. split; [|done].
    rewrite list_lookup_insert_ne; [done|]. intros <-. apply NoDup_cons in Hnd as [Hn _]. apply Hn.
    apply (list_elem_of_fmap_2 fst) in Hin. exact Hin.
Qed.
Lemma placed_role w r r' ps ws : placed_by ((w, r) :: ps) ws → (∀ st, fits r st → fits r' st) → placed_by ((w, r') :: ps) ws.
Proof.
  intros [Hw Hf] Hr. split; [done|]. intros w' r0 [[= -> ->]|Hin]%elem_of_cons; [|by apply Hf; right].
  destruct (Hf w r ltac:(by left)) as (st & ? & ?). eauto.
Qed.

(** In the beginning they are all in one kind of place. *)
Lemma placed_start r st n : fits r st → placed_by ((λ w, (w, r)) <$> seq 0 n) (replicate n st).
Proof.
  intros Hf. split; [by rewrite <-list_fmap_compose, length_replicate, list_fmap_id|].
  intros w r' Hin. apply list_elem_of_fmap in Hin as (w' & [= -> ->] & Hin). apply elem_of_seq in Hin.
  exists st. split; [|done]. apply lookup_replicate. split; [done|lia].
Qed.

(** Every worker has a place. *)
Lemma placed_all ps ws w st : placed_by ps ws → ws !! w = Some st → ∃ r, (w, r) ∈ ps ∧ fits r st.
Proof.
  intros [Hw Hf] Hst. assert (Hin : w ∈ ps.*1) by (rewrite Hw; apply elem_of_seq; apply lookup_lt_Some in Hst; lia).
  apply list_elem_of_fmap in Hin as ([w' r] & -> & Hin). exists r. split; [done|]. cbn in Hst.
  destruct (Hf _ _ Hin) as (st' & Hst' & Hfit). rewrite Hst in Hst'. by injection Hst' as <-.
Qed.
End placed.
Arguments placed_by {Role St} fits ps ws.

(** A run that does not get stuck, for runs that are evaluated. *)
Definition goes {A} (r : option A) : bool := match r with Some _ => true | None => false end.
Lemma goes_some {A} (a : A) r : goes r = true → r = Some (default a r).
Proof. by destruct r. Qed.
