(* ===== verification/WriteQueue.v ===== *)
(** * Asynchronous writes of the client (client/queue.cc, client/client_worker.cc)

    The queue of buffers, the dispatcher, the workers on their schedulers, and the
    asynchronous calls (msg/operator_client.hpp), as one transition system: an
    [action] is a critical section of one of the threads, or one event of a
    worker, and [act] is its effect, [None] where the thread waits or has nothing
    to do. Writes over UDT are [send_buffer] of UdtChannel.v. *)
From S2P Require Import Prelude CxxString Json Records Datastore Instances Op Replica StatCache ClientZone Fuse Pool.

Definition MAX_MERGE_SIZE : Z := 1048576.
Definition SCHER_NUM : nat := 8.
(** The size of a buffer is an unsigned 32-bit number ([clmdep_msgpack::type::raw_ref]); the
    kernel hands a program's write over in pieces of at most 2^31 - 4096 bytes, which fit. *)
Definition MAX_RW_COUNT : Z := 2 ^ 31 - 4096.

(** ** Buffers (common/buffer.h) *)
Module Buffer.
(** A buffer without a path is the marker of [block_on_last]; it has no
    destination, and nobody looks at its node. *)
Record t : Type := mk {
  path : string;
  offset : Z;
  dest : IOProxyNode.t;
  buf : string;
  callback : bool;
}.
Definition size (b : t) : Z := CxxString.size b.(buf).
Definition append (buf_app : string) (b : t) : t :=
  mk b.(path) b.(offset) b.(dest) (b.(buf) +:+ buf_app) b.(callback).
Definition fake : t := mk "" 0 (IOProxyNode.mk 0 0 "" "" 0 "" "") "" true.
Definition is_marker (b : t) : bool := String.eqb b.(path) "".
End Buffer.
Notation buffer := Buffer.t.

(** ** The queue *)
Record queue : Type := Queue {
  buf_waiting_line : list buffer;
  (** the calls of [queue_buffer] that wait for room *)
  blocked : list buffer;
  (** what [_dispatch_unsafe] still has to hand out *)
  batch : list buffer;
  idle_list : list nat;
  idle_worker_num : Z;
  buf_onlink : Z;
  buf_inqueue : Z;
  channel_loads : list Z;
  m_max_buf : Z;
}.

Module ClientBufferQueue.
Implicit Types (b : buffer) (q : queue).

(** The last buffer of the line takes the new one in: the path is the same, it
    follows on, and the sum, of 32 bits, is below 1 MiB. The destination is not
    compared. *)
Definition mergeable (last_buf b : buffer) : bool :=
  String.eqb last_buf.(Buffer.path) b.(Buffer.path) && (to_u32 (Buffer.size last_buf + Buffer.size b) <? MAX_MERGE_SIZE)
  && (to_u64 (last_buf.(Buffer.offset) + Buffer.size last_buf) =? b.(Buffer.offset)).
Fixpoint merge_last b (line : list buffer) : option (list buffer) :=
  match line with
  | [] => None
  | [last_buf] => if mergeable last_buf b then Some [Buffer.append b.(Buffer.buf) last_buf] else None
  | x :: line => cons x <$> merge_last b line
  end.

Definition push b q : queue :=
  Queue (q.(buf_waiting_line) ++ [b]) q.(blocked) q.(batch) q.(idle_list) q.(idle_worker_num) q.(buf_onlink)
    (q.(buf_inqueue) + Buffer.size b) q.(channel_loads) q.(m_max_buf).
(** Up to the wait for room; a call that waits leaves its buffer among the
    [blocked] ones. *)
Definition queue_buffer b (block : bool) q : queue :=
  match merge_last b q.(buf_waiting_line) with
  | Some line =>
      Queue line q.(blocked) q.(batch) q.(idle_list) q.(idle_worker_num) q.(buf_onlink)
        (q.(buf_inqueue) + Buffer.size b) q.(channel_loads) q.(m_max_buf)
  | None =>
      if (q.(m_max_buf) <? q.(buf_inqueue)) && block then
        Queue q.(buf_waiting_line) (q.(blocked) ++ [b]) q.(batch) q.(idle_list) q.(idle_worker_num) q.(buf_onlink)
          q.(buf_inqueue) q.(channel_loads) q.(m_max_buf)
      else push b q
  end.
(** A call that waits finds room: it does not try to merge again. *)
Definition wake (i : nat) q : option queue :=
  b ← q.(blocked) !! i;
  if q.(m_max_buf) <? q.(buf_inqueue) then None
  else Some (push b (Queue q.(buf_waiting_line) (delete i q.(blocked)) q.(batch) q.(idle_list) q.(idle_worker_num)
               q.(buf_onlink) q.(buf_inqueue) q.(channel_loads) q.(m_max_buf))).

(** A marker behind everything that is queued, unless nothing is on its way. *)
Definition block_on_last q : queue := if q.(buf_onlink) =? 0 then q else queue_buffer Buffer.fake false q.

(** The dispatcher takes the whole line, once it has handed out what it had. *)
Definition _dispatch q : option queue :=
  match q.(batch), q.(buf_waiting_line) with
  | [], _ :: _ =>
      Some (Queue [] q.(blocked) q.(buf_waiting_line) q.(idle_list) q.(idle_worker_num) q.(buf_onlink) q.(buf_inqueue)
              q.(channel_loads) q.(m_max_buf))
  | _, _ => None
  end.
(** The next buffer and an idle worker for it. *)
Definition hand_out q : option (nat * buffer * queue) :=
  match q.(batch), q.(idle_list) with
  | b :: t, worker :: idle =>
      Some (worker, b, Queue q.(buf_waiting_line) q.(blocked) t idle (q.(idle_worker_num) - 1) (q.(buf_onlink) + 1)
                         q.(buf_inqueue) q.(channel_loads) q.(m_max_buf))
  | _, _ => None
  end.
Definition add_idle_worker (worker : nat) q : queue :=
  Queue q.(buf_waiting_line) q.(blocked) q.(batch) (q.(idle_list) ++ [worker]) (q.(idle_worker_num) + 1) q.(buf_onlink)
    q.(buf_inqueue) q.(channel_loads) q.(m_max_buf).

(** The first channel with the smallest load. *)
Fixpoint least_loaded (i channel_id : nat) (min_load : Z) (loads : list Z) : nat :=
  match loads with
  | [] => channel_id
  | l :: loads => if l <? min_load then least_loaded (S i) i l loads else least_loaded (S i) channel_id min_load loads
  end.
Definition set_loads (loads : list Z) q : queue :=
  Queue q.(buf_waiting_line) q.(blocked) q.(batch) q.(idle_list) q.(idle_worker_num) q.(buf_onlink) q.(buf_inqueue)
    loads q.(m_max_buf).
Definition spare_channel (loads : list Z) : nat := least_loaded 1 0 (default 0 (head loads)) (tail loads).
Definition get_spare_channel q : nat * queue :=
  let channel_id := spare_channel q.(channel_loads) in
  (channel_id, set_loads (alter Z.succ channel_id q.(channel_loads)) q).
Definition done_one (channel_id : nat) (bufsize : Z) q : queue :=
  Queue q.(buf_waiting_line) q.(blocked) q.(batch) q.(idle_list) q.(idle_worker_num) (q.(buf_onlink) - 1)
    (q.(buf_inqueue) - bufsize) (alter Z.pred channel_id q.(channel_loads)) q.(m_max_buf).
End ClientBufferQueue.

(** ** Workers and their schedulers *)
Inductive worker_state : Type := New | Waiting | Processing (cur_buf : buffer).
Inductive event : Type :=
| Initiate (worker : nat)
| BufferQueued (worker : nat) (b : buffer)
| BufferComplete (worker : nat).
(** A call of [SubmitAsync] that the proxy has not executed. *)
Record call : Type := Call {
  call_by : nat;
  call_to : string;
  call_buf : buffer;
}.

(** The bytes of a list of buffers. *)
Definition total (l : list buffer) : Z := foldr (λ b, Z.add (Buffer.size b)) 0 l.
Lemma total_app l l' : total (l ++ l') = total l + total l'.
Proof. unfold total. induction l; cbn; lia. Qed.
Lemma total_cons b l : total (b :: l) = Buffer.size b + total l.
Proof. done. Qed.
#[local] Arguments total : simpl never.
Ltac totals := cbn; rewrite ?total_app, ?total_cons, ?total_app; try change (total []) with 0; try lia.
#[export] Instance total_perm : Proper ((≡ₚ) ==> (=)) total.
Proof. intros l l' Hl. unfold total. induction Hl; cbn; lia. Qed.
Lemma size_append s b : Buffer.size (Buffer.append s b) = Buffer.size b + CxxString.size s.
Proof. apply size_app. Qed.

Lemma merge_last_spec b line line' : ClientBufferQueue.merge_last b line = Some line' → ∃ l last_buf,
  line = l ++ [last_buf] ∧ line' = l ++ [Buffer.append b.(Buffer.buf) last_buf] ∧ ClientBufferQueue.mergeable last_buf b = true.
Proof.
  revert line'. induction line as [|x line IH]; intros line' Hm; [done|]. cbn in Hm. destruct line as [|y line].
  - destruct (ClientBufferQueue.mergeable x b) eqn:Hb; [|done]. injection Hm as <-. by exists [], x.
  - destruct (ClientBufferQueue.merge_last b (y :: line)) as [l0|] eqn:Hl; [|done]. injection Hm as <-.
    destruct (IH _ eq_refl) as (l & last_buf & -> & -> & Hb). by exists (x :: l), last_buf.
Qed.

(** The channel chosen has a load that is smallest, and smaller than that of every
    channel before it. *)
Lemma least_loaded_spec (before : list Z) best m rest :
  before !! best = Some m → (∀ j l, before !! j = Some l → m ≤ l ∧ ((j < best)%nat → m < l)) →
  let ch := ClientBufferQueue.least_loaded (length before) best m rest in
  ∃ m', (before ++ rest) !! ch = Some m' ∧ ∀ j l, (before ++ rest) !! j = Some l → m' ≤ l ∧ ((j < ch)%nat → m' < l).
Proof.
  revert before best m. induction rest as [|x rest IH]; intros before best m Hbest Hmin; cbn.
  - exists m. by rewrite app_nil_r.
  - assert (Hlen : S (length before) = length (before ++ [x])) by (rewrite length_app; cbn; lia).
    replace (before ++ x :: rest) with ((before ++ [x]) ++ rest) by (by rewrite <-app_assoc).
    rewrite Hlen. destruct (Z.ltb_spec x m) as [Hx|Hx]; apply IH.
    + by apply list_lookup_middle.
    + intros j l [Hj|[Hge Hj]]%lookup_app_Some; [destruct (Hmin j l Hj); lia|].
      apply list_lookup_singleton_Some in Hj as [? <-]. lia.
    + rewrite lookup_app_l; [done|]. by apply lookup_lt_Some in Hbest.
    + apply lookup_lt_Some in Hbest. intros j l [Hj|[Hge Hj]]%lookup_app_Some; [by apply Hmin|].
      apply list_lookup_singleton_Some in Hj as [? <-]. lia.
Qed.
Lemma spare_channel_spec loads : loads ≠ [] → ∃ m, loads !! ClientBufferQueue.spare_channel loads = Some m ∧
  ∀ j l, loads !! j = Some l → m ≤ l ∧ ((j < ClientBufferQueue.spare_channel loads)%nat → m < l).
Proof.
  destruct loads as [|x rest]; [done|]. intros _. apply (least_loaded_spec [x] 0 x rest); [done|].
  intros [|j] l [= <-]. lia.
Qed.

Definition sum (l : list Z) : Z := foldr Z.add 0 l.
Lemma sum_alter (f : Z → Z) i x l : l !! i = Some x → sum (alter f i l) = sum l + (f x - x).
Proof.
  unfold sum. revert i. induction l as [|y l IH]; intros [|i] Hi; cbn in *; simplify_eq; [lia|].
  change (list_alter f i l) with (alter f i l). rewrite (IH i) by done. lia.
Qed.
Lemma sum_least m l : (∀ j x, l !! j = Some x → m ≤ x) → Z.of_nat (length l) * m ≤ sum l.
Proof.
  induction l as [|x l IH]; intros Hl; [done|]. pose proof (Hl 0%nat x eq_refl).
  assert (Z.of_nat (length l) * m ≤ sum l) by (apply IH; intros j y Hj; by apply (Hl (S j))). cbn [length sum foldr]. fold (sum l). lia.
Qed.

Section system.
Context {W : Type} `{Grpc W}.

Record system : Type := System {
  sys_queue : queue;
  workers : list worker_state;
  per_scheduler : nat;
  (** the events every scheduler has to process, in order *)
  schedulers : list (list event);
  calls : list call;
  (** the calls that are executed and whose callback has not run *)
  executed : list nat;
  rpc : Fuse.client;
  world : W;
}.
Implicit Types (s : system).

Definition set_queue (q : queue) s : system :=
  System q s.(workers) s.(per_scheduler) s.(schedulers) s.(calls) s.(executed) s.(rpc) s.(world).
Definition set_worker (w : nat) (st : worker_state) s : system :=
  System s.(sys_queue) (<[w := st]> s.(workers)) s.(per_scheduler) s.(schedulers) s.(calls) s.(executed) s.(rpc) s.(world).
Definition set_schedulers (l : list (list event)) s : system :=
  System s.(sys_queue) s.(workers) s.(per_scheduler) l s.(calls) s.(executed) s.(rpc) s.(world).

(** [worker->my_scheduler().queue_event]. *)
Definition queue_event (w : nat) (e : event) s : system :=
  set_schedulers (alter (λ l, l ++ [e]) (w / s.(per_scheduler))%nat s.(schedulers)) s.

Definition write_of (b : buffer) : OpRequest.t :=
  OpRequest.set_data b.(Buffer.buf)
    (Fuse.with_param (Fuse.io_param b.(Buffer.offset) (Buffer.size b)) (Fuse.request OpType.write b.(Buffer.path))).

(** The constructor of [Processing]. *)
Definition process (w : nat) (b : buffer) s : system :=
  let s := set_worker w (Processing b) s in
  if Buffer.is_marker b then queue_event w (BufferComplete w) s
  else
    let '(channel_id, q) := ClientBufferQueue.get_spare_channel s.(sys_queue) in
    let '(oper, rpc) := Fuse.get_operator b.(Buffer.dest) (Z.of_nat channel_id + 1) s.(rpc) in
    System q s.(workers) s.(per_scheduler) s.(schedulers) (s.(calls) ++ [Call w oper b]) s.(executed) rpc s.(world).
(** The constructor of [Waiting]. *)
Definition wait (w : nat) s : system :=
  set_queue (ClientBufferQueue.add_idle_worker w s.(sys_queue)) (set_worker w Waiting s).

(** A scheduler processes an event; an event the state has no reaction for is
    dropped. *)
Definition react (e : event) s : system :=
  match e with
  | Initiate w => wait w s
  | BufferQueued w b =>
      match s.(workers) !! w with
      | Some Waiting => process w b s
      | _ => s
      end
  | BufferComplete w =>
      match s.(workers) !! w with
      | Some (Processing b) => wait w (set_queue (ClientBufferQueue.done_one 0 (Buffer.size b) s.(sys_queue)) s)
      | _ => s
      end
  end.

(** ** The transition system *)
Inductive action : Type :=
| QueueBuffer (b : buffer)
| BlockOnLast
| Wake (i : nat)
| Dispatch
| HandOut
| React (scheduler : nat)
| Execute (i : nat)
| Answer (i : nat).

Definition act (a : action) s : option system :=
  match a with
  | QueueBuffer b =>
      if Buffer.size b <=? MAX_RW_COUNT then Some (set_queue (ClientBufferQueue.queue_buffer b true s.(sys_queue)) s)
      else None
  | BlockOnLast => Some (set_queue (ClientBufferQueue.block_on_last s.(sys_queue)) s)
  | Wake i => q ← ClientBufferQueue.wake i s.(sys_queue); Some (set_queue q s)
  | Dispatch => q ← ClientBufferQueue._dispatch s.(sys_queue); Some (set_queue q s)
  | HandOut =>
      '(w, b, q) ← ClientBufferQueue.hand_out s.(sys_queue);
      Some (queue_event w (BufferQueued w b) (set_queue q s))
  | React i =>
      match s.(schedulers) !! i with
      | Some (e :: events) => Some (react e (set_schedulers (<[i := events]> s.(schedulers)) s))
      | _ => None
      end
  | Execute i =>
      c ← s.(calls) !! i;
      Some (System s.(sys_queue) s.(workers) s.(per_scheduler) s.(schedulers) (delete i s.(calls))
              (s.(executed) ++ [c.(call_by)]) s.(rpc) (grpc_submit c.(call_to) (write_of c.(call_buf)) s.(world)).2)
  | Answer i =>
      w ← s.(executed) !! i;
      Some (queue_event w (BufferComplete w)
              (System s.(sys_queue) s.(workers) s.(per_scheduler) s.(schedulers) s.(calls) (delete i s.(executed))
                 s.(rpc) s.(world)))
  end.

Fixpoint run (l : list action) s : option system :=
  match l with
  | [] => Some s
  | a :: l => s ← act a s; run l s
  end.

(** [start], and the constructor with its configuration. *)
Definition start (max_queue onlink multi_channel : Z) (c : Fuse.client) (w : W) : system :=
  let per := Z.to_nat (Z.quot onlink (Z.of_nat SCHER_NUM)) in
  System (Queue [] [] [] [] 0 0 0 (replicate (Z.to_nat multi_channel) 0) max_queue)
    (replicate (SCHER_NUM * per) New) per
    ((λ i, Initiate <$> seq (i * per) per) <$> seq 0 SCHER_NUM) [] [] c w.

(** ** Where the workers are

    Every worker is in one place: the idle list, the events of its scheduler, a
    call, or a callback that has not run; and its state is the one that place
    needs. *)
Inductive role : Type := new | idle | busy (b : buffer) | served.
Definition fits (r : role) (st : worker_state) : Prop :=
  match r with
  | new => st = New
  | idle => st = Waiting
  | busy b => st = Processing b ∧ Buffer.is_marker b = false
  | served => ∃ b, st = Processing b
  end.
Definition event_place (e : event) : nat * role :=
  match e with
  | Initiate w => (w, new)
  | BufferQueued w _ => (w, idle)
  | BufferComplete w => (w, served)
  end.
Definition places s : list (nat * role) :=
  ((λ w, (w, idle)) <$> s.(sys_queue).(idle_list)) ++ (event_place <$> mjoin s.(schedulers))
  ++ ((λ c, (c.(call_by), busy c.(call_buf))) <$> s.(calls)) ++ ((λ w, (w, served)) <$> s.(executed)).
#[local] Arguments places : simpl never.
Notation placed := (placed_by fits).
Definition wired s : Prop :=
  placed (places s) s.(workers) ∧ ∀ w, (w < length s.(workers))%nat → (w / s.(per_scheduler) < length s.(schedulers))%nat.

Lemma queue_buffer_idle b block q :
  (ClientBufferQueue.queue_buffer b block q).(idle_list) = q.(idle_list).
Proof. unfold ClientBufferQueue.queue_buffer. destruct (ClientBufferQueue.merge_last _ _); [done|]. by destruct (_ && _). Qed.
Lemma block_on_last_idle q : (ClientBufferQueue.block_on_last q).(idle_list) = q.(idle_list).
Proof. unfold ClientBufferQueue.block_on_last. destruct (_ =? 0); [done|]. apply queue_buffer_idle. Qed.

(** What the steps of a worker do to the places. *)
Lemma places_event w e s : (w / s.(per_scheduler) < length s.(schedulers))%nat →
  places (queue_event w e s) ≡ₚ event_place e :: places s.
Proof. intros Hw. unfold places. cbn. rewrite join_post by done. cbn. solve_Permutation. Qed.
Lemma places_take i e l s : s.(schedulers) !! i = Some (e :: l) →
  places s ≡ₚ event_place e :: places (set_schedulers (<[i := l]> s.(schedulers)) s).
Proof. intros Hi. unfold places. cbn. rewrite join_take by done. cbn. solve_Permutation. Qed.
Lemma places_wait w s : places (wait w s) ≡ₚ (w, idle) :: places s.
Proof. unfold places. cbn. rewrite fmap_app. cbn. solve_Permutation. Qed.
Lemma wired_same s s' : places s' = places s → s'.(workers) = s.(workers) →
  s'.(per_scheduler) = s.(per_scheduler) → length s'.(schedulers) = length s.(schedulers) → wired s → wired s'.
Proof. unfold wired. by intros -> -> -> ->. Qed.

(** Processing a buffer. *)
Lemma process_wired w b s : placed ((w, idle) :: places s) s.(workers) →
  (∀ w, (w < length s.(workers))%nat → (w / s.(per_scheduler) < length s.(schedulers))%nat) →
  wired (process w b s).
Proof.
  intros Hp Hlen. destruct (placed_head _ _ _ _ Hp) as (st & Hst & _). apply lookup_lt_Some in Hst as Hw.
  unfold process. destruct (Buffer.is_marker b) eqn:Hm; split; cbn.
  - eapply placed_perm; [symmetry; apply places_event; cbn; by apply Hlen|]. cbn.
    eapply placed_move; [exact Hp|]. by exists b.
  - rewrite length_insert, length_alter. exact Hlen.
  - destruct (Fuse.get_operator _ _ _) as [oper c]. cbn. eapply placed_perm; [|eapply (placed_move _ _ (busy b)); [exact Hp|done]].
    unfold places. cbn. rewrite fmap_app. cbn. solve_Permutation.
  - destruct (Fuse.get_operator _ _ _) as [oper c]. cbn. by rewrite length_insert.
Qed.

Lemma react_wired e s : placed (event_place e :: places s) s.(workers) →
  (∀ w, (w < length s.(workers))%nat → (w / s.(per_scheduler) < length s.(schedulers))%nat) →
  wired (react e s).
Proof.
  intros Hp Hlen.
  assert (Hwait : ∀ w r q, placed ((w, r) :: places s) s.(workers) → q.(idle_list) = s.(sys_queue).(idle_list) →
    wired (wait w (set_queue q s))).
  { intros w r q Hw Hq. split; cbn; [|by rewrite length_insert].
    eapply placed_perm; [symmetry; apply (places_wait w (set_queue q s))|].
    replace (places (set_queue q s)) with (places s) by (unfold places; cbn; by rewrite Hq).
    by eapply placed_move. }
  destruct e as [w|w b|w]; cbn in *; destruct (placed_head _ _ _ _ Hp) as (st & Hst & Hfit); cbn in Hfit.
  - replace (wait w s) with (wait w (set_queue s.(sys_queue) s)) by (by destruct s). by eapply Hwait.
  - rewrite Hst, Hfit. by apply process_wired.
  - destruct Hfit as [b ->]. rewrite Hst. by eapply Hwait.
Qed.

(** The scheduler of a worker exists. *)
Lemma scheduler_of w r s : wired s → (w, r) ∈ places s → (w / s.(per_scheduler) < length s.(schedulers))%nat.
Proof. intros [Hp Hlen] Hin. apply Hlen. destruct (proj2 Hp w r Hin) as (st & Hst & _). by apply lookup_lt_Some in Hst. Qed.
Lemma idle_placed w rest s : s.(sys_queue).(idle_list) = w :: rest → (w, idle) ∈ places s.
Proof. intros Hi. unfold places. rewrite Hi. by left. Qed.
Lemma executed_placed w i s : s.(executed) !! i = Some w → (w, served) ∈ places s.
Proof.
  intros Hi. unfold places. rewrite !elem_of_app. do 3 right. apply (list_elem_of_fmap_2 (λ w, (w, served))).
  by eapply list_elem_of_lookup_2.
Qed.

Lemma act_wired a s s' : wired s → act a s = Some s' → wired s'.
Proof.
  intros Hs. destruct a as [b| |i| | |i|i|i]; cbn; intros Ha.
  - destruct (_ <=? _); [|done]. injection Ha as <-. eapply wired_same, Hs; try done. unfold places. cbn. by rewrite queue_buffer_idle.
  - injection Ha as <-. eapply wired_same, Hs; try done. unfold places. cbn. by rewrite block_on_last_idle.
  - unfold ClientBufferQueue.wake in Ha. destruct (_ !! i); cbn in Ha; [|done]. destruct (_ <? _); [done|].
    cbn in Ha. injection Ha as <-. by eapply wired_same, Hs.
  - unfold ClientBufferQueue._dispatch in Ha. destruct (batch _); [|done]. destruct (buf_waiting_line _); [done|].
    injection Ha as <-. by eapply wired_same, Hs.
  - unfold ClientBufferQueue.hand_out in Ha. destruct (batch _) as [|b t]; [done|].
    destruct (idle_list _) as [|w rest] eqn:Hi; [done|]. injection Ha as <-.
    pose proof (scheduler_of _ _ _ Hs (idle_placed _ _ _ Hi)) as Hw. destruct Hs as [Hp Hlen].
    split; cbn; [|by rewrite length_alter]. eapply placed_perm, Hp.
    rewrite places_event by done. unfold places. cbn. by rewrite Hi.
  - destruct (schedulers s !! i) as [[|e l]|] eqn:Hi; [done| |done]. injection Ha as <-. destruct Hs as [Hp Hlen].
    apply react_wired; cbn; [|by rewrite length_insert]. eapply placed_perm, Hp. by apply places_take.
  - destruct (calls s !! i) as [c|] eqn:Hi; [|done]. cbn in Ha. injection Ha as <-. destruct Hs as [Hp Hlen]. split; [|done].
    assert (Hc : places s ≡ₚ (c.(call_by), busy c.(call_buf)) ::
      ((λ w, (w, idle)) <$> s.(sys_queue).(idle_list)) ++ (event_place <$> mjoin s.(schedulers))
      ++ ((λ c, (c.(call_by), busy c.(call_buf))) <$> delete i s.(calls)) ++ ((λ w, (w, served)) <$> s.(executed))).
    { unfold places. rewrite (delete_Permutation _ _ _ Hi) at 1. cbn. solve_Permutation. }
    eapply placed_perm; [|eapply (placed_role _ _ served); [eapply placed_perm, Hp; exact Hc|]]; [|intros st [-> _]; by exists (call_buf c)].
    unfold places. cbn. rewrite fmap_app. cbn. solve_Permutation.
  - destruct (executed s !! i) as [w|] eqn:Hi; [|done]. cbn in Ha. injection Ha as <-.
    pose proof (scheduler_of _ _ _ Hs (executed_placed _ _ _ Hi)) as Hw. destruct Hs as [Hp Hlen].
    split; cbn; [|by rewrite length_alter]. eapply placed_perm, Hp.
    rewrite places_event by done. unfold places. cbn. rewrite (delete_Permutation _ _ _ Hi) at 1. cbn. solve_Permutation.
Qed.

(** ** The counters *)
Definition posted (e : event) : list buffer := match e with BufferQueued _ b => [b] | _ => [] end.
Definition held (st : worker_state) : list buffer := match st with Processing b => [b] | _ => [] end.
(** The buffers that were handed to a worker and are not done. *)
Definition dispatched s : list buffer := (mjoin s.(schedulers) ≫= posted) ++ (s.(workers) ≫= held).
#[local] Arguments dispatched : simpl never.
Definition counted s : Prop :=
  s.(sys_queue).(buf_inqueue) = total (s.(sys_queue).(buf_waiting_line) ++ s.(sys_queue).(batch) ++ dispatched s) ∧
  s.(sys_queue).(buf_onlink) = Z.of_nat (length (dispatched s)).

Lemma dispatched_event w e s : (w / s.(per_scheduler) < length s.(schedulers))%nat →
  dispatched (queue_event w e s) ≡ₚ posted e ++ dispatched s.
Proof. intros Hw. unfold dispatched. cbn. rewrite join_post by done. cbn. solve_Permutation. Qed.
Lemma dispatched_take i e l s : s.(schedulers) !! i = Some (e :: l) →
  dispatched s ≡ₚ posted e ++ dispatched (set_schedulers (<[i := l]> s.(schedulers)) s).
Proof. intros Hi. unfold dispatched. cbn. rewrite join_take by done. cbn. solve_Permutation. Qed.
Lemma dispatched_worker w st st' s : s.(workers) !! w = Some st →
  dispatched (set_worker w st' s) ++ held st ≡ₚ held st' ++ dispatched s.
Proof.
  intros Hw. unfold dispatched. cbn. destruct (bind_set held w st st' _ Hw) as (rest & -> & ->). solve_Permutation.
Qed.

(** The queue's own operations. *)
Lemma queue_buffer_counts b block q l :
  q.(buf_inqueue) = total (q.(buf_waiting_line) ++ q.(batch) ++ l) →
  let q' := ClientBufferQueue.queue_buffer b block q in
  q'.(buf_inqueue) = total (q'.(buf_waiting_line) ++ q'.(batch) ++ l) ∧ q'.(buf_onlink) = q.(buf_onlink).
Proof.
  intros Hq. unfold ClientBufferQueue.queue_buffer. destruct (ClientBufferQueue.merge_last _ _) as [line|] eqn:Hm.
  - apply merge_last_spec in Hm as (l0 & last_buf & Hl & -> & _). split; [|done]. cbn. rewrite Hq, Hl. totals.
    rewrite size_append. unfold Buffer.size. lia.
  - destruct (_ && _); split; try done. cbn. rewrite Hq. totals.
Qed.

Lemma process_counts w b s : s.(workers) !! w = Some Waiting → (w / s.(per_scheduler) < length s.(schedulers))%nat →
  let s' := process w b s in
  dispatched s' ≡ₚ b :: dispatched s ∧ s'.(sys_queue).(buf_inqueue) = s.(sys_queue).(buf_inqueue) ∧
  s'.(sys_queue).(buf_waiting_line) = s.(sys_queue).(buf_waiting_line) ∧ s'.(sys_queue).(batch) = s.(sys_queue).(batch) ∧
  s'.(sys_queue).(buf_onlink) = s.(sys_queue).(buf_onlink).
Proof.
  intros Hw Hlen. pose proof (dispatched_worker w Waiting (Processing b) s Hw) as Hd. rewrite app_nil_r in Hd.
  unfold process. destruct (Buffer.is_marker b).
  - split_and!; try done. by rewrite dispatched_event.
  - destruct (ClientBufferQueue.get_spare_channel _) as [ch q] eqn:Hq. injection Hq as <- <-.
    destruct (Fuse.get_operator _ _ _) as [oper c]. by split_and!.
Qed.

Lemma dispatched_queue q s : dispatched (set_queue q s) = dispatched s.
Proof. done. Qed.
Lemma wait_dispatched w s : dispatched (wait w s) = dispatched (set_worker w Waiting s).
Proof. done. Qed.
Lemma queue_dispatched w q s : dispatched (wait w (set_queue q s)) = dispatched (set_worker w Waiting s).
Proof. done. Qed.

Lemma react_counts e s : placed (event_place e :: places s) s.(workers) →
  (∀ w, (w < length s.(workers))%nat → (w / s.(per_scheduler) < length s.(schedulers))%nat) →
  s.(sys_queue).(buf_inqueue) = total (s.(sys_queue).(buf_waiting_line) ++ s.(sys_queue).(batch) ++ posted e ++ dispatched s) →
  s.(sys_queue).(buf_onlink) = Z.of_nat (length (posted e ++ dispatched s)) → counted (react e s).
Proof.
  intros Hp Hlen Hin Hon. destruct e as [w|w b|w]; cbn in *; destruct (placed_head _ _ _ _ Hp) as (st & Hst & Hfit); cbn in Hst, Hfit.
  - subst st. pose proof (dispatched_worker w New Waiting s Hst) as Hd. rewrite app_nil_r in Hd. split; cbn.
    + by rewrite Hin, wait_dispatched, Hd.
    + by rewrite Hon, wait_dispatched, Hd.
  - subst st. rewrite Hst. apply lookup_lt_Some in Hst as Hl.
    destruct (process_counts w b s Hst (Hlen _ Hl)) as (Hd & Hi & Hl' & Hb & Ho). split.
    + by rewrite Hi, Hl', Hb, Hd.
    + by rewrite Ho, Hd.
  - destruct Hfit as [b ->]. rewrite Hst. pose proof (dispatched_worker w (Processing b) Waiting s Hst) as Hd. cbn in Hd.
    assert (Hn : total (dispatched (set_worker w Waiting s)) + Buffer.size b = total (dispatched s)).
    { rewrite <-Hd. totals. }
    assert (Hl : (length (dispatched (set_worker w Waiting s)) + 1)%nat = length (dispatched s)).
    { rewrite <-Hd, length_app. done. }
    split; cbn.
    + rewrite queue_dispatched, Hin. totals.
    + rewrite queue_dispatched, Hon. lia.
Qed.

Lemma act_counted a s s' : wired s → counted s → act a s = Some s' → counted s'.
Proof.
  intros Hs [Hin Hon]. destruct a as [b| |i| | |i|i|i]; cbn; intros Ha.
  - destruct (_ <=? _); [|done]. injection Ha as <-. destruct (queue_buffer_counts b true _ _ Hin) as [Hi Ho]. split; [exact Hi|]. cbn. by rewrite Ho.
  - injection Ha as <-. unfold ClientBufferQueue.block_on_last. destruct (_ =? 0); [by destruct s|].
    destruct (queue_buffer_counts Buffer.fake false _ _ Hin) as [Hi Ho]. split; [exact Hi|]. cbn. by rewrite Ho.
  - unfold ClientBufferQueue.wake in Ha. destruct (_ !! i) as [b|]; cbn in Ha; [|done]. destruct (_ <? _); [done|].
    cbn in Ha. injection Ha as <-. split; [|exact Hon]. rewrite dispatched_queue. cbn. rewrite Hin. totals.
  - unfold ClientBufferQueue._dispatch in Ha. destruct (batch _) eqn:Hb; [|done]. destruct (buf_waiting_line _) eqn:Hl; [done|].
    injection Ha as <-. split; [|exact Hon]. exact Hin.
  - unfold ClientBufferQueue.hand_out in Ha. destruct (batch _) as [|b t] eqn:Hb; [done|].
    destruct (idle_list _) as [|w rest] eqn:Hi; [done|]. injection Ha as <-.
    pose proof (scheduler_of _ _ _ Hs (idle_placed _ _ _ Hi)) as Hw.
    split; rewrite dispatched_event by done; rewrite dispatched_queue; cbn.
    + rewrite Hin. totals.
    + rewrite Hon. lia.
  - destruct (schedulers s !! i) as [[|e l]|] eqn:Hi; [done| |done]. injection Ha as <-.
    destruct Hs as [Hp Hlen]. apply react_counts; cbn.
    + eapply placed_perm, Hp. by apply places_take.
    + by rewrite length_insert.
    + by rewrite Hin, (dispatched_take i e l s Hi).
    + by rewrite Hon, (dispatched_take i e l s Hi).
  - destruct (calls s !! i) as [c|]; [|done]. cbn in Ha. injection Ha as <-. by split.
  - destruct (executed s !! i) as [w|] eqn:Hi; [|done]. cbn in Ha. injection Ha as <-.
    pose proof (scheduler_of _ _ _ Hs (executed_placed _ _ _ Hi)) as Hw.
    split; rewrite dispatched_event by done; [exact Hin|exact Hon].
Qed.

(** ** The channels *)

(** The channel a step sends a write on. *)
Definition channel_of (a : action) s : option nat :=
  match a with
  | React i =>
      match s.(schedulers) !! i with
      | Some (BufferQueued w b :: _) =>
          match s.(workers) !! w with
          | Some Waiting =>
              if Buffer.is_marker b then None else Some (ClientBufferQueue.spare_channel s.(sys_queue).(channel_loads))
          | _ => None
          end
      | _ => None
      end
  | _ => None
  end.
(** How many writes a run sends on a channel. *)
Fixpoint sent_on (ch : nat) (l : list action) s : Z :=
  match l with
  | [] => 0
  | a :: l =>
      (if decide (channel_of a s = Some ch) then 1 else 0) + match act a s with Some s' => sent_on ch l s' | None => 0 end
  end.

Definition loads s : list Z := s.(sys_queue).(channel_loads).
Definition in_process s : Z := Z.of_nat (length (s.(workers) ≫= held)).
(** A channel but the first is chosen only while the workers can fill all the
    channels up to its load. *)
Definition loaded s : Prop :=
  loads s ≠ [] ∧ sum (loads s) ≤ in_process s ∧
  ∀ i n, (1 ≤ i)%nat → loads s !! i = Some n →
    0 ≤ n ∧ (n = 0 ∨ Z.of_nat (length (loads s)) * (n - 1) + 2 ≤ Z.of_nat (length s.(workers))).

Lemma held_bound (ws : list worker_state) : (length (ws ≫= held) ≤ length ws)%nat.
Proof. induction ws as [|st ws IH]; [done|]. rewrite bind_cons, length_app. destruct st; cbn; lia. Qed.
Lemma in_process_set w st st' s : s.(workers) !! w = Some st →
  in_process (set_worker w st' s) + Z.of_nat (length (held st)) = in_process s + Z.of_nat (length (held st')).
Proof.
  intros Hw. unfold in_process. cbn. destruct (bind_set held w st st' _ Hw) as (rest & -> & ->). rewrite !length_app. lia.
Qed.

Lemma process_loaded w b s : s.(workers) !! w = Some Waiting → loaded s →
  let s' := process w b s in loaded s' ∧
  ∀ i, (1 ≤ i)%nat → default 0 (loads s' !! i) = default 0 (loads s !! i) +
    (if Buffer.is_marker b then 0 else if decide (ClientBufferQueue.spare_channel (loads s) = i) then 1 else 0).
Proof.
  intros Hw (Hne & Hsum & Hall). pose proof (in_process_set w Waiting (Processing b) s Hw) as Hin. cbn in Hin.
  assert (Hmax : in_process (set_worker w (Processing b) s) ≤ Z.of_nat (length s.(workers))).
  { unfold in_process. cbn. pose proof (held_bound (<[w:=Processing b]> s.(workers))) as Hb. rewrite length_insert in Hb. lia. }
  unfold process. destruct (Buffer.is_marker b).
  - split; [|intros i Hi; by rewrite Z.add_0_r]. split_and!; [done| |].
    + change (sum (loads s) ≤ in_process (set_worker w (Processing b) s)). lia.
    + intros i n Hi Hn. cbn. rewrite length_insert. by apply Hall with i.
  - destruct (spare_channel_spec (loads s) Hne) as (m & Hm & Hmin).
    unfold ClientBufferQueue.get_spare_channel. cbn [fst snd]. fold (loads s).
    set (ch := ClientBufferQueue.spare_channel (loads s)) in *.
    destruct (Fuse.get_operator _ _ _) as [oper c].
    set (s' := System _ _ _ _ _ _ _ _). assert (Hl : loads s' = alter Z.succ ch (loads s)) by done.
    assert (Hp' : in_process s' = in_process (set_worker w (Processing b) s)) by done.
    split; [split_and!|].
    + rewrite Hl. intros Hnil. apply Hne. by apply length_zero_iff_nil; rewrite <-(length_alter Z.succ _ ch), Hnil.
    + rewrite Hl, (sum_alter _ _ _ _ Hm), Hp'. lia.
    + intros i n Hi. rewrite Hl, length_alter. replace (length (workers s')) with (length (workers s)) by (cbn; by rewrite length_insert).
      destruct (decide (ch = i)) as [<-|Hne'].
      * rewrite list_lookup_alter_eq, Hm. intros [= <-]. destruct (Hall ch m Hi Hm) as [H0 _]. split; [lia|right].
        (* every load is at least [m], the first one is larger *)
        destruct (loads s) as [|x rest] eqn:Hx; [done|]. destruct (Hmin 0%nat x eq_refl) as [_ Hlt].
        assert (Z.of_nat (length rest) * m ≤ sum rest) by (apply sum_least; intros j y Hj; by apply (Hmin (S j))).
        specialize (Hlt ltac:(lia)). cbn [sum foldr length] in *. fold (sum rest) in *. lia.
      * rewrite list_lookup_alter_ne by done. by apply Hall.
    + intros i Hi. rewrite Hl. case_decide as Hd; [subst i|by rewrite list_lookup_alter_ne, Z.add_0_r].
      by rewrite list_lookup_alter_eq, Hm.
Qed.

Lemma wait_loaded w st q s : s.(workers) !! w = Some st → loaded s →
  (q.(channel_loads) = loads s ∧ held st = [] ∨
   q.(channel_loads) = alter Z.pred 0%nat (loads s) ∧ length (held st) = 1%nat) →
  let s' := wait w (set_queue q s) in loaded s' ∧ ∀ i, (1 ≤ i)%nat → loads s' !! i = loads s !! i.
Proof.
  intros Hw (Hne & Hsum & Hall) Hq. pose proof (in_process_set w st Waiting s Hw) as Hin. cbn in Hin.
  set (s' := wait w (set_queue q s)). assert (Hp : in_process s' = in_process (set_worker w Waiting s)) by done.
  assert (Hw' : length (workers s') = length (workers s)) by (cbn; by rewrite length_insert).
  assert (Hl : loads s' = q.(channel_loads)) by done.
  unfold loaded. rewrite Hw', Hl, Hp. destruct Hq as [[-> Hst]|[-> Hst]].
  - rewrite Hst in Hin. cbn in Hin. split; [split_and!; [done|lia|done]|done].
  - destruct (loads s) as [|x rest] eqn:Hx; [done|]. change (alter Z.pred 0%nat (x :: rest)) with (Z.pred x :: rest).
    split; [split_and!; [done| |]|].
    + cbn [sum foldr] in *. lia.
    + intros [|i] n Hi Hn; [lia|]. by apply (Hall (S i)).
    + intros [|i] Hi; [lia|done].
Qed.

Lemma loaded_same s s' : loads s' = loads s → s'.(workers) = s.(workers) → loaded s → loaded s'.
Proof. unfold loaded, in_process. by intros -> ->. Qed.

Lemma queue_buffer_loads b block q :
  (ClientBufferQueue.queue_buffer b block q).(channel_loads) = q.(channel_loads).
Proof. unfold ClientBufferQueue.queue_buffer. destruct (ClientBufferQueue.merge_last _ _); [done|]. by destruct (_ && _). Qed.

Lemma act_loaded a s s' : wired s → loaded s → act a s = Some s' → loaded s' ∧
  ∀ i, (1 ≤ i)%nat → default 0 (loads s' !! i) = default 0 (loads s !! i) + (if decide (channel_of a s = Some i) then 1 else 0).
Proof.
  intros Hs Hl Ha.
  assert (Hsame : loads s' = loads s → s'.(workers) = s.(workers) → channel_of a s = None → loaded s' ∧
    ∀ i, (1 ≤ i)%nat → default 0 (loads s' !! i) = default 0 (loads s !! i) + (if decide (channel_of a s = Some i) then 1 else 0)).
  { intros Hq Hw ->. split; [by eapply loaded_same|]. intros i _. rewrite Hq, decide_False by done. lia. }
  destruct a as [b| |i| | |i|i|i]; cbn in Ha.
  - destruct (_ <=? _); [|done]. injection Ha as <-. apply Hsame; [|done..]. apply queue_buffer_loads.
  - injection Ha as <-. apply Hsame; [|done..]. unfold loads, ClientBufferQueue.block_on_last. cbn.
    destruct (_ =? 0); [done|]. apply queue_buffer_loads.
  - unfold ClientBufferQueue.wake in Ha. destruct (_ !! i); cbn in Ha; [|done]. destruct (_ <? _); [done|].
    cbn in Ha. injection Ha as <-. by apply Hsame.
  - unfold ClientBufferQueue._dispatch in Ha. destruct (batch _); [|done]. destruct (buf_waiting_line _); [done|].
    injection Ha as <-. by apply Hsame.
  - unfold ClientBufferQueue.hand_out in Ha. destruct (batch _) as [|b t]; [done|].
    destruct (idle_list _) as [|w rest]; [done|]. injection Ha as <-. by apply Hsame.
  - cbn in Hsame |- *. destruct (schedulers s !! i) as [[|e l]|] eqn:Hi; [done| |done]. injection Ha as <-. clear Hsame.
    pose proof (placed_perm _ _ _ (places_take _ _ _ _ Hi) (proj1 Hs)) as Hp.
    set (s1 := set_schedulers _ s) in *. change (loads s) with (loads s1). assert (Hl1 : loaded s1) by done.
    destruct e as [w|w b|w]; cbn in Hp; destruct (placed_head _ _ _ _ Hp) as (st & Hst & Hfit); cbn in Hst, Hfit |- *.
    + subst st. replace (wait w s1) with (wait w (set_queue (sys_queue s1) s1)) by done.
      destruct (wait_loaded w New (sys_queue s1) s1 Hst Hl1) as [? Heq]; [by left|]. split; [done|]. intros j Hj.
      rewrite Heq by done. rewrite decide_False by done. lia.
    + subst st. rewrite Hst.
      destruct (process_loaded w b s1 Hst Hl1) as [? Heq]. split; [done|]. intros j Hj. rewrite Heq by done.
      change (channel_loads (sys_queue s)) with (loads s1). destruct (Buffer.is_marker b); [done|].
      f_equal. repeat case_decide; naive_solver.
    + destruct Hfit as [b ->]. rewrite Hst.
      destruct (wait_loaded w (Processing b) (ClientBufferQueue.done_one 0 (Buffer.size b) (sys_queue s1)) s1 Hst Hl1) as [? Heq];
        [by right|]. split; [done|]. intros j Hj. rewrite Heq by done.
      rewrite decide_False by done. lia.
  - destruct (calls s !! i) as [c|]; [|done]. cbn in Ha. injection Ha as <-. by apply Hsame.
  - destruct (executed s !! i) as [w|]; [|done]. cbn in Ha. injection Ha as <-. by apply Hsame.
Qed.

(** The number of channels and of workers does not change. *)
Definition sizes s : nat * nat := (length (loads s), length s.(workers)).
Lemma process_sizes w b s : sizes (process w b s) = sizes s.
Proof.
  unfold process. destruct (Buffer.is_marker b); [unfold sizes; cbn; by rewrite length_insert|].
  unfold ClientBufferQueue.get_spare_channel. destruct (Fuse.get_operator _ _ _). unfold sizes. cbn.
  by rewrite length_alter, length_insert.
Qed.
Lemma react_sizes e s : sizes (react e s) = sizes s.
Proof.
  destruct e as [w|w b|w]; cbn; [unfold sizes; cbn; by rewrite length_insert| |].
  - destruct (workers s !! w) as [[]|]; try done. apply process_sizes.
  - destruct (workers s !! w) as [[]|]; try done. unfold sizes, loads. cbn. by rewrite length_insert, length_alter.
Qed.
Lemma act_sizes a s s' : act a s = Some s' → sizes s' = sizes s.
Proof.
  destruct a as [b| |i| | |i|i|i]; cbn; intros Ha.
  - destruct (_ <=? _); [|done]. injection Ha as <-. unfold sizes, loads. cbn. by rewrite queue_buffer_loads.
  - injection Ha as <-. unfold sizes, loads, ClientBufferQueue.block_on_last. cbn. destruct (_ =? 0); [done|].
    by rewrite queue_buffer_loads.
  - unfold ClientBufferQueue.wake in Ha. destruct (_ !! i); cbn in Ha; [|done]. destruct (_ <? _); [done|].
    cbn in Ha. by injection Ha as <-.
  - unfold ClientBufferQueue._dispatch in Ha. destruct (batch _); [|done]. destruct (buf_waiting_line _); [done|].
    by injection Ha as <-.
  - unfold ClientBufferQueue.hand_out in Ha. destruct (batch _); [done|]. destruct (idle_list _); [done|]. by injection Ha as <-.
  - destruct (schedulers s !! i) as [[|e l]|]; [done| |done]. injection Ha as <-. by rewrite react_sizes.
  - destruct (calls s !! i); [|done]. cbn in Ha. by injection Ha as <-.
  - destruct (executed s !! i); [|done]. cbn in Ha. by injection Ha as <-.
Qed.

(** ** Room *)

(** What is queued fits the limit, except for the last buffer. *)
Definition roomy (biggest : Z) (q : queue) : Prop :=
  q.(buf_inqueue) ≤ q.(m_max_buf) + biggest ∧
  (∀ l b, q.(buf_waiting_line) = l ++ [b] → Buffer.is_marker b = false →
     q.(buf_inqueue) - Buffer.size b ≤ q.(m_max_buf)) ∧
  (∀ b, b ∈ q.(blocked) → Buffer.is_marker b = false ∧ Buffer.size b ≤ biggest ∧ Buffer.size b ≤ MAX_RW_COUNT) ∧
  ∀ b, b ∈ q.(buf_waiting_line) → Buffer.size b ≤ MAX_RW_COUNT.

Lemma size_pos b : 0 ≤ Buffer.size b.
Proof. apply size_nonneg. Qed.

Lemma push_roomy biggest b q : roomy biggest q → q.(buf_inqueue) ≤ q.(m_max_buf) → Buffer.size b ≤ biggest →
  Buffer.size b ≤ MAX_RW_COUNT → roomy biggest (ClientBufferQueue.push b q).
Proof.
  intros (_ & Hl & Hb & Hline) Hin Hs Hrw. split_and!; cbn; [lia| |done|].
  - intros l b' [_ <-]%app_inj_tail _. lia.
  - intros b' [Hb'| ->%list_elem_of_singleton]%elem_of_app; [by apply Hline|done].
Qed.
(** Two buffers of the line merge when together they are small: their sum does not wrap. *)
Lemma mergeable_small last_buf b : Buffer.size last_buf ≤ MAX_RW_COUNT → Buffer.size b ≤ MAX_RW_COUNT →
  ClientBufferQueue.mergeable last_buf b = true →
  last_buf.(Buffer.path) = b.(Buffer.path) ∧ Buffer.size last_buf + Buffer.size b < MAX_MERGE_SIZE.
Proof.
  intros Hl Hb [[Hp%String.eqb_eq Hs%Z.ltb_lt]%andb_prop _]%andb_prop. split; [done|].
  pose proof (size_pos last_buf). pose proof (size_pos b). rewrite to_u32_id in Hs; [done|].
  unfold in_u32, MAX_RW_COUNT in *. lia.
Qed.
Lemma merge_roomy biggest b q line : roomy biggest q → MAX_MERGE_SIZE - 1 ≤ biggest → Buffer.size b ≤ MAX_RW_COUNT →
  ClientBufferQueue.merge_last b q.(buf_waiting_line) = Some line → Buffer.is_marker b = false ∨ b = Buffer.fake →
  roomy biggest (Queue line q.(blocked) q.(batch) q.(idle_list) q.(idle_worker_num) q.(buf_onlink)
    (q.(buf_inqueue) + Buffer.size b) q.(channel_loads) q.(m_max_buf)).
Proof.
  intros (Hin & Hl & Hb & Hall) Hbig Hrw (l & last_buf & Hline & -> & Hm)%merge_last_spec Hmk.
  apply mergeable_small in Hm as [Hpath Hsz]; [|apply Hall; rewrite Hline; apply elem_of_app; right; by left|done].
  assert (Hsame : Buffer.is_marker last_buf = Buffer.is_marker b) by (unfold Buffer.is_marker; by rewrite Hpath).
  assert (Hall' : ∀ b', b' ∈ l ++ [Buffer.append (Buffer.buf b) last_buf] → Buffer.size b' ≤ MAX_RW_COUNT).
  { intros b' [Hb'| ->%list_elem_of_singleton]%elem_of_app; [apply Hall; rewrite Hline; apply elem_of_app; by left|].
    rewrite size_append. fold (Buffer.size b). unfold MAX_MERGE_SIZE, MAX_RW_COUNT in *. lia. }
  destruct Hmk as [Hmk| ->].
  - rewrite Hmk in Hsame. specialize (Hl _ _ Hline Hsame). split_and!; cbn; [lia| |done|done].
    intros l' b' [_ <-]%app_inj_tail _. rewrite size_append. fold (Buffer.size b). lia.
  - split_and!; cbn; [change (Buffer.size Buffer.fake) with 0; lia| |done|done]. intros l' b' [_ <-]%app_inj_tail Hmk'. exfalso.
    unfold Buffer.is_marker in *. cbn in Hmk', Hsame. congruence.
Qed.
Lemma queue_buffer_roomy biggest b q : roomy biggest q → MAX_MERGE_SIZE - 1 ≤ biggest → Buffer.size b ≤ MAX_RW_COUNT →
  Buffer.is_marker b = false → Buffer.size b ≤ biggest → roomy biggest (ClientBufferQueue.queue_buffer b true q).
Proof.
  intros Hq Hbig Hrw Hm Hs. unfold ClientBufferQueue.queue_buffer. destruct (ClientBufferQueue.merge_last _ _) as [line|] eqn:Hl.
  - eapply merge_roomy; eauto.
  - rewrite andb_true_r. destruct (Z.ltb_spec q.(m_max_buf) q.(buf_inqueue)).
    + destruct Hq as (Hin & Hln & Hb & Hall). split_and!; cbn; [done|done| |done].
      intros b' [Hb'| ->%list_elem_of_singleton]%elem_of_app; [by apply Hb|by split_and!].
    + by apply push_roomy.
Qed.
Lemma marker_roomy biggest q : roomy biggest q → MAX_MERGE_SIZE - 1 ≤ biggest →
  roomy biggest (ClientBufferQueue.block_on_last q).
Proof.
  intros Hq Hbig. unfold ClientBufferQueue.block_on_last. destruct (_ =? 0); [done|].
  assert (Hfake : Buffer.size Buffer.fake = 0) by done.
  unfold ClientBufferQueue.queue_buffer. destruct (ClientBufferQueue.merge_last _ _) as [line|] eqn:Hl.
  - eapply merge_roomy; eauto. by rewrite Hfake.
  - rewrite andb_false_r. destruct Hq as (Hin & Hln & Hb & Hall).
    split_and!; cbn; [rewrite Hfake; lia|intros l b [_ <-]%app_inj_tail Hm; done|done|].
    intros b [Hb'| ->%list_elem_of_singleton]%elem_of_app; [by apply Hall|by rewrite Hfake].
Qed.
Lemma less_roomy biggest q q' : roomy biggest q → q'.(buf_inqueue) ≤ q.(buf_inqueue) →
  q'.(m_max_buf) = q.(m_max_buf) → q'.(blocked) = q.(blocked) →
  q'.(buf_waiting_line) = q.(buf_waiting_line) ∨ q'.(buf_waiting_line) = [] → roomy biggest q'.
Proof.
  intros (Hin & Hl & Hb & Hall) Hle Hmax Hbl Hline. unfold roomy. rewrite Hmax, Hbl. split_and!; [lia| |done|].
  - intros l b Hq Hm. destruct Hline as [Hline|Hline]; rewrite Hline in Hq; [specialize (Hl l b Hq Hm); lia|by destruct l].
  - intros b. destruct Hline as [-> | ->]; [apply Hall|by intros ?%elem_of_nil].
Qed.

(** What the steps leave alone. *)
Lemma react_frame e s : (react e s).(world) = s.(world) ∧ (react e s).(sys_queue).(m_max_buf) = s.(sys_queue).(m_max_buf).
Proof.
  destruct e as [w|w b|w]; cbn; [done| |].
  - destruct (workers s !! w) as [[]|]; try done. unfold process. destruct (Buffer.is_marker b); [done|].
    unfold ClientBufferQueue.get_spare_channel. by destruct (Fuse.get_operator _ _ _).
  - by destruct (workers s !! w) as [[]|].
Qed.
Lemma queue_buffer_limit b block q : (ClientBufferQueue.queue_buffer b block q).(m_max_buf) = q.(m_max_buf).
Proof. unfold ClientBufferQueue.queue_buffer. destruct (ClientBufferQueue.merge_last _ _); [done|]. by destruct (_ && _). Qed.
Lemma act_limit a s s' : act a s = Some s' → s'.(sys_queue).(m_max_buf) = s.(sys_queue).(m_max_buf).
Proof.
  destruct a as [b| |i| | |i|i|i]; cbn; intros Ha.
  - destruct (_ <=? _); [|done]. injection Ha as <-. apply queue_buffer_limit.
  - injection Ha as <-. cbn. unfold ClientBufferQueue.block_on_last. destruct (_ =? 0); [done|]. apply queue_buffer_limit.
  - unfold ClientBufferQueue.wake in Ha. destruct (_ !! i); cbn in Ha; [|done]. destruct (_ <? _); [done|].
    cbn in Ha. by injection Ha as <-.
  - unfold ClientBufferQueue._dispatch in Ha. destruct (batch _); [|done]. destruct (buf_waiting_line _); [done|].
    by injection Ha as <-.
  - unfold ClientBufferQueue.hand_out in Ha. destruct (batch _); [done|]. destruct (idle_list _); [done|]. by injection Ha as <-.
  - destruct (schedulers s !! i) as [[|e l]|]; [done| |done]. injection Ha as <-. by rewrite (proj2 (react_frame _ _)).
  - destruct (calls s !! i); [|done]. cbn in Ha. by injection Ha as <-.
  - destruct (executed s !! i); [|done]. cbn in Ha. by injection Ha as <-.
Qed.
(** The world changes by the execution of a call. *)
Lemma act_world a s s' : (∀ i k, s.(calls) !! i = Some k → False) → act a s = Some s' → s'.(world) = s.(world).
Proof.
  intros Hno. destruct a as [b| |i| | |i|i|i]; cbn; intros Ha.
  - destruct (_ <=? _); [|done]. by injection Ha as <-.
  - by injection Ha as <-.
  - destruct (ClientBufferQueue.wake _ _); [|done]. cbn in Ha. by injection Ha as <-.
  - destruct (ClientBufferQueue._dispatch _); [|done]. cbn in Ha. by injection Ha as <-.
  - destruct (ClientBufferQueue.hand_out _) as [[[? ?] ?]|]; [|done]. cbn in Ha. by injection Ha as <-.
  - destruct (schedulers s !! i) as [[|e l]|]; [done| |done]. injection Ha as <-. by rewrite (proj1 (react_frame _ _)).
  - destruct (calls s !! i) as [k|] eqn:Hk; [|done]. by destruct (Hno i k).
  - destruct (executed s !! i); [|done]. cbn in Ha. by injection Ha as <-.
Qed.

(** What a program may hand over. *)
Definition modest (biggest : Z) (a : action) : Prop :=
  match a with QueueBuffer b => Buffer.is_marker b = false ∧ Buffer.size b ≤ biggest | _ => True end.
Lemma react_roomy biggest e s : roomy biggest s.(sys_queue) → roomy biggest (react e s).(sys_queue).
Proof.
  intros Hq. destruct e as [w|w b|w]; cbn; [by eapply less_roomy; eauto| |].
  - destruct (workers s !! w) as [[]|]; try done. unfold process. destruct (Buffer.is_marker b); [done|].
    unfold ClientBufferQueue.get_spare_channel. destruct (Fuse.get_operator _ _ _). cbn. by eapply less_roomy; eauto.
  - destruct (workers s !! w) as [[]|]; try done. cbn. pose proof (size_pos cur_buf).
    eapply less_roomy; eauto. cbn. lia.
Qed.
Lemma act_roomy biggest a s s' : MAX_MERGE_SIZE - 1 ≤ biggest → modest biggest a →
  roomy biggest s.(sys_queue) → act a s = Some s' → roomy biggest s'.(sys_queue).
Proof.
  intros Hbig Hmod Hq. destruct a as [b| |i| | |i|i|i]; cbn; intros Ha.
  - destruct Hmod. destruct (Z.leb_spec (Buffer.size b) MAX_RW_COUNT); [|done]. injection Ha as <-. by apply queue_buffer_roomy.
  - injection Ha as <-. by apply marker_roomy.
  - unfold ClientBufferQueue.wake in Ha. destruct (_ !! i) as [b|] eqn:Hi; cbn in Ha; [|done].
    destruct (Z.ltb_spec (m_max_buf (sys_queue s)) (buf_inqueue (sys_queue s))); [done|]. cbn in Ha. injection Ha as <-.
    destruct Hq as (Hin & Hl & Hb & Hall). destruct (Hb b) as (Hm & Hs & Hrw); [by eapply list_elem_of_lookup_2|].
    apply push_roomy; cbn; [|done|done|done]. split_and!; [done|done| |done]. cbn. intros b' Hb'. apply Hb.
    rewrite (delete_Permutation _ _ _ Hi). by right.
  - unfold ClientBufferQueue._dispatch in Ha. destruct (batch _); [|done]. destruct (buf_waiting_line _); [done|].
    injection Ha as <-. eapply less_roomy; eauto. done.
  - unfold ClientBufferQueue.hand_out in Ha. destruct (batch _); [done|]. destruct (idle_list _); [done|]. injection Ha as <-.
    cbn. by eapply less_roomy; eauto.
  - destruct (schedulers s !! i) as [[|e l]|]; [done| |done]. injection Ha as <-. by apply react_roomy.
  - destruct (calls s !! i); [|done]. cbn in Ha. by injection Ha as <-.
  - destruct (executed s !! i); [|done]. cbn in Ha. by injection Ha as <-.
Qed.

(** ** Coming to rest *)

(** The steps that are not a call of the program. *)
Definition internal (a : action) : bool := match a with QueueBuffer _ | BlockOnLast => false | _ => true end.
Definition at_rest s : Prop :=
  s.(sys_queue).(blocked) = [] ∧ s.(sys_queue).(buf_waiting_line) = [] ∧ s.(sys_queue).(batch) = [] ∧
  mjoin s.(schedulers) = [] ∧ s.(calls) = [] ∧ s.(executed) = [].

(** How many steps everything that is under way can still take. *)
Definition event_cost (e : event) : nat := match e with BufferQueued _ _ => 4 | _ => 1 end.
Definition effort s : nat :=
  7 * length s.(sys_queue).(blocked) + 6 * length s.(sys_queue).(buf_waiting_line) + 5 * length s.(sys_queue).(batch)
  + sum_list_with event_cost (mjoin s.(schedulers)) + 3 * length s.(calls) + 2 * length s.(executed).
#[local] Arguments effort : simpl never.

Lemma effort_event w e s : (effort (queue_event w e s) ≤ event_cost e + effort s)%nat.
Proof.
  unfold effort. cbn [queue_event set_schedulers sys_queue schedulers calls executed].
  destruct (decide (w / per_scheduler s < length (schedulers s)))%nat as [Hw|Hw].
  - rewrite join_post by done. cbn [sum_list_with]. lia.
  - assert (alter (λ l, l ++ [e]) (w / per_scheduler s)%nat (schedulers s) = schedulers s) as ->; [|lia].
    apply list_eq. intros i. destruct (decide (i = (w / per_scheduler s)%nat)) as [->|Hne].
    + rewrite list_lookup_alter_eq. by rewrite lookup_ge_None_2 by lia.
    + by rewrite list_lookup_alter_ne by congruence.
Qed.
Lemma effort_take i e l s : s.(schedulers) !! i = Some (e :: l) →
  effort s = (event_cost e + effort (set_schedulers (<[i := l]> s.(schedulers)) s))%nat.
Proof. intros Hi. unfold effort. cbn. rewrite join_take by done. cbn [sum_list_with]. lia. Qed.
Lemma react_effort e s : (effort (react e s) < event_cost e + effort s)%nat.
Proof.
  destruct e as [w|w b|w]; cbn.
  - change (effort (wait w s)) with (effort s). lia.
  - destruct (workers s !! w) as [[]|]; try lia. unfold process. destruct (Buffer.is_marker b).
    + pose proof (effort_event w (BufferComplete w) (set_worker w (Processing b) s)) as He.
      change (effort (set_worker w (Processing b) s)) with (effort s) in He. cbn in He. lia.
    + unfold ClientBufferQueue.get_spare_channel. destruct (Fuse.get_operator _ _ _).
      unfold effort. cbn. rewrite length_app. cbn. lia.
  - destruct (workers s !! w) as [[]|]; try lia.
    match goal with |- (effort (wait w ?s') < _)%nat => change (effort (wait w s')) with (effort s) end. lia.
Qed.
Lemma length_delete_lt {A} i (x : A) (l : list A) : l !! i = Some x → S (length (delete i l)) = length l.
Proof. intros Hi. by rewrite (delete_Permutation l i x Hi) at 2. Qed.

Lemma act_effort a s s' : internal a = true → act a s = Some s' → (effort s' < effort s)%nat.
Proof.
  intros Hi. destruct a as [b| |i| | |i|i|i]; try done; cbn; intros Ha.
  - unfold ClientBufferQueue.wake in Ha. destruct (_ !! i) as [b|] eqn:Hb; cbn in Ha; [|done]. destruct (_ <? _); [done|].
    cbn in Ha. injection Ha as <-. apply length_delete_lt in Hb. unfold effort. cbn. rewrite length_app. cbn. lia.
  - unfold ClientBufferQueue._dispatch in Ha. destruct (batch _) eqn:Hb; [|done]. destruct (buf_waiting_line _) eqn:Hl; [done|].
    injection Ha as <-. unfold effort. cbn. rewrite Hb, Hl. cbn. lia.
  - unfold ClientBufferQueue.hand_out in Ha. destruct (batch _) eqn:Hb; [done|]. destruct (idle_list _); [done|]. injection Ha as <-.
    eapply Nat.le_lt_trans; [apply effort_event|]. unfold effort. cbn. rewrite Hb. cbn. lia.
  - destruct (schedulers s !! i) as [[|e l]|] eqn:He; [done| |done]. injection Ha as <-. rewrite (effort_take i e l s He).
    apply react_effort.
  - destruct (calls s !! i) eqn:Hc; [|done]. cbn in Ha. injection Ha as <-. apply length_delete_lt in Hc.
    unfold effort. cbn. rewrite length_app. cbn. lia.
  - destruct (executed s !! i) eqn:Hc; [|done]. cbn in Ha. injection Ha as <-. apply length_delete_lt in Hc.
    eapply Nat.le_lt_trans; [apply effort_event|]. unfold effort. cbn. lia.
Qed.

(** At rest every worker waits and the counters are back at zero. *)
Lemma idle_all s : wired s → mjoin s.(schedulers) = [] → s.(calls) = [] → s.(executed) = [] →
  length s.(sys_queue).(idle_list) = length s.(workers) ∧ dispatched s = [].
Proof.
  intros [Hp _] Hj Hc He.
  assert (Hps : places s = (λ w, (w, idle)) <$> s.(sys_queue).(idle_list)) by (unfold places; rewrite Hj, Hc, He; by rewrite !app_nil_r).
  rewrite Hps in Hp. split.
  - destruct Hp as [Hw _]. apply Permutation_length in Hw. by rewrite !length_fmap, length_seq in Hw.
  - unfold dispatched. rewrite Hj. cbn. apply elem_of_nil_inv. intros b Hb. apply list_elem_of_bind in Hb as (st & Hb & Hst).
    apply list_elem_of_lookup in Hst as [w Hst]. destruct (placed_all _ _ _ _ Hp Hst) as (r & Hin & Hfit).
    apply list_elem_of_fmap in Hin as (w' & [= -> ->] & _). cbn in Hfit. subst st. by apply elem_of_nil in Hb.
Qed.
Lemma progress s : wired s → counted s → s.(workers) ≠ [] → 0 ≤ s.(sys_queue).(m_max_buf) →
  (∀ a, internal a = true → act a s = None) → at_rest s.
Proof.
  intros Hw [Hin _] Hne Hmax Hstuck.
  assert (Hj : mjoin s.(schedulers) = []).
  { apply join_nil. intros i e l Hi. specialize (Hstuck (React i) eq_refl). cbn in Hstuck. by rewrite Hi in Hstuck. }
  assert (Hc : s.(calls) = []).
  { destruct (calls s) as [|k ks] eqn:Hk; [done|]. specialize (Hstuck (Execute 0) eq_refl). cbn in Hstuck. by rewrite Hk in Hstuck. }
  assert (He : s.(executed) = []).
  { destruct (executed s) as [|k ks] eqn:Hk; [done|]. specialize (Hstuck (Answer 0) eq_refl). cbn in Hstuck. by rewrite Hk in Hstuck. }
  destruct (idle_all s Hw Hj Hc He) as [Hidle Hd].
  assert (Hb : s.(sys_queue).(batch) = []).
  { destruct (batch (sys_queue s)) as [|b t] eqn:Hb; [done|]. specialize (Hstuck HandOut eq_refl). cbn in Hstuck.
    unfold ClientBufferQueue.hand_out in Hstuck. rewrite Hb in Hstuck. destruct (idle_list (sys_queue s)); [|done].
    by destruct s.(workers). }
  assert (Hl : s.(sys_queue).(buf_waiting_line) = []).
  { destruct (buf_waiting_line (sys_queue s)) as [|b t] eqn:Hl; [done|]. specialize (Hstuck Dispatch eq_refl). cbn in Hstuck.
    unfold ClientBufferQueue._dispatch in Hstuck. by rewrite Hb, Hl in Hstuck. }
  rewrite Hl, Hb, Hd in Hin. change (buf_inqueue (sys_queue s) = 0) in Hin.
  split_and!; try done. destruct (blocked (sys_queue s)) as [|b t] eqn:Hbl; [done|].
  specialize (Hstuck (Wake 0) eq_refl). cbn in Hstuck. unfold ClientBufferQueue.wake in Hstuck. rewrite Hbl, Hin in Hstuck.
  cbn in Hstuck. destruct (Z.ltb_spec (m_max_buf (sys_queue s)) 0); [lia|done].
Qed.

(** ** Runs from the start *)
Lemma run_invariant (I : system → Prop) l s s' :
  (∀ a s s', I s → act a s = Some s' → I s') → I s → run l s = Some s' → I s'.
Proof.
  intros Hstep. revert s. induction l as [|a l IH]; intros s Hs Hr; cbn in Hr; [by injection Hr as <-|].
  destruct (act a s) as [s1|] eqn:Ha; [|done]. cbn in Hr. apply (IH s1); [|done]. by eapply Hstep.
Qed.

Section start.
Variables (max_queue onlink multi_channel : Z) (c : Fuse.client) (w0 : W).
Notation s0 := (start max_queue onlink multi_channel c w0).

Notation per := (Z.to_nat (Z.quot onlink (Z.of_nat SCHER_NUM))).
Lemma start_places : places s0 = (λ w, (w, new)) <$> seq 0 (SCHER_NUM * per).
Proof.
  unfold places, start. cbn [sys_queue idle_list schedulers calls executed fmap list_fmap].
  by rewrite join_seq, !app_nil_r, app_nil_l, <-list_fmap_compose.
Qed.
Lemma start_wired : wired s0.
Proof.
  unfold wired. rewrite start_places. cbn [start workers per_scheduler schedulers]. split.
  - by apply placed_start.
  - rewrite length_replicate, length_fmap, length_seq. intros w Hw. apply Nat.Div0.div_lt_upper_bound. lia.
Qed.
Lemma start_dispatched : dispatched s0 = [].
Proof.
  unfold dispatched, start. cbn [schedulers workers]. rewrite join_seq. set (per := Z.to_nat (Z.quot _ _)).
  assert (Hp : ∀ l, (Initiate <$> l) ≫= posted = []) by (induction l; done). rewrite Hp.
  by assert (∀ n, replicate n New ≫= held = []) as -> by (induction n; done).
Qed.
Lemma start_counted : counted s0.
Proof. split; rewrite start_dispatched; done. Qed.
Lemma start_loaded : 1 ≤ multi_channel → loaded s0.
Proof.
  intros Hm. unfold loaded, loads, start. cbn [sys_queue channel_loads workers in_process]. split_and!.
  - destruct (Z.to_nat multi_channel) eqn:Hn; [lia|done].
  - assert (∀ n, sum (replicate n 0) = 0) as -> by (unfold sum; induction n; cbn; lia). unfold in_process. lia.
  - intros i n _ [-> _]%lookup_replicate. lia.
Qed.

(** C26: whatever the interleaving, the counters of the queue tell the truth: the
    bytes counted as queued are those of the buffers that wait in the line, are
    being handed out, or are with a worker; the number on their way is that of the
    buffers with a worker; and every worker is in exactly one place, with the state
    it needs there. *)
Theorem accounts_balance l s : run l s0 = Some s → counted s ∧ placed (places s) s.(workers).
Proof.
  intros Hr. enough (wired s ∧ counted s) as [[? _] ?] by done. revert Hr.
  apply (run_invariant (λ s, wired s ∧ counted s)).
  - intros a s1 s2 [Hw Hc] Ha. split; [by eapply act_wired|by eapply act_counted].
  - split; [apply start_wired|apply start_counted].
Qed.

Lemma sent_on_loads ch l s1 s : (1 ≤ ch)%nat → wired s1 → loaded s1 → run l s1 = Some s →
  loaded s ∧ default 0 (loads s !! ch) = default 0 (loads s1 !! ch) + sent_on ch l s1 ∧ sizes s = sizes s1.
Proof.
  intros Hch. revert s1. induction l as [|a l IH]; intros s1 Hw Hl Hr; cbn in Hr |- *.
  { injection Hr as <-. split_and!; [done|lia|done]. }
  destruct (act a s1) as [s2|] eqn:Ha; [|done]. cbn in Hr. destruct (act_loaded a s1 s2 Hw Hl Ha) as [Hl2 Hd].
  destruct (IH s2 (act_wired _ _ _ Hw Ha) Hl2 Hr) as (Hls & Hd2 & Hz). rewrite Hd2, Hd by done.
  split_and!; [done|lia|]. rewrite Hz. by eapply act_sizes.
Qed.

(** A client with several channels uses one: the workers give every channel back
    to the first, so that each other channel carries, over the life of the client,
    no more writes than fill all channels at once. *)
Theorem channels_starve l s ch : 1 ≤ multi_channel → (1 ≤ ch)%nat → run l s0 = Some s →
  sent_on ch l s0 = 0 ∨ multi_channel * (sent_on ch l s0 - 1) + 2 ≤ onlink.
Proof.
  intros Hm Hch Hr.
  destruct (sent_on_loads ch l _ _ Hch start_wired (start_loaded Hm) Hr) as ((_ & _ & Hall) & Hd & Hz).
  assert (Hz1 : length (loads s) = length (loads s0)) by exact (f_equal fst Hz).
  assert (Hz2 : length s.(workers) = length (workers s0)) by exact (f_equal snd Hz). rewrite Hz1, Hz2 in Hall.
  assert (Hn : length (loads s0) = Z.to_nat multi_channel) by apply length_replicate.
  assert (Hw : Z.of_nat (length (workers s0)) ≤ Z.max 0 onlink).
  { cbn [workers start]. rewrite length_replicate. pose proof (Z.quot_rem' onlink 8). pose proof (Z.rem_bound_pos).
    unfold SCHER_NUM. destruct (Z.le_gt_cases 0 onlink).
    - pose proof (Z.rem_bound_pos onlink 8 ltac:(lia) ltac:(lia)). cbn [Z.of_nat Pos.of_succ_nat Pos.succ]. lia.
    - pose proof (Z.quot_le_upper_bound onlink 8 0 ltac:(lia) ltac:(lia)). cbn [Z.of_nat Pos.of_succ_nat Pos.succ]. lia. }
  assert (H0 : default 0 (loads s0 !! ch) = 0).
  { cbn. destruct (replicate _ 0 !! ch) eqn:Hx; [|done]. by apply lookup_replicate in Hx as [-> _]. }
  rewrite H0 in Hd. destruct (loads s !! ch) as [n|] eqn:Hlk; cbn in Hd; [|by left].
  destruct (Hall ch n Hch Hlk) as [Hpos [Hn0|Hb]]; [left; lia|]. rewrite Hn, Z2Nat.id in Hb by lia.
  rewrite Z.add_0_l in Hd. subst n.
  assert (sent_on ch l s0 = 0 ∨ 0 ≤ multi_channel * (sent_on ch l s0 - 1)) by nia. lia.
Qed.

(** C27: the queue is bounded: although a buffer that merges does not wait for room,
    what is queued never exceeds the configured limit by more than one buffer, the
    biggest a program writes or the largest a merge makes. *)
Theorem queue_bounded biggest l s : 0 ≤ max_queue → MAX_MERGE_SIZE - 1 ≤ biggest → Forall (modest biggest) l →
  run l s0 = Some s → s.(sys_queue).(buf_inqueue) ≤ max_queue + biggest.
Proof.
  intros Hmax Hbig Hl Hr.
  enough (roomy biggest s.(sys_queue) ∧ s.(sys_queue).(m_max_buf) = max_queue) as [(Hin & _) <-] by done.
  assert (H0 : roomy biggest (sys_queue s0) ∧ m_max_buf (sys_queue s0) = max_queue).
  { split; [|done]. split_and!; cbn; [unfold MAX_MERGE_SIZE in *; lia|by intros [|]|by intros b ?%elem_of_nil..]. }
  revert Hr H0. generalize s0. induction Hl as [|a l Ha Hl IH]; intros s1 Hr H1; cbn in Hr; [by injection Hr as <-|].
  destruct (act a s1) as [s2|] eqn:Hact; [|done]. cbn in Hr. apply (IH s2); [done|]. destruct H1 as [H1 H2].
  split; [by eapply act_roomy|]. rewrite <-H2. by eapply act_limit.
Qed.

(** C9: where the configuration gives the queue a worker on each scheduler, that is, at
    least eight, and a limit that is not negative, every schedule empties the queue:
    from any state a client can reach, a run in which the program hands nothing over
    is finite, with a bound that is known, and where nothing more can happen, every
    buffer has been executed and answered, nobody waits, and both counters are zero.
    (With fewer workers nothing is ever sent: [few_workers_never_send].) *)
Theorem queue_comes_to_rest l s : 8 ≤ onlink → 0 ≤ max_queue → run l s0 = Some s →
  ∀ l' s', forallb internal l' = true → run l' s = Some s' →
    (length l' ≤ effort s)%nat ∧
    ((∀ a, internal a = true → act a s' = None) →
      at_rest s' ∧ s'.(sys_queue).(buf_inqueue) = 0 ∧ s'.(sys_queue).(buf_onlink) = 0).
Proof.
  intros Hon Hmax Hr l' s' Hl' Hr'. split.
  - clear Hr. revert s Hl' Hr'. induction l' as [|a l' IH]; intros s Hl' Hr'; cbn in *; [lia|].
    apply andb_prop in Hl' as [Ha Hl']. destruct (act a s) as [s1|] eqn:Hact; [|done]. cbn in Hr'.
    pose proof (act_effort a s s1 Ha Hact). specialize (IH s1 Hl' Hr'). lia.
  - pose (I := λ s : system, (wired s ∧ counted s) ∧ sizes s = sizes s0 ∧ m_max_buf (sys_queue s) = max_queue).
    assert (Hstep : ∀ a s1 s2, I s1 → act a s1 = Some s2 → I s2).
    { intros a s1 s2 ([Hw Hc] & Hz & Hm) Ha. split_and!; [by eapply act_wired|by eapply act_counted| |].
      - rewrite <-Hz. by eapply act_sizes.
      - rewrite <-Hm. by eapply act_limit. }
    assert (Hs : I s') by (eapply run_invariant, Hr'; [done|]; eapply run_invariant, Hr; [done|]; split_and!;
      [apply start_wired|apply start_counted|done|done]).
    intros Hstuck. destruct Hs as ([Hw Hc] & Hz & Hm). assert (Hrest : at_rest s').
    { apply progress; [done|done| |lia|done]. intros Hnil. apply (f_equal snd) in Hz. cbn [snd sizes] in Hz.
      rewrite Hnil in Hz. cbn [workers start] in Hz. rewrite length_replicate in Hz.
      assert (1 ≤ Z.quot onlink 8) by (apply Z.quot_le_lower_bound; lia). change (Z.of_nat SCHER_NUM) with 8 in Hz.
      change (length (@nil worker_state)) with 0%nat in Hz. unfold SCHER_NUM in Hz. lia. }
    split; [done|]. destruct Hrest as (_ & Hl & Hb & Hj & Hca & He). destruct (idle_all s' Hw Hj Hca He) as [_ Hd].
    destruct Hc as [Hin Hon']. by rewrite Hin, Hon', Hl, Hb, Hd.
Qed.

(** With fewer than eight workers in the configuration there is none at all, and
    nothing that is queued is ever sent. *)
Theorem few_workers_never_send l s : onlink < 8 → run l s0 = Some s → s.(calls) = [] ∧ s.(world) = w0.
Proof.
  intros Hon Hr. assert (Hper : per = 0%nat).
  { change (Z.of_nat SCHER_NUM) with 8. destruct (Z.le_gt_cases 0 onlink).
    - by rewrite Z.quot_small by lia.
    - pose proof (Z.quot_le_upper_bound onlink 8 0 ltac:(lia) ltac:(lia)). lia. }
  enough (wired s ∧ length s.(workers) = 0%nat ∧ s.(world) = w0) as ((Hp & _) & Hn & Hw).
  { split; [|done]. destruct s.(calls) as [|k ks] eqn:Hc; [done|]. destruct Hp as [_ Hf].
    destruct (Hf k.(call_by) (busy k.(call_buf))) as (st & Hst & _).
    - unfold places. rewrite Hc, !elem_of_app. do 2 right. left. by left.
    - apply lookup_lt_Some in Hst. lia. }
  revert Hr. apply (run_invariant (λ s, wired s ∧ length s.(workers) = 0%nat ∧ s.(world) = w0)).
  - intros a s1 s2 (Hw & Hn & Hworld) Ha. assert (Hw2 := act_wired _ _ _ Hw Ha). split; [done|].
    pose proof (act_sizes _ _ _ Ha) as Hz. split; [by rewrite (f_equal snd Hz : length (workers s2) = _)|].
    rewrite <-Hworld. revert Ha. apply act_world. intros i k Hk.
    destruct Hw as [[_ Hf] _]. destruct (Hf k.(call_by) (busy k.(call_buf))) as (st & Hst & _).
    + unfold places. rewrite !elem_of_app. do 2 right. left.
      apply (list_elem_of_fmap_2 (λ c, (call_by c, busy (call_buf c)))). by eapply list_elem_of_lookup_2.
    + apply lookup_lt_Some in Hst. lia.
  - split_and!; [apply start_wired| |done]. cbn [workers start]. rewrite length_replicate, Hper. done.
Qed.
End start.
End system.
Arguments system : clear implicits.
