(* ===== verification/ReadAhead.v ===== *)
(** * The read-ahead of the client (client/readahead.cc)

    Two buffers of sectors of 256 KiB that are filled by asynchronous reads. The
    state is [ClientReadAhead.t]; an operation is a computation on it. The callback
    of a read runs on the thread of its channel, in three pieces with the locks
    released in between: [take], [store] and [next]; [callback] is the three at
    once. It may run before [SubmitAsync] has returned and its future is filed, which
    the parameter [early] decides. What the other threads do while [wait_sector] waits
    is the parameter [others]. *)
From S2P Require Import Prelude CxxString Json Records Datastore Instances Lru FdManager Op Files Pages Replica Cluster StatCache ClientZone Fuse.

Definition SECTOR : Z := 2 ^ 18.
(** [offset & 0x3ffff] *)
Definition in_sector (offset : Z) : Z := Z.land offset (SECTOR - 1).

Module ClientReadAhead.

(** A read that was submitted: the node and the file it goes to, the sector, and
    what its callback has captured. *)
Record fetch : Type := Fetch {
  f_iop : IOProxyNode.t;
  f_file : string;
  f_sec : Z;
  f_buf : bool;
  f_epoch : Z;
}.
(** [OpRequest request]: one sector. *)
Definition request_of (f : fetch) : OpRequest.t :=
  Fuse.with_param (Fuse.io_param (Z.shiftl f.(f_sec) 18) SECTOR) (Fuse.request OpType.read f.(f_file)).

(** [BufArea]: [buf] is the memory [buf] points to, of which [capacity] bytes are
    allocated. The promises and futures of the waiting readers are the sets of
    their sectors. *)
Record area : Type := Area {
  sec_bg : Z;
  sec_bufferd : gmap Z Z;
  max_sec : Z;
  buf : Z → ascii;
  capacity : Z;
  epoch : Z;
  ft_res_tab : gmap Z fetch;
  ft_waiting_tab : gset Z;
  prom_waiting_tab : gset Z;
  file : option IOProxyNode.t * string;
  onlink : Z;
  cur_sec_nr : Z;
  cursor : Z;
}.
(** [malloc] leaves what was there. *)
Definition area_init (junk : Z → ascii) : area := Area 0 ∅ 0 junk 0 0 ∅ ∅ ∅ (None, "") 0 0 0.

Record t : Type := mk {
  last_req_filename : string;
  last_req_sec : Z;
  last_req_hit_ct : Z;
  hit_threshold : Z;
  max_onlink : Z;
  buf0 : area;
  buf1 : area;
  (** the reads whose callbacks have not run *)
  outstanding : list fetch;
}.
(** The constructor and [start]. *)
Definition start (seq_threshold onlink : Z) (junk : Z → ascii) : t :=
  mk "" 0 0 (to_u32 seq_threshold) (to_u32 onlink) (area_init junk) (area_init junk) [].

(** [bufs[i]], with [true] for 1. *)
Definition get (i : bool) (r : t) : area := if i then r.(buf1) else r.(buf0).
Definition set (i : bool) (a : area) (r : t) : t :=
  mk r.(last_req_filename) r.(last_req_sec) r.(last_req_hit_ct) r.(hit_threshold) r.(max_onlink)
    (if i then r.(buf0) else a) (if i then a else r.(buf1)) r.(outstanding).
Definition submit (f : fetch) (r : t) : t :=
  mk r.(last_req_filename) r.(last_req_sec) r.(last_req_hit_ct) r.(hit_threshold) r.(max_onlink)
    r.(buf0) r.(buf1) (r.(outstanding) ++ [f]).
Definition set_requests (name : string) (sec hits : Z) (r : t) : t :=
  mk name sec hits r.(hit_threshold) r.(max_onlink) r.(buf0) r.(buf1) r.(outstanding).

Definition lookup_sec (a : area) (filename : string) (sec_nr : Z) : ra_status :=
  if negb (String.eqb filename a.(file).2) then NOT_FOUND
  else if (sec_nr <? a.(sec_bg)) || (to_u64 (a.(sec_bg) + a.(max_sec)) <=? sec_nr) then NOT_FOUND
  else match a.(sec_bufferd) !! sec_nr with Some _ => IN_BUFFER | None => ON_LINK end.
(** [sector_addr], from the start of the buffer. *)
Definition sector_addr (a : area) (sec_nr : Z) : Z := (sec_nr - a.(sec_bg)) * SECTOR.

Definition set_buf (m : Z → ascii) (a : area) : area :=
  Area a.(sec_bg) a.(sec_bufferd) a.(max_sec) m a.(capacity) a.(epoch) a.(ft_res_tab) a.(ft_waiting_tab)
    a.(prom_waiting_tab) a.(file) a.(onlink) a.(cur_sec_nr) a.(cursor).
Definition set_cursor (c : Z) (a : area) : area :=
  Area a.(sec_bg) a.(sec_bufferd) a.(max_sec) a.(buf) a.(capacity) a.(epoch) a.(ft_res_tab) a.(ft_waiting_tab)
    a.(prom_waiting_tab) a.(file) a.(onlink) a.(cur_sec_nr) c.
Definition set_link (ft : gmap Z fetch) (onlink cur_sec_nr : Z) (a : area) : area :=
  Area a.(sec_bg) a.(sec_bufferd) a.(max_sec) a.(buf) a.(capacity) a.(epoch) ft a.(ft_waiting_tab)
    a.(prom_waiting_tab) a.(file) onlink cur_sec_nr a.(cursor).
Definition set_waiting (ft prom : gset Z) (a : area) : area :=
  Area a.(sec_bg) a.(sec_bufferd) a.(max_sec) a.(buf) a.(capacity) a.(epoch) a.(ft_res_tab) ft
    prom a.(file) a.(onlink) a.(cur_sec_nr) a.(cursor).
Definition set_bufferd (m : gmap Z Z) (a : area) : area :=
  Area a.(sec_bg) m a.(max_sec) a.(buf) a.(capacity) a.(epoch) a.(ft_res_tab) a.(ft_waiting_tab)
    a.(prom_waiting_tab) a.(file) a.(onlink) a.(cur_sec_nr) a.(cursor).

(** Access to the members from a computation. *)
Definition read_area (i : bool) : M t area := λ r, (Val (get i r), r).
Definition update_area (i : bool) (g : area → area) : M t () := λ r, (Val (), set i (g (get i r)) r).
Definition state : M t t := λ r, (Val r, r).
Definition modify (g : t → t) : M t () := λ r, (Val (), g r).

(** ** Submitting reads *)

(** The callback of a read up to the first release of the lock: the future of the
    sector, if the reply is not out of date. *)
Definition take (k : fetch) : M t (option fetch) :=
  a ← read_area k.(f_buf);
  if negb (a.(epoch) =? k.(f_epoch)) then mret None
  else
    _ ← update_area k.(f_buf) (set_link (delete k.(f_sec) a.(ft_res_tab)) (to_u64 (a.(onlink) - 1)) a.(cur_sec_nr));
    mret (a.(ft_res_tab) !! k.(f_sec)).

(** The loop of [fetch_sector_remote]; each turn is a sector further, so that
    [max_sec] turns are enough. [early] tells the reads whose callback runs before
    the future is filed: it finds no future and gives up. It cannot where the caller
    holds the lock of the buffer ([never_early]). *)
Definition never_early (f : fetch) : bool := false.
Fixpoint fetch_loop (early : fetch → bool) (fuel : nat) (i : bool) (iop : IOProxyNode.t) (filename : string) : M t () :=
  match fuel with
  | 0%nat => mret ()
  | S fuel =>
      a ← read_area i;
      r ← state;
      if (a.(onlink) <? r.(max_onlink)) && (a.(cur_sec_nr) <? to_u64 (a.(sec_bg) + a.(max_sec))) then
        let f := Fetch iop filename a.(cur_sec_nr) i a.(epoch) in
        _ ← update_area i (set_link a.(ft_res_tab) (to_u64 (a.(onlink) + 1)) (to_u64 (a.(cur_sec_nr) + 1)));
        _ ← modify (submit f);
        _ ← (if early f then _ ← take f; mret () else mret ());
        _ ← update_area i (λ b, set_link (<[a.(cur_sec_nr) := f]> b.(ft_res_tab)) b.(onlink) b.(cur_sec_nr) b);
        fetch_loop early fuel i iop filename
      else mret ()
  end.
Definition fetch_sector_remote (early : fetch → bool) (i : bool) : M t () :=
  a ← read_area i;
  iop ← deref a.(file).1;
  fetch_loop early (Z.to_nat a.(max_sec)) i iop a.(file).2.

(** A new task for a buffer. *)
Definition retask (iop : IOProxyNode.t) (filename : string) (bg sec_max epoch : Z) (a : area) : area :=
  Area bg ∅ sec_max a.(buf) (to_u32 (Z.shiftl sec_max 18)) epoch ∅ ∅ ∅ (Some iop, filename) 0 bg (to_i32 bg).
Definition set_task (iop : IOProxyNode.t) (filename : string) (i : bool) (bg sec_max ep : Z) : M t bool :=
  a ← read_area i;
  let unlimited := ep =? to_u64 (-1) in
  if negb unlimited && (ep <? a.(epoch)) then mret false
  else
    let ep := if unlimited then to_u64 (a.(epoch) + 1) else ep in
    let bound := to_u64 (a.(sec_bg) + a.(max_sec)) in
    let same := String.eqb filename a.(file).2 in
    if same && (bg <? bound) && (a.(sec_bg) <=? bg) then mret false
    else if same && (to_u64 (a.(cursor) + 1) <? bound) then
      _ ← (if a.(epoch) <? ep then update_area i (set_cursor (a.(cursor) + 1)) else mret ());
      mret false
    else
      _ ← update_area i (retask iop filename bg sec_max ep);
      _ ← fetch_sector_remote never_early i;
      mret true.

(** ** The callback of a read *)

(** The copy into the buffer, undefined outside of what is allocated, and the
    entry in the table. *)
Definition store (k : fetch) (reply : OpReply.t) : M t () :=
  a ← read_area k.(f_buf);
  let n := reply.(OpReply.err_code) in
  bytes ← bytes_of (OpReply.data reply) 0 n;
  let at_ := sector_addr a k.(f_sec) in
  if (0 <=? at_) && (at_ + n <=? a.(capacity)) then
    update_area k.(f_buf) (λ a, set_waiting a.(ft_waiting_tab) (a.(prom_waiting_tab) ∖ {[k.(f_sec)]})
      (set_bufferd (<[k.(f_sec) := n]> a.(sec_bufferd)) (set_buf (overwrite at_ bytes a.(buf)) a)))
  else undefined.
(** The reads that follow. *)
Definition next (early : fetch → bool) (k : fetch) (reply : OpReply.t) : M t () :=
  let i := k.(f_buf) in
  a ← read_area i;
  r ← state;
  if (0 <? reply.(OpReply.err_code)) && (a.(onlink) <? r.(max_onlink)) then
    if to_u64 (a.(sec_bg) + a.(max_sec)) <=? a.(cur_sec_nr) then
      b ← read_area (negb i);
      if b.(epoch) <=? k.(f_epoch) then
        _ ← set_task k.(f_iop) k.(f_file) (negb i) a.(cur_sec_nr) a.(max_sec) k.(f_epoch); mret ()
      else fetch_sector_remote early (negb i)
    else fetch_sector_remote early i
  else mret ().

(** What a future holds after 100 ms: nothing, the null pointer of a call that
    failed, or a reply. *)
Definition callback (early : fetch → bool) (result : fetch → option (option OpReply.t)) (k : fetch) : M t () :=
  future ← take k;
  match future with
  | None => mret ()
  | Some future =>
      match result future with
      | None => mret ()
      | Some reply =>
          reply ← deref reply;
          if reply.(OpReply.err_code) <? 0 then mret ()
          else _ ← store k reply; next early k reply
      end
  end.

(** ** Reading *)
Section reading.
(** The other threads during [sft.wait_for]: the state they leave, and what the
    shared future holds, if anything. *)
Variable others : t → t * option bool.

Definition wait_sector (i : bool) (sec_nr : Z) : M t bool :=
  _ ← update_area i (λ a,
    if decide (sec_nr ∈ a.(ft_waiting_tab)) then a
    else set_waiting ({[sec_nr]} ∪ a.(ft_waiting_tab)) ({[sec_nr]} ∪ a.(prom_waiting_tab)) a);
  st ← extern (λ r, let '(r, st) := others r in (st, r));
  a ← read_area i;
  let ret := bool_decide (sec_nr ∉ a.(ft_waiting_tab)) || default false st in
  _ ← update_area i (λ a,
    if decide (sec_nr ∈ a.(ft_waiting_tab))
    then set_waiting (a.(ft_waiting_tab) ∖ {[sec_nr]}) (a.(prom_waiting_tab) ∖ {[sec_nr]}) a else a);
  mret ret.

(** The bytes from an address on. *)
Fixpoint bytes_from (m : Z → ascii) (at_ : Z) (n : nat) : string :=
  match n with 0%nat => "" | S n => String (m at_) (bytes_from m (at_ + 1) n) end.

(** A sector that is in the buffer: [memcpy(dest, orig, read_size)], undefined
    outside of what is allocated. *)
Definition serve (i : bool) (offset size : Z) : M t (ra_status * string) :=
  a ← read_area i;
  let sec := Fuse.sector offset in
  let orig := sector_addr a sec + in_sector offset in
  if sector_addr a (a.(sec_bg) + a.(max_sec)) <? orig + size then mret (NOT_FOUND, "")
  else
    let read_size := Z.min size (to_u64 (default 0 (a.(sec_bufferd) !! sec) - in_sector offset)) in
    if orig + read_size <=? a.(capacity) then
      _ ← update_area i (set_cursor (if to_u64 a.(cursor) <? sec then to_i32 sec else a.(cursor)));
      mret (IN_BUFFER, bytes_from a.(buf) orig (Z.to_nat read_size))
    else undefined.

(** The body of the loop over the buffers; [None]: the next one. When a wait was in
    vain, the mutex of the buffer is unlocked by a thread that does not hold it. *)
Definition try_buf (i : bool) (filename : string) (offset size : Z) : M t (option (ra_status * string)) :=
  let sec := Fuse.sector offset in
  a ← read_area i;
  match lookup_sec a filename sec with
  | NOT_FOUND => mret None
  | IN_BUFFER => res ← serve i offset size; mret (Some res)
  | ON_LINK =>
      ok ← wait_sector i sec;
      if (ok : bool) then
        a ← read_area i;
        match lookup_sec a filename sec with
        | IN_BUFFER => res ← serve i offset size; mret (Some res)
        | _ => mret (Some (NOT_FOUND, ""))
        end
      else undefined
  | _ => mret (Some (NOT_FOUND, ""))
  end.
(** With both buffers searched the function ends without a value. *)
Definition fetch_cache (filename : string) (offset size : Z) : M t (ra_status * string) :=
  res ← try_buf false filename offset size;
  match res with
  | Some res => mret res
  | None => res ← try_buf true filename offset size; deref res
  end.
Definition status (rpath : string) (offset size : Z) : M t (ra_status * string) :=
  let sector_bg := Fuse.sector offset in
  r ← state;
  if String.eqb rpath r.(buf0).(file).2 then fetch_cache rpath offset size
  else if negb (String.eqb r.(last_req_filename) rpath) then
    _ ← modify (set_requests rpath r.(last_req_sec) 1); mret (UNLIKE_SEQ_READ, "")
  else if sector_bg <? r.(last_req_sec) then
    _ ← modify (set_requests rpath sector_bg r.(last_req_hit_ct)); mret (UNLIKE_SEQ_READ, "")
  else if r.(last_req_hit_ct) <? r.(hit_threshold) then
    _ ← modify (set_requests rpath r.(last_req_sec) (to_u64 (r.(last_req_hit_ct) + 1))); mret (UNLIKE_SEQ_READ, "")
  else mret (MAY_SEQ_READ, "").
End reading.

(** ** Forgetting *)

(** [epoch++] yields the old value, which both buffers get back. *)
Definition cleared (to_epoch : Z) (a : area) : area :=
  Area 0 ∅ 0 a.(buf) a.(capacity) to_epoch ∅ ∅ ∅ (None, "") 0 0 0.
Definition clear_buf (filepath : string) : M t () :=
  r ← state;
  if negb (String.eqb filepath r.(buf0).(file).2) then mret ()
  else
    let to_epoch := r.(buf0).(epoch) in
    _ ← update_area false (cleared to_epoch); update_area true (cleared to_epoch).
End ClientReadAhead.

(** What the callbacks of FUSE use of it (Fuse.v), next to the rest of the world. *)
Definition on_readahead {W A} (m : M ClientReadAhead.t A) : M (ClientReadAhead.t * W) A := λ w,
  let '(res, r) := m w.1 in (res, (r, w.2)).
Definition client_readahead {W} (others : ClientReadAhead.t → ClientReadAhead.t * option bool) : ReadAhead (ClientReadAhead.t * W) := {|
  ra_lookup rpath offset size := on_readahead (ClientReadAhead.status others rpath offset size);
  ra_set_task iop filename i bg sec_max epoch :=
    on_readahead (ClientReadAhead.set_task iop filename (negb (i =? 0)) bg sec_max epoch);
  ra_clear_buf filepath := on_readahead (ClientReadAhead.clear_buf filepath);
|}.

(** ** Program logic for the state *)
Section rules.
Import ClientReadAhead.
Implicit Types (r : t) (a : area).

Lemma wp_read_area i (Q : area → t → Prop) E r : Q (get i r) r → wp (read_area i) Q E r.
Proof. done. Qed.
Lemma wp_update_area i g (Q : () → t → Prop) E r : Q () (set i (g (get i r)) r) → wp (update_area i g) Q E r.
Proof. done. Qed.
Lemma wp_state (Q : t → t → Prop) E r : Q r r → wp state Q E r.
Proof. done. Qed.
Lemma wp_modify g (Q : () → t → Prop) E r : Q () (g r) → wp (modify g) Q E r.
Proof. done. Qed.
Lemma get_set i a r : get i (set i a r) = a.
Proof. by destruct i. Qed.
Lemma get_set_other i a r : get (negb i) (set i a r) = get (negb i) r.
Proof. by destruct i. Qed.
Lemma get_submit i f r : get i (submit f r) = get i r.
Proof. by destruct i. Qed.
End rules.
Import ClientReadAhead.
Ltac ra_step :=
  lazymatch goal with
  | |- wp (read_area _) _ _ _ => apply wp_read_area
  | |- wp (update_area _ _) _ _ _ => apply wp_update_area
  | |- wp state _ _ _ => apply wp_state
  | |- wp (modify _) _ _ _ => apply wp_modify
  | |- _ => wp_step
  end; cbn beta.

(** A read of the file that is being read ahead, but of a sector in neither of
    the two windows, is undefined behaviour: [fetch_cache] ends without a value. *)
Theorem random_read_undefined others name offset size r : name = r.(buf0).(file).2 →
  lookup_sec r.(buf0) name (Fuse.sector offset) = NOT_FOUND →
  lookup_sec r.(buf1) name (Fuse.sector offset) = NOT_FOUND →
  status others name offset size r = (UB, r).
Proof.
  intros Hname H0 H1. unfold status, fetch_cache, try_buf, state, read_area, get, mbind, M_bind.
  rewrite (proj2 (String.eqb_eq _ _) Hname), H0. unfold mret, M_ret. cbv beta iota. by rewrite H1.
Qed.

(** ** What is buffered is the file *)
Section sound.
Import ClientReadAhead.
Implicit Types (r : t) (a : area) (early : fetch → bool) (k f : fetch).
(** The files, as long as nobody writes to them. *)
Variables (file_len : string → Z) (file_bytes : string → Z → ascii).
Hypothesis Hlen : ∀ name, 0 ≤ file_len name < 2 ^ 63.

Definition sector_len (name : string) (sec : Z) : Z := Z.min SECTOR (Z.max 0 (file_len name - sec * SECTOR)).
(** The reply to the read of a sector: an error, or its bytes. *)
Definition good_reply (f : fetch) (reply : OpReply.t) : Prop :=
  let n := reply.(OpReply.err_code) in
  n < 0 ∨ n = sector_len f.(f_file) f.(f_sec) ∧ n ≤ CxxString.size (OpReply.data reply) ∧
    ∀ j, 0 ≤ j < n → byte_at (OpReply.data reply) j = file_bytes f.(f_file) (f.(f_sec) * SECTOR + j).

Definition in_window a (sec : Z) : Prop := a.(sec_bg) ≤ sec < a.(sec_bg) + a.(max_sec).
Definition area_ok a : Prop :=
  (0 ≤ a.(max_sec) < 2 ^ 14 ∧ 0 ≤ a.(sec_bg) < 2 ^ 45 + 2 ^ 14 ∧ a.(max_sec) * SECTOR ≤ a.(capacity) ∧
   a.(sec_bg) ≤ a.(cur_sec_nr) ≤ a.(sec_bg) + a.(max_sec) ∧ (0 < a.(max_sec) → is_Some a.(file).1)) ∧
  (∀ sec n, a.(sec_bufferd) !! sec = Some n → in_window a sec ∧ n = sector_len a.(file).2 sec ∧
     ∀ j, 0 ≤ j < n → a.(buf) (sector_addr a sec + j) = file_bytes a.(file).2 (sec * SECTOR + j)) ∧
  ∀ sec f, a.(ft_res_tab) !! sec = Some f → in_window a sec ∧ f.(f_file) = a.(file).2 ∧ f.(f_sec) = sec.
Definition sound r : Prop :=
  area_ok r.(buf0) ∧ area_ok r.(buf1) ∧
  (0 ≤ r.(buf1).(epoch) ≤ r.(buf0).(epoch) ∧ r.(buf0).(epoch) < 2 ^ 64 - 1) ∧
  (r.(buf1).(epoch) < r.(buf0).(epoch) → is_Some r.(buf0).(file).1).

Lemma sound_get i r : sound r → area_ok (get i r).
Proof. intros (H0 & H1 & _). by destruct i. Qed.
(** A buffer changes and keeps its epoch and its node. *)
Lemma sound_set i a r : sound r → area_ok a → a.(epoch) = (get i r).(epoch) → a.(file).1 = (get i r).(file).1 →
  sound (set i a r).
Proof.
  intros (H0 & H1 & He & Hf) Ha Hep Hfi. destruct i; cbn in *; split_and!; cbn; try done; rewrite ?Hep, ?Hfi; try done; try lia; apply He.
Qed.
Lemma sound_submit f r : sound r → sound (submit f r).
Proof. done. Qed.
Lemma sound_requests n s h r : sound r → sound (set_requests n s h r).
Proof. done. Qed.
Lemma window_end a : area_ok a → to_u64 (a.(sec_bg) + a.(max_sec)) = a.(sec_bg) + a.(max_sec).
Proof. intros ((Hm & Hb & _) & _). apply to_u64_id. unfold in_u64. lia. Qed.

(** Members that the invariant does not look at. *)
Lemma cursor_ok c a : area_ok a → area_ok (set_cursor c a).
Proof. done. Qed.
Lemma waiting_ok ft prom a : area_ok a → area_ok (set_waiting ft prom a).
Proof. done. Qed.
(** The next sector is asked for, and its future filed. *)
Lemma advance_ok n a : area_ok a → a.(cur_sec_nr) < a.(sec_bg) + a.(max_sec) →
  area_ok (set_link a.(ft_res_tab) n (to_u64 (a.(cur_sec_nr) + 1)) a).
Proof.
  intros ((Hm & Hb & Hcap & Hcur & Hi) & Hbuf & Hft) Hlt. rewrite to_u64_id by (unfold in_u64; lia).
  split_and!; cbn; try done; lia.
Qed.
Lemma link_ok f a : area_ok a → in_window a f.(f_sec) → f.(f_file) = a.(file).2 →
  area_ok (set_link (<[f.(f_sec) := f]> a.(ft_res_tab)) a.(onlink) a.(cur_sec_nr) a).
Proof.
  intros (Hs & Hbuf & Hft) Hw Hf. split_and!; cbn; try done; try apply Hs.
  intros sec g [[<- <-]|[_ Hg]]%lookup_insert_Some; [done|by apply Hft].
Qed.
Lemma unlink_ok sec n a : area_ok a → area_ok (set_link (delete sec a.(ft_res_tab)) n a.(cur_sec_nr) a).
Proof.
  intros (Hs & Hbuf & Hft). split_and!; cbn; try done; try apply Hs. intros sec' f [_ Hf]%lookup_delete_Some. by apply Hft.
Qed.
Lemma retask_ok iop name bg n e a : 0 ≤ n < 2 ^ 14 → 0 ≤ bg < 2 ^ 45 + 2 ^ 14 → area_ok (retask iop name bg n e a).
Proof.
  intros Hn Hbg. split_and!; cbn; try done; try lia.
  unfold to_u32. rewrite Z.shiftl_mul_pow2, Z.mod_small by (unfold SECTOR; lia). unfold SECTOR. lia.
Qed.
Lemma cleared_ok e a : 0 ≤ a.(capacity) → area_ok (cleared e a).
Proof. intros Hc. split_and!; cbn; try done; try lia. Qed.

Lemma take_ok k r : sound r → wp (take k) (λ future r', sound r' ∧ ∀ f, future = Some f →
  (get k.(f_buf) r').(epoch) = k.(f_epoch) ∧ f.(f_sec) = k.(f_sec) ∧ in_window (get k.(f_buf) r') k.(f_sec) ∧
  f.(f_file) = (get k.(f_buf) r').(file).2) never r.
Proof.
  intros Hr. unfold take. ra_step. ra_step. apply wp_if; intros He; [by apply wp_ret|]. ra_step. ra_step. apply wp_ret.
  pose proof (sound_get (f_buf k) r Hr) as Ha. split.
  - apply sound_set; try done. by apply unlink_ok.
  - intros f Hf. rewrite get_set. cbn. destruct (proj2 (proj2 Ha) _ _ Hf) as (Hw & Hn & Hs). split_and!; try done. lia.
Qed.
(** The loop keeps the invariant, and leaves a buffer's task alone. *)
Definition same_task a a' : Prop :=
  a'.(sec_bg) = a.(sec_bg) ∧ a'.(max_sec) = a.(max_sec) ∧ a'.(file) = a.(file) ∧ a'.(epoch) = a.(epoch).
Lemma early_ok early f r : sound r →
  wp (if early f then _ ← take f; mret () else mret () : M t ()) (λ _ r', sound r' ∧ same_task (get f.(f_buf) r) (get f.(f_buf) r')) never r.
Proof.
  intros Hr. apply wp_if; intros _; [|by apply wp_ret]. ra_step. unfold take. ra_step. ra_step.
  apply wp_if; intros _; [ra_step; by apply wp_ret|]. ra_step. ra_step. ra_step. apply wp_ret. rewrite get_set. split; [|done].
  apply sound_set; try done. by apply unlink_ok, sound_get.
Qed.
Lemma fetch_loop_ok early fuel i iop r : sound r →
  wp (fetch_loop early fuel i iop (get i r).(file).2) (λ _ r', sound r') never r.
Proof.
  revert r. induction fuel as [|fuel IH]; intros r Hr; cbn [fetch_loop]; [by apply wp_ret|].
  ra_step. ra_step. ra_step. ra_step. apply wp_if; intros Hgo; [|by apply wp_ret].
  pose proof (sound_get i r Hr) as Ha. rewrite (window_end _ Ha) in Hgo. apply andb_prop in Hgo as [_ Hlt].
  apply Z.ltb_lt in Hlt. set (a := get i r) in *. set (f := Fetch iop (file a).2 (cur_sec_nr a) i (epoch a)).
  ra_step. ra_step. ra_step. ra_step. ra_step. set (r1 := submit f _).
  assert (Hr1 : sound r1) by (apply sound_submit, sound_set; [done|by apply advance_ok|done..]).
  assert (Ht1 : same_task a (get i r1)) by (unfold r1; by rewrite get_submit, get_set).
  eapply wp_mono; [| |by apply early_ok]; [|done]. cbn [f_buf f]. intros _ r2 [Hr2 (Hb2 & Hm2 & Hf2 & He2)].
  destruct Ht1 as (Hb1 & Hm1 & Hf1 & He1). ra_step. ra_step. set (a3 := set_link _ _ _ (get i r2)).
  assert (Ha3 : area_ok a3).
  { apply (link_ok f); [by apply sound_get| |cbn; congruence]. unfold in_window. cbn. rewrite Hb2, Hb1, Hm2, Hm1.
    destruct Ha as ((_ & _ & _ & Hcur & _) & _). lia. }
  assert (Hf3 : (file a).2 = (file (get i (set i a3 r2))).2) by (rewrite get_set; cbn; congruence). rewrite Hf3.
  apply IH. by apply sound_set.
Qed.
Lemma fetch_sector_remote_ok early i r : sound r → is_Some (get i r).(file).1 →
  wp (fetch_sector_remote early i) (λ _ r', sound r') never r.
Proof.
  intros Hr [iop Hi]. unfold fetch_sector_remote. ra_step. ra_step. rewrite Hi. ra_step. ra_step. by apply fetch_loop_ok.
Qed.

(** A new task, with an epoch that keeps the two in order. *)
Lemma set_task_ok iop name i bg n ep r : sound r → 0 ≤ n < 2 ^ 14 → 0 ≤ bg < 2 ^ 45 + 2 ^ 14 →
  (ep = 2 ^ 64 - 1 ∧ i = false ∧ r.(buf0).(epoch) < 2 ^ 64 - 2 ∨ ep = r.(buf0).(epoch)) →
  wp (set_task iop name i bg n ep) (λ _ r', sound r') never r.
Proof.
  intros Hr Hn Hbg Hep. unfold set_task. ra_step. ra_step. change (to_u64 (-1)) with (2 ^ 64 - 1).
  pose proof Hr as (H0 & H1 & [He Hmax] & Hf). apply wp_if; intros Hold; [by apply wp_ret|].
  set (e := if ep =? 2 ^ 64 - 1 then _ else _).
  assert (Hn' : if i then e = r.(buf0).(epoch) else r.(buf0).(epoch) ≤ e < 2 ^ 64 - 1).
  { unfold e. destruct Hep as [(-> & -> & Hs)| ->].
    - rewrite Z.eqb_refl. cbn [get]. rewrite to_u64_id by (unfold in_u64; lia). lia.
    - rewrite (proj2 (Z.eqb_neq _ _)) by lia. destruct i; lia. }
  clearbody e. apply wp_if; intros _; [by apply wp_ret|]. apply wp_if; intros _.
  - ra_step. apply wp_if; intros _; [|ra_step; by apply wp_ret]. ra_step. apply wp_ret.
    apply sound_set; try done. by apply cursor_ok, sound_get.
  - ra_step. ra_step. ra_step. set (r' := set i _ r).
    assert (Hr' : sound r').
    { pose proof (retask_ok iop name bg n e (get i r) Hn Hbg) as Hnew. unfold r'. destruct i; split_and!; cbn in *; try done; lia. }
    eapply wp_mono; [| |apply fetch_sector_remote_ok; [exact Hr'|unfold r'; rewrite get_set; by eexists]]; [|done].
    intros ? r2 Hr2. by apply wp_ret.
Qed.

(** The pieces of a callback. *)
Lemma bytes_of_data reply n Q r : 0 ≤ n → n ≤ CxxString.size (OpReply.data reply) →
  (∀ bytes, CxxString.size bytes = n → (∀ j, 0 ≤ j < n → byte_at bytes j = byte_at (OpReply.data reply) j) → Q bytes r) →
  wp (W := t) (bytes_of (OpReply.data reply) 0 n) Q never r.
Proof. intros Hn Hs HQ. apply bytes_of_ok; try lia. intros bytes Hb Hj. apply HQ; [done|]. intros j Hj'. by rewrite Hj. Qed.

Lemma store_ok k f reply r : sound r → in_window (get k.(f_buf) r) k.(f_sec) → f.(f_sec) = k.(f_sec) →
  f.(f_file) = (get k.(f_buf) r).(file).2 → good_reply f reply → 0 ≤ reply.(OpReply.err_code) →
  wp (store k reply) (λ _ r', sound r' ∧ in_window (get k.(f_buf) r') k.(f_sec) ∧
    (get k.(f_buf) r').(epoch) = (get k.(f_buf) r).(epoch) ∧ (get k.(f_buf) r').(file) = (get k.(f_buf) r).(file)) never r.
Proof.
  intros Hr Hw Hsec Hfile [Hneg|(Hn & Hsize & Hbytes)] Hpos; [lia|]. unfold store. ra_step. ra_step. ra_step.
  apply bytes_of_data; [done|done|]. intros bytes Hbs Hbj.
  pose proof (sound_get (f_buf k) r Hr) as Ha. pose proof Ha as ((Hm & Hb & Hcap & Hcur & Hi) & Hbuf & Hft).
  set (a := get (f_buf k) r) in *. set (n := OpReply.err_code reply) in *. rewrite Hsec, Hfile in *.
  assert (Hat : sector_addr a (f_sec k) = (f_sec k - sec_bg a) * SECTOR) by done.
  assert (HS : SECTOR = 262144) by done. assert (Hn18 : n ≤ SECTOR) by (unfold sector_len in Hn; lia). unfold in_window in Hw.
  apply wp_if; intros Hin; [|exfalso; nia]. apply wp_update_area. rewrite get_set. split; [|done].
  apply sound_set; try done. split; [exact (proj1 Ha)|split; [|exact Hft]].
  fold a. cbn [sec_bufferd set_waiting set_bufferd set_buf buf file]. intros sec m [[<- <-]|[Hne Hsec']]%lookup_insert_Some.
  - split_and!; [done|done|]. intros j Hj. rewrite overwrite_inside by (unfold sector_addr; cbn; lia).
    rewrite <-Hbytes, <-Hbj by done. f_equal. unfold sector_addr. cbn. lia.
  - destruct (Hbuf _ _ Hsec') as (Hw' & Hm' & Hj'). split_and!; [done|done|]. intros j Hj. rewrite <-Hj' by done.
    assert (m ≤ SECTOR) by (unfold sector_len in Hm'; lia). apply overwrite_outside. unfold sector_addr. cbn.
    assert (sec < f_sec k ∨ f_sec k < sec) as [?|?] by lia; nia.
Qed.

Lemma next_ok early k reply r : sound r → in_window (get k.(f_buf) r) k.(f_sec) →
  (get k.(f_buf) r).(epoch) = k.(f_epoch) →
  (0 < reply.(OpReply.err_code) → k.(f_sec) < 2 ^ 45) →
  wp (next early k reply) (λ _ r', sound r') never r.
Proof.
  intros Hr Hw He Hsmall. unfold next. ra_step. ra_step. ra_step. ra_step. apply wp_if; intros Hgo; [|by apply wp_ret].
  pose proof (sound_get (f_buf k) r Hr) as Ha. pose proof Ha as ((Hm & Hb & _ & Hcur & Hi) & _). unfold in_window in Hw.
  rewrite (window_end _ Ha). pose proof Hr as (_ & _ & [He0 Hmax] & Hf0). apply wp_if; intros Hend.
  - ra_step. ra_step. apply wp_if; intros Hep.
    + ra_step. eapply wp_mono; [| |apply set_task_ok; [exact Hr|lia|lia|]]; [intros ? ? ?; by apply wp_ret|done|].
      right. destruct (f_buf k); cbn in *; lia.
    + apply fetch_sector_remote_ok; [done|]. destruct (f_buf k); cbn in *; [apply Hf0; lia|lia].
  - apply fetch_sector_remote_ok; [done|]. apply Hi. lia.
Qed.

(** A whole callback. *)
Lemma completion_ok early result k r : sound r → (∀ f reply, result f = Some reply → ∃ reply', reply = Some reply' ∧ good_reply f reply') →
  wp (callback early result k) (λ _ r', sound r') never r.
Proof.
  intros Hr Hres. unfold callback. ra_step. eapply wp_mono; [| |by apply take_ok]; [|done].
  intros [f|] r1 [Hr1 Hf]; [|by apply wp_ret]. specialize (Hf f eq_refl) as (He & Hsec & Hw & Hfile).
  destruct (result f) as [reply|] eqn:Hr2; [|by apply wp_ret]. destruct (Hres _ _ Hr2) as (reply' & -> & Hgood).
  ra_step. ra_step. apply wp_if; intros Hneg; [by apply wp_ret|]. ra_step.
  eapply wp_mono; [| |apply (store_ok k f); done || lia]; [|done].
  intros _ r3 (Hr3 & Hw3 & He3 & Hf3). apply next_ok; [done|done|congruence|].
  intros Hpos. destruct Hgood as [?|(Hn & _)]; [lia|]. unfold sector_len in Hn. specialize (Hlen (f_file f)). unfold SECTOR in Hn.
  rewrite Hsec in Hn. lia.
Qed.
Lemma clear_buf_ok name r : sound r → wp (clear_buf name) (λ _ r', sound r') never r.
Proof.
  intros Hr. unfold clear_buf. ra_step. ra_step. apply wp_if; intros _; [by apply wp_ret|]. ra_step. ra_step. apply wp_update_area.
  pose proof Hr as (H0 & H1 & [He Hm] & _). assert (Hcap : ∀ i, 0 ≤ (get i r).(capacity)).
  { intros i. pose proof (sound_get i r Hr) as ((? & ? & ? & _) & _). unfold SECTOR in *. lia. }
  split_and!; [apply cleared_ok, (Hcap false)|apply cleared_ok, (Hcap true)|cbn; lia..].
Qed.

(** Reading. *)
Lemma in_sector_mod off : in_sector off = off mod SECTOR.
Proof. unfold in_sector, SECTOR. change (2 ^ 18 - 1) with (Z.ones 18). by rewrite Z.land_ones. Qed.
Lemma sector_div off : Fuse.sector off = off / SECTOR.
Proof. unfold Fuse.sector, SECTOR. by rewrite Z.shiftr_div_pow2. Qed.
Lemma bytes_from_size m at_ n : CxxString.size (bytes_from m at_ n) = Z.of_nat n.
Proof. revert at_. unfold CxxString.size. induction n as [|n IH]; intros at_; cbn [bytes_from String.length]; [done|]. specialize (IH (at_ + 1)). lia. Qed.
Lemma bytes_from_byte m at_ n j : 0 ≤ j < Z.of_nat n → byte_at (bytes_from m at_ n) j = m (at_ + j).
Proof.
  revert at_ j. induction n as [|n IH]; intros at_ j Hj; [lia|]. cbn [bytes_from]. destruct (Z.eq_dec j 0) as [->|Hne].
  - by rewrite Z.add_0_r.
  - unfold byte_at. replace (Z.to_nat j) with (S (Z.to_nat (j - 1))) by lia. cbn [String.get].
    fold (byte_at (bytes_from m (at_ + 1) n) (j - 1)). rewrite IH by lia. f_equal. lia.
Qed.

(** What a hit has to be: the bytes a read of the file would return. *)
Definition faithful (name : string) (offset size : Z) (res : ra_status * string) : Prop :=
  res.1 = IN_BUFFER → CxxString.size res.2 = Z.min size (file_len name - offset) ∧
    ∀ j, 0 ≤ j < CxxString.size res.2 → byte_at res.2 j = file_bytes name (offset + j).
Definition within (name : string) (offset size : Z) : Prop :=
  0 ≤ offset ≤ file_len name ∧ 0 < size ∧ in_sector offset + size ≤ SECTOR.

Lemma lookup_spec a name sec : lookup_sec a name sec = IN_BUFFER → name = a.(file).2 ∧ is_Some (a.(sec_bufferd) !! sec).
Proof.
  unfold lookup_sec. destruct (String.eqb_spec name a.(file).2); [|done]. cbn [negb]. destruct (_ || _); [done|].
  destruct (_ !! sec) as [n|]; [by eauto|done].
Qed.

Lemma start_sound seq_threshold onlink junk : sound (start seq_threshold onlink junk).
Proof. assert (Ha : area_ok (area_init junk)) by (split_and!; cbn; try done; lia). split_and!; cbn; try done; lia. Qed.

(** ** What happens to the buffers *)

(** A failed wait for a reply, an error, or the bytes of the sector; a call that
    failed has no reply to look at. *)
Definition good_result (result : fetch → option (option OpReply.t)) : Prop :=
  ∀ f reply, result f = Some reply → ∃ reply', reply = Some reply' ∧ good_reply f reply'.
(** The operations, a callback in one piece, and what the lookups of other threads
    change: the cursor, the waiting readers, the memory of the last requests. *)
Inductive change r : t → Prop :=
| change_task iop name sec n ok r' : 0 ≤ sec < 2 ^ 45 → 0 ≤ n < 2 ^ 14 → r.(buf0).(epoch) < 2 ^ 64 - 2 →
    set_task iop name false sec n (2 ^ 64 - 1) r = (Val ok, r') → change r r'
| change_callback early result k r' : good_result result → callback early result k r = (Val (), r') → change r r'
| change_forget name r' : clear_buf name r = (Val (), r') → change r r'
| change_cursor i c : change r (set i (set_cursor c (get i r)) r)
| change_waiting i ft prom : change r (set i (set_waiting ft prom (get i r)) r)
| change_requests name sec hits : change r (set_requests name sec hits r).

Lemma set_get i r : set i (get i r) r = r.
Proof. by destruct i, r. Qed.
Lemma change_sound r r' : sound r → change r r' → sound r'.
Proof.
  intros Hr [iop name sec n ok r2 Hs Hn He Hrun|early result k r2 Hres Hrun|name r2 Hrun|i c|i ft prom|name sec hits].
  - refine (wp_val _ (λ _ r', sound r') never r ok r2 _ Hrun). apply set_task_ok; [done|lia|lia|left; lia].
  - exact (wp_val _ (λ _ r', sound r') never r () r2 (completion_ok early result k r Hr Hres) Hrun).
  - exact (wp_val _ (λ _ r', sound r') never r () r2 (clear_buf_ok name r Hr) Hrun).
  - apply sound_set; try done. by apply cursor_ok, sound_get.
  - apply sound_set; try done. by apply waiting_ok, sound_get.
  - by apply sound_requests.
Qed.
Lemma changes_sound r r' : sound r → rtc change r r' → sound r'.
Proof. intros Hr H. revert Hr. induction H as [|r r1 r2 Hc _ IH]; [done|]. intros Hr. apply IH. by eapply change_sound. Qed.

(** A step is never undefined: the operations always return. *)
Lemma change_task_ends iop name sec n r : sound r → 0 ≤ sec < 2 ^ 45 → 0 ≤ n < 2 ^ 14 → r.(buf0).(epoch) < 2 ^ 64 - 2 →
  ∃ ok r', set_task iop name false sec n (2 ^ 64 - 1) r = (Val ok, r') ∧ change r r'.
Proof.
  intros Hr Hs Hn He. destruct (wp_run _ (λ _ r', sound r') r (set_task_ok iop name false sec n (2 ^ 64 - 1) r Hr Hn ltac:(lia) ltac:(left; lia)))
    as (ok & r' & Hrun & _). exists ok, r'. split; [done|]. by apply (change_task r iop name sec n ok).
Qed.
Lemma change_callback_ends early result k r : sound r → good_result result →
  ∃ r', callback early result k r = (Val (), r') ∧ change r r'.
Proof.
  intros Hr Hres. destruct (wp_run _ (λ _ r', sound r') r (completion_ok early result k r Hr Hres)) as ([] & r' & Hrun & _).
  exists r'. split; [done|]. by apply (change_callback r early result k).
Qed.

Lemma serve_ok i name offset size r : sound r → within name offset size →
  lookup_sec (get i r) name (Fuse.sector offset) = IN_BUFFER →
  wp (serve i offset size) (λ res r', rtc change r r' ∧ faithful name offset size res) never r.
Proof.
  intros Hr (Hoff & Hsize & Hin) (-> & [n Hn])%lookup_spec. unfold serve. ra_step. ra_step.
  pose proof (sound_get i r Hr) as Ha. pose proof Ha as ((Hm & Hb & Hcap & _) & Hbuf & _). set (a := get i r) in *.
  destruct (Hbuf _ _ Hn) as (Hw & Hlen' & Hbytes). rewrite Hn. cbn [default]. unfold in_window in Hw.
  rewrite in_sector_mod in *. rewrite sector_div in *. specialize (Hlen (file a).2).
  assert (HS : SECTOR = 262144) by done. pose proof (Z.div_mod offset SECTOR ltac:(done)) as Hdm.
  pose proof (Z.mod_pos_bound offset SECTOR ltac:(done)). unfold sector_len in Hlen'. set (sec := offset / SECTOR) in *.
  unfold id. rewrite to_u64_id by (unfold in_u64; lia).
  apply wp_if; intros Hend; [by apply wp_ret|]. unfold sector_addr in Hend.
  apply wp_if; intros Hmem; [|unfold sector_addr in Hmem; exfalso; nia].
  ra_step. ra_step. apply wp_ret. split; [apply rtc_once, change_cursor|]. intros _. cbn [snd]. rewrite bytes_from_size, Z2Nat.id by lia.
  split; [lia|]. intros j Hj. rewrite bytes_from_byte by lia. fold a. rewrite <-Z.add_assoc, Hbytes by lia. f_equal. lia.
Qed.

Section waiting.
Variable others : t → t * option bool.
Hypothesis Hothers : ∀ r, rtc change r (others r).1.

Lemma change_if (P : Prop) `{Decision P} i a1 r :
  rtc change r (set i a1 r) → rtc change r (set i (if decide P then a1 else get i r) r).
Proof. destruct (decide P); [done|]. intros _. by rewrite set_get. Qed.
Lemma change_if_not (P : Prop) `{Decision P} i a1 r :
  rtc change r (set i a1 r) → rtc change r (set i (if decide P then get i r else a1) r).
Proof. destruct (decide P); [|done]. intros _. by rewrite set_get. Qed.
Lemma waiting_changes i ft prom r : rtc change r (set i (set_waiting ft prom (get i r)) r).
Proof. apply rtc_once, change_waiting. Qed.
Lemma wait_sector_ok i sec r :
  wp (wait_sector others i sec) (λ ok r', rtc change r r' ∧ (ok = false → ∃ r1, (others r1).2 ≠ Some true)) never r.
Proof.
  unfold wait_sector. ra_step. ra_step. ra_step. apply wp_extern. set (r0 := set i _ r).
  assert (H0 : rtc change r r0) by (apply change_if_not, waiting_changes). pose proof (Hothers r0) as H1.
  destruct (others r0) as [r1 st] eqn:Ho. cbn [fst snd] in *.
  ra_step. ra_step. ra_step. ra_step. apply wp_ret. split.
  - etrans; [exact H0|]. etrans; [exact H1|]. apply change_if, waiting_changes.
  - intros [_ Hst]%orb_false_elim. exists r0. rewrite Ho. by destruct st as [[]|].
Qed.

(** The sector is in neither of the windows, or a reader waited for it and was not
    told that it had come. *)
Definition no_answer name offset r : Prop :=
  lookup_sec r.(buf0) name (Fuse.sector offset) = NOT_FOUND ∧ lookup_sec r.(buf1) name (Fuse.sector offset) = NOT_FOUND ∨
  (∃ i, lookup_sec (get i r) name (Fuse.sector offset) = ON_LINK) ∧ ∃ r1, (others r1).2 ≠ Some true.

Lemma try_buf_ok i name offset size r : sound r → within name offset size →
  wp (try_buf others i name offset size) (λ res r', rtc change r r' ∧
    match res with
    | Some v => faithful name offset size v
    | None => lookup_sec (get i r) name (Fuse.sector offset) = NOT_FOUND ∧ r' = r
    end) (λ _, no_answer name offset r) r.
Proof.
  intros Hr Hin. unfold try_buf. ra_step. ra_step. destruct (lookup_sec _ _ _) eqn:Hl.
  - by apply wp_ret.
  - by apply wp_ret.
  - ra_step. eapply wp_mono; [| |apply wait_sector_ok]; [|done]. intros ok r1 [Hr1 Hok]. apply wp_if; intros Hb.
    + ra_step. ra_step. destruct (lookup_sec (get i r1) _ _) eqn:Hl1; try by apply wp_ret. ra_step.
      eapply wp_mono; [| |apply serve_ok; [by eapply changes_sound|done|done]]; [|done].
      intros v r2 [Hc Hv]. apply wp_ret. split; [by etrans|done].
    + apply wp_undefined. right. split; [by eexists|by apply Hok].
  - ra_step. eapply wp_mono; [| |by apply serve_ok]; [|done]. intros v r2 Hv. by apply wp_ret.
  - by apply wp_ret.
Qed.

(** C28: what the read-ahead answers is what the file holds. Take any history of the
    buffers from their start: tasks, callbacks of reads (out of date or not, of
    replies in time or not, before or after their future is filed), forgetting, and
    lookups. A lookup that begins in the file and stays inside of one sector either
    misses, or yields exactly the bytes a read of the file would, and its history can
    be continued; what other threads do while it waits is any such history. It has no
    answer, and its behaviour is undefined, only where the sector of a file that is
    being read ahead is in neither of the windows, or where its wait was in vain. The
    files are not written to in between, fewer than 2^64 - 2 tasks are set, each of
    fewer than 2^14 sectors below the sector 2^45, a call that has ended has a reply, and a callback runs in one piece, which the code does
    not make sure of ([late_store_serves_other_file]). *)
Theorem status_faithful seq_threshold onlink junk name offset size r :
  rtc change (start seq_threshold onlink junk) r → within name offset size →
  wp (status others name offset size)
    (λ res r', rtc change (start seq_threshold onlink junk) r' ∧ faithful name offset size res)
    (λ _, name = r.(buf0).(file).2 ∧ no_answer name offset r) r.
Proof.
  intros Hhist Hin. pose proof (changes_sound _ _ (start_sound seq_threshold onlink junk) Hhist) as Hr.
  apply (wp_mono _ (λ res r', rtc change r r' ∧ faithful name offset size res) _
    (λ _, name = r.(buf0).(file).2 ∧ no_answer name offset r));
    [intros res r' [Hc Hf]; split; [by etrans|done]|done|].
  unfold status. ra_step. ra_step. apply wp_if; intros Hname.
  - apply String.eqb_eq in Hname. unfold fetch_cache. ra_step.
    eapply wp_mono; [| |by apply (try_buf_ok false)]; [|done]. intros [v|] r1 [Hr1 Hv]; [by apply wp_ret|]. destruct Hv as [Hv ->].
    ra_step. eapply wp_mono; [| |by apply (try_buf_ok true)]; [|done]. intros [v|] r2 [Hr2 Hv2]; [by apply wp_ret|].
    destruct Hv2 as [Hv2 _]. apply wp_undefined. split; [done|]. by left.
  - assert (Hq : ∀ n sec hits, rtc change r (set_requests n sec hits r)) by (intros; apply rtc_once, change_requests).
    repeat (apply wp_if; intros _; [ra_step; ra_step; by apply wp_ret|]). by apply wp_ret.
Qed.
End waiting.

(** ** Requests and replies *)

(** A read behind the end of a file, in its last sector, is answered from the
    buffer with as many bytes as it asks for: the number of bytes left in the
    sector wraps around below zero. *)
Theorem past_end_is_answered others name offset size n r : sound r → name = r.(buf0).(file).2 →
  r.(buf0).(sec_bufferd) !! Fuse.sector offset = Some n → 0 ≤ offset → 0 ≤ n < in_sector offset →
  0 ≤ size → in_sector offset + size ≤ SECTOR →
  wp (status others name offset size) (λ res _, res.1 = IN_BUFFER ∧ CxxString.size res.2 = size) never r.
Proof.
  intros Hr Hname Hn Hoff Hpast Hsize Hend. unfold status. ra_step. ra_step. rewrite (proj2 (String.eqb_eq _ _) Hname).
  pose proof (sound_get false r Hr) as Ha. cbn [get] in Ha. pose proof Ha as ((Hm & Hb & Hcap & _) & Hbuf & _).
  destruct (Hbuf _ _ Hn) as (Hw & _). unfold in_window in Hw.
  unfold fetch_cache. ra_step. unfold try_buf. ra_step. ra_step. cbn [get].
  assert (Hl : lookup_sec (buf0 r) name (Fuse.sector offset) = IN_BUFFER).
  { unfold lookup_sec. rewrite (proj2 (String.eqb_eq _ _) Hname), (window_end _ Ha), Hn. cbn [negb].
    destruct (Z.ltb_spec (Fuse.sector offset) (sec_bg (buf0 r))); [lia|].
    destruct (Z.leb_spec (sec_bg (buf0 r) + max_sec (buf0 r)) (Fuse.sector offset)); [lia|done]. }
  rewrite Hl. ra_step. unfold serve. ra_step. ra_step. cbn [get]. rewrite Hn. cbn [default]. unfold id.
  assert (HS : SECTOR = 262144) by done. rewrite in_sector_mod in *. pose proof (Z.mod_pos_bound offset SECTOR ltac:(done)).
  replace (to_u64 (n - offset mod SECTOR)) with (n - offset mod SECTOR + 2 ^ 64)
    by (unfold to_u64; apply (Z.mod_unique_pos _ _ (-1)); lia).
  rewrite Z.min_l by lia. unfold sector_addr.
  apply wp_if; intros Hover; [exfalso; nia|]. apply wp_if; intros Hcap'; [|exfalso; nia].
  ra_step. ra_step. ra_step. ra_step. ra_step. split; [done|]. cbn [snd]. rewrite bytes_from_size, Z2Nat.id by lia. done.
Qed.
End sound.

(** ** Concrete runs *)
Section runs.
Import ClientReadAhead.
Let node : IOProxyNode.t := IOProxyNode.mk 8000 0 "10.0.0.1" "" IOProxyNode.Running "1" "1".
Let text (name : string) : string := if String.eqb name "a" then "hello" else "secret".
Let len (name : string) : Z := CxxString.size (text name).
Let bytes (name : string) (x : Z) : ascii := byte_at (text name) x.
(** The proxy's reply to the read of a sector. *)
Let reply (f : fetch) : OpReply.t :=
  let content := if f.(f_sec) =? 0 then text f.(f_file) else "" in
  OpReply.set_data content (OpReply.set_err_code (CxxString.size content) OpReply.init).
Let arrived (f : fetch) : option (option OpReply.t) :=
  if 0 <=? f.(f_sec) then Some (Some (reply f)) else None.
Let alone (r : t) : t * option bool := (r, None).
Let r0 : t := start 1 64 (λ _, zero).
(** The state after some operations. *)
Let after {A} (m : M t A) (r : t) : t := (m r).2.
Let first (r : t) : fetch := default (Fetch node "" 0 false 0) (head r.(outstanding)).

Let r1 : t := after (set_task node "a" false 0 2 (2 ^ 64 - 1)) r0.
Let r2 : t := after (callback never_early arrived (first r1)) r1.

Lemma len_small name : 0 ≤ len name < 2 ^ 63.
Proof. unfold len, text. by destruct (String.eqb name "a"). Qed.
Lemma reply_good f : 0 ≤ f.(f_sec) → good_reply len bytes f (reply f).
Proof.
  intros Hf. right. assert (Hl : 5 ≤ len (f_file f) ≤ 6) by (unfold len, text; by destruct (String.eqb _ "a")).
  assert (Hs : SECTOR = 262144) by done. unfold reply, sector_len.
  destruct (Z.eqb_spec (f_sec f) 0) as [->|Hne]; cbn [OpReply.err_code OpReply.set_err_code OpReply.set_data].
  - fold (len (f_file f)). rewrite to_i32_id by (unfold in_i32; lia). split_and!; [lia|done|]. intros j Hj. done.
  - change (to_i32 (CxxString.size "")) with 0. split_and!; [nia|done|intros; lia].
Qed.
Lemma arrived_good f rep : arrived f = Some rep → ∃ rep', rep = Some rep' ∧ good_reply len bytes f rep'.
Proof. unfold arrived. destruct (Z.leb_spec 0 (f_sec f)); [|done]. intros [= <-]. eexists. by split; [|apply reply_good]. Qed.
Lemma r1_change : rtc (change len bytes) r0 r1.
Proof.
  destruct (change_task_ends len bytes node "a" 0 2 r0) as (ok & r' & Hrun & Hc); [apply start_sound|lia|lia|by vm_compute|].
  apply rtc_once. unfold r1, after. by rewrite Hrun.
Qed.
Lemma r2_change : rtc (change len bytes) r0 r2.
Proof.
  etrans; [exact r1_change|].
  destruct (change_callback_ends len bytes len_small never_early arrived (first r1) r1) as (r' & Hrun & Hc).
  { apply (changes_sound _ _ len_small r0 r1 (start_sound _ _ _ _ _) r1_change). }
  { exact arrived_good. }
  apply rtc_once. unfold r2, after. by rewrite Hrun.
Qed.
Lemma r2_sound : sound len bytes r2.
Proof. exact (changes_sound _ _ len_small r0 r2 (start_sound _ _ _ _ _) r2_change). Qed.

(** While a reader waits for the sector, its reply arrives. *)
Let arrives (r : t) : t * option bool :=
  match callback never_early arrived (first r1) r with (Val (), r') => (r', Some true) | _ => (r, None) end.
Lemma arrives_changes r : rtc (change len bytes) r (arrives r).1.
Proof.
  unfold arrives. destruct (callback _ _ _ r) as [[[]|] r'] eqn:Hrun; [|done].
  apply rtc_once. by apply (change_callback len bytes r never_early arrived (first r1)); [exact arrived_good|].
Qed.

(** A sector that is there, and one that comes while the reader waits. *)
Theorem status_faithful_witness :
  (∃ r', status arrives "a" 1 10 r2 = (Val (IN_BUFFER, "ello"), r') ∧ rtc (change len bytes) r0 r') ∧
  (∃ r', status arrives "a" 1 10 r1 = (Val (IN_BUFFER, "ello"), r') ∧ rtc (change len bytes) r0 r') ∧
  faithful len bytes "a" 1 10 (IN_BUFFER, "ello").
Proof.
  assert (Hin : within len "a" 1 10) by (split_and!; vm_compute; congruence).
  pose proof (status_faithful len bytes len_small arrives arrives_changes 1 64 (λ _, zero) "a" 1 10 r2 r2_change Hin) as H2.
  pose proof (status_faithful len bytes len_small arrives arrives_changes 1 64 (λ _, zero) "a" 1 10 r1 r1_change Hin) as H1.
  assert (E2 : (status arrives "a" 1 10 r2).1 = Val (IN_BUFFER, "ello")) by (vm_compute; reflexivity).
  assert (E1 : (status arrives "a" 1 10 r1).1 = Val (IN_BUFFER, "ello")) by (vm_compute; reflexivity).
  unfold wp in H1, H2.
  destruct (status arrives "a" 1 10 r2) as [[res2|] r2']; [|discriminate E2]. injection E2 as ->.
  destruct (status arrives "a" 1 10 r1) as [[res1|] r1']; [|discriminate E1]. injection E1 as ->.
  split; [exists r2'; split; [reflexivity|exact (proj1 H2)]|]. split; [exists r1'; split; [reflexivity|exact (proj1 H1)]|].
  exact (proj2 H1).
Defined.
Theorem past_end_is_answered_witness :
  wp (status alone "a" 100 10) (λ res _, res.1 = IN_BUFFER ∧ CxxString.size res.2 = 10) never r2.
Proof.
  apply (past_end_is_answered len bytes alone "a" 100 10 5 r2 r2_sound); [reflexivity|reflexivity|lia|vm_compute; split; congruence|lia|vm_compute; congruence].
Defined.

(** The callback of a read does not hold the lock while it copies: when the file
    is forgotten and another one is read ahead in between, the bytes of the first
    file ([hello]) are recorded as a sector of the second ([secret]), and served to
    its readers. *)
Theorem late_store_serves_other_file :
  let k := first r1 in
  (('(future : option fetch) ← take k;
    _ ← clear_buf "a";
    _ ← set_task node "b" false 0 2 (2 ^ 64 - 1);
    _ ← match future with Some f => store k (reply f) | None => mret () end;
    status alone "b" 0 3) r1).1 = Val (IN_BUFFER, "hel").
Proof. vm_compute. reflexivity. Qed.

(** A reader that waits in vain: [fetch_cache] unlocks a mutex it does not hold. *)
Theorem vain_wait_undefined : (status alone "a" 1 10 r1).1 = UB.
Proof. vm_compute. reflexivity. Qed.

Theorem random_read_undefined_witness : status alone "a" (2 ^ 20) 10 r2 = (UB, r2).
Proof. apply (random_read_undefined alone "a" (2 ^ 20) 10 r2); reflexivity. Defined.
End runs.
