(* ===== verification/Stack.v ===== *)
(** * From a FUSE callback to the disks

    A client (Fuse.v) in front of two centres (Cluster.v): its calls run the proxy
    they are addressed to. [fuse_refines] shows that a client that reads, writes
    and changes the centre it visits sees one file; [truncate_empties] shows what
    becomes of a length on its way from the client to the disk. *)
From S2P Require Import Prelude CxxString Json Records Datastore Instances Lru FdManager Op Files Replica ProxyOp Pages Cluster StatCache ClientZone Fuse.
Import Replication (GrpcLog, sent, channel_key, target).

(** ** One call *)
Section calls.
Context {W : Type} `{Grpc W, WriteQueue W, ReadAhead W, Udt W, Rapidjson, Indet}.
Import Fuse.
Implicit Types (c : client) (w : W).

(** The key of the channel number 0. *)
Definition client_key (node : IOProxyNode.t) : string := node.(IOProxyNode.uuid) +:+ pretty 0.
Definition opened_to (node : IOProxyNode.t) (addr : string) c : Prop :=
  c.(operators) !! client_key node = None ∧ target node = addr ∨ c.(operators) !! client_key node = Some addr.

Lemma get_operator_addr node addr c : opened_to node addr c →
  ∃ o, Fuse.get_operator node 0 c = (addr, set_operators o c) ∧
    (o = c.(operators) ∨ o = <[client_key node := addr]> c.(operators)).
Proof.
  unfold Fuse.get_operator. fold (client_key node) (target node). intros [[-> <-]| ->].
  - eexists. split; [done|by right].
  - exists c.(operators). split; [by destruct c|by left].
Qed.

Lemma submit_addr node addr r c Q w : opened_to node addr c →
  (∀ o, (o = c.(operators) ∨ o = <[client_key node := addr]> c.(operators)) →
     Q ((grpc_submit addr r w).1, set_operators o c) (grpc_submit addr r w).2) →
  wp (submit node r c) Q never w.
Proof.
  intros Ho HQ. unfold submit. destruct (get_operator_addr _ _ _ Ho) as (o & -> & Hoo).
  apply wp_bind, wp_extern, wp_ret. auto.
Qed.

(** A truncation, as it leaves the client. *)
Context {D : Type} `{Posix D, !Fs D, Roaring, Allocator, Grpc D, Protobuf, !GrpcLog W}.

(** Whatever the length asked for, a truncation empties the file: the client
    puts the length into the parameter of reads and writes, and the proxy takes it
    from the field [size], which nobody has set. *)
Theorem truncate_empties path n c iop rpath g walk_fuel w :
  ClientGraph.get_mapping path c.(zone) c.(graph) = Some (Some iop, rpath, g) →
  wp (gvdsfs_truncate path n c) (λ _ w', ∃ addr req, sent w' = sent w ++ [(addr, req)] ∧
    ∀ reply (p : IOProxy.t), ProxyOP.perform (W := D) walk_fuel req reply p =
      (ec ← extern (fs_resize_file (p.(IOProxy.data_path) /+ rpath) 0);
       mret (OpReply.set_err_code (- ec) reply, p))) never w.
Proof.
  intros Hm. unfold gvdsfs_truncate, forward, Fuse.get_mapping. rewrite Hm.
  wp_step. wp_step. wp_step. wp_step. wp_step. wp_step. unfold send. wp_step.
  unfold submit. destruct (Fuse.get_operator iop 0 _) as [oper c'] eqn:Ho. wp_step. apply wp_extern. wp_step. wp_step.
  eexists _, _. split; [apply Replication.submit_logs|]. done.
Qed.
End calls.

(** ** A client of two centres *)
Section stack.
Context {D : Type} `{Posix D, !PosixLaws D, !Fs D, !FaultFreeDisk D, Roaring, Allocator, Grpc D, Protobuf, Rapidjson, Indet}.
Variable walk_fuel : nat.
Notation centres2 := (site (D := D) * site (D := D))%type.

(** The client's calls: the proxy at the address handles the request, and the
    flusher runs before the client goes on. *)
#[export] Instance client_net : Grpc centres2 := {|
  grpc_submit addr r w :=
    let '(reply, w) :=
      if String.eqb addr (s_addr w.1) then at_left walk_fuel r w
      else if String.eqb addr (s_addr w.2) then at_right walk_fuel r w else (UB, w) in
    (match reply with Val reply => Some reply | UB => None end, w);
|}.
Context `{!WriteQueue centres2, !ReadAhead centres2, !Udt centres2}.
Variable ra_fuel : nat.
Import Fuse.

(** The path of the file on the client, the space it is in, and the file on the
    proxies. *)
Variables (path rpath file spacedir cids : string) (zn : Zone.t) (sp : Space.t) (z : ClientZone.t).
Hypothesis Hloc : ClientZone.locatePosition path z = Some (Some zn, Some sp, rpath).
Hypothesis Hdeep : ∀ w : centres2, too_high path w = (Val false, w).
Hypothesis Hfile : sp.(Space.spacePath) +:+ rpath = file.
Hypothesis Hspace : path_begin file = Some spacedir.
Hypothesis Hcids : 2 ≤ CxxString.size cids ≤ 256.
(** The two centres: their identifiers on the client, their lists of proxies with
    the first one that runs, and where it listens. *)
Variables (cl cr : string) (ll lr : list IOProxyNode.t) (nl nr : IOProxyNode.t) (al ar : string).
Hypothesis Hll : ClientGraph.first_running ll = Some nl.
Hypothesis Hlr : ClientGraph.first_running lr = Some nr.
Hypothesis Hkeys : client_key nl ≠ client_key nr.
Hypothesis Haddrs : al ≠ ar.
Variables (me other : centre).
Hypothesis Hpart : partners cids me other.

(** The centre the client visits. *)
Definition visits (c : client) : string :=
  default sp.(Space.hostCenterID) (c.(graph).(ClientGraph.force_map) !! sp.(Space.spaceID)).

(** A client that can reach both, with plain synchronous transport. *)
Definition client_ok (c : client) : Prop :=
  c.(zone) = z ∧ c.(graph).(ClientGraph.readers) = 0%nat ∧
  c.(graph).(ClientGraph.ioproxy_list) !! cl = Some ll ∧ c.(graph).(ClientGraph.ioproxy_list) !! cr = Some lr ∧
  (visits c = cl ∨ visits c = cr) ∧ opened_to nl al c ∧ opened_to nr ar c ∧
  c.(use_udt) = false ∧ c.(async_mode) = false ∧ c.(readahead) = 0.
Definition stack_inv (f : Z * (Z → ascii)) (c : client) (w : centres2) : Prop :=
  client_ok c ∧ s_addr w.1 = al ∧ s_addr w.2 = ar ∧ cluster_inv file spacedir cids me other f.1 f.2 w.1 w.2.

(** What a client does. *)
Inductive client_op : Type :=
| Data (op : file_op)
| Visit (right_centre : bool).
Definition client_after (op : client_op) (f : Z * (Z → ascii)) : Z * (Z → ascii) :=
  match op with Data op => file_after op f | Visit _ => f end.
(** The result and the buffer, as the kernel sees them. *)
Definition client_answer (op : client_op) (f : Z * (Z → ascii)) (res : Z) (buf : string) : Prop :=
  match op with
  | Data (Write off s) => res = CxxString.size s
  | Data (Read off len) => res = Z.min len (Z.max 0 (f.1 - off)) ∧ ∀ i, 0 ≤ i < res → byte_at buf i = f.2 (off + i)
  | Visit _ => res = 0
  end.
Definition client_in_bounds (op : client_op) (n : Z) : Prop :=
  match op with Data op => in_bounds op n | Visit _ => True end.

Definition callback (op : client_op) (c : client) : M centres2 (Z * string * client) :=
  match op with
  | Data (Write off s) => '(res, c) ← gvdsfs_write path s off c; mret (res, "", c)
  | Data (Read off len) => gvdsfs_read ra_fuel path (HvsFileHandler.zeros (Z.to_nat len)) len off c
  | Visit rhs => '(res, c) ← gvdsfs_setxattr path "user.gvds.visit.force" (if rhs : bool then cr else cl) 0 c; mret (res, "", c)
  end.

(** ** Proofs *)

Lemma mapping_ok c : client_ok c → ∃ g node addr, ClientGraph.get_mapping path c.(zone) c.(graph) = Some (Some node, file, g) ∧
  client_ok (set_graph g c) ∧ opened_to node addr c ∧ (node = nl ∧ addr = al ∨ node = nr ∧ addr = ar).
Proof.
  intros (Hz & Hr & Hcl & Hcr & Hv & Hol & Hor & Hu & Has & Hra). unfold ClientGraph.get_mapping. rewrite Hz, Hloc.
  unfold mbind, option_bind. cbn [ClientGraph.ioproxy_list ClientGraph.force_map]. fold (visits c).
  assert (Hc : ∃ l node addr, c.(graph).(ClientGraph.ioproxy_list) !! visits c = Some l ∧ ClientGraph.first_running l = Some node ∧
    opened_to node addr c ∧ (node = nl ∧ addr = al ∨ node = nr ∧ addr = ar)).
  { destruct Hv as [-> | ->]; [exists ll, nl, al|exists lr, nr, ar]; split_and!; auto. }
  destruct Hc as (l & node & addr & Hl & Hf & Ho & Hn). rewrite Hl, Hf, Hfile. eexists _, _, _. split; [done|].
  split_and!; [|exact Ho|exact Hn]. split_and!; try done.
Qed.

Lemma set_operators_ok c node addr o : client_ok c → opened_to node addr c → (node = nl ∧ addr = al ∨ node = nr ∧ addr = ar) →
  o = c.(operators) ∨ o = <[client_key node := addr]> c.(operators) → client_ok (set_operators o c).
Proof.
  intros (Hz & Hr & Hcl & Hcr & Hv & Hol & Hor & Hu & Has & Hra) Ho Hn Hoo.
  destruct Hoo as [-> | ->]; [by split_and!|]. split_and!; try done; unfold opened_to; cbn [operators set_operators].
  - destruct Hn as [[-> ->]|[-> ->]]; [right; by rewrite lookup_insert_eq|by rewrite lookup_insert_ne].
  - destruct Hn as [[-> ->]|[-> ->]]; [by rewrite lookup_insert_ne|right; by rewrite lookup_insert_eq].
Qed.

(** What follows is where the proxies' allocator hands a freed block out again at once. *)
Section reused.
Hypothesis Hheap : reuses_freed_block = true.

(** One call of the client. *)
Lemma client_submit_ok f c w op node addr Q :
  stack_inv f c w → in_bounds op f.1 → opened_to node addr c → (node = nl ∧ addr = al ∨ node = nr ∧ addr = ar) →
  (∀ reply c' w', file_answer op f reply → stack_inv (file_after op f) c' w' → Q (Some reply, c') w') →
  wp (submit node (to_request file op) c) Q never w.
Proof.
  intros (Hc & Hl & Hr & Hinv) Hop Ho Hn HQ. apply (submit_addr _ addr); [done|]. intros o Hoo.
  assert (Hco : client_ok (set_operators o c)) by (by eapply set_operators_ok).
  assert (Hcall : ∃ reply w', grpc_submit addr (to_request file op) w = (Some reply, w') ∧ file_answer op f reply ∧
    s_addr w'.1 = al ∧ s_addr w'.2 = ar ∧ cluster_inv file spacedir cids me other (file_after op f).1 (file_after op f).2 w'.1 w'.2).
  { cbn [grpc_submit client_net]. destruct Hn as [[-> ->]|[-> ->]].
    - rewrite Hl, String.eqb_refl.
      destruct (at_left_ok walk_fuel file spacedir cids Hspace Hcids Hheap me other op f w Hpart Hinv Hop)
        as (reply & w' & Hrun & Hans & Ha & Hb & Hinv'). rewrite Hrun. exists reply, w'. split_and!; congruence || done.
    - rewrite Hl, Hr, String.eqb_refl. destruct (String.eqb_spec ar al) as [He|_]; [by destruct Haddrs|].
      destruct (at_right_ok walk_fuel file spacedir cids Hspace Hcids Hheap me other op f w Hpart Hinv Hop)
        as (reply & w' & Hrun & Hans & Ha & Hb & Hinv'). rewrite Hrun. exists reply, w'. split_and!; congruence || done. }
  destruct Hcall as (reply & w' & -> & Hans & Hl' & Hr' & Hinv'). apply HQ; [done|]. by split_and!.
Qed.

End reused.

Lemma expire_stat_ok p c : client_ok c → client_ok (expire_stat p c).
Proof. intros Hc. unfold expire_stat. by destruct (caching c). Qed.
Lemma opened_expire p node addr c : opened_to node addr c → opened_to node addr (expire_stat p c).
Proof. unfold expire_stat. by destruct (caching c). Qed.

Lemma to_u64_small x : 0 ≤ x < 2 ^ 63 → to_u64 x = x.
Proof. apply HvsFileHandler.unsigned_id. Qed.

Lemma byte_at_blit bytes buf i : 0 ≤ i < CxxString.size bytes → byte_at (blit bytes buf) i = byte_at bytes i.
Proof. apply byte_at_app_l. Qed.

(** The callbacks on the file. *)
Lemma write_ok f c w off s : reuses_freed_block = true → stack_inv f c w → in_bounds (Write off s) f.1 →
  wp (gvdsfs_write path s off c) (λ '(res, c') w', res = CxxString.size s ∧ stack_inv (file_after (Write off s) f) c' w') never w.
Proof.
  intros Hheap (Hc & Hw) Hop. pose proof Hop as (Hoff & Hsz & Hmax). unfold gvdsfs_write, Fuse.get_mapping.
  destruct (mapping_ok c Hc) as (g & node & addr & -> & Hg & Ho & Hn). wp_step. wp_step. wp_step. wp_step.
  pose proof Hg as (_ & _ & _ & _ & _ & _ & _ & _ & Has & Hra). rewrite Hra. change (negb (0 =? 0)) with false. cbn iota.
  wp_step. wp_step. assert (Hasx : async_mode (expire_stat file (set_graph g c)) = false).
  { unfold expire_stat. by destruct (caching _). }
  rewrite Hasx. unfold send. unfold io_param. rewrite !to_u64_small by lia. wp_step.
  apply (client_submit_ok Hheap f _ _ (Write off s) node addr); [split; [by apply expire_stat_ok|done]|done|by apply opened_expire|done|].
  intros reply c' w' Hans Hinv'. wp_step. by split.
Qed.

Lemma read_ok f c w off len buf : reuses_freed_block = true → stack_inv f c w → in_bounds (Read off len) f.1 →
  wp (gvdsfs_read ra_fuel path buf len off c) (λ '(res, buf', c') w', res = Z.min len (Z.max 0 (f.1 - off)) ∧
    (∀ i, 0 ≤ i < res → byte_at buf' i = f.2 (off + i)) ∧ stack_inv f c' w') never w.
Proof.
  intros Hheap (Hc & Hw) Hop. pose proof Hop as ((Hoff & Hlen & _) & Hmax). unfold gvdsfs_read, Fuse.get_mapping.
  destruct (mapping_ok c Hc) as (g & node & addr & -> & Hg & Ho & Hn). wp_step. wp_step. wp_step. wp_step.
  pose proof Hg as (_ & _ & _ & _ & _ & _ & _ & Hu & _ & Hra). rewrite Hra. change (negb (0 =? 0)) with false. cbn iota.
  wp_step. wp_step. rewrite Hu. unfold io_param. rewrite !to_u64_small by lia. wp_step.
  apply (client_submit_ok Hheap f _ _ (Read off len) node addr); [by split|done|done|done|].
  intros reply c' w' (Hn' & Hsz & Hd) Hinv'. apply wp_if; intros Hpos; [apply wp_ret; split_and!; [done|lia|done]|].
  wp_step. apply bytes_of_ok; [lia..|]. intros b Hb Hbb. wp_step. split_and!; [done| |done].
  intros i Hi. rewrite byte_at_blit by lia. rewrite Hbb by lia. by apply Hd.
Qed.

Lemma visit_ok f c w rhs : stack_inv f c w →
  wp (gvdsfs_setxattr path "user.gvds.visit.force" (if rhs : bool then cr else cl) 0 c)
    (λ '(res, c') w', res = 0 ∧ w' = w ∧ stack_inv f c' w') never w.
Proof.
  intros (Hc & Hw). pose proof Hc as (Hz & Hr & Hcl & Hcr & Hv & Hol & Hor & Hfl). unfold gvdsfs_setxattr.
  apply wp_bind. unfold wp at 1. rewrite Hdeep. rewrite String.eqb_refl. unfold ClientGraph.set_force_mapping.
  rewrite Hz, Hloc. unfold mbind at 2, option_bind. rewrite Hr. cbn [Nat.eqb]. wp_step. wp_step. wp_step. split; [done|]. split; [done|].
  split; [|done]. split_and!; try done; try apply Hfl.
  unfold visits. cbn [graph set_graph ClientGraph.force_map]. rewrite lookup_insert_eq. destruct rhs; [by right|by left].
Qed.

Lemma callback_ok f c w op : reuses_freed_block = true → stack_inv f c w → client_in_bounds op f.1 →
  wp (callback op c) (λ '(res, buf, c') w', client_answer op f res buf ∧ stack_inv (client_after op f) c' w') never w.
Proof.
  intros Hheap Hinv Hop. destruct op as [[off s|off len]|rhs]; cbn [callback client_after client_answer].
  - wp_step. eapply wp_mono; [| |by apply (write_ok f c w off s)]; [|done]. intros [res c'] w' [-> Hi]. by apply wp_ret.
  - eapply wp_mono; [| |by apply (read_ok f c w off len)]; [|done]. intros [[res buf] c'] w' (-> & Hd & Hi). by split_and!.
  - wp_step. eapply wp_mono; [| |by apply (visit_ok f c w rhs)]; [|done]. intros [res c'] w' (-> & _ & Hi). by apply wp_ret.
Qed.

(** A history of the client: the results and buffers, up to the first crash. *)
Fixpoint client_run (ops : list client_op) (c : client) (w : centres2) : list (Z * string) * client * centres2 :=
  match ops with
  | [] => ([], c, w)
  | op :: ops =>
      match callback op c w with
      | (Val (res, buf, c), w) => let '(rs, c, w) := client_run ops c w in ((res, buf) :: rs, c, w)
      | (UB, w) => ([], c, w)
      end
  end.
Fixpoint client_answers (ops : list client_op) (rs : list (Z * string)) (f : Z * (Z → ascii)) : Prop :=
  match ops, rs with
  | [], [] => True
  | op :: ops, (res, buf) :: rs => client_answer op f res buf ∧ client_answers ops rs (client_after op f)
  | _, _ => False
  end.
Fixpoint client_all_in_bounds (ops : list client_op) (f : Z * (Z → ascii)) : Prop :=
  match ops with
  | [] => True
  | op :: ops => client_in_bounds op f.1 ∧ client_all_in_bounds ops (client_after op f)
  end.

(** Where the block is not handed out again, a call is answered by nobody. *)
Lemma submit_unanswered f c w op node addr (Q : option OpReply.t * client → centres2 → Prop) :
  reuses_freed_block = false → stack_inv f c w → opened_to node addr c → (node = nl ∧ addr = al ∨ node = nr ∧ addr = ar) →
  (∀ c', client_ok c' → Q (None, c') w) → wp (submit node (to_request file op) c) Q never w.
Proof.
  intros Hheap (Hc & Hl & Hr & Hinv) Ho Hn HQ. apply (submit_addr _ addr); [done|]. intros o Hoo.
  assert (Hco : client_ok (set_operators o c)) by (by eapply set_operators_ok).
  enough (grpc_submit addr (to_request file op) w = (None, w)) as -> by (cbn [fst snd]; by apply HQ).
  destruct (request_ends walk_fuel file spacedir cids me other _ _ w op Hheap Hinv) as [Hleft Hright].
  cbn [grpc_submit client_net]. destruct Hn as [[_ ->]|[_ ->]]; rewrite Hl, ?Hr, ?String.eqb_refl; [by rewrite Hleft|].
  destruct (String.eqb_spec ar al) as [He|_]; [by destruct Haddrs|]. by rewrite Hright.
Qed.
(** The answer to a call that no proxy lives to answer. *)
Definition client_failure (op : client_op) (res : Z) : Prop :=
  res = match op with Data _ => - ENOENT | Visit _ => 0 end.
Lemma callback_fails f c w op n : reuses_freed_block = false → stack_inv f c w → client_in_bounds op n →
  wp (callback op c) (λ '(res, buf, c') w', client_failure op res ∧ w' = w ∧ stack_inv f c' w) never w.
Proof.
  intros Hheap Hinv Hop. pose proof Hinv as (Hc & Hw). destruct op as [[off s|off len]|rhs]; cbn [callback].
  - pose proof Hop as (Hoff & Hsz & Hmax). wp_step. unfold gvdsfs_write, Fuse.get_mapping.
    destruct (mapping_ok c Hc) as (g & node & addr & -> & Hg & Ho & Hn). wp_step. wp_step. wp_step. wp_step.
    pose proof Hg as (_ & _ & _ & _ & _ & _ & _ & _ & Has & Hra). rewrite Hra. change (negb (0 =? 0)) with false. cbn iota.
    wp_step. wp_step. assert (Hasx : async_mode (expire_stat file (set_graph g c)) = false).
    { unfold expire_stat. by destruct (caching _). }
    rewrite Hasx. unfold send. unfold io_param. rewrite !to_u64_small by lia. wp_step.
    apply (submit_unanswered f _ _ (Write off s) node addr); [done|split; [by apply expire_stat_ok|done]|by apply opened_expire|done|].
    intros c' Hc'. wp_step. wp_step. by split_and!.
  - pose proof Hop as ((Hoff & Hlen & _) & Hmax). unfold gvdsfs_read, Fuse.get_mapping.
    destruct (mapping_ok c Hc) as (g & node & addr & -> & Hg & Ho & Hn). wp_step. wp_step. wp_step. wp_step.
    pose proof Hg as (_ & _ & _ & _ & _ & _ & _ & Hu & _ & Hra). rewrite Hra. change (negb (0 =? 0)) with false. cbn iota.
    wp_step. wp_step. rewrite Hu. unfold io_param. rewrite !to_u64_small by lia. wp_step.
    apply (submit_unanswered f _ _ (Read off len) node addr); [done|by split|done|done|].
    intros c' Hc'. wp_step. by split_and!.
  - wp_step. eapply wp_mono; [| |by apply (visit_ok f c w rhs)]; [|done].
    intros [res c'] w' (-> & -> & Hi). by apply wp_ret.
Qed.

(** C2: a client sees one file, as far as one line of [FdManager::open] lets it. Two
    centres hold a file between them, open in both proxies, on disks and a network
    without faults; the client works alone, synchronously and without read-ahead. It
    writes within 2 GiB, reads whole pages and changes the centre it visits, in any
    order. Every request makes its proxy open the path again, which reads a list node
    just freed. Where the proxies' allocator has handed that block out again for the
    node put in its place, every callback of FUSE returns what the one file would
    answer (the length written, the number of bytes up to the end of the file, and
    those bytes in the buffer) and neither the client nor a proxy crashes; where it
    has not, a request sent to either proxy ends it, every callback that needs one
    returns -ENOENT, and both disks stay as they were. *)
Theorem fuse_refines ops f c w : stack_inv f c w → client_all_in_bounds ops f →
  let '(rs, c', w') := client_run ops c w in
  if reuses_freed_block then
    client_answers ops rs f ∧ stack_inv (foldl (λ f op, client_after op f) f ops) c' w'
  else
    (∀ op, at_left walk_fuel (to_request file op) w = (UB, w) ∧ at_right walk_fuel (to_request file op) w = (UB, w)) ∧
    Forall2 (λ op r, client_failure op r.1) ops rs ∧ w' = w.
Proof.
  destruct reuses_freed_block eqn:Hheap.
  - revert f c w. induction ops as [|op ops IH]; intros f c w Hinv Hops; cbn [client_run]; [done|].
    destruct Hops as [Hop Hops]. destruct (wp_run _ _ _ (callback_ok f c w op Hheap Hinv Hop)) as ([[res buf] c'] & w' & -> & Hans & Hinv').
    specialize (IH _ _ _ Hinv' Hops). destruct (client_run ops c' w') as [[rs c''] w'']. destruct IH as [Ha Hi]. by split_and!.
  - intros Hinv Hops. enough (let '(rs, _, w') := client_run ops c w in Forall2 (λ op r, client_failure op r.1) ops rs ∧ w' = w) as Hgoal.
    { destruct (client_run ops c w) as [[rs c'] w']. split; [|done]. intros op. destruct Hinv as (_ & _ & _ & Hcl).
      exact (request_ends walk_fuel file spacedir cids me other _ _ w op Hheap Hcl). }
    revert Hops. generalize f at 1 as g. revert c Hinv. induction ops as [|op ops IH]; intros c Hinv g; cbn [client_run]; [done|].
    intros [Hop Hops]. destruct (wp_run _ _ _ (callback_fails f c w op _ Hheap Hinv Hop)) as ([[res buf] c'] & w' & -> & Hans & -> & Hinv').
    specialize (IH c' Hinv' _ Hops). destruct (client_run ops c' w) as [[rs c''] w'']. destruct IH as [Ha ->]. split; [|done]. by constructor.
Qed.
End stack.
