(* ===== verification/AsyncWrites.v ===== *)
(** * Asynchronous writes and the file

    What the transition system of WriteQueue.v does to the file the writes go to.
    [RemoteFile] is what the proxies promise: a call is one step that writes a part
    of its buffer, the whole of it when the reply says so. It is discharged for two
    centres in [centres_file], and for any such proxies behind a network that loses
    calls and replies in [lossy_file]. [async_writes_settle] shows that writes that
    do not overlap what is still pending leave the file they would leave one after
    the other, outside what the failed calls were to write: the callback of a call
    runs whether it succeeded or not, so the buffer of a failed one is gone. *)
From S2P Require Import Prelude CxxString Json Records Datastore Instances Lru FdManager Op Files Replica ProxyOp Pages Cluster StatCache ClientZone Fuse Stack Pool WriteQueue.

(** ** Buffers as pieces of a file *)
Local Notation file := (Z * (Z → ascii))%type.
Implicit Types (f g : Z * (Z → ascii)) (b : buffer).

Definition end_of b : Z := b.(Buffer.offset) + Buffer.size b.
Definition covers b (x : Z) : Prop := b.(Buffer.offset) ≤ x < end_of b.
Definition apart b b' : Prop := end_of b ≤ b'.(Buffer.offset) ∨ end_of b' ≤ b.(Buffer.offset).
#[export] Instance apart_dec b b' : Decision (apart b b').
Proof. unfold apart. apply _. Defined.
Definition written b f : file := file_after (Write b.(Buffer.offset) b.(Buffer.buf)) f.
Definition same_bytes f g : Prop := f.1 = g.1 ∧ ∀ x, f.2 x = g.2 x.

(** [g] is [f] with all of [l] written, in whatever order: it agrees with every
    buffer of [l] where that buffer is, and with [f] elsewhere. *)
Definition yields (l : list buffer) f g : Prop :=
  f.1 ≤ g.1 ∧ (∀ b, b ∈ l → end_of b ≤ g.1) ∧ (g.1 = f.1 ∨ ∃ b, b ∈ l ∧ g.1 = end_of b) ∧
  (∀ b x, b ∈ l → covers b x → g.2 x = byte_at b.(Buffer.buf) (x - b.(Buffer.offset))) ∧
  ∀ x, (∀ b, b ∈ l → ¬ covers b x) → g.2 x = f.2 x.

#[export] Instance yields_perm : Proper ((≡ₚ) ==> eq ==> eq ==> iff) yields.
Proof. intros l l' Hl f _ <- g _ <-. unfold yields. by setoid_rewrite Hl. Qed.

Lemma yields_nil f g : yields [] f g → same_bytes f g.
Proof.
  intros (_ & _ & Hn & _ & Hf). split.
  - destruct Hn as [?|(b & Hb & _)]; [done|by apply elem_of_nil in Hb].
  - intros x. symmetry. apply Hf. by intros b ?%elem_of_nil.
Qed.
Lemma yields_refl f : yields [] f f.
Proof. split_and!; [lia|by intros b ?%elem_of_nil|by left|by intros b x ?%elem_of_nil|done]. Qed.

Lemma written_covered b f x : covers b x → (written b f).2 x = byte_at b.(Buffer.buf) (x - b.(Buffer.offset)).
Proof. apply overwrite_inside. Qed.
Lemma written_other b f x : ¬ covers b x → (written b f).2 x = f.2 x.
Proof. unfold covers, end_of. intros Hx. apply overwrite_outside. unfold Buffer.size in Hx. lia. Qed.
Lemma covers_dec b x : covers b x ∨ ¬ covers b x.
Proof. unfold covers. lia. Qed.

(** One of the buffers is executed. *)
Lemma yields_execute b l f g : yields (b :: l) f g → yields l (written b f) g.
Proof.
  intros (Hf & He & Hn & Hc & Ho). assert (Hb := He b ltac:(by left)).
  assert (Hsz : (written b f).1 = Z.max f.1 (end_of b)) by done. split_and!.
  - lia.
  - intros b' Hb'. apply He. by right.
  - rewrite Hsz. destruct Hn as [Hn|(b' & [->|Hb']%elem_of_cons & Hn)]; [left; lia|left; lia|right; eauto].
  - intros b' x Hb'. apply Hc. by right.
  - intros x Hx. destruct (covers_dec b x) as [Hbx|Hbx].
    + rewrite written_covered by done. apply Hc; [by left|done].
    + rewrite written_other by done. apply Ho. intros b' [->|Hb']%elem_of_cons; [done|by apply Hx].
Qed.
(** A new one that overlaps none of them. *)
Lemma yields_arrive b l f g : yields l f g → 0 ≤ Buffer.size b → (∀ b', b' ∈ l → apart b b') → yields (b :: l) f (written b g).
Proof.
  intros (Hf & He & Hn & Hc & Ho) _ Hd. assert (Hsz : (written b g).1 = Z.max g.1 (end_of b)) by done. split_and!.
  - lia.
  - rewrite Hsz. intros b' [->|Hb']%elem_of_cons; [lia|]. specialize (He b' Hb'). lia.
  - rewrite Hsz. destruct (Z.le_gt_cases (end_of b) g.1).
    + destruct Hn as [Hn|(b' & Hb' & Hn)]; [left; lia|right]. exists b'. split; [by right|lia].
    + right. exists b. split; [by left|lia].
  - intros b' x [->|Hb']%elem_of_cons Hx; [by apply written_covered|]. rewrite written_other; [by apply Hc|].
    specialize (Hd b' Hb'). unfold apart, covers in *. lia.
  - intros x Hx. rewrite written_other by (apply Hx; by left). apply Ho. intros b' Hb'. apply Hx. by right.
Qed.
(** Two that follow on become one. *)
Lemma yields_merge last_buf b l f g : end_of last_buf = b.(Buffer.offset) →
  yields (last_buf :: b :: l) f g → yields (Buffer.append b.(Buffer.buf) last_buf :: l) f g.
Proof.
  intros Hend (Hf & He & Hn & Hc & Ho). pose proof (size_pos b). pose proof (size_pos last_buf).
  assert (Hm : end_of (Buffer.append b.(Buffer.buf) last_buf) = end_of b).
  { unfold end_of in *. rewrite size_append. fold (Buffer.size b). cbn. lia. }
  assert (Hcov : ∀ x, covers (Buffer.append b.(Buffer.buf) last_buf) x ↔ covers last_buf x ∨ covers b x).
  { intros x. unfold covers. rewrite Hm. unfold end_of in *. cbn. lia. }
  assert (Hin : ∀ b', b' ∈ l → b' ∈ last_buf :: b :: l) by (intros; by do 2 right).
  assert (Hb := He b ltac:(right; by left)). split_and!.
  - done.
  - intros b' [->|Hb']%elem_of_cons; [by rewrite Hm|by apply He, Hin].
  - destruct Hn as [Hn|(b' & Hb' & Hn)]; [by left|right].
    apply elem_of_cons in Hb' as [->|Hb']; [|apply elem_of_cons in Hb' as [->|Hb']].
    + exists (Buffer.append b.(Buffer.buf) last_buf). split; [by left|]. rewrite Hm. unfold end_of in *. lia.
    + exists (Buffer.append b.(Buffer.buf) last_buf). split; [by left|]. by rewrite Hm.
    + exists b'. split; [by right|done].
  - intros b' x [->|Hb']%elem_of_cons Hx; [|by apply Hc; [apply Hin|]]. apply Hcov in Hx as [Hx|Hx].
    + rewrite (Hc last_buf x) by (done || by left). unfold covers, end_of, Buffer.size in Hx.
      cbn [Buffer.append Buffer.buf Buffer.offset]. by rewrite byte_at_app_l by lia.
    + rewrite (Hc b x) by (done || (right; by left)). unfold covers, end_of, Buffer.size in *.
      cbn [Buffer.append Buffer.buf Buffer.offset].
      replace (x - Buffer.offset last_buf) with (CxxString.size (Buffer.buf last_buf) + (x - Buffer.offset b)) by lia.
      by rewrite byte_at_app_r by lia.
  - intros x Hx. apply Ho. intros b' Hb'. apply elem_of_cons in Hb' as [->|Hb']; [|apply elem_of_cons in Hb' as [->|Hb']].
    + intros Hbx. apply (Hx (Buffer.append b.(Buffer.buf) last_buf)); [by left|]. apply Hcov. by left.
    + intros Hbx. apply (Hx (Buffer.append b.(Buffer.buf) last_buf)); [by left|]. apply Hcov. by right.
    + apply Hx. by right.
Qed.

(** ** What the proxies promise *)

(** The first [k] bytes of a buffer are written. *)
Definition written_part (k : Z) b f : file :=
  if k =? 0 then f else file_after (Write b.(Buffer.offset) (CxxString.substr 0 (Z.to_nat k) b.(Buffer.buf))) f.
(** The reply says that all of it is. *)
Definition accepted b (reply : option OpReply.t) : bool :=
  match reply with Some reply => reply.(OpReply.err_code) =? Buffer.size b | None => false end.

Lemma written_part_all b f : 0 < Buffer.size b → written_part (Buffer.size b) b f = written b f.
Proof.
  intros Hb. unfold written_part. destruct (Z.eqb_spec (Buffer.size b) 0); [lia|]. unfold Buffer.size, CxxString.size, substr.
  rewrite Nat2Z.id. cbn [str_drop]. by rewrite str_take_all.
Qed.

(** The file at a path, as the proxies at some addresses hold it between them. *)
Class RemoteFile (W : Type) `{Grpc W} (path : string) (serves : string → Prop) : Type := {
  remote : file → W → Prop;
  remote_ext f g w : same_bytes f g → remote f w → remote g w;
  remote_write f w addr b : serves addr → b.(Buffer.path) = path →
    0 ≤ b.(Buffer.offset) → 0 < Buffer.size b → end_of b < 2 ^ 31 →
    remote f w → let '(reply, w') := grpc_submit addr (write_of b) w in
    ∃ k, 0 ≤ k ≤ Buffer.size b ∧ remote (written_part k b f) w' ∧ (accepted b reply = true → k = Buffer.size b);
}.

(** ** Calls that fail *)

(** [f] is [h] except for what the buffers in [lost] were to write. *)
Definition short (lost : list buffer) f h : Prop :=
  f.1 ≤ h.1 ∧ (∀ x, (∀ b, b ∈ lost → ¬ covers b x) → f.2 x = h.2 x) ∧ (lost = [] → f.1 = h.1).

Lemma short_refl f : short [] f f.
Proof. by split_and!. Qed.
Lemma short_execute lost k b f h (ok : bool) : short lost f h → 0 < Buffer.size b → 0 ≤ k ≤ Buffer.size b →
  (ok = true → k = Buffer.size b) → short ((if ok then [] else [b]) ++ lost) (written_part k b f) (written b h).
Proof.
  intros (Hn & Hx & He) Hb Hk Hok. destruct ok; cbn [app].
  - rewrite Hok, written_part_all by done. split_and!.
    + cbn. lia.
    + intros x Hl. destruct (covers_dec b x); [by rewrite !written_covered|]. rewrite !written_other by done. by apply Hx.
    + intros Hl. cbn. rewrite He by done. done.
  - assert (Hlen : (written b h).1 = Z.max h.1 (end_of b)) by done.
    unfold written_part. destruct (Z.eqb_spec k 0) as [->|Hk0].
    + split_and!; [rewrite Hlen; lia| |done]. intros x Hl. rewrite written_other by (apply Hl; by left).
      apply Hx. intros b' Hb'. apply Hl. by right.
    + assert (Hs : CxxString.size (CxxString.substr 0 (Z.to_nat k) b.(Buffer.buf)) = k).
      { unfold Buffer.size, CxxString.size in *. unfold substr. cbn [str_drop]. rewrite length_str_take. lia. }
      split_and!; [|intros x Hl|done].
      * rewrite Hlen. cbn. rewrite Hs. unfold end_of. lia.
      * assert (Hbx : ¬ covers b x) by (apply Hl; by left). rewrite written_other by done.
        cbn. unfold overwrite. rewrite Hs. unfold covers, end_of in Hbx.
        destruct (Z.leb_spec b.(Buffer.offset) x), (Z.ltb_spec x (b.(Buffer.offset) + k)); cbn [andb]; [lia|..];
          (apply Hx; intros b' Hb'; apply Hl; by right).
Qed.

Section settle.
Context {W : Type} `{Grpc W} (path : string) (serves : string → Prop) `{!RemoteFile W path serves}.
Implicit Types (s : system W) (q : queue).
Hypothesis Hpath : path ≠ "".

(** A write of the program to the file. *)
Definition proper b : Prop :=
  b.(Buffer.path) = path ∧ serves (Replication.target b.(Buffer.dest)) ∧
  0 ≤ b.(Buffer.offset) ∧ 0 < Buffer.size b ∧ end_of b < 2 ^ 31.
Definition data (l : list buffer) : list buffer := filter (λ b, Buffer.is_marker b = false) l.
(** What was handed over and is not executed. *)
Definition queued q : list buffer := q.(blocked) ++ q.(buf_waiting_line) ++ q.(batch).
Definition pending s : list buffer :=
  data (queued s.(sys_queue) ++ (mjoin s.(schedulers) ≫= posted) ++ (call_buf <$> s.(calls))).
#[local] Arguments pending : simpl never.
(** The channels to the proxies lead there. *)
Definition channels_lead s : Prop := ∀ (node : IOProxyNode.t) (ch : Z) addr,
  serves (Replication.target node) →
  s.(rpc).(Fuse.operators) !! (node.(IOProxyNode.uuid) +:+ pretty ch) = Some addr → serves addr.
(** [h] is what the file would be, had no call failed. *)
Definition converges (lost : list buffer) g s : Prop :=
  wired s ∧ channels_lead s ∧ (∀ c, c ∈ s.(calls) → serves c.(call_to)) ∧ (∀ b, b ∈ pending s → proper b) ∧
  ∃ f h, remote f s.(world) ∧ short lost f h ∧ yields (pending s) h g.
(** The buffer of a call that the action executes and that fails. *)
Definition loses (a : action) s : list buffer :=
  match a with
  | Execute i =>
      match s.(calls) !! i with
      | Some c => if accepted c.(call_buf) (grpc_submit c.(call_to) (write_of c.(call_buf)) s.(world)).1 then [] else [c.(call_buf)]
      | None => []
      end
  | _ => []
  end.

Lemma proper_data b : proper b → Buffer.is_marker b = false.
Proof. intros (Hp & _). unfold Buffer.is_marker. rewrite Hp. by apply String.eqb_neq. Qed.
#[local] Instance data_perm : Proper ((≡ₚ) ==> (≡ₚ)) data.
Proof. intros l l' Hl. unfold data. by rewrite Hl. Qed.
Lemma data_app l l' : data (l ++ l') = data l ++ data l'.
Proof. apply filter_app. Qed.
Lemma data_one b : data [b] = if Buffer.is_marker b then [] else [b].
Proof. unfold data. cbn. by destruct (Buffer.is_marker b). Qed.
Lemma data_cons b l : data (b :: l) = data [b] ++ data l.
Proof. apply (data_app [b] l). Qed.

(** A step that moves what is pending about. *)
Lemma converges_same lost g s s' : wired s' → s'.(rpc) = s.(rpc) → s'.(calls) = s.(calls) → s'.(world) = s.(world) →
  pending s' ≡ₚ pending s → converges lost g s → converges lost g s'.
Proof.
  intros Hw Hr Hc Hwd Hp (_ & Hch & Hcl & Hok & f & h & Hf & Hsh & Hy). split_and!.
  - done.
  - unfold channels_lead. by rewrite Hr.
  - by rewrite Hc.
  - intros b. rewrite Hp. apply Hok.
  - exists f, h. by rewrite Hwd, Hp.
Qed.

Lemma pending_queue q s : queued q ≡ₚ queued s.(sys_queue) → pending (set_queue q s) ≡ₚ pending s.
Proof. intros Hq. unfold pending. cbn. by rewrite Hq. Qed.
Lemma pending_event w e s : (w / s.(per_scheduler) < length s.(schedulers))%nat →
  pending (queue_event w e s) ≡ₚ data (posted e) ++ pending s.
Proof.
  intros Hw. unfold pending. cbn. rewrite join_post by done. rewrite bind_cons, !data_app. solve_Permutation.
Qed.
Lemma pending_take i e l s : s.(schedulers) !! i = Some (e :: l) →
  pending s ≡ₚ data (posted e) ++ pending (set_schedulers (<[i := l]> s.(schedulers)) s).
Proof.
  intros Hi. unfold pending. cbn. rewrite join_take by done. rewrite bind_cons, !data_app. solve_Permutation.
Qed.

(** A buffer that comes in stands behind the others, or in the last one. *)
Lemma queue_buffer_queued b block q : let q' := ClientBufferQueue.queue_buffer b block q in
  queued q' ≡ₚ b :: queued q ∨
  ∃ last_buf rest, queued q ≡ₚ last_buf :: rest ∧ queued q' ≡ₚ Buffer.append b.(Buffer.buf) last_buf :: rest ∧
    ClientBufferQueue.mergeable last_buf b = true.
Proof.
  unfold ClientBufferQueue.queue_buffer. destruct (ClientBufferQueue.merge_last _ _) as [line|] eqn:Hm.
  - right. apply merge_last_spec in Hm as (l & last_buf & Hl & -> & Hm).
    exists last_buf, (q.(blocked) ++ l ++ q.(batch)). unfold queued. cbn. rewrite Hl. split_and!; [solve_Permutation..|done].
  - left. unfold queued. destruct (_ && _); cbn; solve_Permutation.
Qed.
Lemma mergeable_spec last_buf b : ClientBufferQueue.mergeable last_buf b = true →
  last_buf.(Buffer.path) = b.(Buffer.path) ∧ to_u64 (end_of last_buf) = b.(Buffer.offset).
Proof.
  intros [[Hp%String.eqb_eq _]%andb_prop He%Z.eqb_eq]%andb_prop. by split.
Qed.

(** A write of the program that overlaps nothing that is pending. *)
Lemma arrive_converges lost g b s s' : proper b → (∀ b', b' ∈ pending s → apart b b') →
  converges lost g s → act (QueueBuffer b) s = Some s' → converges lost (written b g) s'.
Proof.
  intros Hb Hap Hs Ha. assert (Hw' : wired s') by (eapply act_wired, Ha; apply Hs).
  destruct Hs as (Hw & Hch & Hcl & Hok & f & h & Hf & Hsh & Hy). cbn in Ha. destruct (_ <=? _); [|done]. injection Ha as <-.
  pose proof (yields_arrive b _ h g Hy (size_pos b) Hap) as Hy'.
  destruct (queue_buffer_queued b true s.(sys_queue)) as [Hq|(last_buf & rest & Hq & Hq' & Hm)].
  - assert (Hp : pending (set_queue (ClientBufferQueue.queue_buffer b true (sys_queue s)) s) ≡ₚ b :: pending s).
    { unfold pending. cbn [set_queue sys_queue schedulers calls]. rewrite Hq. cbn [app].
      rewrite data_cons, data_one, (proper_data b Hb). done. }
    split_and!; [done|done|done| |].
    + intros b'. rewrite Hp. intros [->|Hb']%elem_of_cons; [done|by apply Hok].
    + exists f, h. by rewrite Hp.
  - destruct (mergeable_spec _ _ Hm) as [Hsame Hend].
    assert (Hlast : Buffer.is_marker last_buf = false) by (unfold Buffer.is_marker; rewrite Hsame; by apply proper_data).
    set (tail := data (rest ++ (mjoin s.(schedulers) ≫= posted) ++ (call_buf <$> s.(calls)))).
    assert (Hp : pending s ≡ₚ last_buf :: tail).
    { unfold pending. rewrite Hq. cbn [app]. by rewrite data_cons, data_one, Hlast. }
    set (big := Buffer.append (Buffer.buf b) last_buf).
    assert (Hp' : pending (set_queue (ClientBufferQueue.queue_buffer b true (sys_queue s)) s) ≡ₚ big :: tail).
    { unfold pending. cbn [set_queue sys_queue schedulers calls]. rewrite Hq'. cbn [app]. rewrite data_cons, data_one.
      unfold big. change (Buffer.is_marker (Buffer.append (Buffer.buf b) last_buf)) with (Buffer.is_marker last_buf).
      by rewrite Hlast. }
    destruct (Hok last_buf) as (Hl1 & Hl2 & Hl3 & Hl4 & Hl5); [rewrite Hp; by left|].
    rewrite to_u64_id in Hend by (unfold in_u64, end_of in *; lia).
    split_and!; [done|done|done| |].
    + intros b'. rewrite Hp'. intros [->|Hb']%elem_of_cons; [|apply Hok; rewrite Hp; by right].
      destruct Hb as (_ & _ & Hb3 & Hb4 & Hb5). unfold big, proper, end_of in *. rewrite size_append. fold (Buffer.size b).
      cbn. split_and!; [done|done|lia..].
    + exists f, h. split_and!; [done|done|]. rewrite Hp'. apply yields_merge; [done|]. rewrite Hp in Hy'.
      by rewrite (Permutation_swap last_buf b tail) in Hy'.
Qed.

Lemma marker_pending s : (∀ b, b ∈ pending s → proper b) →
  pending (set_queue (ClientBufferQueue.block_on_last s.(sys_queue)) s) ≡ₚ pending s.
Proof.
  intros Hok. unfold ClientBufferQueue.block_on_last. destruct (_ =? 0); [by destruct s|].
  destruct (queue_buffer_queued Buffer.fake false s.(sys_queue)) as [Hq|(last_buf & rest & Hq & Hq' & Hm)].
  - unfold pending. cbn [set_queue sys_queue schedulers calls]. rewrite Hq. cbn [app]. by rewrite data_cons, data_one.
  - destruct (mergeable_spec _ _ Hm) as [Hsame _].
    assert (Hlast : Buffer.is_marker last_buf = true) by (unfold Buffer.is_marker; by rewrite Hsame).
    unfold pending. cbn [set_queue sys_queue schedulers calls]. rewrite Hq, Hq'. cbn [app].
    rewrite (data_cons last_buf), (data_cons (Buffer.append _ _)), !data_one.
    change (Buffer.is_marker (Buffer.append _ last_buf)) with (Buffer.is_marker last_buf). by rewrite Hlast.
Qed.

(** The call of a worker. *)
Lemma get_operator_leads b ch s : proper b → channels_lead s →
  let '(oper, c) := Fuse.get_operator b.(Buffer.dest) ch s.(rpc) in
  serves oper ∧ ∀ node (ch' : Z) addr, serves (Replication.target node) →
    c.(Fuse.operators) !! (node.(IOProxyNode.uuid) +:+ pretty ch') = Some addr → serves addr.
Proof.
  intros (_ & Hd & _) Hch. unfold Fuse.get_operator. fold (Replication.target (Buffer.dest b)).
  destruct (Fuse.operators (rpc s) !! _) as [addr|] eqn:Ho; [by split; [eapply Hch|]|].
  split; [done|]. cbn [Fuse.set_operators Fuse.operators]. intros node ch' addr Hn [[_ <-]|[_ Hk]]%lookup_insert_Some; [done|by eapply Hch].
Qed.

Lemma process_converges lost w b g s : wired (process w b s) → (Buffer.is_marker b = false → proper b) →
  (w / s.(per_scheduler) < length s.(schedulers))%nat →
  channels_lead s → (∀ c, c ∈ s.(calls) → serves c.(call_to)) → (∀ b', b' ∈ data [b] ++ pending s → proper b') →
  (∃ f h, remote f s.(world) ∧ short lost f h ∧ yields (data [b] ++ pending s) h g) → converges lost g (process w b s).
Proof.
  intros Hw Hb Hlen Hch Hcl Hok (f & h & Hf & Hsh & Hy). destruct (Buffer.is_marker b) eqn:Hm.
  - assert (Hp : process w b s = queue_event w (BufferComplete w) (set_worker w (Processing b) s)) by (unfold process; by rewrite Hm).
    rewrite Hp in *. rewrite data_one, Hm in *. cbn [app] in *.
    assert (Hpend : pending (queue_event w (BufferComplete w) (set_worker w (Processing b) s)) ≡ₚ pending s) by (by rewrite pending_event).
    split_and!; [done|done|done| |].
    + intros b'. rewrite Hpend. apply Hok.
    + exists f, h. by rewrite Hpend.
  - specialize (Hb eq_refl). rewrite data_one, Hm in *. cbn [app] in *.
    unfold process in *. rewrite Hm in *. unfold ClientBufferQueue.get_spare_channel in *.
    pose proof (get_operator_leads b (Z.of_nat (ClientBufferQueue.spare_channel (channel_loads (sys_queue s))) + 1) s Hb Hch) as Hg.
    cbn [set_worker sys_queue rpc] in *. destruct (Fuse.get_operator _ _ _) as [oper c]. destruct Hg as [Ho Hc].
    set (s' := System _ _ _ _ _ _ _ _) in *.
    assert (Hpend : pending s' ≡ₚ b :: pending s).
    { unfold pending. cbn [s' sys_queue schedulers calls set_worker]. rewrite fmap_app. cbn [fmap list_fmap call_buf].
      rewrite !data_app, data_one, Hm. match goal with |- data (queued (ClientBufferQueue.set_loads _ ?q)) ++ _ ≡ₚ _ =>
        change (queued (ClientBufferQueue.set_loads _ q)) with (queued q) end. solve_Permutation. }
    split_and!; [done|exact Hc| | |].
    + cbn. intros c' [Hc'|[= ->]%list_elem_of_singleton]%elem_of_app; [by apply Hcl|done].
    + intros b'. rewrite Hpend. apply Hok.
    + exists f, h. by rewrite Hpend.
Qed.

Lemma react_converges lost g i e l s s' : s.(schedulers) !! i = Some (e :: l) → converges lost g s →
  s' = react e (set_schedulers (<[i := l]> s.(schedulers)) s) → wired s' → converges lost g s'.
Proof.
  intros Hi (Hw & Hch & Hcl & Hok & f & h & Hf & Hsh & Hy) -> Hw'.
  pose proof (pending_take i e l s Hi) as Hp. pose proof (placed_perm _ _ _ (places_take _ _ _ _ Hi) (proj1 Hw)) as Hpl.
  set (s1 := set_schedulers _ s) in *.
  assert (Hsame : ∀ s2, s2.(rpc) = s.(rpc) → s2.(calls) = s.(calls) → s2.(world) = s.(world) → wired s2 →
    pending s2 ≡ₚ pending s → converges lost g s2).
  { intros s2 Hr Hc Hwd Hw2 Hp2. apply (converges_same lost g s); try done. by split_and!; try done; exists f, h. }
  destruct e as [w|w b|w]; cbn [posted event_place] in *; destruct (placed_head _ _ _ _ Hpl) as (st & Hst & Hfit); cbn in Hst, Hfit.
  - by apply Hsame.
  - subst st. cbn [react] in *. change (workers s1) with (workers s) in *. rewrite Hst in *.
    apply process_converges; try done.
    + intros Hm. apply Hok. rewrite Hp, data_one, Hm. by left.
    + cbn. rewrite length_insert. eapply (scheduler_of w idle s Hw). destruct Hw as [_ _].
      rewrite (places_take _ _ _ _ Hi). by left.
    + intros b'. rewrite <-Hp. apply Hok.
    + exists f, h. by rewrite <-Hp.
  - destruct Hfit as [b ->]. cbn [react] in *. change (workers s1) with (workers s) in *. rewrite Hst in *. by apply Hsame.
Qed.

Lemma execute_converges lost g i c s s' : s.(calls) !! i = Some c → converges lost g s → act (Execute i) s = Some s' →
  converges (loses (Execute i) s ++ lost) g s'.
Proof.
  intros Hi Hs Ha. assert (Hw' : wired s') by (eapply act_wired, Ha; apply Hs).
  destruct Hs as (Hw & Hch & Hcl & Hok & f & h & Hf & Hsh & Hy). cbn in Ha. rewrite Hi in Ha. cbn in Ha. injection Ha as <-.
  assert (Hm : Buffer.is_marker c.(call_buf) = false).
  { destruct Hw as [[_ Hfit] _]. destruct (Hfit c.(call_by) (busy c.(call_buf))) as (st & _ & _ & Hm); [|done].
    unfold places. rewrite !elem_of_app. do 2 right. left.
    apply (list_elem_of_fmap_2 (λ c, (call_by c, busy (call_buf c)))). by eapply list_elem_of_lookup_2. }
  set (s' := System _ _ _ _ _ _ _ _) in *.
  assert (Hp : pending s ≡ₚ c.(call_buf) :: pending s').
  { unfold pending. rewrite (delete_Permutation _ _ _ Hi) at 1. cbn [s' sys_queue schedulers calls]. rewrite fmap_cons, !data_app, data_cons, data_one, Hm.
    solve_Permutation. }
  destruct (Hok c.(call_buf)) as (Hb1 & Hb2 & Hb3 & Hb4 & Hb5); [rewrite Hp; by left|].
  assert (Hc : c ∈ s.(calls)) by (by eapply list_elem_of_lookup_2).
  split_and!; [done|done| | |].
  - cbn. intros c' Hc'. apply Hcl. rewrite (delete_Permutation _ _ _ Hi). by right.
  - intros b Hb. apply Hok. rewrite Hp. by right.
  - pose proof (remote_write f s.(world) c.(call_to) c.(call_buf) (Hcl c Hc) Hb1 Hb3 Hb4 Hb5 Hf) as Hcall.
    cbn [loses]. rewrite Hi. cbn [s' world]. destruct (grpc_submit _ _ _) as [reply w']. destruct Hcall as (k & Hk & Hr & Hall).
    exists (written_part k c.(call_buf) f), (written c.(call_buf) h). cbn [fst snd].
    split_and!; [done|by apply short_execute|apply yields_execute; by rewrite <-Hp].
Qed.

(** Every step of the machinery leads to the same file. *)
Lemma act_converges lost g a s s' : (∀ b, a ≠ QueueBuffer b) → converges lost g s → act a s = Some s' → converges (loses a s ++ lost) g s'.
Proof.
  intros Hno Hs Ha. assert (Hw' : wired s') by (eapply act_wired, Ha; apply Hs).
  assert (Hok : ∀ b, b ∈ pending s → proper b) by apply Hs.
  destruct a as [b| |i| | |i|i|i]; [by destruct (Hno b)| | | | | | |].
  - cbn in Ha. injection Ha as <-. apply (converges_same lost g s); try done. by apply marker_pending.
  - cbn in Ha. unfold ClientBufferQueue.wake in Ha. destruct (_ !! i) as [b|] eqn:Hb; cbn in Ha; [|done]. destruct (_ <? _); [done|].
    cbn in Ha. injection Ha as <-. apply (converges_same lost g s); try done. apply pending_queue.
    unfold queued. cbn. pose proof (delete_Permutation _ _ _ Hb) as Hd.
    set (others := delete i _) in *. clearbody others. rewrite Hd. solve_Permutation.
  - cbn in Ha. unfold ClientBufferQueue._dispatch in Ha. destruct (batch _) eqn:Hb; [|done].
    destruct (buf_waiting_line _) as [|b t] eqn:Hl; [done|]. cbn in Ha. injection Ha as <-.
    apply (converges_same lost g s); try done. apply pending_queue. unfold queued. cbn. rewrite Hb, Hl. solve_Permutation.
  - cbn in Ha. unfold ClientBufferQueue.hand_out in Ha. destruct (batch _) as [|b t] eqn:Hb; [done|].
    destruct (idle_list _) as [|w rest] eqn:Hi; [done|]. cbn in Ha. injection Ha as <-.
    pose proof (scheduler_of _ _ _ (proj1 Hs) (idle_placed _ _ _ Hi)) as Hlen.
    apply (converges_same lost g s); try done. rewrite pending_event by done. unfold pending, queued. cbn [posted set_queue sys_queue schedulers calls blocked batch buf_waiting_line].
    rewrite Hb, <-data_app. apply data_perm. solve_Permutation.
  - cbn in Ha. destruct (schedulers s !! i) as [[|e l]|] eqn:Hi; [done| |done]. injection Ha as Ha. by eapply react_converges.
  - destruct (calls s !! i) as [c|] eqn:Hi; [by eapply execute_converges|]. cbn in Ha. by rewrite Hi in Ha.
  - cbn in Ha. destruct (executed s !! i) as [w|] eqn:Hi; [|done]. cbn in Ha. injection Ha as <-.
    pose proof (scheduler_of _ _ _ (proj1 Hs) (executed_placed _ _ _ Hi)) as Hlen.
    apply (converges_same lost g s); try done. by rewrite pending_event.
Qed.

Lemma start_pending max_queue onlink multi_channel c w : pending (start max_queue onlink multi_channel c w) = [].
Proof.
  pose proof (start_dispatched max_queue onlink multi_channel c w) as Hd. unfold dispatched in Hd.
  apply app_eq_nil in Hd as [Hd _]. unfold pending. by rewrite Hd.
Qed.

(** ** Histories *)

(** No write of the program overlaps what is pending. *)
Fixpoint calm (l : list action) s : bool :=
  match l with
  | [] => true
  | a :: l =>
      match a with QueueBuffer b => forallb (λ b', bool_decide (apart b b')) (pending s) | _ => true end &&
      match act a s with Some s => calm l s | None => true end
  end.
(** The file the program means to have written. *)
Definition intended (l : list action) f : file :=
  foldl (λ f a, match a with QueueBuffer b => written b f | _ => f end) f l.

(** The buffers whose calls failed, the last one first. *)
Fixpoint failed (l : list action) s : list buffer :=
  match l with
  | [] => []
  | a :: l => match act a s with Some s' => failed l s' | None => [] end ++ loses a s
  end.

Lemma run_converges lost l g s s' : converges lost g s → (∀ b, QueueBuffer b ∈ l → proper b) → calm l s = true →
  run l s = Some s' → converges (failed l s ++ lost) (intended l g) s'.
Proof.
  revert lost g s. induction l as [|a l IH]; intros lost g s Hs Hok Hc Hr; cbn in Hr; [by injection Hr as <-|].
  cbn [calm] in Hc. apply andb_prop in Hc as [Hb Hc]. cbn [failed]. destruct (act a s) as [s1|] eqn:Ha; [|done]. cbn in Hr.
  assert (Hl : ∀ b, QueueBuffer b ∈ l → proper b) by (intros b Hin; apply Hok; by right). rewrite <-(assoc_L (++)).
  destruct a as [b| |i| | |i|i|i]; cbn [intended foldl]; apply (IH _ _ s1); try done; try (by eapply act_converges, Ha).
  eapply arrive_converges, Ha; [apply Hok; by left| |done]. rewrite forallb_forall in Hb.
  intros b' Hb'. specialize (Hb b'). rewrite bool_decide_eq_true in Hb. apply Hb. by apply list_elem_of_In.
Qed.

(** C4: asynchronous writes to one file, below 2 GiB, that overlap nothing still
    pending are as good as synchronous ones, but for the calls that fail. Each call
    is one step at the proxies, and the channels the client has lead to proxies that
    serve the file; whatever the interleaving of the program, the
    dispatcher, the workers and the calls, however buffers merge and whichever calls
    fail, once the queue is at rest the bytes of the file are what the writes make
    of it one after the other, except where a failed call was to write: the client
    completes its buffer like any other and does not send it again. When no call
    failed the file is exactly that. *)
Theorem async_writes_settle max_queue onlink multi_channel c w f l s :
  remote f w → (∀ node (ch : Z) addr, serves (Replication.target node) →
    c.(Fuse.operators) !! (node.(IOProxyNode.uuid) +:+ pretty ch) = Some addr → serves addr) →
  let s0 := start max_queue onlink multi_channel c w in
  (∀ b, QueueBuffer b ∈ l → proper b) → calm l s0 = true → run l s0 = Some s → at_rest s →
  ∃ f', remote f' s.(world) ∧ f'.1 ≤ (intended l f).1 ∧
    (∀ x, (∀ b, b ∈ failed l s0 → ¬ covers b x) → f'.2 x = (intended l f).2 x) ∧
    (failed l s0 = [] → remote (intended l f) s.(world)).
Proof.
  intros Hf Hch s0 Hok Hcalm Hr (Hb & Hl & Ht & Hj & Hc & _).
  assert (Hs0 : converges [] f s0).
  { split_and!; [apply start_wired|exact Hch|by intros k ?%elem_of_nil| |].
    - intros b. unfold s0. rewrite start_pending. by intros ?%elem_of_nil.
    - exists f, f. unfold s0. rewrite start_pending. split_and!; [done|apply short_refl|apply yields_refl]. }
  destruct (run_converges _ _ _ _ _ Hs0 Hok Hcalm Hr) as (_ & _ & _ & _ & f' & h & Hf' & (Hn & Hx & He) & Hy).
  rewrite (right_id_L [] (++)) in *.
  assert (Hsame : same_bytes h (intended l f)).
  { apply yields_nil. unfold pending, queued in Hy. by rewrite Hb, Hl, Ht, Hj, Hc in Hy. }
  destruct Hsame as [Hsn Hsx]. exists f'. split_and!; [done|lia|intros x Hno; rewrite Hx by done; apply Hsx|].
  intros Hnone. eapply remote_ext, Hf'. split; [rewrite He by done; exact Hsn|]. intros x. rewrite Hx; [apply Hsx|].
  rewrite Hnone. by intros b ?%elem_of_nil.
Qed.
End settle.

(** ** A network that loses calls and replies *)

(** What becomes of the calls, one after the other; the network behaves from then on. *)
Inductive fate : Type := delivered | call_lost | reply_lost.

Section lossy.
Context {W : Type} `{Grpc W} (path : string) (serves : string → Prop) `{!RemoteFile W path serves}.

#[export] Instance lossy : Grpc (W * list fate) := {|
  grpc_submit addr r w :=
    match w.2 with
    | call_lost :: fates => (None, (w.1, fates))
    | reply_lost :: fates => (None, ((grpc_submit addr r w.1).2, fates))
    | fates => let '(reply, w') := grpc_submit addr r w.1 in (reply, (w', drop 1 fates))
    end;
|}.
#[export] Instance lossy_file : RemoteFile (W * list fate) path serves.
Proof.
  refine {| remote f w := remote f w.1 |}.
  - intros f g w. apply remote_ext.
  - intros f [w fates] addr b Ha Hp Ho Hs He Hf. pose proof (remote_write f w addr b Ha Hp Ho Hs He Hf) as Hw.
    cbn [grpc_submit lossy fst snd]. destruct (grpc_submit addr (write_of b) w) as [reply w'] eqn:Hcall.
    destruct Hw as (k & Hk & Hr & Hall). destruct fates as [|[| |] fates]; cbn; try (by exists k).
    exists 0. unfold written_part. change (0 =? 0) with true. by split_and!; [lia|lia|..].
Defined.
End lossy.

(** ** Two centres are such a file *)
Section centres.
Context {D : Type} `{Posix D, !PosixLaws D, !Fs D, !FaultFreeDisk D, Roaring, Allocator, Grpc D, Protobuf}.
Variable walk_fuel : nat.
Notation centres2 := (site (D := D) * site (D := D))%type.
Variables (path spacedir cids al ar : string) (me other : centre).
Hypothesis Hspace : path_begin path = Some spacedir.
Hypothesis Hcids : 2 ≤ CxxString.size cids ≤ 256.
Hypothesis Hpart : partners cids me other.

Lemma write_of_request b : b.(Buffer.path) = path → 0 ≤ b.(Buffer.offset) → end_of b < 2 ^ 31 →
  write_of b = to_request path (Write b.(Buffer.offset) b.(Buffer.buf)).
Proof.
  intros Hp Ho He. pose proof (size_pos b). unfold end_of in He. unfold write_of, Fuse.io_param.
  rewrite !to_u64_id by (unfold in_u64; lia). by rewrite Hp.
Qed.

#[local] Existing Instance client_net.
(** The file between the two, from whichever centre. *)
Definition held_by_both f (w : centres2) : Prop :=
  s_addr w.1 = al ∧ s_addr w.2 = ar ∧
  ∃ f', same_bytes f' f ∧ cluster_inv path spacedir cids me other f'.1 f'.2 w.1 w.2.

Lemma held_by_both_write f w addr b : addr = al ∨ addr = ar → b.(Buffer.path) = path →
  0 ≤ b.(Buffer.offset) → 0 < Buffer.size b → end_of b < 2 ^ 31 → held_by_both f w →
  let '(reply, w') := grpc_submit (Grpc := client_net walk_fuel) addr (write_of b) w in
  ∃ k, 0 ≤ k ≤ Buffer.size b ∧ held_by_both (written_part k b f) w' ∧ (accepted b reply = true → k = Buffer.size b).
Proof.
  intros Ha Hp Ho Hs He (Hl & Hr & f' & [Hn Hv] & Hinv). rewrite write_of_request by done.
  set (op := Write b.(Buffer.offset) b.(Buffer.buf)). assert (Hb : in_bounds op f'.1) by (by split_and!).
  assert (Hsame : same_bytes (file_after op f') (written b f)).
  { split; cbn; [by rewrite Hn|]. intros x. unfold overwrite. by destruct (_ && _). }
  assert (Hdone : ∀ w', s_addr w'.1 = s_addr w.1 → s_addr w'.2 = s_addr w.2 →
    cluster_inv path spacedir cids me other (file_after op f').1 (file_after op f').2 w'.1 w'.2 → held_by_both (written b f) w').
  { intros w' H1' H2' Hinv'. unfold held_by_both. rewrite H1', H2'. split_and!; [done|done|]. by exists (file_after op f'). }
  cbn [grpc_submit client_net]. destruct reuses_freed_block eqn:Hheap.
  2: { destruct (request_ends walk_fuel path spacedir cids me other _ _ w op Hheap Hinv) as [Hleft Hright].
    rewrite (String.eqb_sym addr (s_addr w.2)).
    destruct (String.eqb_spec addr (s_addr w.1)) as [->|Hne];
      [rewrite Hleft|rewrite (proj2 (String.eqb_eq (s_addr w.2) addr)) by (destruct Ha; congruence); rewrite Hright];
      exists 0; unfold written_part; change (0 =? 0) with true; (split_and!; [lia|lia| |done]);
      (split_and!; [done|done|]); by exists f'. }
  assert (Hall : ∀ reply w', held_by_both (written b f) w' →
    ∃ k, 0 ≤ k ≤ Buffer.size b ∧ held_by_both (written_part k b f) w' ∧ (accepted b reply = true → k = Buffer.size b)).
  { intros reply w' Hw. exists (Buffer.size b). rewrite written_part_all by done. by split_and!; [lia|lia|..]. }
  destruct (String.eqb_spec addr (s_addr w.1)) as [->|Hne].
  - destruct (at_left_ok walk_fuel path spacedir cids Hspace Hcids Hheap me other op f' w Hpart Hinv Hb)
      as (reply & w' & -> & _ & Ha1 & Ha2 & Hinv'). by apply Hall, Hdone.
  - rewrite (proj2 (String.eqb_eq addr (s_addr w.2))) by (destruct Ha; congruence).
    destruct (at_right_ok walk_fuel path spacedir cids Hspace Hcids Hheap me other op f' w Hpart Hinv Hb)
      as (reply & w' & -> & _ & Ha1 & Ha2 & Hinv'). by apply Hall, Hdone.
Qed.

Definition centres_file : RemoteFile (H := client_net walk_fuel) centres2 path (λ a, a = al ∨ a = ar).
Proof.
  refine {| remote := held_by_both |}.
  - intros f g w [Hn Hv] (Hl & Hr & f' & [Hn' Hv'] & Hinv). split_and!; [done|done|]. exists f'. split; [|done].
    split; [by rewrite Hn'|]. intros x. by rewrite Hv'.
  - intros f w addr b. apply held_by_both_write.
Defined.
End centres.
