(* ===== verification/StackRuns.v ===== *)
(** * Concrete runs from a client to the disks

    The client of two centres on file systems in memory: the witnesses of the
    theorems of Stack.v, and a truncation. *)
From S2P Require Import Prelude CxxString Json Records Datastore Instances Lru FdManager Op Files Replica ProxyOp Pages Cluster ClusterRuns StatCache ClientZone Fuse Stack.

Section runs.
Existing Instance fast_heap.
Existing Instance no_calls.
Existing Instance listing.
Notation world := (site (D := mem) * site (D := mem))%type.
(** The parts of the client that plain synchronous transport does not use. *)
Local Instance no_queue : WriteQueue world := {| queue_buffer _ _ _ _ w := w |}.
Local Instance no_readahead : ReadAhead world := {|
  ra_lookup _ _ _ := mret (NOT_FOUND, "");
  ra_set_task _ _ _ _ _ _ := mret false;
  ra_clear_buf _ := mret ();
|}.
Local Instance no_udt : Udt world := {| udt_read_data _ _ _ _ := mret None |}.
Local Instance to_centres : Grpc world := client_net fuel.

Let sp : Space.t := Space.mk "s1" "home" 5 "1" "x" "s" "north" "disk" true [].
Let zn : Zone.t := Zone.mk "id1" "work" "u1" [] ["s1"] [sp] 7 5 0 true.
Let z : ClientZone.t := ClientZone.mk {["work" := zn]} ∅.
Let path : string := "/work/home/f".
Let g : ClientGraph.t := ClientGraph.mk (<["1" := [node 1]]> {["2" := [node 2]]}) ∅ 0.
Let client0 : Fuse.client := Fuse.Client z g (ClientCache.start 16) ∅ false false 0.

Let history : list client_op :=
  [Data (Write 4090 "hello, world"); Visit true; Data (Write 4099 "CENTRE"); Data (Read 0 8192); Visit false; Data (Read 4096 4096)].

Lemma stack_inv0 : stack_inv file "s" cids sp z "1" "2" [node 1] [node 2] (node 1) (node 2) (addr 1) (addr 2)
  one two (0, λ _, zero) client0 both.
Proof.
  split_and!; [|done|done|apply runs_inv]. split_and!; try reflexivity; [by left|left; by split|left; by split].
Qed.

Lemma runs_partners : partners cids one two.
Proof.
  split_and!; [done| |by left|by right; left]. intros x. vm_compute. intros Hx.
  repeat (apply elem_of_cons in Hx as [->|Hx]; [auto|]). by apply elem_of_nil in Hx.
Qed.

Theorem fuse_refines_witness :
  let '(rs, c', w') := client_run fuel 0 path "1" "2" history client0 both in
  client_answers history rs (0, λ _, zero) ∧
  stack_inv file "s" cids sp z "1" "2" [node 1] [node 2] (node 1) (node 2) (addr 1) (addr 2) one two
    (foldl (λ f op, client_after op f) (0, λ _, zero) history) c' w'.
Proof.
  apply (fuse_refines fuel 0 path "/f" file "s" cids zn sp z eq_refl ltac:(reflexivity) eq_refl eq_refl ltac:(by split)
    "1" "2" [node 1] [node 2] (node 1) (node 2) (addr 1) (addr 2) eq_refl eq_refl ltac:(discriminate)
    ltac:(discriminate) one two runs_partners history (0, λ _, zero) client0 both stack_inv0).
  cbn. unfold whole_pages. split_and!; try (by vm_compute); try done; try lia; by vm_compute; auto.
Defined.

(** The same file, written, truncated to five bytes and looked at: nothing is left
    of it. *)
Example truncated_run :
  ('(_, c) ← Fuse.gvdsfs_write path "hello, world" 0 client0;
   '(res, c) ← Fuse.gvdsfs_truncate path 5 c;
   '((_, st), c) ← Fuse.gvdsfs_getattr path 0 c;
   mret (res, fs_size <$> st)) both =
  (Val (0, Some 0), (('(_, c) ← Fuse.gvdsfs_write path "hello, world" 0 client0;
   '(res, c) ← Fuse.gvdsfs_truncate path 5 c; Fuse.gvdsfs_getattr path 0 c) both).2).
Proof. vm_compute. reflexivity. Qed.
End runs.

Section truncate.
Existing Instance fast_heap.
Existing Instance no_calls.
Existing Instance listing.
Notation log := (list (string * OpRequest.t)).
Existing Instances Replication.log_grpc Replication.log_sent.
Local Instance log_queue : WriteQueue log := {| queue_buffer _ _ _ _ w := w |}.
Local Instance log_readahead : ReadAhead log := {|
  ra_lookup _ _ _ := mret (NOT_FOUND, "");
  ra_set_task _ _ _ _ _ _ := mret false;
  ra_clear_buf _ := mret ();
|}.
Local Instance log_udt : Udt log := {| udt_read_data _ _ _ _ := mret None |}.
Let sp : Space.t := Space.mk "s1" "home" 5 "1" "x" "s" "north" "disk" true [].
Let zn : Zone.t := Zone.mk "id1" "work" "u1" [] ["s1"] [sp] 7 5 0 true.
Let z : ClientZone.t := ClientZone.mk {["work" := zn]} ∅.
Let g : ClientGraph.t := ClientGraph.mk {["1" := [node 1]]} ∅ 0.
Let client0 : Fuse.client := Fuse.Client z g (ClientCache.start 16) ∅ false false 0.

Theorem truncate_empties_witness :
  wp (Fuse.gvdsfs_truncate (W := log) "/work/home/f" 5 client0) (λ _ (w' : log), ∃ addr req,
    Replication.sent w' = Replication.sent ([] : log) ++ [(addr, req)] ∧
    ∀ reply (p : IOProxy.t), ProxyOP.perform (W := mem) fuel req reply p =
      (ec ← extern (fs_resize_file (p.(IOProxy.data_path) /+ "s/f") 0);
       mret (OpReply.set_err_code (- ec) reply, p))) never ([] : log).
Proof. exact (truncate_empties (D := mem) "/work/home/f" 5 client0 (node 1) "s/f" g fuel [] eq_refl). Defined.
End truncate.
