(* ===== verification/AsyncRuns.v ===== *)
(** * Concrete runs of the write queue

    A client of two centres whose writes go through the queue (WriteQueue.v): the
    witnesses of its theorems, and a schedule in which two writes of the same bytes
    reach the disk in the wrong order. *)
From S2P Require Import Prelude CxxString Json Records Datastore Instances Lru FdManager Op Files Replica ProxyOp Pages Cluster ClusterRuns StatCache ClientZone Fuse Pool WriteQueue Stack AsyncWrites StackRuns.

Section runs.
Existing Instance fast_heap.
Existing Instance no_calls.
Existing Instance listing.
Notation centres2 := (site (D := mem) * site (D := mem))%type.
Local Instance to_centres : Grpc centres2 := client_net fuel.

Let client0 : Fuse.client := Fuse.Client (ClientZone.mk ∅ ∅) (ClientGraph.mk ∅ ∅ 0) (ClientCache.start 16) ∅ false true 0.
Let buffer_at (off : Z) (s : string) : buffer := Buffer.mk file off (node 1) s false.
Let s0 : system centres2 := start 10240000 8 2 client0 both.
Let everyone : list action := React <$> seq 0 8.

(** Three writes, the second of which merges with the first; and what the queue does
    with them when the program has done. *)
Let handed : list action :=
  everyone ++ [QueueBuffer (buffer_at 4090 "hello"); QueueBuffer (buffer_at 4095 ", world"); Dispatch;
    QueueBuffer (buffer_at 8000 "far"); HandOut; Dispatch; HandOut; BlockOnLast].
Let carried_out : list action :=
  [React 1; React 0; Execute 0; Execute 0; Dispatch; HandOut; Answer 1; Answer 0; React 0; React 1; React 2; React 2].
Let pieces : list action := handed ++ carried_out.
Let busy_state : system centres2 := default s0 (run handed s0).
Let rest : system centres2 := default s0 (run pieces s0).

Lemma handed_run : run handed s0 = Some busy_state.
Proof. apply goes_some. vm_compute. reflexivity. Qed.
Lemma carried_out_run : run carried_out busy_state = Some rest.
Proof.
  assert (Hr : run pieces s0 = run carried_out busy_state).
  { unfold pieces. clear. assert (Happ : ∀ (l l' : list action) (s s' : system centres2), run l s = Some s' → run (l ++ l') s = run l' s').
    { induction l as [|a l IH]; intros l' s s' Hs; cbn in *; [by injection Hs as ->|].
      destruct (act a s) as [s1|]; [|done]. cbn in *. by apply IH. }
    apply Happ, handed_run. }
  rewrite <-Hr. apply goes_some. vm_compute. reflexivity.
Qed.
Lemma pieces_run : run pieces s0 = Some rest.
Proof. apply goes_some. vm_compute. reflexivity. Qed.
Lemma empty_stuck (s : system centres2) a : s.(sys_queue).(blocked) = [] → s.(sys_queue).(buf_waiting_line) = [] →
  s.(sys_queue).(batch) = [] → s.(calls) = [] → s.(executed) = [] → s.(schedulers) = replicate 8 [] →
  internal a = true → act a s = None.
Proof.
  intros Hb Hl Ht Hc He Hs Hi. destruct a as [b| |i| | |i|i|i]; cbn [internal act] in *; [discriminate Hi|discriminate Hi|..].
  - unfold ClientBufferQueue.wake. by rewrite Hb.
  - unfold ClientBufferQueue._dispatch. by rewrite Ht, Hl.
  - unfold ClientBufferQueue.hand_out. by rewrite Ht.
  - rewrite Hs. destruct (replicate 8 [] !! i) as [l|] eqn:Hr; [|done]. by apply lookup_replicate in Hr as [-> _].
  - by rewrite Hc.
  - by rewrite He.
Qed.
Lemma rest_stuck a : internal a = true → act a rest = None.
Proof. apply empty_stuck; vm_compute; reflexivity. Qed.

Theorem accounts_balance_witness : counted rest ∧ placed_by fits (places rest) rest.(workers).
Proof. apply (accounts_balance 10240000 8 2 client0 both pieces rest), pieces_run. Defined.

Theorem channels_starve_witness :
  sent_on 1 pieces s0 = 0 ∨ 2 * (sent_on 1 pieces s0 - 1) + 2 ≤ 8.
Proof. apply (channels_starve 10240000 8 2 client0 both pieces rest 1); [lia|lia|apply pieces_run]. Defined.

Theorem queue_bounded_witness : rest.(sys_queue).(buf_inqueue) ≤ 10240000 + 2 ^ 20.
Proof.
  apply (queue_bounded 10240000 8 2 client0 both (2 ^ 20) pieces rest); [lia|done| |apply pieces_run].
  repeat constructor; vm_compute; congruence.
Defined.

Theorem queue_comes_to_rest_witness :
  (length carried_out ≤ effort busy_state)%nat ∧
  at_rest rest ∧ rest.(sys_queue).(buf_inqueue) = 0 ∧ rest.(sys_queue).(buf_onlink) = 0.
Proof.
  destruct (queue_comes_to_rest 10240000 8 2 client0 both handed busy_state ltac:(lia) ltac:(lia) handed_run
    carried_out rest eq_refl carried_out_run) as [Hlen Hrest].
  split; [exact Hlen|exact (Hrest rest_stuck)].
Defined.

Theorem few_workers_never_send_witness :
  let s1 := start 10240000 7 1 client0 both in
  match run [QueueBuffer (buffer_at 0 "lost"); Dispatch] s1 with
  | Some s => s.(calls) = [] ∧ s.(world) = both
  | None => False
  end.
Proof.
  apply (few_workers_never_send 10240000 7 1 client0 both [QueueBuffer (buffer_at 0 "lost"); Dispatch]); [lia|reflexivity].
Defined.

Local Instance runs_file : RemoteFile centres2 file (λ a, a = addr 1 ∨ a = addr 2).
Proof. by apply (centres_file fuel file "s" cids (addr 1) (addr 2) one two eq_refl ltac:(by split) runs_partners). Defined.

(** The same schedule over a network that loses the second call. *)
Let t0 : system (centres2 * list fate) := start 10240000 8 2 client0 (both, [delivered; call_lost]).
Let settled : system (centres2 * list fate) := default t0 (run pieces t0).
Lemma lossy_run : run pieces t0 = Some settled.
Proof. apply goes_some. vm_compute. reflexivity. Qed.

Theorem async_writes_settle_witness :
  failed pieces t0 = [buffer_at 4090 "hello, world"] ∧
  ∃ f', remote f' settled.(world) ∧ f'.1 ≤ (intended pieces (0, λ _, zero)).1 ∧
    ∀ x, (∀ b, b ∈ failed pieces t0 → ¬ covers b x) → f'.2 x = (intended pieces (0, λ _, zero)).2 x.
Proof.
  split; [vm_compute; reflexivity|].
  destruct (async_writes_settle (W := centres2 * list fate) file (λ a, a = addr 1 ∨ a = addr 2) ltac:(done) 10240000 8 2 client0
    (both, [delivered; call_lost]) (0, λ _, zero) pieces settled) as (f' & Hf' & Hn & Hx & _).
  - change (held_by_both file "s" cids (addr 1) (addr 2) one two (0, λ _, zero) both).
    split_and!; [done|done|]. exists (0, λ _, zero). split; [done|]. apply runs_inv.
  - done.
  - assert (Hok : ∀ off s, 0 ≤ off → 0 < CxxString.size s → off + CxxString.size s < 2 ^ 31 →
      proper file (λ a, a = addr 1 ∨ a = addr 2) (buffer_at off s)) by (intros; split_and!; [done|by left|done..]).
    intros b Hb. apply elem_of_app in Hb as [Hb|Hb]; [apply elem_of_app in Hb as [Hb|Hb]|];
      [by apply list_elem_of_fmap in Hb as (? & [=] & _)|..];
    repeat (apply elem_of_cons in Hb as [Hb'|Hb]; [first [discriminate Hb' | injection Hb' as ->; by apply Hok]|]); by apply elem_of_nil in Hb.
  - vm_compute. reflexivity.
  - apply lossy_run.
  - unfold at_rest. split_and!; vm_compute; reflexivity.
  - exists f'. by split_and!.
Defined.

(** Two writes of the same bytes, one after the other from one program, can be
    executed the other way round: they go to two workers on two schedulers, and the
    file keeps the first. *)
Theorem writes_reorder :
  let first := buffer_at 0 "old bytes" in let second := buffer_at 0 "new bytes" in
  let schedule := everyone ++ [QueueBuffer first; Dispatch; QueueBuffer second; HandOut; Dispatch; HandOut;
    React 1; React 0; Execute 0; Execute 0; Answer 0; Answer 0; React 0; React 1] in
  ∃ s, run schedule s0 = Some s ∧ at_rest s ∧
    match (at_left fuel (to_request file (Read 0 4096)) s.(world)).1 with
    | Val reply => OpReply.err_code reply = 9 ∧ CxxString.substr 0 9 (OpReply.data reply) = "old bytes"
    | UB => False
    end.
Proof.
  intros first second schedule. exists (default s0 (run schedule s0)). split; [apply goes_some; vm_compute; reflexivity|].
  split; [unfold at_rest; split_and!; vm_compute; reflexivity|]. vm_compute. by split.
Qed.
End runs.
