(* ===== verification/IoWorker.v ===== *)
(** * The workers of a proxy (io_proxy/io_worker.cc, grpc_impl.cc, io_proxy.cc)

    How the proxy serves the calls of many clients at once: the asynchronous service
    of gRPC, the thread that turns its completions into events ([OpServerImpl]), the
    schedulers and the state machine of the workers. An [action] is a step of one of
    them; [act] is its effect, [None] where there is nothing to do. What a request
    does, [ProxyOP::do_op], is a parameter, and one step: with ioproxy.scher = 1 that
    is exact, since one thread runs all of them; with more schedulers the system
    calls of two requests can interleave, which is not part of the model. *)
From S2P Require Import Prelude CxxString Json Records Op Pool.

(** IOProxyWorker::Status; the constructor of every state of the machine sets it. *)
Inductive Status : Type := WAITING | PROCESSING | FINISHED.
Inductive event : Type := Initiate | OpQueued | OpComplete | OpFinished.

(** IOProxyWorker::CallData: its address is also the tag of its operations; [op] is
    the call of a client it was given, once there is one. *)
Record CallData : Type := Call {
  address : nat;
  op : option nat;
  request : OpRequest.t;
  reply : OpReply.t;
}.
(** [status] is none until the machine is initiated. *)
Record worker : Type := Worker {
  status : option Status;
  cur_call : CallData;
}.
Definition set_status (st : Status) (w : worker) : worker := Worker (Some st) w.(cur_call).
Definition new_worker : worker := Worker None (Call 0 None OpRequest.init OpReply.init).

(** A tag leads to its call and from there to the worker. *)
Definition cq_tag : Type := (nat * nat)%type.

Record server : Type := Server {
  workers : list worker;
  per_scheduler : nat;
  (** the events every scheduler has to process, in order *)
  schedulers : list (list (nat * event));
  (** the calls that wait for a client, those whose reply is to be sent, and the tags
      of the completion queue; gRPC may take them in any order *)
  requested : list cq_tag;
  finishing : list (cq_tag * (option nat * OpReply.t));
  cq : list cq_tag;
  (** what the clients have asked for, all calls in order; those not yet taken; and
      the replies they have *)
  submitted : list OpRequest.t;
  incoming : list nat;
  answers : list (nat * OpReply.t);
  (** a history: the calls in the order in which they were executed *)
  log : list (nat * OpReply.t);
  crashed : bool;
}.

Module OpServer.
Section service.
Context {W : Type}.
Variable do_op : OpRequest.t → OpReply.t → M W OpReply.t.
Implicit Types (s : server) (w : W) (x : worker).

Definition set_worker (i : nat) x s : server :=
  Server (<[i := x]> s.(workers)) s.(per_scheduler) s.(schedulers) s.(requested) s.(finishing) s.(cq) s.(submitted)
    s.(incoming) s.(answers) s.(log) s.(crashed).
Definition set_schedulers (l : list (list (nat * event))) s : server :=
  Server s.(workers) s.(per_scheduler) l s.(requested) s.(finishing) s.(cq) s.(submitted) s.(incoming) s.(answers)
    s.(log) s.(crashed).
Definition set_requested (l : list cq_tag) s : server :=
  Server s.(workers) s.(per_scheduler) s.(schedulers) l s.(finishing) s.(cq) s.(submitted) s.(incoming) s.(answers)
    s.(log) s.(crashed).
Definition set_finishing (l : list (cq_tag * (option nat * OpReply.t))) s : server :=
  Server s.(workers) s.(per_scheduler) s.(schedulers) s.(requested) l s.(cq) s.(submitted) s.(incoming) s.(answers)
    s.(log) s.(crashed).
Definition set_cq (l : list cq_tag) s : server :=
  Server s.(workers) s.(per_scheduler) s.(schedulers) s.(requested) s.(finishing) l s.(submitted) s.(incoming)
    s.(answers) s.(log) s.(crashed).
Definition set_calls (subs : list OpRequest.t) (l : list nat) s : server :=
  Server s.(workers) s.(per_scheduler) s.(schedulers) s.(requested) s.(finishing) s.(cq) subs l s.(answers) s.(log)
    s.(crashed).
Definition set_answers (l : list (nat * OpReply.t)) s : server :=
  Server s.(workers) s.(per_scheduler) s.(schedulers) s.(requested) s.(finishing) s.(cq) s.(submitted) s.(incoming) l
    s.(log) s.(crashed).
Definition set_log (l : list (nat * OpReply.t)) s : server :=
  Server s.(workers) s.(per_scheduler) s.(schedulers) s.(requested) s.(finishing) s.(cq) s.(submitted) s.(incoming)
    s.(answers) l s.(crashed).
Definition crash s : server :=
  Server s.(workers) s.(per_scheduler) s.(schedulers) s.(requested) s.(finishing) s.(cq) s.(submitted) s.(incoming)
    s.(answers) s.(log) true.

(** [worker->my_scheduler().queue_event(worker->my_handle(), ev)] *)
Definition queue_event (i : nat) (e : event) s : server :=
  set_schedulers (alter (λ l, l ++ [(i, e)]) (i / s.(per_scheduler))%nat s.(schedulers)) s.

(** [static_cast<CallData*>(tag)->worker]: a call is freed when its worker makes the
    next one. *)
Definition worker_of (t : cq_tag) s : option worker :=
  match s.(workers) !! t.1 with
  | Some x => if (x.(cur_call).(address) =? t.2)%nat then Some x else None
  | None => None
  end.

(** The constructor of [Waiting]. *)
Definition wait (i : nat) x s : server :=
  let c := Call (S x.(cur_call).(address)) None OpRequest.init OpReply.init in
  set_requested (s.(requested) ++ [(i, c.(address))]) (set_worker i (Worker (Some WAITING) c) s).
(** The reply a call has for its client. *)
Definition reply_of (o : option nat) (r : OpReply.t) : list (nat * OpReply.t) := (λ id, (id, r)) <$> option_list o.
(** The constructor of [Processing]; [do_op] runs the callback at its end. *)
Definition process (i : nat) x s w : server * W :=
  let c := x.(cur_call) in
  let s := set_worker i (set_status PROCESSING x) s in
  match do_op c.(request) c.(reply) w with
  | (Val r, w) =>
      let x := Worker (Some PROCESSING) (Call c.(address) c.(op) c.(request) r) in
      (queue_event i OpComplete (set_log (s.(log) ++ reply_of c.(op) r) (set_worker i x s)), w)
  | (UB, w) => (crash s, w)
  end.
(** The constructor of [Finished]. *)
Definition finish (i : nat) x s : server :=
  let c := x.(cur_call) in
  set_finishing (s.(finishing) ++ [((i, c.(address)), (c.(op), c.(reply)))]) (set_worker i (set_status FINISHED x) s).

(** A scheduler processes an event; an event the state has no reaction for is
    dropped. *)
Definition react (i : nat) (e : event) s w : server * W :=
  match s.(workers) !! i with
  | None => (s, w)
  | Some x =>
      match x.(status), e with
      | None, Initiate => (wait i x s, w)
      | Some WAITING, OpQueued => process i x s w
      | Some PROCESSING, OpComplete => (finish i x s, w)
      | Some FINISHED, OpFinished => (wait i x s, w)
      | _, _ => (s, w)
      end
  end.

(** A turn of the loop of [entry], for one of the completions. *)
Definition entry (k : nat) s : option server :=
  t ← s.(cq) !! k;
  let s := set_cq (delete k s.(cq)) s in
  Some match worker_of t s with
       | None => crash s
       | Some x =>
           match x.(status) with
           | Some WAITING => queue_event t.1 OpQueued s
           | Some FINISHED => queue_event t.1 OpFinished s
           | _ => s
           end
       end.

(** gRPC gives a call of a client to one of the calls that wait: it stores the
    request and completes [RequestSubmit]. *)
Definition accept (k j : nat) s : option server :=
  t ← s.(requested) !! k;
  id ← s.(incoming) !! j;
  r ← s.(submitted) !! id;
  let s := set_calls s.(submitted) (delete j s.(incoming)) (set_requested (delete k s.(requested)) s) in
  Some match worker_of t s with
       | None => crash s
       | Some x =>
           let c := x.(cur_call) in
           set_cq (s.(cq) ++ [t]) (set_worker t.1 (Worker x.(status) (Call c.(address) (Some id) r c.(reply))) s)
       end.
(** gRPC sends a reply and completes [Finish]. *)
Definition send (k : nat) s : option server :=
  '(t, (o, r)) ← s.(finishing) !! k;
  Some (set_cq (s.(cq) ++ [t]) (set_answers (s.(answers) ++ reply_of o r) (set_finishing (delete k s.(finishing)) s))).

Inductive action : Type :=
| Submit (r : OpRequest.t)
| Accept (k j : nat)
| Entry (k : nat)
| React (scheduler : nat)
| Send (k : nat).
Definition internal (a : action) : bool := match a with Submit _ => false | _ => true end.

Definition act (a : action) s w : option (server * W) :=
  if s.(crashed) then None
  else
    match a with
    | Submit r => Some (set_calls (s.(submitted) ++ [r]) (s.(incoming) ++ [length s.(submitted)]) s, w)
    | Accept k j => (λ s, (s, w)) <$> accept k j s
    | Entry k => (λ s, (s, w)) <$> entry k s
    | React i =>
        match s.(schedulers) !! i with
        | Some ((j, e) :: events) => Some (react j e (set_schedulers (<[i := events]> s.(schedulers)) s) w)
        | _ => None
        end
    | Send k => (λ s, (s, w)) <$> send k s
    end.
Fixpoint run (l : list action) s w : option (server * W) :=
  match l with
  | [] => Some (s, w)
  | a :: l => '(s, w) ← act a s w; run l s w
  end.
End service.

(** [IOProxy::start]: [m_max_worker] workers in equal parts for the schedulers. *)
Definition m_max_worker : Z := 1024.
Definition workers_for (scher_num : Z) : nat := if scher_num <=? 0 then 0 else Z.to_nat (Z.quot m_max_worker scher_num).
Definition start (scher_num : Z) : server :=
  let per := workers_for scher_num in
  let n := Z.to_nat scher_num in
  Server (replicate (n * per) new_worker) per ((λ i, (λ j, (j, Initiate)) <$> seq (i * per) per) <$> seq 0 n)
    [] [] [] [] [] [] [] false.
End OpServer.

(** ** Where the workers are

    Every worker is in one place: an event of its scheduler, a call that waits for a
    client, a tag of the completion queue, or a reply that is to be sent; and its
    state is the one that place needs. *)
Import OpServer.

Inductive role : Type :=
| fresh
| listening (a : nat)
| notified (a : nat)
| queued
| complete
| sending (a : nat) (o : option nat) (r : OpReply.t)
| finished.
(** A worker that has a request it has not begun with. *)
Definition has_call (x : worker) : Prop :=
  x.(status) = Some WAITING ∧ is_Some x.(cur_call).(op) ∧ x.(cur_call).(reply) = OpReply.init.
Definition fits (r : role) (x : worker) : Prop :=
  match r with
  | fresh => x.(status) = None
  | listening a => x.(status) = Some WAITING ∧ x.(cur_call) = Call a None OpRequest.init OpReply.init
  | notified a => x.(cur_call).(address) = a ∧ (has_call x ∨ x.(status) = Some FINISHED)
  | queued => has_call x
  | complete => x.(status) = Some PROCESSING
  | sending a o r => x.(status) = Some FINISHED ∧ x.(cur_call).(address) = a ∧
      x.(cur_call).(op) = o ∧ x.(cur_call).(reply) = r
  | finished => x.(status) = Some FINISHED
  end.

Definition event_role (e : event) : role :=
  match e with Initiate => fresh | OpQueued => queued | OpComplete => complete | OpFinished => finished end.
Definition event_place (p : nat * event) : nat * role := (p.1, event_role p.2).
Definition places (s : server) : list (nat * role) :=
  (event_place <$> mjoin s.(schedulers)) ++ ((λ t, (t.1, listening t.2)) <$> s.(requested))
  ++ ((λ t, (t.1, notified t.2)) <$> s.(cq)) ++ ((λ p, (p.1.1, sending p.1.2 p.2.1 p.2.2)) <$> s.(finishing)).
#[local] Arguments places : simpl never.

(** The call a worker has and has not executed, and the reply it has not handed on. *)
Definition pending (x : worker) : list nat :=
  match x.(status) with Some WAITING => option_list x.(cur_call).(op) | _ => [] end.
Definition executing (x : worker) : list (nat * OpReply.t) :=
  match x.(status) with Some PROCESSING => reply_of x.(cur_call).(op) x.(cur_call).(reply) | _ => [] end.
Definition unsent (p : cq_tag * (option nat * OpReply.t)) : list (nat * OpReply.t) := reply_of p.2.1 p.2.2.

(** The places, when those of [extra] are between two steps; every call is in one
    place, and so is every reply. *)
Record accounted (extra : list (nat * role)) (s : server) : Prop := {
  h_places : placed_by fits (extra ++ places s) s.(workers);
  h_homes i : (i < length s.(workers))%nat → (i / s.(per_scheduler) < length s.(schedulers))%nat;
  h_asked i x id : s.(workers) !! i = Some x → x.(status) = Some WAITING → x.(cur_call).(op) = Some id →
    s.(submitted) !! id = Some x.(cur_call).(request);
  h_calls : s.(incoming) ++ (s.(workers) ≫= pending) ++ s.(log).*1 ≡ₚ seq 0 (length s.(submitted));
  h_replies : s.(log) ≡ₚ s.(answers) ++ (s.(workers) ≫= executing) ++ (s.(finishing) ≫= unsent);
}.
Notation inv := (accounted []).

Lemma reply_of_some id r : reply_of (Some id) r = [(id, r)].
Proof. done. Qed.

Lemma posted_places i e s : (i / s.(per_scheduler) < length s.(schedulers))%nat →
  places (queue_event i e s) ≡ₚ event_place (i, e) :: places s.
Proof. intros Hi. unfold places. cbn. rewrite join_post by done. cbn. solve_Permutation. Qed.
Lemma taken_places i p l s : s.(schedulers) !! i = Some (p :: l) →
  places s ≡ₚ event_place p :: places (set_schedulers (<[i := l]> s.(schedulers)) s).
Proof. intros Hi. unfold places. cbn. rewrite join_take by done. cbn. solve_Permutation. Qed.

Lemma at_home i r ps s : accounted ((i, r) :: ps) s → (i / s.(per_scheduler) < length s.(schedulers))%nat.
Proof.
  intros Hs. destruct (placed_head _ _ _ _ (h_places _ _ Hs)) as (x & Hx & _).
  by apply (h_homes _ _ Hs), lookup_lt_Some with x.
Qed.

(** A worker that is between two steps becomes an event. *)
Lemma queue_event_accounted i e r x s : accounted [(i, r)] s → s.(workers) !! i = Some x → fits (event_role e) x →
  inv (queue_event i e s).
Proof.
  intros Hs Hx Hf. pose proof (at_home _ _ _ _ Hs) as Hi. destruct Hs as [Hp Hh Ha Hc Hl].
  split; cbn; [|by rewrite length_alter|done..].
  eapply placed_perm; [symmetry; by apply posted_places|]. rewrite <-(list_insert_id _ _ _ Hx).
  eapply placed_move; [exact Hp|exact Hf].
Qed.

Lemma take_accounted i p l s : s.(schedulers) !! i = Some (p :: l) → inv s →
  accounted [event_place p] (set_schedulers (<[i := l]> s.(schedulers)) s).
Proof.
  intros Hi [Hp Hh Ha Hc Hl]. split; cbn; [|by rewrite length_insert|done..].
  eapply placed_perm; [by apply (taken_places i p l s)|exact Hp].
Qed.

(** A worker changes its state and its place; its calls and replies must be
    accounted for. *)
Lemma change_accounted i r r' x y extra s s' :
  accounted [(i, r)] s → s.(workers) !! i = Some x → fits r' y →
  s'.(workers) = <[i := y]> s.(workers) → s'.(per_scheduler) = s.(per_scheduler) →
  length s'.(schedulers) = length s.(schedulers) → s'.(submitted) = s.(submitted) →
  (i, r') :: places s ≡ₚ extra ++ places s' →
  (∀ id, y.(status) = Some WAITING → y.(cur_call).(op) = Some id → s.(submitted) !! id = Some y.(cur_call).(request)) →
  (∀ rest, s'.(incoming) ++ (pending y ++ rest) ++ s'.(log).*1 ≡ₚ s.(incoming) ++ (pending x ++ rest) ++ s.(log).*1) →
  (∀ rest, s.(log) ≡ₚ s.(answers) ++ (executing x ++ rest) ++ (s.(finishing) ≫= unsent) →
     s'.(log) ≡ₚ s'.(answers) ++ (executing y ++ rest) ++ (s'.(finishing) ≫= unsent)) →
  accounted extra s'.
Proof.
  intros [Hp Hh Ha Hc Hl] Hx Hf Hw Hper Hlen Hsub Hpl Hy Hpe Hex. destruct (bind_set pending i x y _ Hx) as (ps & Hp1 & Hp2).
  destruct (bind_set executing i x y _ Hx) as (es & He1 & He2). split; rewrite ?Hw, ?Hper, ?Hlen, ?Hsub.
  - eapply placed_perm; [exact Hpl|]. by eapply placed_move.
  - by rewrite length_insert.
  - intros j z id Hj. apply list_lookup_insert_Some in Hj as [(<- & <- & _)|[_ Hj]]; [by apply Hy|by eapply Ha].
  - by rewrite Hp2, Hpe, <-Hp1.
  - rewrite He2. apply Hex. by rewrite <-He1.
Qed.

Lemma wait_accounted i r x s : accounted [(i, r)] s → s.(workers) !! i = Some x → pending x = [] → executing x = [] → inv (wait i x s).
Proof.
  intros Hs Hx Hp He. eapply (change_accounted _ _ (listening _)); [exact Hs|exact Hx| |done..| | | |]; cbn; [done| |done| |].
  - unfold places. cbn. rewrite fmap_app. cbn. solve_Permutation.
  - intros rest. by rewrite Hp.
  - intros rest. by rewrite He.
Qed.

Lemma finish_accounted i x s : accounted [(i, complete)] s → s.(workers) !! i = Some x → x.(status) = Some PROCESSING → inv (finish i x s).
Proof.
  intros Hs Hx Hst. eapply (change_accounted _ _ (sending _ _ _)); [exact Hs|exact Hx| |done..| | | |]; cbn; [done| |done| |].
  - unfold places. cbn. rewrite fmap_app. cbn. solve_Permutation.
  - intros rest. unfold pending. cbn. by rewrite Hst.
  - intros rest Hl. rewrite Hl, bind_app. unfold executing. cbn. rewrite Hst.
    change ([(?t, (?o, ?r))] ≫= unsent) with (reply_of o r ++ []). solve_Permutation.
Qed.

(** A worker that has a call: the request is the client's. *)
Lemma has_call_id i x r s : accounted [(i, r)] s → s.(workers) !! i = Some x → has_call x → ∃ id,
  x.(cur_call).(op) = Some id ∧ s.(submitted) !! id = Some x.(cur_call).(request) ∧ x.(cur_call).(reply) = OpReply.init.
Proof.
  intros Hs Hx (Hst & [id Hid] & Hr). exists id. split_and!; [done| |done]. by eapply (h_asked _ _ Hs).
Qed.

Lemma process_accounted i x id r s : accounted [(i, queued)] s → s.(workers) !! i = Some x → has_call x →
  x.(cur_call).(op) = Some id →
  let c := x.(cur_call) in
  inv (queue_event i OpComplete (set_log (s.(log) ++ reply_of c.(op) r)
    (set_worker i (Worker (Some PROCESSING) (Call c.(address) c.(op) c.(request) r)) (set_worker i (set_status PROCESSING x) s)))).
Proof.
  intros Hs Hx (Hst & _ & _) Hid c. pose proof Hx as Hlt%lookup_lt_Some.
  apply (queue_event_accounted _ _ complete (Worker (Some PROCESSING) (Call c.(address) c.(op) c.(request) r)));
    [|cbn; apply list_lookup_insert_eq; by rewrite length_insert|done].
  eapply (change_accounted _ _ complete); [exact Hs|exact Hx| |cbn..].
  2: by rewrite list_insert_insert_eq. all: try done.
  - intros rest. unfold pending. cbn. rewrite Hst, fmap_app. unfold c. rewrite Hid. cbn. solve_Permutation.
  - intros rest Hl. rewrite Hl. unfold executing. cbn. rewrite Hst. unfold c. rewrite Hid. cbn. solve_Permutation.
Qed.

(** ** What is left to do

    Every step of the proxy takes one unit away. *)
Definition weight (x : worker) : nat :=
  match x.(status), x.(cur_call).(op) with
  | None, _ => 1 | Some WAITING, None => 0 | Some WAITING, Some _ => 5 | Some PROCESSING, _ => 4 | Some FINISHED, _ => 1
  end.
Definition effort (s : server) : nat :=
  7 * length s.(incoming) + sum_list_with weight s.(workers) + length s.(cq) + 2 * length s.(finishing).

Ltac bind_some := change (Some ?a ≫= ?f) with (f a); cbv beta iota zeta.

(** A step that executes nothing. *)
Definition quiet (s s' : server) : Prop :=
  inv s' ∧ s'.(log) = s.(log) ∧ s'.(submitted) = s.(submitted) ∧ s'.(crashed) = s.(crashed) ∧ effort s = S (effort s').

Lemma set_cq_accounted k t s : inv s → s.(cq) !! k = Some t → accounted [(t.1, notified t.2)] (set_cq (delete k s.(cq)) s).
Proof.
  intros [Hp Hh Ha Hc Hl] Hk. split; [|done..]. eapply placed_perm; [|exact Hp].
  unfold places. cbn. rewrite (delete_Permutation (cq s) k t Hk) at 1. cbn. solve_Permutation.
Qed.

Lemma entry_quiet k s s' : inv s → entry k s = Some s' → quiet s s'.
Proof.
  intros Hs. unfold entry. destruct (s.(cq) !! k) as [t|] eqn:Hk; [|done].
  bind_some. pose proof (set_cq_accounted k t s Hs Hk) as H1. set (s1 := set_cq _ s) in *.
  destruct (placed_head _ _ _ _ (h_places _ _ H1)) as (x & Hx & Ha & Hst).
  unfold worker_of. rewrite Hx, Ha, Nat.eqb_refl. intros [= <-].
  assert (He : ∀ e, effort s = S (effort (queue_event t.1 e s1))).
  { intros e. unfold effort. cbn. pose proof (lookup_lt_Some _ _ _ Hk). rewrite length_delete by (by eexists). lia. }
  destruct Hst as [Hc|Hst].
  - pose proof Hc as (-> & _). split_and!; [by eapply queue_event_accounted|done..|apply He].
  - rewrite Hst. split_and!; [by eapply queue_event_accounted|done..|apply He].
Qed.

Lemma accept_quiet k j s s' : inv s → accept k j s = Some s' → quiet s s'.
Proof.
  intros Hs. unfold accept. destruct (s.(requested) !! k) as [t|] eqn:Hk; [|done]. bind_some.
  destruct (s.(incoming) !! j) as [id|] eqn:Hj; [|done]. bind_some.
  destruct (s.(submitted) !! id) as [r|] eqn:Hr; [|done]. bind_some.
  assert (H1 : accounted [(t.1, listening t.2)] (set_requested (delete k s.(requested)) s)).
  { destruct Hs as [Hp Hh Ha Hc Hl]. split; [|done..]. eapply placed_perm; [|exact Hp].
    unfold places. cbn. rewrite (delete_Permutation (requested s) k t Hk) at 1. cbn. solve_Permutation. }
  destruct (placed_head _ _ _ _ (h_places _ _ H1)) as (x & Hx & Hst & Hc). cbn in Hx.
  unfold worker_of. cbn [workers set_calls set_requested]. rewrite Hx, Hc. cbn [address]. rewrite Nat.eqb_refl. intros [= <-].
  split_and!; [|done..|].
  - eapply (change_accounted _ _ (notified t.2) _ _ _ _ _ H1 Hx). all: try done. all: cbn.
    + split; [by rewrite Hc|]. left. unfold has_call. cbn. rewrite Hc. split_and!; [exact Hst|by eexists|done].
    + unfold places. cbn. rewrite fmap_app. cbn. solve_Permutation.
    + by intros ? _ [= <-].
    + intros rest. unfold pending. cbn. rewrite Hst, Hc. cbn.
      rewrite (delete_Permutation (incoming s) j id Hj) at 2. solve_Permutation.
    + intros rest Hl. rewrite Hl. unfold executing. cbn. by rewrite Hst.
  - unfold effort. cbn. pose proof (lookup_lt_Some _ _ _ Hj). rewrite length_delete, length_app by (by eexists).
    pose proof (sum_set weight t.1 x (Worker (status x) (Call t.2 (Some id) r OpReply.init)) (workers s) Hx) as Hsum.
    unfold weight at 2 4 in Hsum. rewrite Hst, Hc in Hsum. rewrite Hst, Hc. cbn in *. lia.
Qed.

Lemma send_quiet k s s' : inv s → send k s = Some s' → quiet s s'.
Proof.
  intros [Hp Hh Ha Hc Hl]. unfold send. destruct (s.(finishing) !! k) as [[t [o r]]|] eqn:Hk; [|done].
  bind_some. intros [= <-].
  pose proof (delete_Permutation (finishing s) k _ Hk) as Hd. split_and!; [|done..|].
  - split; cbn; [|done..|].
    + assert (H1 : places s ≡ₚ (t.1, sending t.2 o r) :: places (set_finishing (delete k s.(finishing)) s)).
      { unfold places. cbn. rewrite Hd at 1. cbn. solve_Permutation. }
      eapply placed_perm; [|eapply (placed_role _ (sending t.2 o r) (notified t.2)); [eapply placed_perm, Hp; exact H1|]].
      * unfold places. cbn. rewrite fmap_app. cbn. solve_Permutation.
      * intros st (? & ? & _). split; [done|by right].
    + rewrite Hl, Hd at 1. cbn. unfold unsent at 1. cbn. solve_Permutation.
  - unfold effort. cbn. pose proof (lookup_lt_Some _ _ _ Hk). rewrite length_delete, length_app by (by eexists). cbn. lia.
Qed.

Lemma wait_quiet i r x s : accounted [(i, r)] s → s.(workers) !! i = Some x → pending x = [] → executing x = [] →
  weight x = 1%nat → ∀ s0, s.(log) = s0.(log) → s.(submitted) = s0.(submitted) → s.(crashed) = s0.(crashed) →
  effort s = effort s0 → quiet s0 (wait i x s).
Proof.
  intros Hs Hx Hp He Hw s0 Hl Hsub Hc Heff. split_and!; [by eapply wait_accounted|done..|].
  rewrite <-Heff. unfold effort. cbn.
  pose proof (sum_set weight i x (Worker (Some WAITING) (Call (S (address (cur_call x))) None OpRequest.init OpReply.init)) _ Hx) as Hsum.
  rewrite Hw in Hsum. cbn in Hsum. lia.
Qed.

Section steps.
Context {W : Type}.
Variable do_op : OpRequest.t → OpReply.t → M W OpReply.t.
Implicit Types (s : server) (w : W).

(** What an internal step does: nothing to the world, or one request; with it the
    proxy may end. *)
Definition progress s w s' w' : Prop :=
  (quiet s s' ∧ w' = w) ∨
  (∃ id req r, s.(submitted) !! id = Some req ∧ do_op req OpReply.init w = (Val r, w') ∧
    inv s' ∧ s'.(log) = s.(log) ++ [(id, r)] ∧ s'.(submitted) = s.(submitted) ∧ s'.(crashed) = s.(crashed) ∧
    effort s = S (effort s')) ∨
  (∃ id req, s.(submitted) !! id = Some req ∧ do_op req OpReply.init w = (UB, w') ∧ s'.(crashed) = true ∧
    (0 < effort s)%nat).
Lemma quietly s w s' : quiet s s' → progress s w s' w.
Proof. by left. Qed.

Lemma react_progress i j e l s w : s.(schedulers) !! i = Some ((j, e) :: l) → inv s →
  let '(s', w') := react do_op j e (set_schedulers (<[i := l]> s.(schedulers)) s) w in progress s w s' w'.
Proof.
  intros Hi Hs. pose proof (take_accounted _ _ _ _ Hi Hs) as H1. set (s1 := set_schedulers _ s) in *.
  destruct (placed_head _ _ _ _ (h_places _ _ H1)) as (x & Hx & Hf). unfold react. cbn [fst] in Hx. rewrite Hx.
  assert (Hwait : pending x = [] → executing x = [] → weight x = 1%nat → progress s w (wait j x s1) w).
  { intros. apply quietly. by eapply wait_quiet. }
  destruct e; cbn in Hf.
  - rewrite Hf. apply Hwait; unfold pending, executing, weight; by rewrite Hf.
  - destruct (has_call_id _ _ _ _ H1 Hx Hf) as (id & Hid & Hreq & Hrep). pose proof Hf as (Hst & _). rewrite Hst.
    pose proof (λ y, sum_set weight j x y _ Hx) as Hsum. unfold weight at 2 in Hsum. rewrite Hst, Hid in Hsum.
    unfold process. rewrite Hrep. destruct (do_op _ _ _) as [[r|] w'] eqn:Hdo.
    + right; left. exists id, (request (cur_call x)), r.
      split_and!; [done|done|exact (process_accounted j x id r s1 H1 Hx Hf Hid)|cbn; by rewrite Hid|done|done|].
      unfold effort. cbn. rewrite list_insert_insert_eq.
      specialize (Hsum (Worker (Some PROCESSING) (Call (address (cur_call x)) (op (cur_call x)) (request (cur_call x)) r))).
      rewrite Hid in *. cbn in Hsum. lia.
    + right; right. exists id, (request (cur_call x)). split_and!; [done..|]. unfold effort.
      specialize (Hsum new_worker). cbn in Hsum. lia.
  - rewrite Hf. apply quietly. split_and!; [by apply finish_accounted|done..|]. unfold effort. cbn. rewrite length_app.
    pose proof (sum_set weight j x (set_status FINISHED x) _ Hx) as Hsum. unfold weight at 2 4 in Hsum.
    cbn in Hsum. rewrite Hf in Hsum. cbn. lia.
  - rewrite Hf. apply Hwait; unfold pending, executing, weight; by rewrite Hf.
Qed.

Lemma submit_accounted r s : inv s → inv (set_calls (s.(submitted) ++ [r]) (s.(incoming) ++ [length s.(submitted)]) s).
Proof.
  intros [Hp Hh Ha Hc Hl]. split; cbn; [exact Hp|exact Hh| | |exact Hl].
  - intros i x id Hx Hst Hid. apply lookup_app_l_Some. by eapply Ha.
  - rewrite length_app, seq_app, <-Hc. cbn. solve_Permutation.
Qed.

Lemma act_progress a s w s' w' : inv s → act do_op a s w = Some (s', w') →
  (∃ r, a = Submit r ∧ s' = set_calls (s.(submitted) ++ [r]) (s.(incoming) ++ [length s.(submitted)]) s ∧ w' = w) ∨
  (internal a = true ∧ progress s w s' w').
Proof.
  intros Hs. unfold act. destruct s.(crashed); [done|]. destruct a as [r|k j|k|i|k].
  - intros [= <- <-]. left. by exists r.
  - destruct (accept k j s) as [s1|] eqn:Ha; [|done]. intros [= <- <-]. right. split; [done|]. by eapply quietly, accept_quiet.
  - destruct (entry k s) as [s1|] eqn:Ha; [|done]. intros [= <- <-]. right. split; [done|]. by eapply quietly, entry_quiet.
  - destruct (s.(schedulers) !! i) as [[|[j e] l]|] eqn:Hi; [done| |done]. intros [= Hr].
    pose proof (react_progress i j e l s w Hi Hs) as Hp. rewrite Hr in Hp. by right.
  - destruct (send k s) as [s1|] eqn:Ha; [|done]. intros [= <- <-]. right. split; [done|]. by eapply quietly, send_quiet.
Qed.

Lemma run_app l1 l2 s w : run do_op (l1 ++ l2) s w = run do_op l1 s w ≫= λ '(s, w), run do_op l2 s w.
Proof. revert s w. induction l1 as [|a l1 IH]; intros s w; [done|]. cbn. destruct (act _ _ _ _) as [[s1 w1]|]; [apply IH|done]. Qed.
End steps.

(** ** From the start *)
#[local] Arguments effort : simpl never.
#[local] Arguments act : simpl never.
Section runs.
Context {W : Type}.
Variable do_op : OpRequest.t → OpReply.t → M W OpReply.t.
Variable scher_num : Z.
Implicit Types (s : server) (w : W).
Notation s0 := (start scher_num).

Lemma start_accounted : inv s0.
Proof.
  unfold start. set (per := workers_for scher_num). set (n := Z.to_nat scher_num).
  assert (Hb : ∀ {A} (f : worker → list A), f new_worker = [] → replicate (n * per) new_worker ≫= f = []).
  { intros A f Hf. generalize (n * per)%nat as k. induction k as [|k IH]; [done|].
    change (f new_worker ++ (replicate k new_worker ≫= f) = []). by rewrite Hf, IH. }
  split; cbn.
  - unfold places. cbn [schedulers requested cq finishing]. rewrite join_seq, <-list_fmap_compose.
    rewrite !app_nil_r. exact (placed_start fresh new_worker (n * per) eq_refl).
  - rewrite length_replicate, length_fmap, length_seq. intros i Hi. apply Nat.Div0.div_lt_upper_bound. lia.
  - intros i x id [-> _]%lookup_replicate. done.
  - by rewrite Hb.
  - by rewrite Hb.
Qed.

(** The invariant, as long as the proxy has not ended. *)
Lemma act_inv a s w s' w' : inv s → act do_op a s w = Some (s', w') → s'.(crashed) = false → inv s'.
Proof.
  intros Hs Ha Hc. pose proof (act_progress do_op a s w s' w' Hs Ha) as Hp. clear Ha.
  destruct Hp as
    [(r & -> & -> & _)|[_ [[[? _] _]|[(id & req & r & _ & _ & ? & _)|(id & req & _ & _ & ? & _)]]]];
    [by apply submit_accounted|done|done|congruence].
Qed.
Lemma act_live a s w s' w' : act do_op a s w = Some (s', w') → s.(crashed) = false.
Proof. unfold act. by destruct s.(crashed). Qed.
Lemma run_live l s w s' w' : run do_op l s w = Some (s', w') → s'.(crashed) = false → s.(crashed) = false.
Proof.
  destruct l as [|a l]; cbn; [by intros [= <- _]|]. intros Hr _.
  destruct (act do_op a s w) as [[s1 w1]|] eqn:Ha; [|done]. by eapply act_live.
Qed.

(** Requests carried out one after the other. *)
Fixpoint in_order (requests : list OpRequest.t) (l : list (nat * OpReply.t)) (w w' : W) : Prop :=
  match l with
  | [] => w' = w
  | (id, r) :: l => ∃ req w1, requests !! id = Some req ∧ do_op req OpReply.init w = (Val r, w1) ∧ in_order requests l w1 w'
  end.
Lemma in_order_app reqs l l' w w' : in_order reqs (l ++ l') w w' ↔ ∃ w1, in_order reqs l w w1 ∧ in_order reqs l' w1 w'.
Proof.
  revert w. induction l as [|[id r] l IH]; intros w; cbn; [split; [by exists w|by intros (? & -> & ?)]|].
  split.
  - intros (req & w1 & ? & ? & (w2 & ? & ?)%IH). exists w2. split; [by exists req, w1|done].
  - intros (w2 & (req & w1 & ? & ? & ?) & ?). exists req, w1. split_and!; [done..|]. apply IH. by exists w2.
Qed.
Lemma in_order_more reqs reqs' l w w' : in_order reqs l w w' → in_order (reqs ++ reqs') l w w'.
Proof.
  revert w. induction l as [|[id r] l IH]; intros w; cbn; [done|]. intros (req & w1 & ? & ? & ?). exists req, w1.
  split_and!; [by apply lookup_app_l_Some|done|auto].
Qed.

Lemma run_in_order l s w s' w' : inv s → run do_op l s w = Some (s', w') → s'.(crashed) = false → inv s' ∧
  ∃ l' reqs, s'.(log) = s.(log) ++ l' ∧ s'.(submitted) = s.(submitted) ++ reqs ∧ in_order s'.(submitted) l' w w'.
Proof.
  revert s w. induction l as [|a l IH]; intros s w Hs Hr Hc; cbn in Hr.
  { injection Hr as <- <-. split; [done|]. exists [], []. by rewrite !app_nil_r. }
  destruct (act do_op a s w) as [[s1 w1]|] eqn:Ha; [|done]. cbn in Hr. pose proof (run_live _ _ _ _ _ Hr Hc) as Hc1.
  pose proof (act_inv _ _ _ _ _ Hs Ha Hc1) as H1. destruct (IH _ _ H1 Hr Hc) as (Hi & l' & reqs & Hl & Hq & Ho).
  split; [done|]. pose proof (act_progress do_op a s w s1 w1 Hs Ha) as Hp. clear Ha IH. destruct Hp as
    [(r & -> & -> & ->)|[_ [[(_ & Hlog & Hsub & _) ->]|[(id & req & r & Hreq & Hdo & _ & Hlog & Hsub & _)|
      (id & req & _ & _ & ? & _)]]]]; cbn in *.
  - exists l', (r :: reqs). split_and!; [done| |done]. by rewrite Hq, <-(assoc_L (++)).
  - exists l', reqs. rewrite <-Hlog, <-Hsub. by split_and!.
  - exists ((id, r) :: l'), reqs. rewrite <-Hsub. split_and!; [by rewrite Hl, Hlog, <-(assoc_L (++))|done|].
    exists req, w1. split_and!; [|done..]. rewrite Hq, Hsub. by apply lookup_app_l_Some.
  - congruence.
Qed.

(** Nothing is executed twice, or answered with another reply than its own. *)
Lemma log_facts s : inv s → NoDup s.(log).*1 ∧ (∀ p, p ∈ s.(answers) → p ∈ s.(log)) ∧ NoDup s.(answers).*1 ∧
  ∀ id, id ∈ s.(log).*1 → (id < length s.(submitted))%nat.
Proof.
  intros [_ _ _ Hc Hl]. assert (Hnd : NoDup s.(log).*1).
  { assert (Hall : NoDup (s.(incoming) ++ (s.(workers) ≫= pending) ++ s.(log).*1)) by (rewrite Hc; apply NoDup_seq).
    by apply NoDup_app in Hall as (_ & _ & (_ & _ & ?)%NoDup_app). }
  split_and!; [done|intros p Hp; rewrite Hl; by apply elem_of_app; left| |].
  - rewrite Hl in Hnd. rewrite fmap_app in Hnd. by apply NoDup_app in Hnd as [? _].
  - intros id Hid. assert (Hin : id ∈ seq 0 (length s.(submitted))) by (rewrite <-Hc; by do 2 (apply elem_of_app; right)).
    apply elem_of_seq in Hin. lia.
Qed.

Lemma replies_own l1 l2 w0 s1 w1 s2 w2 :
  run do_op l1 s0 w0 = Some (s1, w1) → run do_op l2 s1 w1 = Some (s2, w2) → s2.(crashed) = false →
  ∃ later, s2.(log) = s1.(log) ++ later ∧ in_order s2.(submitted) s2.(log) w0 w2 ∧ NoDup s2.(log).*1 ∧
    (∀ p, p ∈ s1.(answers) → p ∈ s1.(log)) ∧ (∀ p, p ∈ s2.(answers) → p ∈ s2.(log)) ∧ NoDup s2.(answers).*1 ∧
    ∀ id, (length s1.(submitted) ≤ id)%nat → id ∉ s1.(log).*1.
Proof.
  intros H1 H2 Hc. pose proof (run_live _ _ _ _ _ H2 Hc) as Hc1.
  destruct (run_in_order _ _ _ _ _ start_accounted H1 Hc1) as (Hi1 & l & reqs1 & Hl1 & Hq1 & Ho1).
  destruct (run_in_order _ _ _ _ _ Hi1 H2 Hc) as (Hi2 & later & reqs2 & Hl2 & Hq2 & Ho2).
  destruct (log_facts s1 Hi1) as (_ & Ha1 & _ & Hlt). destruct (log_facts s2 Hi2) as (Hnd & Ha2 & Hna & _).
  exists later. split_and!; [done| |done..|].
  - rewrite Hl2. apply in_order_app. exists w1. split; [|done]. rewrite Hq2. apply in_order_more. by rewrite Hl1.
  - intros id Hid Hin. apply Hlt in Hin. lia.
Qed.

(** The workers stay as many as they are. *)
Lemma act_length a s w s' w' : act do_op a s w = Some (s', w') → length s'.(workers) = length s.(workers).
Proof.
  unfold act, accept, entry, send, react, process. intros Ha.
  repeat first [progress simplify_option_eq | case_match]; cbn; by rewrite ?length_insert.
Qed.
Lemma run_length l s w s' w' : run do_op l s w = Some (s', w') → length s'.(workers) = length s.(workers).
Proof.
  revert s w. induction l as [|a l IH]; intros s w Hr; cbn in Hr; [by injection Hr as <- _|].
  destruct (act do_op a s w) as [[s1 w1]|] eqn:Ha; [|done]. apply IH in Hr. apply act_length in Ha. congruence.
Qed.

(** When nothing is left to do every call has its answer. *)
Lemma stuck_answered s w : inv s → s.(crashed) = false → s.(workers) ≠ [] →
  (∀ a, internal a = true → act do_op a s w = None) → s.(answers).*1 ≡ₚ seq 0 (length s.(submitted)).
Proof.
  intros [Hp _ _ Hc Hl] Hcr Hne Hstuck.
  assert (Hact : ∀ a, internal a = true → act do_op a s w = None) by done. unfold act in Hact. rewrite Hcr in Hact.
  assert (Hj : mjoin s.(schedulers) = []).
  { apply join_nil. intros i [j e] l Hi. specialize (Hact (React i) eq_refl). cbn in Hact. by rewrite Hi in Hact. }
  assert (Hq : s.(cq) = []).
  { destruct s.(cq) as [|t ts] eqn:Hq; [done|]. specialize (Hact (Entry 0) eq_refl). unfold entry in Hact. by rewrite Hq in Hact. }
  assert (Hf : s.(finishing) = []).
  { destruct s.(finishing) as [|[t [o r]] ts] eqn:Hf; [done|]. specialize (Hact (Send 0) eq_refl). unfold send in Hact. by rewrite Hf in Hact. }
  assert (Hps : places s = (λ t, (t.1, listening t.2)) <$> s.(requested)) by (unfold places; rewrite Hj, Hq, Hf; by rewrite !app_nil_r).
  cbn in Hp. rewrite Hps in Hp.
  assert (Hlis : ∀ i x, s.(workers) !! i = Some x → pending x = [] ∧ executing x = []).
  { intros i x Hx. destruct (placed_all _ _ _ _ Hp Hx) as (r & Hin & Hfit). apply list_elem_of_fmap in Hin as (t & [= -> ->] & _).
    destruct Hfit as [Hst Hcall]. unfold pending, executing. by rewrite Hst, Hcall. }
  assert (Hb : ∀ {A} (f : worker → list A), (∀ i x, s.(workers) !! i = Some x → f x = []) → s.(workers) ≫= f = []).
  { intros A f Hnil. apply elem_of_nil_inv. intros y (x & Hy & Hx)%list_elem_of_bind.
    apply list_elem_of_lookup in Hx as [i Hx]. rewrite (Hnil i x Hx) in Hy. by apply elem_of_nil in Hy. }
  rewrite (Hb _ pending) in Hc by (intros i x Hx; by apply (Hlis i)).
  rewrite (Hb _ executing), Hf in Hl by (intros i x Hx; by apply (Hlis i)). cbn in Hc, Hl. rewrite app_nil_r in Hl.
  assert (Hin : s.(incoming) = []).
  { destruct s.(incoming) as [|id ids] eqn:Hi; [done|]. exfalso. destruct s.(workers) as [|x xs] eqn:Hws; [done|].
    destruct (placed_all _ _ 0%nat x Hp eq_refl) as (r & Hr & _). destruct s.(requested) as [|t ts] eqn:Hreq; [by apply elem_of_nil in Hr|].
    assert (Hid : is_Some (s.(submitted) !! id)).
    { apply lookup_lt_is_Some. assert (Hid : id ∈ seq 0 (length s.(submitted))) by (rewrite <-Hc; by left). apply elem_of_seq in Hid. lia. }
    destruct Hid as [req Hreq']. specialize (Hact (Accept 0 0) eq_refl).
    assert (Hacc : is_Some (accept 0 0 s)).
    { unfold accept. rewrite Hreq, Hi. change ((t :: ts) !! 0%nat) with (Some t). change ((id :: ids) !! 0%nat) with (Some id).
      do 2 bind_some. rewrite Hreq'. bind_some. by eexists. }
    destruct Hacc as [s2 Hacc]. cbv iota in Hact. by rewrite Hacc in Hact. }
  rewrite Hin in Hc. cbn in Hc. by rewrite <-Hc, Hl.
Qed.

(** The workers of the proxy: 1024, less what the division leaves. *)
Lemma start_workers : length s0.(workers) = (Z.to_nat scher_num * workers_for scher_num)%nat.
Proof. apply length_replicate. Qed.
Lemma workers_for_bounds : (0 < Z.to_nat scher_num * workers_for scher_num)%nat ↔ 1 ≤ scher_num ≤ m_max_worker.
Proof.
  unfold workers_for, m_max_worker. destruct (Z.leb_spec scher_num 0); [lia|]. rewrite Z.quot_div_nonneg by lia. split.
  - intros Hp. destruct (decide (scher_num ≤ 1024)); [lia|]. rewrite Z.div_small in Hp by lia. lia.
  - intros Hs. pose proof (Z.div_le_lower_bound 1024 scher_num 1 ltac:(lia) ltac:(lia)). nia.
Qed.

(** C10: the proxy comes to rest: with 1 to 1024 schedulers, from any state it can
    reach, the steps it takes without new calls are bounded by the work that is
    left, and when it can take no more of them every call of every client has been
    answered, once; it only ends when a request brings it down. *)
Theorem every_call_answered l w0 s w l' s' w' :
  1 ≤ scher_num ≤ m_max_worker → run do_op l s0 w0 = Some (s, w) → s.(crashed) = false →
  forallb internal l' = true → run do_op l' s w = Some (s', w') →
  (length l' ≤ effort s)%nat ∧
  (s'.(crashed) = true → ∃ id req w1, s.(submitted) !! id = Some req ∧ (do_op req OpReply.init w1).1 = UB) ∧
  ((∀ a, internal a = true → act do_op a s' w' = None) → s'.(crashed) = false →
    s'.(answers).*1 ≡ₚ seq 0 (length s.(submitted))).
Proof.
  intros Hn Hr Hc Hl' Hr'. destruct (run_in_order _ _ _ _ _ start_accounted Hr Hc) as [Hs _].
  assert (Hws : s.(workers) ≠ []).
  { intros Hws. apply run_length in Hr. rewrite Hws, start_workers in Hr. apply workers_for_bounds in Hn. cbn in Hr. lia. }
  clear Hr. revert s w Hs Hc Hws Hr'. induction l' as [|a l' IH]; intros s w Hs Hc Hws Hr'; cbn in *.
  { injection Hr' as <- <-. split_and!; [lia|congruence|]. intros Hstuck _. by eapply stuck_answered. }
  apply andb_prop in Hl' as [Hint Hl']. destruct (act do_op a s w) as [[s1 w1]|] eqn:Ha; [|done]. cbn in Hr'.
  assert (Hws1 : s1.(workers) ≠ []).
  { apply act_length in Ha. intros He. rewrite He in Ha. destruct s.(workers); [done|]. cbn in Ha. lia. }
  destruct (act_progress do_op a s w s1 w1 Hs Ha) as [(r & -> & _)|[_ Hp]]; [done|].
  destruct Hp as [[(H1 & _ & Hsub & Hc1 & He) ->]|[(id & req & r & _ & _ & H1 & _ & Hsub & Hc1 & He)|(id & req & Hreq & Hdo & Hc1 & He)]].
  - rewrite Hc in Hc1. rewrite <-Hsub, He. destruct (IH Hl' s1 w H1 Hc1 Hws1 Hr') as (Hlen & Hcr & Hans). split_and!; [lia|done..].
  - rewrite Hc in Hc1. rewrite <-Hsub, He. destruct (IH Hl' s1 w1 H1 Hc1 Hws1 Hr') as (Hlen & Hcr & Hans). split_and!; [lia|done..].
  - destruct l' as [|a' l'].
    2: { change (act do_op a' s1 w1 ≫= (λ '(s, w), run do_op l' s w) = Some (s', w')) in Hr'. destruct (act do_op a' s1 w1) as [[s2 w2]|] eqn:Ha2; [|done]. apply act_live in Ha2. congruence. }
    injection Hr' as <- <-. split_and!; [cbn; lia| |congruence]. intros _. exists id, req, w. by rewrite Hdo.
Qed.

(** Without a scheduler, or with more than 1024 of them, the proxy has no worker
    and never answers anybody. *)
Theorem no_worker_answers_nobody l w0 s w :
  ¬ (1 ≤ scher_num ≤ m_max_worker) → run do_op l s0 w0 = Some (s, w) →
  s.(answers) = [] ∧ s.(log) = [] ∧ w = w0 ∧ s.(crashed) = false.
Proof.
  intros Hn Hr. assert (Hws : s0.(workers) = []).
  { apply nil_length_inv. rewrite start_workers. pose proof workers_for_bounds. lia. }
  assert (Hgo : ∀ l s1 w1, inv s1 → s1.(workers) = [] → s1.(answers) = [] ∧ s1.(log) = [] ∧ s1.(crashed) = false →
    run do_op l s1 w1 = Some (s, w) → s.(answers) = [] ∧ s.(log) = [] ∧ w = w1 ∧ s.(crashed) = false).
  { clear l Hr. induction l as [|a l IH]; intros s1 w1 Hs Hw Hnil Hr; cbn in Hr; [by injection Hr as <- <-; naive_solver|].
    destruct (act do_op a s1 w1) as [[s2 w2]|] eqn:Ha; [|done]. cbn in Hr.
    assert (Hpl : places s1 = []).
    { pose proof (h_places _ _ Hs) as [Hps _]. rewrite Hw in Hps. cbn in Hps. by apply Permutation_nil_r, fmap_nil_inv in Hps. }
    assert (Hempty : mjoin s1.(schedulers) = [] ∧ s1.(requested) = [] ∧ s1.(cq) = [] ∧ s1.(finishing) = []).
    { unfold places in Hpl. apply app_eq_nil in Hpl as [H1 Hpl]. apply app_eq_nil in Hpl as [H2 Hpl].
      apply app_eq_nil in Hpl as [H3 H4]. split_and!; by eapply fmap_nil_inv. }
    destruct Hempty as (Hj & Hq & Hcq & Hf). destruct (act_progress do_op a s1 w1 s2 w2 Hs Ha) as [(r & -> & -> & ->)|[Hint _]].
    - eapply (IH _ w1); [by apply submit_accounted|done|done|exact Hr].
    - exfalso. unfold act in Ha. destruct Hnil as (_ & _ & Hc). rewrite Hc in Ha. destruct a as [r|k j|k|i|k]; [done|..].
      + unfold accept in Ha. by rewrite Hq in Ha.
      + unfold entry in Ha. by rewrite Hcq in Ha.
      + destruct (s1.(schedulers) !! i) as [[|[j e] ev]|] eqn:Hi; [done| |done]. pose proof (join_take _ _ _ _ Hi) as Hjt.
        rewrite Hj in Hjt. by apply Permutation_nil_cons in Hjt.
      + unfold send in Ha. by rewrite Hf in Ha. }
  eapply Hgo; [apply start_accounted|exact Hws|done|exact Hr].
Qed.
End runs.

(** C11: a proxy configured with one scheduler (ioproxy.scher = 1, where one thread
    runs all requests, so that a request is one step; the default is six, whose
    requests may overlap, and is not covered) gives every client the reply to its
    own request. Whatever the order in which gRPC hands calls to workers, sends
    replies and reports completions, and whenever the completion thread and the
    scheduler run, as long as no request brings the proxy down: the scheduler carries
    out requests that clients made, none of them twice; every reply a client has is
    what its own request gave when it was carried out, and it has one at most; and a
    call that was answered had been carried out before every call made after its
    answer. *)
Theorem one_scheduler_answers_own {W : Type} (do_op : OpRequest.t → OpReply.t → M W OpReply.t) l1 l2 w0 s1 w1 s2 w2 :
  run do_op l1 (start 1) w0 = Some (s1, w1) → run do_op l2 s1 w1 = Some (s2, w2) → s2.(crashed) = false →
  ∃ later, s2.(log) = s1.(log) ++ later ∧ in_order do_op s2.(submitted) s2.(log) w0 w2 ∧ NoDup s2.(log).*1 ∧
    (∀ p, p ∈ s1.(answers) → p ∈ s1.(log)) ∧ (∀ p, p ∈ s2.(answers) → p ∈ s2.(log)) ∧ NoDup s2.(answers).*1 ∧
    ∀ id, (length s1.(submitted) ≤ id)%nat → id ∉ s1.(log).*1.
Proof. apply replies_own. Qed.
