(* ===== verification/Registration.v ===== *)
(** * The start of a proxy (io_proxy/io_proxy.cc)

    A proxy reads its configuration, starts its workers (IoWorker.v), registers at
    the manager (IoproxyMgr.v) and learns from its answer the proxies of the other
    centres (Replica.v). An exception that nobody catches ends the process, which is
    [undefined]. *)
From S2P Require Import Prelude CxxString Json Records Datastore Instances IoproxyMgr FdManager Op Files Replica ProxyOp ClusterRuns ClientZone Pool IoWorker.

(** Requests to the manager: the body of a response that comes in time. *)
Class ManagerHttp (W : Type) : Type := {
  manager_post : string → string → W → option string * W;
  manager_get : string → W → option string * W;
}.

(** The process of a proxy: its configuration, [boost::filesystem::is_directory],
    [make_address] and back to a text, the port of the UDT server, and
    the UUID a constructor of [IOProxyNode] draws. *)
Class ProxyProcess : Type := {
  proxy_config : string → option string;
  proxy_config_int : string → option Z;
  is_directory : string → bool;
  make_address : string → option string;
  udt_port : Z;
  drawn_uuid : string;
}.

Module IOProxyStart.

(** [Node] and the addresses of an [IOProxy]; its [name] is never set. *)
Record t : Type := mk {
  uuid : string;
  addr : string;
  center_id : string;
  manager_addr : string;
  rpc_port : Z;
  data_port : Z;
}.

Definition node_of (i : t) : IOProxyNode.t :=
  IOProxyNode.mk i.(rpc_port) i.(data_port) i.(addr) "" IOProxyNode.Stopped i.(uuid) i.(center_id).
Definition url (i : t) : string := snprintf 256 ("http://" +:+ c_str i.(manager_addr) +:+ "/ioproxy").

Section start.
Context {W : Type} `{ManagerHttp W, Rapidjson, Indet, ProxyProcess}.

(** [json_decode] of the list: [tmp]. *)
Definition decode_list (res : string) : option (gmap string IOProxyNode.t) :=
  match rj_parse (c_str res) with
  | Some (JObject l) => ClientGraph.decode_nodes drawn_uuid l ∅
  | _ => Some ∅
  end.

Definition fresh_stat (i : t) (repm : ReplicaMgr.t) : M W (bool * ReplicaMgr.t) :=
  response ← extern (manager_post (url i) (to_json (node_of i)));
  match response with
  | None => mret (false, repm)
  | Some _ =>
      nodelist ← extern (manager_get (url i));
      match nodelist with
      | None => mret (false, repm)
      | Some res =>
          tmp ← deref (decode_list res);
          mret (Replication.learn (map_items tmp).*2 repm)
      end
  end.

(** [while (!fresh_stat() && max_loop-- > 0)] *)
Fixpoint register (max_loop : nat) (i : t) (repm : ReplicaMgr.t) : M W ReplicaMgr.t :=
  '(done, repm) ← fresh_stat i repm;
  if (done : bool) then mret repm
  else match max_loop with
       | O => mret repm
       | S max_loop => register max_loop i repm
       end.

(** [IOProxy::start]; [None] where it returns false. *)
Definition start (repm : ReplicaMgr.t) : M W (option (server * t * ReplicaMgr.t)) :=
  addr ← deref (make_address (default "0.0.0.0" (proxy_config "ip")));
  let data_path := default "/tmp/data" (proxy_config "ioproxy.data_path") in
  let center_id := default "unknown" (proxy_config "ioproxy.cid") in
  let port := default 9092 (proxy_config_int "ioproxy.rpc_port") in
  if negb (is_directory data_path) then mret None
  else
    let manager_addr := default "" (proxy_config "manager_addr") in
    match proxy_config "ioproxy.uuid" with
    | None => mret None
    | Some uuid =>
        let workers := OpServer.start (default 8 (proxy_config_int "ioproxy.scher")) in
        repm ← Replication.start center_id repm;
        let i := mk uuid addr center_id manager_addr port udt_port in
        repm ← register 3 i repm;
        mret (Some (workers, i, repm))
    end.
End start.

(** ** What does not depend on the manager *)
Section alone.
Context {W : Type} `{ManagerHttp W, Rapidjson, Indet, ProxyProcess}.
Implicit Types (w : W) (repm : ReplicaMgr.t) (i : t).

(** A manager that does not answer is asked [max_loop + 1] times; the proxy then goes
    on without it. *)
Lemma register_gives_up max_loop i repm w :
  (∀ body w, (manager_post (url i) body w).1 = None) →
  register max_loop i repm w =
    (Val repm, Nat.iter (S max_loop) (λ w, (manager_post (url i) (to_json (node_of i)) w).2) w).
Proof.
  intros Hno. assert (Hf : ∀ w, fresh_stat i repm w = (Val (false, repm), (manager_post (url i) (to_json (node_of i)) w).2)).
  { intros w'. unfold fresh_stat, mbind, M_bind, extern. pose proof (Hno (to_json (node_of i)) w') as Hw.
    destruct (manager_post _ _ w') as [o w1]. cbn in *. by subst o. }
  revert w. induction max_loop as [|l IH]; intros w; cbn [register]; unfold mbind at 1, M_bind at 1; rewrite Hf; [done|].
  rewrite IH. by rewrite (Nat.iter_succ_r (S l)).
Qed.

(** Where there is no "ioproxy.cid" the default is no number, and the process ends. *)
Theorem start_without_centre_ends addr repm w :
  make_address (default "0.0.0.0" (proxy_config "ip")) = Some addr →
  is_directory (default "/tmp/data" (proxy_config "ioproxy.data_path")) = true →
  is_Some (proxy_config "ioproxy.uuid") → proxy_config "ioproxy.cid" = None →
  (start repm w).1 = UB.
Proof.
  intros Ha Hd [uuid Hu] Hc. unfold start. rewrite Ha, Hd, Hu, Hc. reflexivity.
Qed.
End alone.

(** ** Against the registry of a manager *)
Section manager.
Context {W : Type} `{CouchbaseLaws W, !Host W, !HostLaws W, RapidjsonLaws, Indet, !CouchbaseUp W, ProxyProcess}.
Implicit Types (w : W) (m : gmap string IOProxyNode.t) (n : IOProxyNode.t) (i : t).
Notation world := (W * gmap string IOProxyNode.t)%type.

(** The manager of IoproxyMgr.v behind the routes of POST and GET, whatever the
    URL. *)
Definition respond {A} (r : outcome (gmap string IOProxyNode.t * response * A) * W) (m : gmap string IOProxyNode.t)
    : option string * world :=
  match r with
  | (Val (m, res, _), w) => (Some res.(http_body), (w, m))
  | (UB, w) => (None, (w, m))
  end.
#[local] Instance registry : ManagerHttp world := {|
  manager_post _ body c := respond (IOProxy_MGR.add c.2 body c.1) c.2;
  manager_get _ c := respond (('(res, ok) ← IOProxy_MGR.list c.2; mret (c.2, res, ok)) c.1) c.2;
|}.

Definition well_filed m : Prop := map_Forall (λ k n, c_str k = k ∧ IOProxyNode.wf n) m.
Definition running i : IOProxyNode.t := IOProxyNode.set_status IOProxyNode.Running (node_of i).
(** The number of a centre. *)
Definition number n : option Z := to_u32 <$> stoi n.(IOProxyNode.cid).

Lemma learn_spec l r : Forall (λ n, is_Some (number n)) l → ∃ r', Replication.learn l r = (true, r') ∧
  r'.(ReplicaMgr.mcid) = r.(ReplicaMgr.mcid) ∧ ∀ z, r'.(ReplicaMgr.ioproxys) !! z =
    match last (filter (λ n, number n = Some z) l) with Some n => Some n | None => r.(ReplicaMgr.ioproxys) !! z end.
Proof.
  revert r. induction l as [|n l IH]; intros r Hl; [by exists r|]. apply Forall_cons in Hl as [[z Hz] Hl].
  unfold number in Hz. cbn [Replication.learn]. destruct (stoi n.(IOProxyNode.cid)) as [id|] eqn:Hid; [|done].
  destruct (IH (ReplicaMgr.set_ioproxys (<[to_u32 id := n]> r.(ReplicaMgr.ioproxys)) r) Hl) as (r' & -> & Hm & Hr').
  exists r'. split_and!; [done..|]. intros z'. rewrite Hr'. cbn [ReplicaMgr.ioproxys ReplicaMgr.set_ioproxys].
  rewrite filter_cons. assert (Hn : number n = Some (to_u32 id)) by (unfold number; by rewrite Hid).
  case_decide as Hz'; rewrite Hn in Hz'.
  - injection Hz' as ->. rewrite lookup_insert_eq, last_cons. by destruct (last _).
  - rewrite lookup_insert_ne by congruence. done.
Qed.

Lemma decode_listed m : well_filed m → decode_list (ClientGraph.nodes_text m) = Some m.
Proof.
  intros Hm. unfold decode_list. rewrite ClientGraph.parse_nodes_text by done. by apply ClientGraph.decode_map_items.
Qed.

Lemma fresh_stat_ok i r m D w :
  serving D w → well_filed m → map_Forall (λ _ n, is_Some (number n)) m →
  IOProxyNode.wf (node_of i) → is_Some (number (node_of i)) →
  wp (fresh_stat i r) (λ '(ok, r') c, let m' := <[i.(uuid) := running i]> m in
    ok = true ∧ c.2 = m' ∧ serving (docs c.1) c.1 ∧ well_filed m' ∧ map_Forall (λ _ n, is_Some (number n)) m' ∧
    r'.(ReplicaMgr.mcid) = r.(ReplicaMgr.mcid) ∧ ∀ z, r'.(ReplicaMgr.ioproxys) !! z =
      match last (filter (λ n, number n = Some z) (map_items m').*2) with
      | Some n => Some n
      | None => r.(ReplicaMgr.ioproxys) !! z
      end) never (w, m).
Proof.
  intros HD Hm Hnum Hwf Hi. unfold fresh_stat.
  assert (Hm' : well_filed (<[i.(uuid) := running i]> m)) by (apply map_Forall_insert_2; [split; [apply Hwf|done]|done]).
  assert (Hnum' : map_Forall (λ _ n, is_Some (number n)) (<[i.(uuid) := running i]> m)) by (by apply map_Forall_insert_2).
  destruct (wp_run _ _ _ (IOProxy_MGR.add_registers m D w (to_json (node_of i)) HD)) as ([[m' res] ok] & w' & Hadd & u & _ & Hmm & -> & Hs).
  rewrite of_to_json in Hmm, Hs by exact Hwf.
  apply wp_bind, wp_extern. cbn [fst snd manager_post registry]. rewrite Hadd, Hmm. cbn [respond fst snd].
  apply wp_bind, wp_extern. cbn [fst snd manager_get registry]. 
  change (IOProxyNode.set_status IOProxyNode.Running (node_of i)) with (running i). change (IOProxyNode.uuid (running i)) with i.(uuid).
  set (m1 := <[i.(uuid) := running i]> m) in *.
  change (wp (tmp ← deref (decode_list (ClientGraph.nodes_text m1)); mret (Replication.learn (map_items tmp).*2 r))
    (λ '(ok, r') c, let m' := m1 in ok = true ∧ c.2 = m' ∧ serving (docs c.1) c.1 ∧ well_filed m' ∧
       map_Forall (λ _ n, is_Some (number n)) m' ∧ r'.(ReplicaMgr.mcid) = r.(ReplicaMgr.mcid) ∧ 
       ∀ z, r'.(ReplicaMgr.ioproxys) !! z = match last (filter (λ n, number n = Some z) (map_items m').*2) with
         Some n => Some n | None => r.(ReplicaMgr.ioproxys) !! z end) never (w', m1)).
  rewrite decode_listed by done. do 2 wp_step.
  destruct (learn_spec (map_items m1).*2 r) as (r' & -> & Hmc & Hr').
  { apply Forall_fmap. rewrite (map_items_perm m1), Forall_forall. intros [k n] Hin%elem_of_map_to_list. exact (Hnum' k n Hin). }
  destruct Hs as [Hup Hdocs]. split_and!; [done|done|by split|done..].
Qed.

(** One proxy per centre. *)
Definition one_per_centre m : Prop :=
  ∀ k k' n n', m !! k = Some n → m !! k' = Some n' → number n = number n' → k = k'.
(** A table of proxies is that of the manager. *)
Definition knows (r : ReplicaMgr.t) m : Prop := ∀ z n,
  r.(ReplicaMgr.ioproxys) !! z = Some n ↔ ∃ k, m !! k = Some n ∧ number n = Some z.

Lemma elem_of_items m n : n ∈ (map_items m).*2 ↔ ∃ k, m !! k = Some n.
Proof.
  rewrite (map_items_perm m), list_elem_of_fmap. split.
  - intros ([k n'] & -> & Hin%elem_of_map_to_list). by exists k.
  - intros [k Hk]. exists (k, n). split; [done|]. by apply elem_of_map_to_list.
Qed.
Lemma last_items m z n : one_per_centre m →
  last (filter (λ n, number n = Some z) (map_items m).*2) = Some n ↔ ∃ k, m !! k = Some n ∧ number n = Some z.
Proof.
  intros Hone. split.
  - intros Hl%last_Some_elem_of. apply list_elem_of_filter in Hl as [Hz [k Hk]%elem_of_items]. by exists k.
  - intros (k & Hk & Hz). destruct (last _) as [n'|] eqn:Hl.
    + apply last_Some_elem_of, list_elem_of_filter in Hl as [Hz' [k' Hk']%elem_of_items]. f_equal.
      assert (k' = k) as -> by (eapply Hone; eauto; congruence). congruence.
    + apply last_None in Hl. assert (Hin : n ∈ filter (λ n, number n = Some z) (map_items m).*2); [|by rewrite Hl in Hin; apply elem_of_nil in Hin].
      apply list_elem_of_filter. split; [done|]. apply elem_of_items. by exists k.
Qed.

(** What every registered node satisfies. *)
Definition registered D m w : Prop := serving D w ∧ well_filed m ∧ map_Forall (λ _ n, is_Some (number n)) m.
Definition can_register i : Prop := IOProxyNode.wf (node_of i) ∧ is_Some (number (node_of i)).

(** A proxy that starts meets the proxies of the other centres: it is in the
    manager's registry, as running, and its table has exactly the registered
    proxies, each at the number of its centre, itself among them. *)
Theorem start_meets_registered i r m D w max_loop :
  registered D m w → can_register i → r.(ReplicaMgr.ioproxys) = ∅ → one_per_centre (<[i.(uuid) := running i]> m) →
  wp (register max_loop i r) (λ r' c, c.2 = <[i.(uuid) := running i]> m ∧ registered (docs c.1) c.2 c.1 ∧
    r'.(ReplicaMgr.mcid) = r.(ReplicaMgr.mcid) ∧ knows r' c.2) never (w, m).
Proof.
  intros (HD & Hm & Hnum) [Hwf Hi] Hr Hone.
  assert (Hgo : ∀ k : bool → ReplicaMgr.t → M world ReplicaMgr.t, (∀ r', k true r' = mret r') →
    wp ('(ok, r') ← fresh_stat i r; k ok r') (λ r' c, c.2 = <[i.(uuid) := running i]> m ∧ registered (docs c.1) c.2 c.1 ∧
      r'.(ReplicaMgr.mcid) = r.(ReplicaMgr.mcid) ∧ knows r' c.2) never (w, m)).
  { intros k Hk. apply wp_bind. eapply wp_mono; [| |by apply (fresh_stat_ok i r m D w)]; [|done].
    intros [ok r'] [w1 m1] (-> & Hc & Hs & Hm' & Hn' & Hmc & Hr'). cbn [snd] in Hc. subst m1. rewrite Hk. apply wp_ret. split_and!; [done|by split|done|].
    intros z n. rewrite Hr', Hr, <-last_items by done. rewrite lookup_empty. by destruct (last _). }
  destruct max_loop as [|l]; cbn [register]; by apply (Hgo (λ ok r', if ok then _ else _)).
Qed.

End manager.

Section witness.
Let process : ProxyProcess := {|
  proxy_config _ := None; proxy_config_int _ := None; is_directory _ := true; make_address s := Some s;
  udt_port := 9096; drawn_uuid := "fresh";
|}.
#[local] Existing Instance process.
Let w0 : Instances.world := World ∅ ["u1"; "u2"; "u3"; "u4"] [] 0 None None.
Let north : t := mk "n" "10.0.0.1" "1" "manager:8080" 9092 9096.

Lemma north_ok : can_register north.
Proof. split; [by split_and!|by eexists]. Qed.
Lemma nobody : registered (W := Instances.world) ∅ ∅ w0.
Proof. split_and!; [done|by apply map_Forall_empty..]. Qed.

Theorem start_meets_registered_witness :
  wp (register (H := registry) 3 north ReplicaMgr.init) (λ r' c, knows r' c.2) never (w0, ∅).
Proof.
  eapply wp_mono; [| |apply (start_meets_registered (W := Instances.world) north ReplicaMgr.init ∅ ∅ w0 3)];
    [by intros r' c (_ & _ & _ & ?)|done|apply nobody|apply north_ok|done|].
  intros k k' n n' [[<- <-]|[_ ?]]%lookup_insert_Some [[<- <-]|[_ ?]]%lookup_insert_Some; done.
Defined.

#[local] Existing Instances fast_heap no_calls listing.

End witness.
End IOProxyStart.
