(* ===== verification/IoWorkerRuns.v ===== *)
(** * Concrete runs of the workers of a proxy

    Two clients of a proxy with one scheduler, whose requests go to the file two
    centres share (Cluster.v), on file systems in memory: the witnesses of
    IoWorker.v. *)
From S2P Require Import Prelude CxxString Json Records Lru FdManager Op Files Replica ProxyOp Pages Cluster ClusterRuns Pool IoWorker.

Import OpServer.

Section runs.
Existing Instance fast_heap.
Existing Instance no_calls.
Existing Instance listing.
Notation world := (site (D := mem) * site (D := mem))%type.

(** Nothing is left to do. *)
Definition idle (s : server) : bool :=
  forallb (λ l, match l with [] => true | _ => false end) s.(schedulers) &&
  match s.(cq), s.(finishing), s.(incoming) with [], [], [] => true | _, _, _ => false end.
Lemma idle_stuck {W} (do_op : OpRequest.t → OpReply.t → M W OpReply.t) s w a :
  idle s = true → internal a = true → act do_op a s w = None.
Proof.
  intros [Hs Hn]%andb_prop Ha. unfold act. destruct (crashed s); [done|].
  destruct s.(cq) eqn:Hq; [|done]. destruct s.(finishing) eqn:Hf; [|done]. destruct s.(incoming) eqn:Hi; [|done].
  destruct a as [r|k j|k|i|k]; [done|..].
  - unfold accept. rewrite Hi. by destruct (_ !! k).
  - unfold entry. by rewrite Hq.
  - destruct (s.(schedulers) !! i) as [[|[j e] l]|] eqn:Hl; [done| |done].
    rewrite forallb_forall in Hs. specialize (Hs _ ltac:(by eapply list_elem_of_In, list_elem_of_lookup_2)). done.
  - unfold send. by rewrite Hf.
Qed.

Let put (off : Z) (s : string) : OpRequest.t := to_request file (Write off s).
Let get (off len : Z) : OpRequest.t := to_request file (Read off len).

(** A request is carried out at the left centre, with the flusher run after it. *)
Let here : OpRequest.t → OpReply.t → M world OpReply.t := λ request _, at_left fuel request.
Let boot : list action := replicate 1024 (React 0).
Let calls : list action := [Submit (put 0 "abc"); Submit (get 0 4096)].
(** The second call overtakes the first in the completion queue. *)
Let serve : list action :=
  [Accept 0 0; Accept 0 0; Entry 1; Entry 0; React 0; React 0; React 0; React 0; Send 1; Send 0; Entry 0; Entry 0; React 0; React 0].
Let up : server * world := default (start 1, both) (run here (boot ++ calls) (start 1) both).
Let served : server * world := default up (run here serve up.1 up.2).

Lemma up_run : run here (boot ++ calls) (start 1) both = Some (up.1, up.2).
Proof. rewrite <-surjective_pairing. apply goes_some. vm_compute. reflexivity. Qed.
Lemma served_run : run here serve up.1 up.2 = Some (served.1, served.2).
Proof. rewrite <-surjective_pairing. apply goes_some. vm_compute. reflexivity. Qed.

Theorem one_scheduler_answers_own_witness :
  in_order here [put 0 "abc"; get 0 4096] served.1.(log) both served.2 ∧ served.1.(log).*1 = [1; 0]%nat ∧
  served.1.(answers).*1 = [0; 1]%nat ∧ ∀ p, p ∈ served.1.(answers) → p ∈ served.1.(log).
Proof.
  destruct (one_scheduler_answers_own here _ _ both _ _ _ _ up_run served_run) as (later & _ & Ho & _ & _ & Ha & _ & _).
  { vm_compute. reflexivity. }
  replace (submitted served.1) with [put 0 "abc"; get 0 4096] in Ho by (vm_compute; reflexivity).
  split; [exact Ho|]. split; [vm_compute; reflexivity|]. split; [vm_compute; reflexivity|exact Ha].
Defined.

Lemma up_live : up.1.(crashed) = false.
Proof. vm_compute. reflexivity. Qed.
Lemma served_live : served.1.(crashed) = false.
Proof. vm_compute. reflexivity. Qed.
Lemma served_idle : idle served.1 = true.
Proof. vm_compute. reflexivity. Qed.
Lemma up_calls : seq 0 (length up.1.(submitted)) = [0; 1]%nat.
Proof. vm_compute. reflexivity. Qed.
Theorem every_call_answered_witness : (14 ≤ effort up.1)%nat ∧ served.1.(answers).*1 ≡ₚ [0; 1]%nat.
Proof.
  rewrite <-up_calls.
  destruct (every_call_answered here 1 (boot ++ calls) both up.1 up.2 serve served.1 served.2 ltac:(by split) up_run up_live
    eq_refl served_run) as (He & _ & Ha).
  split; [exact He|]. apply Ha, served_live. intros a. apply idle_stuck, served_idle.
Defined.

(** 1025 schedulers: a call is taken by nobody. *)
Theorem no_worker_answers_nobody_witness : ∃ s w,
  run here (calls ++ [Submit (put 1 "d")]) (start 1025) both = Some (s, w) ∧ length s.(submitted) = 3%nat ∧ s.(answers) = [].
Proof.
  eexists _, _. split; [reflexivity|]. split; [reflexivity|].
  eapply (no_worker_answers_nobody here 1025 (calls ++ [Submit (put 1 "d")]) both); [unfold m_max_worker; lia|reflexivity].
Defined.
End runs.
