(* ===== verification/SelectNode.v ===== *)
(** * The choice of a manager (client/OPTNode/opt_node.cc, client/client.cc)

    [SelectNode] asks the configured manager for the list of centres, times a
    request to the manager of each, and keeps their nodes in the order of the
    times; [get_manager] is the first. Requests are client/msg_mod.cc over the HTTP
    library, the interface [Pistache]; each takes the token of [ClientUser]. A method
    is one step; [undefined] is also a call that never returns, as in ClientZone.v.
    [subgetRTT_ping] is never called, because [getRTT] always asks for type 2. *)
From S2P Require Import Prelude CxxString Json Records Datastore Instances User Mconf ClientZone.

(** What came of a request: the body of the response, whatever its status, a
    response that was rejected, none within 30 seconds, an exception. *)
Inductive http_outcome : Type :=
| Answered (body : string)
| Rejected
| TimedOut
| Thrown.

Class Pistache (W : Type) : Type := {
  (** to the URL, with the cookie "token" *)
  http_get : string → string → W → http_outcome * W;
  http_post : string → string → string → W → http_outcome * W;
  (** without a cookie *)
  http_delete : string → W → http_outcome * W;
  (** without a cookie; the cookies of the response, [None] without a response *)
  http_post_plain : string → string → W → option (string * list (string * string)) * W;
  (** [steady_clock::now()], in nanoseconds *)
  steady_now : W → Z * W;
}.

(** [std::sort] with [CmpByValue]: sorted, and the order of equal values is
    whatever it is. *)
Definition by_value (x y : string * Z) : Prop := x.2 ≤ y.2.
Class StdSort : Type := { std_sort : list (string * Z) → list (string * Z) }.
Class StdSortLaws `{StdSort} : Prop := {
  std_sort_perm l : std_sort l ≡ₚ l;
  std_sort_sorted l : StronglySorted by_value (std_sort l);
}.

(** The texts that are no JSON value. *)
Class RapidjsonErrors `{Rapidjson} : Prop := {
  parse_empty : rj_parse "" = None;
  parse_fail : rj_parse "fail" = None;
}.

(** client/msg_mod.cc. The cookies of the responses are kept and never read. *)
Module ClientRpc.
Section requests.
Context {W : Type} `{Pistache W}.

Definition body_of (r : http_outcome) : string := match r with Answered b => b | _ => "" end.
Definition get_request (token endpoint url : string) : M W string :=
  r ← extern (http_get (endpoint +:+ url) token);
  mret (body_of r).
Definition post_request (token endpoint url data : string) : M W string :=
  r ← extern (http_post (endpoint +:+ url) token data);
  mret (body_of r).
Definition delete_request (endpoint url : string) : M W string :=
  r ← extern (http_delete (endpoint +:+ url));
  mret (body_of r).
End requests.
End ClientRpc.

Module SelectNode.

Record struct_Node : Type := Node {
  location : string;
  ip_addr : string;
  port : string;
  center_id : string;
}.

(** [locked] is [mtx]. *)
Record t : Type := mk {
  buf_delay : list struct_Node;
  buf_area : list struct_Node;
  locked : bool;
  myauth : AuthSearch.t;
  center_Information : string;
}.
Definition init : t := mk [] [] false AuthSearch.init "".

Definition set_delay (l : list struct_Node) (s : t) : t :=
  mk l s.(buf_area) s.(locked) s.(myauth) s.(center_Information).
Definition set_area (l : list struct_Node) (s : t) : t :=
  mk s.(buf_delay) l s.(locked) s.(myauth) s.(center_Information).
Definition set_locked (b : bool) (s : t) : t :=
  mk s.(buf_delay) s.(buf_area) b s.(myauth) s.(center_Information).
Definition set_auth (a : AuthSearch.t) (s : t) : t :=
  mk s.(buf_delay) s.(buf_area) s.(locked) a s.(center_Information).
Definition set_information (i : string) (s : t) : t :=
  mk s.(buf_delay) s.(buf_area) s.(locked) s.(myauth) i.

Definition setNode_delay (mynode : struct_Node) (s : t) : t := set_delay (s.(buf_delay) ++ [mynode]) s.
Definition erase_v_delay (s : t) : t := set_delay [] s.
Definition setNode_area (mynode : struct_Node) (s : t) : t := set_area (s.(buf_area) ++ [mynode]) s.
Definition erase_v_area (s : t) : t := set_area [] s.

(** [m[key]] of a [std::map<std::string, std::string>]. *)
Definition at_key (m : gmap string string) (key : string) : string := default "" (m !! key).

Section node.
Context {W : Type} `{Pistache W, Host W, Rapidjson}.

(** Nobody else releases a mutex that was left locked. *)
Definition mutex_lock (s : t) : M W t := if s.(locked) then undefined else mret (set_locked true s).
Definition mutex_unlock (s : t) : t := set_locked false s.

Definition getNode (choice : Z) (s : t) : M W (list struct_Node * t) :=
  s ← mutex_lock s;
  if choice =? 1 then mret (s.(buf_delay), mutex_unlock s)
  else if choice =? 2 then mret (s.(buf_area), s)
  else mret (s.(buf_delay), s).

Definition getCenterInfo (s : t) : string := s.(center_Information).
(** [mycenter.deserialize(center_Information)] *)
Definition mycenter (s : t) : CenterInfo.t := of_json CenterInfo.init s.(center_Information).

(** The first centre of that name. *)
Definition getmapIdName (centerName : string) (s : t) : string :=
  let c := mycenter s in
  default "fail" (head (filter (λ id, at_key c.(CenterInfo.centerName) id = centerName) c.(CenterInfo.centerID))).

Definition getCenterInformation (token : string) (s : t) : M W t :=
  addr ← deref (config "manager_addr");
  response ← ClientRpc.get_request token ("http://" +:+ addr) "/mconf/searchCenter";
  mret (if String.eqb response "fail" && String.eqb s.(center_Information) "" then s
        else set_information response s).

(** The entry of a centre; [start] fills [center_id], [write_rtt] does not. *)
Definition node_of (c : CenterInfo.t) (id cid : string) : struct_Node :=
  Node (at_key c.(CenterInfo.centerName) id) (at_key c.(CenterInfo.centerIP) id)
    (at_key c.(CenterInfo.centerPort) id) cid.

(** [start], before it creates the thread that runs [entry]. *)
Definition start (token : string) (s : t) : M W t :=
  s ← getCenterInformation token s;
  mret (if String.eqb s.(center_Information) "" then s
        else let c := mycenter s in
             foldl (λ s id, setNode_delay (node_of c id id) s) s c.(CenterInfo.centerID)).

(** The port is converted by [atoi] and back. *)
Definition subgetRTT_rest (token hostOrIp : string) (port : Z) : M W Z :=
  let url := snprintf 64 ("http://" +:+ c_str hostOrIp +:+ ":" +:+ pretty port) in
  begin ← extern steady_now;
  response ← ClientRpc.get_request token url "/manager";
  end_ ← extern steady_now;
  mret (Z.quot (end_ - begin) 1000).

(** The number of microseconds is returned as a [double], exact up to 2^53. *)
Fixpoint getRTT_loop (token : string) (c : CenterInfo.t) (ids : list string) (mymap : gmap string Z) : M W (gmap string Z) :=
  match ids with
  | [] => mret mymap
  | id :: ids =>
      p ← deref (atoi (at_key c.(CenterInfo.centerPort) id));
      location_rtt ← subgetRTT_rest token (at_key c.(CenterInfo.centerIP) id) p;
      getRTT_loop token c ids (<[at_key c.(CenterInfo.centerName) id := location_rtt]> mymap)
  end.
Definition getRTT (token : string) (s : t) : M W (Z * gmap string Z) :=
  if String.eqb s.(center_Information) "" then mret (-1, ∅)
  else
    let c := mycenter s in
    rankrtt ← getRTT_loop token c c.(CenterInfo.centerID) ∅;
    mret (0, rankrtt).

Definition write_rtt (token : string) (myvec : list (string * Z)) (s : t) : M W t :=
  if String.eqb s.(center_Information) "" then getCenterInformation token s
  else
    let c := mycenter s in
    s ← mutex_lock s;
    mret (mutex_unlock
      (foldl (λ s p, setNode_delay (node_of c (getmapIdName p.1 s) "") s) (erase_v_delay s) myvec)).

(** A turn of the loop of [entry], which ends when the module is stopped. *)
Definition entry_turn `{StdSort} (token : string) (s : t) : M W t :=
  '(ret, rankrtt) ← getRTT token s;
  s ← (if ret =? 0 then write_rtt token (std_sort (map_items rankrtt)) s else mret s);
  getCenterInformation token s.
Fixpoint entry `{StdSort} (turns : nat) (token : string) (s : t) : M W t :=
  match turns with
  | 0%nat => mret s
  | S turns => s ← entry_turn token s; entry turns token s
  end.

(** client/client.cc: [Client::get_manager] *)
Definition url_of (n : struct_Node) : string :=
  snprintf 256 ("http://" +:+ c_str n.(ip_addr) +:+ ":" +:+ c_str n.(port)).
Definition get_manager (s : t) : M W (string * t) :=
  '(centers, s) ← getNode 1 s;
  mret (match centers with n :: _ => url_of n | [] => "" end, s).

(** The rights of a user, from the manager and from the client's copy. *)
Definition getAuthFromServer (token gvdsID : string) (s : t) : M W t :=
  '(endpoint, s) ← get_manager s;
  res ← ClientRpc.post_request token endpoint "/auth/search" gvdsID;
  if negb (String.eqb res "fail") && negb (String.eqb res "33") then
    s ← mutex_lock s;
    mret (mutex_unlock (set_auth (of_json s.(myauth) res) s))
  else mret s.
Definition copy_zone (a tmp : AuthSearch.t) (z : string) : AuthSearch.t :=
  let put m m0 := <[z := at_key m z]> m0 in
  AuthSearch.mk tmp.(AuthSearch.gvdsID) (tmp.(AuthSearch.vec_ZoneID) ++ [z])
    (put a.(AuthSearch.read) tmp.(AuthSearch.read)) (put a.(AuthSearch.write) tmp.(AuthSearch.write))
    (put a.(AuthSearch.exe) tmp.(AuthSearch.exe)) (put a.(AuthSearch.isowner) tmp.(AuthSearch.isowner))
    tmp.(AuthSearch.ownergroupR) tmp.(AuthSearch.ownergroupW) tmp.(AuthSearch.ownergroupE)
    tmp.(AuthSearch.zoneName).
Definition with_gvdsID (id : string) (a : AuthSearch.t) : AuthSearch.t :=
  AuthSearch.mk id a.(AuthSearch.vec_ZoneID) a.(AuthSearch.read) a.(AuthSearch.write) a.(AuthSearch.exe)
    a.(AuthSearch.isowner) a.(AuthSearch.ownergroupR) a.(AuthSearch.ownergroupW) a.(AuthSearch.ownergroupE)
    a.(AuthSearch.zoneName).
(** Missing entries of [myauth] come into being on the way; they are empty, and
    are read as such already. *)
Definition getAuthFromClient (s : t) : M W (AuthSearch.t * t) :=
  s ← mutex_lock s;
  let a := s.(myauth) in
  let tmp_auth :=
    if String.eqb a.(AuthSearch.gvdsID) "" then AuthSearch.init
    else foldl (copy_zone a) (with_gvdsID a.(AuthSearch.gvdsID) AuthSearch.init) a.(AuthSearch.vec_ZoneID) in
  mret (tmp_auth, mutex_unlock s).

(** client/graph_mod.cc: [ClientGraph::fresh_ioproxy], asking the managers. *)
Fixpoint fresh_loop (token u : string) `{Indet} (endpoints : list struct_Node) (g : ClientGraph.t) : M W ClientGraph.t :=
  match endpoints with
  | [] => mret g
  | endpoint :: endpoints =>
      res ← ClientRpc.get_request token (url_of endpoint) "/ioproxy";
      g ← deref (ClientGraph.fresh_ioproxy u [res] g);
      fresh_loop token u endpoints g
  end.
Definition fresh_ioproxy `{Indet} (token u : string) (s : t) (g : ClientGraph.t) : M W (t * ClientGraph.t) :=
  '(endpoints, s) ← getNode 1 s;
  g ← fresh_loop token u endpoints g;
  mret (s, g).
End node.

(** ** Properties *)
Section props.
Context {W : Type} `{Pistache W, Host W, Rapidjson}.
Implicit Types (s : t) (c : CenterInfo.t).

Definition name_of c (id : string) : string := at_key c.(CenterInfo.centerName) id.

Lemma add_nodes {A} (f : A → struct_Node) l s :
  foldl (λ s a, setNode_delay (f a) s) s l = set_delay (s.(buf_delay) ++ (f <$> l)) s.
Proof.
  revert s. induction l as [|a l IH]; intros s; cbn [foldl fmap list_fmap].
  - rewrite app_nil_r. by destruct s.
  - rewrite IH. unfold setNode_delay, set_delay. cbn. by rewrite <-(assoc_L (++)).
Qed.

Lemma write_nodes c myvec s0 s :
  s.(center_Information) = s0.(center_Information) →
  foldl (λ s (p : string * Z), setNode_delay (node_of c (getmapIdName p.1 s) "") s) s myvec =
  set_delay (s.(buf_delay) ++ ((λ p : string * Z, node_of c (getmapIdName p.1 s0) "") <$> myvec)) s.
Proof.
  revert s. induction myvec as [|a l IH]; intros s Hs; cbn [foldl fmap list_fmap].
  - rewrite app_nil_r. by destruct s.
  - rewrite IH by done. unfold getmapIdName at 1, mycenter. rewrite Hs.
    unfold setNode_delay, set_delay. cbn. by rewrite <-(assoc_L (++)).
Qed.

Lemma unlock_locked s : s.(locked) = false → mutex_unlock (set_locked true s) = s.
Proof. destruct s. cbn. by intros ->. Qed.

Lemma wp_lock s (w : W) Q E : s.(locked) = false → Q (set_locked true s) w → wp (mutex_lock s) Q E w.
Proof. unfold mutex_lock. intros ->. apply wp_ret. Qed.

(** The manager of the first node. *)
Definition first_url s : string := match s.(buf_delay) with n :: _ => url_of n | [] => "" end.
Lemma wp_get_manager s (w : W) Q E : s.(locked) = false → Q (first_url s, s) w → wp (get_manager s) Q E w.
Proof.
  intros Hl HQ. unfold get_manager, getNode. wp_step. wp_step. apply wp_lock; [done|]. cbn [Z.eqb Pos.eqb].
  rewrite unlock_locked by done. do 2 wp_step. exact HQ.
Qed.

(** Refreshing the list of centres changes nothing else, and needs the
    configured address only. *)
Lemma getCenterInformation_rest token s w Q :
  is_Some (config "manager_addr") →
  (∀ i w', Q (set_information i s) w') → wp (getCenterInformation token s) Q never w.
Proof.
  intros [addr Ha] HQ. unfold getCenterInformation, ClientRpc.get_request. rewrite Ha. wp_step. wp_step. wp_step. wp_step.
  apply wp_extern. wp_steps. case_match; [|apply HQ].
  replace s with (set_information s.(center_Information) s) by by destruct s. apply HQ.
Qed.

(** The identifier that stands for a name has that name. *)
Lemma getmapIdName_spec s id :
  id ∈ (mycenter s).(CenterInfo.centerID) →
  let r := getmapIdName (name_of (mycenter s) id) s in
  r ∈ (mycenter s).(CenterInfo.centerID) ∧ name_of (mycenter s) r = name_of (mycenter s) id.
Proof.
  intros Hid. unfold getmapIdName. cbn zeta. fold (name_of (mycenter s)).
  destruct (filter _ _) as [|r l] eqn:Hf.
  - exfalso. apply (filter_nil_not_elem_of _ _ id) in Hf; [done..|].
    by unfold name_of.
  - assert (Hr : r ∈ filter (λ id0, at_key (CenterInfo.centerName (mycenter s)) id0 = name_of (mycenter s) id)
                      (CenterInfo.centerID (mycenter s))) by (rewrite Hf; left).
    apply list_elem_of_filter in Hr as [Hn Hr]. by split.
Qed.

(** The measurement has an entry for the name of every centre, and no other. *)
Lemma getRTT_loop_dom token c ids m w :
  wp (getRTT_loop token c ids m) (λ m' _, ∀ n, is_Some (m' !! n) ↔ is_Some (m !! n) ∨ n ∈ name_of c <$> ids)
    (λ _, True) w.
Proof.
  revert m w. induction ids as [|id ids IH]; intros m w; cbn [getRTT_loop].
  { wp_step. intros n. set_solver. }
  wp_step. wp_step; [|done]. wp_step. unfold subgetRTT_rest, ClientRpc.get_request.
  repeat (first [apply wp_extern | wp_step]; cbn beta iota).
  eapply wp_mono; [| |apply IH]; [|done]. intros m' w' Hm n. cbn beta in Hm. rewrite (Hm n), fmap_cons, elem_of_cons. fold (name_of c id).
  destruct (decide (name_of c id = n)) as [<-|Hne].
  - rewrite lookup_insert_eq. naive_solver.
  - rewrite lookup_insert_ne by done. naive_solver.
Qed.

Lemma getRTT_dom token s w times w1 :
  getRTT token s w = (Val (0, times), w1) →
  s.(center_Information) ≠ "" ∧
  ∀ n, is_Some (times !! n) ↔ n ∈ name_of (mycenter s) <$> (mycenter s).(CenterInfo.centerID).
Proof.
  unfold getRTT. destruct (String.eqb_spec s.(center_Information) "") as [|Hi]; [done|]. intros Hr. split; [done|].
  refine (wp_val _ (λ r _, ∀ n, is_Some (r.2 !! n) ↔ n ∈ name_of (mycenter s) <$> (mycenter s).(CenterInfo.centerID))
    (λ _, True) w (0, times) w1 _ Hr).
  wp_step. eapply wp_mono; [| |apply getRTT_loop_dom]; [|done]. intros m w' Hm. wp_step. intros n. cbn beta in Hm. cbn [snd]. rewrite (Hm n).
  rewrite lookup_empty. split; [by intros [[? [=]]|]|by right].
Qed.

Context `{StdSortLaws}.

(** The nodes after a turn: one for each name, in the order of the times. *)
Definition ranked s (times : gmap string Z) : list struct_Node :=
  (λ p : string * Z, node_of (mycenter s) (getmapIdName p.1 s) "") <$> std_sort (map_items times).

Lemma entry_turn_ranked token s w times w1 Q :
  s.(locked) = false → is_Some (config "manager_addr") → getRTT token s w = (Val (0, times), w1) →
  (∀ i w', Q (set_information i (set_delay (ranked s times) s)) w') → wp (entry_turn token s) Q never w.
Proof.
  intros Hl Ha Hr HQ. pose proof (getRTT_dom _ _ _ _ _ Hr) as [Hi _].
  unfold entry_turn. wp_step. unfold wp at 1. rewrite Hr. cbn beta iota. wp_step. cbn [Z.eqb].
  unfold write_rtt, mutex_lock. destruct (String.eqb_spec s.(center_Information) ""); [done|]. rewrite Hl. wp_steps.
  rewrite (write_nodes _ _ s) by done. fold (ranked s times). apply getCenterInformation_rest; [done|].
  intros i w'. specialize (HQ i w'). cbn. destruct s; cbn in *; subst. exact HQ.
Qed.

Lemma std_sort_head l :
  l ≠ [] → ∃ p rest, std_sort l = p :: rest ∧ p ∈ l ∧ ∀ q, q ∈ l → p.2 ≤ q.2.
Proof.
  intros Hl. pose proof (std_sort_perm l) as Hp. pose proof (std_sort_sorted l) as Hs.
  destruct (std_sort l) as [|p rest].
  { by apply Permutation_nil in Hp. }
  exists p, rest. split; [done|]. split; [rewrite <-Hp; left|]. intros q Hq.
  rewrite <-Hp in Hq. apply elem_of_cons in Hq as [->|Hq]; [lia|].
  inversion_clear Hs as [|? ? _ Hf]. rewrite Forall_forall in Hf. by apply Hf.
Qed.

Lemma times_nonempty token s w times w1 :
  getRTT token s w = (Val (0, times), w1) → (mycenter s).(CenterInfo.centerID) ≠ [] → map_items times ≠ [].
Proof.
  intros Hr Hids Hn. pose proof (getRTT_dom _ _ _ _ _ Hr) as [_ Hdom].
  destruct (mycenter s).(CenterInfo.centerID) as [|id l] eqn:Hc; [done|].
  destruct (proj2 (Hdom (name_of (mycenter s) id))) as [t Ht]; [left|].
  apply elem_of_map_to_list in Ht. rewrite <-map_items_perm, Hn in Ht. by apply elem_of_nil in Ht.
Qed.

(** [timed_last c n id time l]: the last measurement of [l] for a centre of name [n]
    is that of [id], and it took [time]. *)
Definition timed_last c (n id : string) (time : Z) (l : list (string * Z)) : Prop :=
  ∃ before after, l = before ++ (id, time) :: after ∧ name_of c id = n ∧
    Forall (λ p : string * Z, name_of c p.1 ≠ n) after.
(** The first centre of its name. *)
Definition first_of_name c (id : string) : Prop :=
  ∃ before after, c.(CenterInfo.centerID) = before ++ id :: after ∧
    Forall (λ x, name_of c x ≠ name_of c id) before.

Lemma filter_head_first (P : string → Prop) `{∀ x, Decision (P x)} l x rest :
  filter P l = x :: rest → ∃ before after, l = before ++ x :: after ∧ P x ∧ Forall (λ y, ¬ P y) before.
Proof.
  induction l as [|y l IH]; [done|]. rewrite filter_cons. destruct (decide (P y)) as [Hy|Hy].
  - intros [= -> _]. exists [], l. by split_and!.
  - intros (b & a & -> & Hx & Hb)%IH. exists (y :: b), a. split_and!; [done..|]. by constructor.
Qed.
Lemma getmapIdName_first s id :
  id ∈ (mycenter s).(CenterInfo.centerID) → first_of_name (mycenter s) (getmapIdName (name_of (mycenter s) id) s).
Proof.
  intros Hid. pose proof (getmapIdName_spec s id Hid) as [_ Hn]. revert Hn. unfold getmapIdName, first_of_name. cbn zeta.
  destruct (filter _ _) as [|r l] eqn:Hf; cbn [head default].
  - exfalso. by apply (filter_nil_not_elem_of _ _ id) in Hf.
  - intros Hn. apply filter_head_first in Hf as (b & a & Hc & _ & Hb). exists b, a. split; [exact Hc|]. by rewrite Hn.
Qed.

(** The measurements a run makes, one for each centre in the order of the list. *)
Fixpoint time_each (token : string) (c : CenterInfo.t) (ids : list string) : M W (list (string * Z)) :=
  match ids with
  | [] => mret []
  | id :: ids =>
      p ← deref (atoi (at_key c.(CenterInfo.centerPort) id));
      time ← subgetRTT_rest token (at_key c.(CenterInfo.centerIP) id) p;
      l ← time_each token c ids;
      mret ((id, time) :: l)
  end.
(** [getRTT] makes these measurements, and keeps for each name the last. *)
Lemma getRTT_loop_timed token c ids m w m' w1 :
  getRTT_loop token c ids m w = (Val m', w1) →
  ∃ l, time_each token c ids w = (Val l, w1) ∧ l.*1 = ids ∧
    ∀ n time, m' !! n = Some time →
      (m !! n = Some time ∧ Forall (λ p : string * Z, name_of c p.1 ≠ n) l) ∨ ∃ id, timed_last c n id time l.
Proof.
  revert m w. induction ids as [|id ids IH]; intros m w; cbn [getRTT_loop time_each].
  { intros [= <- <-]. exists []. split_and!; [done..|]. intros n time Hn. by left. }
  unfold mbind, M_bind. destruct (deref _ w) as [[p|] w2]; [|done].
  destruct (subgetRTT_rest _ _ _ w2) as [[rtt|] w3]; [|done]. intros Hr.
  destruct (IH _ _ Hr) as (l & Hl & Hids & Hn). rewrite Hl. exists ((id, rtt) :: l). split_and!; [done|by rewrite <-Hids|].
  intros n time Ht. destruct (Hn n time Ht) as [[Hm Hf]|(id' & b & a & -> & Hid' & Ha)].
  - fold (name_of c id) in Hm. destruct (decide (name_of c id = n)) as [He|He].
    + right. rewrite He, lookup_insert_eq in Hm. injection Hm as ->. exists id, [], l. by split_and!.
    + left. rewrite lookup_insert_ne in Hm by done. split; [done|]. by constructor.
  - right. exists id', ((id, rtt) :: b), a. by split_and!.
Qed.
Lemma getRTT_timed token s w times w1 :
  getRTT token s w = (Val (0, times), w1) →
  ∃ l, time_each token (mycenter s) (mycenter s).(CenterInfo.centerID) w = (Val l, w1) ∧
    l.*1 = (mycenter s).(CenterInfo.centerID) ∧
    ∀ n time, times !! n = Some time → ∃ id, timed_last (mycenter s) n id time l.
Proof.
  unfold getRTT. destruct (String.eqb_spec s.(center_Information) "") as [|Hi]; [done|]. unfold mbind, M_bind.
  destruct (getRTT_loop _ _ _ _ w) as [[m|] w2] eqn:Hr; [|done]. intros [= <- <-].
  destruct (getRTT_loop_timed _ _ _ _ _ _ _ Hr) as (l & Hl & Hids & Hn). exists l. split_and!; [done..|].
  intros n time Ht. destruct (Hn n time Ht) as [[Hm _]|Hex]; [by rewrite lookup_empty in Hm|done].
Qed.

(** C23: take a client with a list of centres, the address of a manager and nobody in
    its mutex. Where the requests of a turn come to an end ([getRTT] gives times, which it
    does not where the port of a centre is no number), every centre has been timed
    once, in the order of the list, and of centres with one name only the time of the
    last is kept. The manager of the client is then the first centre of a name, and
    the last centre of that name took no longer than the last of any other name. *)
Theorem get_manager_fastest token s w times w1 :
  s.(locked) = false → is_Some (config "manager_addr") → getRTT token s w = (Val (0, times), w1) →
  let c := mycenter s in
  c.(CenterInfo.centerID) ≠ [] →
  ∃ l, time_each token c c.(CenterInfo.centerID) w = (Val l, w1) ∧ l.*1 = c.(CenterInfo.centerID) ∧
  wp (entry_turn token s ≫= get_manager) (λ '(url, s') _,
    length s'.(buf_delay) = base.size times ∧ s'.(locked) = false ∧
    ∃ id id1 time, url = url_of (node_of c id "") ∧ first_of_name c id ∧
      timed_last c (name_of c id) id1 time l ∧ times !! name_of c id = Some time ∧
      ∀ id', id' ∈ c.(CenterInfo.centerID) → ∃ id2 time', timed_last c (name_of c id') id2 time' l ∧
        times !! name_of c id' = Some time' ∧ time ≤ time') never w.
Proof.
  intros Hl Ha Hr c Hids. pose proof (getRTT_dom _ _ _ _ _ Hr) as [_ Hdom].
  destruct (getRTT_timed _ _ _ _ _ Hr) as (l & Hrun & Hl1 & Htimed). fold c in Hrun, Hl1, Htimed, Hdom.
  exists l. split; [done|]. split; [done|].
  wp_step. eapply entry_turn_ranked; [done..|]. intros i w'.
  pose proof (times_nonempty _ _ _ _ _ Hr Hids) as Hne.
  destruct (std_sort_head _ Hne) as ([n time] & rest & Hs & Hin & Hmin).
  rewrite map_items_perm in Hin. apply elem_of_map_to_list in Hin.
  assert (Hn : n ∈ name_of c <$> c.(CenterInfo.centerID)) by (apply Hdom; by eexists).
  apply list_elem_of_fmap in Hn as (id & -> & Hid).
  pose proof (getmapIdName_spec s id Hid) as [_ Hr2]. pose proof (getmapIdName_first s id Hid) as Hfst. fold c in Hr2, Hfst.
  apply wp_get_manager; [done|]. unfold first_url, ranked. cbn [set_information set_delay buf_delay]. rewrite Hs. cbn [fmap list_fmap].
  split_and!; [|done|].
  - rewrite <-(length_map_to_list times), <-map_items_perm, <-(std_sort_perm (map_items times)), Hs. cbn [length].
    by rewrite length_fmap.
  - destruct (Htimed _ _ Hin) as [id1 Hid1]. eexists _, id1, time. split; [done|]. split; [exact Hfst|].
    cbn [fst]. rewrite Hr2. split_and!; [done..|].
    intros id' Hid'. destruct (proj2 (Hdom (name_of c id'))) as [time' Ht']; [by apply list_elem_of_fmap_2|].
    destruct (Htimed _ _ Ht') as [id2 Hid2]. exists id2, time'. split_and!; [done..|].
    apply (Hmin (name_of c id', time')). rewrite map_items_perm. by apply elem_of_map_to_list.
Qed.

(** [getNode] returns with the mutex locked for any choice but the first: no
    manager is found from then on. *)
Theorem getNode_keeps_lock choice token gvdsID s w :
  s.(locked) = false → choice ≠ 1 →
  wp (getNode choice s) (λ '(_, s') w', s'.(locked) = true ∧ (get_manager s' w').1 = UB ∧
    (getAuthFromServer token gvdsID s' w').1 = UB ∧ (getAuthFromClient s' w').1 = UB) never w.
Proof.
  intros Hl Hc. unfold getNode, mutex_lock. rewrite Hl. wp_steps; try (by lia); by split_and!.
Qed.

(** The network in which every request is rejected, after the time the answer
    would have taken. *)
Definition silent : Pistache W := {|
  http_get url token w := (Rejected, (http_get url token w).2);
  http_post := http_post;
  http_delete := http_delete;
  http_post_plain := http_post_plain;
  steady_now := steady_now;
|}.

Lemma getRTT_loop_silent token c ids m w :
  getRTT_loop (H := silent) token c ids m w = getRTT_loop token c ids m w.
Proof.
  revert m w. induction ids as [|id ids IH]; intros m w; [done|]. cbn [getRTT_loop].
  unfold mbind, M_bind. destruct (deref _ w) as [[p|] w']; [|done].
  unfold subgetRTT_rest, ClientRpc.get_request, mbind, M_bind, extern, mret, M_ret. cbn.
  destruct (steady_now w') as [b w2]. destruct (http_get _ _ w2) as [r w3]. cbn.
  destruct (steady_now w3) as [e w4]. apply IH.
Qed.

(** The measured times, and with them the ranking, do not depend on what the
    managers answer, or whether they do: a manager that refuses connections at
    once is the best. *)
Theorem ranking_ignores_answers token s w :
  getRTT (H := silent) token s w = getRTT token s w.
Proof.
  unfold getRTT. case_match; [done|]. unfold mbind, M_bind. by rewrite getRTT_loop_silent.
Qed.

Lemma wp_getCenterInformation token addr body s w Q E :
  config "manager_addr" = Some addr →
  (http_get (("http://" +:+ addr) +:+ "/mconf/searchCenter") token w).1 = Answered body →
  Q (if String.eqb body "fail" && String.eqb s.(center_Information) "" then s else set_information body s)
    (http_get (("http://" +:+ addr) +:+ "/mconf/searchCenter") token w).2 →
  wp (getCenterInformation token s) Q E w.
Proof.
  intros Ha Hb HQ. unfold getCenterInformation, ClientRpc.get_request. rewrite Ha.
  do 4 wp_step. apply wp_extern. rewrite Hb. wp_step. cbn [ClientRpc.body_of]. wp_step. exact HQ.
Qed.

(** A manager that answers "fail", because its database does not, costs the
    client all its managers: the answer replaces the list of centres it had, the
    next turn forgets every node, and [get_manager] finds none. With no list before,
    the answer is not taken. *)
Theorem fail_answer_loses_managers `{!RapidjsonErrors} token addr s w :
  s.(locked) = false → config "manager_addr" = Some addr →
  (∀ w, (http_get (("http://" +:+ addr) +:+ "/mconf/searchCenter") token w).1 = Answered "fail") →
  wp (getCenterInformation token s) (λ s1 w1,
    if String.eqb s.(center_Information) "" then s1 = s
    else wp (entry_turn token s1 ≫= get_manager) (λ '(url, s2) _,
      url = "" ∧ s2.(buf_delay) = [] ∧ ∀ name, getmapIdName name s2 = "fail") never w1) never w.
Proof.
  intros Hl Ha Hf. eapply wp_getCenterInformation; [exact Ha|apply Hf|].
  destruct (String.eqb_spec s.(center_Information) "") as [He|He]; [done|]. rewrite andb_false_r.
  set (w1 := (http_get _ _ _).2). set (s1 := set_information "fail" s).
  assert (Hm : ∀ s', s'.(center_Information) = "fail" → mycenter s' = CenterInfo.init).
  { intros s' Hs. unfold mycenter, of_json, deserialize. rewrite Hs. change (c_str "fail") with "fail". by rewrite parse_fail. }
  pose proof (Hm s1 eq_refl) as Hc.
  assert (Hr : getRTT token s1 w1 = (Val (0, ∅), w1)) by (unfold getRTT; by rewrite Hc).
  assert (Hn : std_sort (map_items (∅ : gmap string Z)) = []).
  { apply Permutation_nil. symmetry. rewrite std_sort_perm, map_items_perm. by rewrite map_to_list_empty. }
  wp_step. unfold entry_turn. wp_step. unfold wp at 1. rewrite Hr. cbn beta iota. wp_step. cbn [Z.eqb].
  unfold write_rtt. change (String.eqb (center_Information s1) "") with false. cbv iota. wp_step. apply wp_lock; [done|]. wp_step.
  rewrite Hn. cbn [foldl]. eapply wp_getCenterInformation; [exact Ha|apply Hf|].
  change (String.eqb (center_Information _) "") with false. rewrite andb_false_r.
  apply wp_get_manager; [done|]. split; [done|]. split; [done|]. intros name. unfold getmapIdName.
  by rewrite Hm.
Qed.

(** What [getAuthFromClient] gives of the rights [a]: those of the listed zones,
    without the rights of groups and the names. *)
Definition rights_of (a tmp : AuthSearch.t) : Prop :=
  tmp.(AuthSearch.gvdsID) = a.(AuthSearch.gvdsID) ∧ tmp.(AuthSearch.vec_ZoneID) = a.(AuthSearch.vec_ZoneID) ∧
  (∀ z, z ∈ a.(AuthSearch.vec_ZoneID) →
    at_key tmp.(AuthSearch.read) z = at_key a.(AuthSearch.read) z ∧
    at_key tmp.(AuthSearch.write) z = at_key a.(AuthSearch.write) z ∧
    at_key tmp.(AuthSearch.exe) z = at_key a.(AuthSearch.exe) z ∧
    at_key tmp.(AuthSearch.isowner) z = at_key a.(AuthSearch.isowner) z) ∧
  tmp.(AuthSearch.ownergroupR) = ∅ ∧ tmp.(AuthSearch.ownergroupW) = ∅ ∧ tmp.(AuthSearch.ownergroupE) = ∅ ∧
  tmp.(AuthSearch.zoneName) = ∅.

Lemma at_key_insert m0 k v k' : at_key (<[k := v]> m0) k' = if decide (k = k') then v else at_key m0 k'.
Proof. unfold at_key. case_decide as Hk; [by rewrite Hk, lookup_insert_eq|by rewrite lookup_insert_ne]. Qed.

Lemma copy_zones_rights (a tmp : AuthSearch.t) zs :
  let r := foldl (copy_zone a) tmp zs in
  r.(AuthSearch.gvdsID) = tmp.(AuthSearch.gvdsID) ∧ r.(AuthSearch.vec_ZoneID) = tmp.(AuthSearch.vec_ZoneID) ++ zs ∧
  (∀ z, let copied (f : AuthSearch.t → gmap string string) :=
          at_key (f r) z = if decide (z ∈ zs) then at_key (f a) z else at_key (f tmp) z in
    copied AuthSearch.read ∧ copied AuthSearch.write ∧ copied AuthSearch.exe ∧ copied AuthSearch.isowner) ∧
  r.(AuthSearch.ownergroupR) = tmp.(AuthSearch.ownergroupR) ∧ r.(AuthSearch.ownergroupW) = tmp.(AuthSearch.ownergroupW) ∧
  r.(AuthSearch.ownergroupE) = tmp.(AuthSearch.ownergroupE) ∧ r.(AuthSearch.zoneName) = tmp.(AuthSearch.zoneName).
Proof.
  induction zs as [|x zs IH] using rev_ind; cbn zeta in *.
  { cbn. rewrite app_nil_r. by split_and!. }
  rewrite foldl_app. cbn [foldl]. destruct IH as (Hg & Hv & Hz & HR & HW & HE & HN).
  split_and!; cbn; try done; [by rewrite Hv, (assoc_L (++))|].
  intros z. specialize (Hz z) as (H1' & H2' & H3' & H4'). cbn beta in *.
  rewrite !at_key_insert. destruct (decide (x = z)) as [->|Hne].
  - rewrite !decide_True by set_solver. by split_and!.
  - rewrite H1', H2', H3', H4'. destruct (decide (z ∈ zs)).
    + rewrite !decide_True by set_solver. by split_and!.
    + rewrite !decide_False by set_solver. by split_and!.
Qed.

(** The rights that a manager answers with are those the other modules read. *)
Theorem rights_received `{!RapidjsonLaws} a token gvdsID s w :
  s.(locked) = false → AuthSearch.wf a → a.(AuthSearch.gvdsID) ≠ "" → to_json a ≠ "fail" → to_json a ≠ "33" →
  (∀ url w, (http_post url token gvdsID w).1 = Answered (to_json a)) →
  wp (getAuthFromServer token gvdsID s ≫= getAuthFromClient) (λ '(tmp, s') _,
    s'.(myauth) = a ∧ s'.(locked) = false ∧ rights_of a tmp) never w.
Proof.
  intros Hl Ha Hid Hf H33 Hpost. unfold getAuthFromServer, ClientRpc.post_request.
  do 2 wp_step. apply wp_get_manager; [done|]. do 2 wp_step. apply wp_extern. rewrite Hpost. wp_step. cbn [ClientRpc.body_of].
  destruct (String.eqb_spec (to_json a) "fail"), (String.eqb_spec (to_json a) "33"); try done. cbn [negb andb].
  wp_step. apply wp_lock; [done|]. wp_step. rewrite of_to_json by done.
  unfold getAuthFromClient. wp_step. apply wp_lock; [done|]. wp_step. cbn.
  destruct (String.eqb_spec (AuthSearch.gvdsID a) ""); [done|]. cbn.
  pose proof (copy_zones_rights a (with_gvdsID (AuthSearch.gvdsID a) AuthSearch.init) (AuthSearch.vec_ZoneID a))
    as (Hg & Hv & Hz & HR & HW & HE & HN).
  split; [done|]. split; [done|]. split; [exact Hg|]. split; [exact Hv|]. split; [|exact (conj HR (conj HW (conj HE HN)))].
  intros z Hin. specialize (Hz z). cbn beta zeta in Hz. by rewrite !decide_True in Hz by done.
Qed.
End props.

(** ** A client and its manager *)
Section manager.
Context {W : Type} `{CouchbaseUp W, RapidjsonLaws, !RapidjsonErrors, Indet, Pistache W}.

(** The response of a handler, as the client receives it. *)
Definition answer_of (r : outcome response * W) : http_outcome * W :=
  match r with
  | (Val res, w) => (Answered res.(http_body), w)
  | (UB, w) => (TimedOut, w)
  end.
(** The manager at the address runs Mconf.v on the world. *)
Definition served_at (addr : string) : Prop := ∀ token w,
  http_get (("http://" +:+ addr) +:+ "/mconf/searchCenter") token w = answer_of (Mconf.searchCenterRest w).

Lemma searchCenter_up D w c :
  serving D w → D !! Mconf.info_key (W := W) = Some (to_json c) → CenterInfo.wf c → to_json c ≠ "fail" →
  wp Mconf.searchCenterRest (λ r _, r = Response Code_Ok (to_json c)) never w.
Proof.
  intros HD Hk Hc Hf. unfold Mconf.searchCenterRest, Mconf.searchCenter. do 2 wp_step. db_up. wp_step.
  unfold Mconf.info_key in Hk. db_up; [|congruence]. simplify_eq. cbn beta iota. err_simpl. cbv iota.
  do 2 wp_step. by destruct (String.eqb_spec (to_json c) "fail").
Qed.

(** The text of a record is neither empty nor "fail". *)
Lemma to_json_parses (c : CenterInfo.t) : CenterInfo.wf c → to_json c ≠ "" ∧ to_json c ≠ "fail".
Proof.
  intros Hc. pose proof (parse_serialize (ser_impl c) (ser_impl_wf c Hc)) as Hp. fold (to_json c) in Hp.
  split; intros He; rewrite He in Hp; [change (c_str "") with "" in Hp; by rewrite parse_empty in Hp|].
  change (c_str "fail") with "fail" in Hp. by rewrite parse_fail in Hp.
Qed.

(** A centre that is added on the manager is what a client that starts knows:
    its list of centres is the manager's, it has a node for each of them in the
    order in which they were recorded, among them the new one with its address and
    port, and a name that no other centre has leads to its identifier. *)
Theorem added_centre_is_seen addr token fe D w :
  config "manager_addr" = Some addr → served_at addr →
  serving D w → FECenterInfo.wf fe → CenterInfo.wf (Mconf.centers (W := W) D) →
  let c := Mconf.record_center fe (Mconf.centers (W := W) D) in
  wp (Mconf.addCenterRest (to_json fe) ≫= λ _, start token init) (λ s _,
    mycenter s = c ∧ s.(locked) = false ∧ s.(buf_delay) = (λ id, node_of c id id) <$> c.(CenterInfo.centerID) ∧
    Node fe.(FECenterInfo.centerName) fe.(FECenterInfo.centerIP) fe.(FECenterInfo.centerPort) fe.(FECenterInfo.centerID)
      ∈ s.(buf_delay) ∧
    ∀ id, id ∈ c.(CenterInfo.centerID) →
      (∀ id', id' ∈ c.(CenterInfo.centerID) → name_of c id' = name_of c id → id' = id) →
      getmapIdName (name_of c id) s = id) never w.
Proof.
  intros Ha Hs HD Hfe Hc c. assert (Hcw : CenterInfo.wf c) by by apply Mconf.record_wf.
  destruct (to_json_parses c Hcw) as [Hne Hnf].
  unfold Mconf.addCenterRest. rewrite (of_to_json fe) by done. do 2 wp_step.
  eapply wp_mono; [| |by apply Mconf.addCenter_up]; [|done]. intros e w1 [-> HD1]. wp_step.
  assert (Hk : Mconf.with_center (W := W) D fe !! Mconf.info_key (W := W) = Some (to_json c)) by apply lookup_insert_eq.
  pose proof (searchCenter_up _ _ _ HD1 Hk Hcw Hnf) as Hr. apply wp_run in Hr as (r & w2 & Hr & ->).
  unfold start. wp_step. eapply (wp_getCenterInformation _ _ (to_json c)); [exact Ha|by rewrite Hs, Hr|].
  rewrite andb_comm. cbn [init center_Information]. destruct (String.eqb_spec (to_json c) "fail"); [done|].
  rewrite andb_false_r. wp_step. cbn [center_Information set_information].
  destruct (String.eqb_spec (to_json c) ""); [done|]. rewrite add_nodes.
  assert (Hm : ∀ s, s.(center_Information) = to_json c → mycenter s = c).
  { intros s Hi. unfold mycenter. rewrite Hi. by apply (of_to_json (A := CenterInfo.t)). }
  rewrite !Hm by done. split_and!; [done..| |].
  - cbn. apply list_elem_of_fmap. exists fe.(FECenterInfo.centerID). split.
    + unfold node_of, at_key, c, Mconf.record_center. cbn. by rewrite !lookup_insert_eq.
    + unfold c, Mconf.record_center. cbn. destruct (Mconf.known _ _) eqn:Hkn; [by apply Mconf.known_spec|set_solver].
  - intros id Hid Hu. set (s := set_delay _ _). pose proof (getmapIdName_spec s id) as Hg.
    rewrite (Hm s) in Hg by done. destruct (Hg Hid) as [H1' H2']. by apply Hu.
Qed.
End manager.
End SelectNode.

(** ** Concrete runs *)
Module SelectRuns.
Import SelectNode.

#[export] Instance by_value_dec : RelDecision by_value := λ x y, decide (x.2 ≤ y.2).
#[export] Instance by_value_total : Total by_value.
Proof. intros x y. unfold by_value. lia. Qed.
#[export] Instance by_value_trans : Transitive by_value.
Proof. intros x y z. unfold by_value. lia. Qed.
#[export] Instance model_sort : StdSort := {| std_sort l := merge_sort by_value l |}.
#[export] Instance model_sort_laws : StdSortLaws.
Proof. split; intros l; [apply merge_sort_Permutation|apply StronglySorted_merge_sort; apply _]. Qed.

#[export] Instance model_rapidjson_errors : RapidjsonErrors.
Proof. split; by vm_compute. Qed.

(** A network that consists of a clock: the managers of the centres "1" and "2"
    answer after 5 ms, that of "3" refuses after 1 ms, and [centres] is what every
    manager answers to a search. *)
Section network.
Variable centres : string.

Definition network : Pistache Z := {|
  http_get url token now :=
    if String.eqb url "http://10.0.0.3:9090/manager" then (Rejected, now + 1000000)
    else if String.eqb url "http://10.0.0.9:9090/mconf/searchCenter" then (Answered centres, now + 1000000)
    else (Answered "", now + 5000000);
  http_post url token data now := (Answered centres, now + 1000000);
  http_delete url now := (Answered "", now + 1000000);
  http_post_plain url data now := (None, now + 1000000);
  steady_now now := (now, now);
|}.
End network.
#[export] Instance network_host : Host Z := {|
  config k := Some "10.0.0.9:9090";
  host_uuid w := ("u", w);
  host_mkdir _ _ w := (0, w);
  host_popen _ w := (None, w);
  host_post _ _ w := (None, w);
|}.

Definition three : CenterInfo.t := CenterInfo.mk ["1"; "2"; "3"]
  {["1" := "10.0.0.1"; "2" := "10.0.0.2"; "3" := "10.0.0.3"]}
  {["1" := "9090"; "2" := "9090"; "3" := "9090"]}
  {["1" := "south"; "2" := "south"; "3" := "north"]}.
Definition informed : t := set_information (to_json three) init.

Lemma mycenter_informed : mycenter informed = three.
Proof. by vm_compute. Qed.

Definition times3 : gmap string Z := {["north" := 1000; "south" := 5000]}.
Lemma measured : getRTT (H := network (to_json three)) "token" informed 0 = (Val (0, times3), 11000000).
Proof. by vm_compute. Qed.

(** The manager that refuses is chosen, and the second of two centres of one name
    is gone: the first of them would be asked, and the second was timed. *)
Theorem get_manager_fastest_witness :
  ∃ l : list (string * Z), l.*1 = ["1"; "2"; "3"] ∧
  wp (entry_turn (H := network (to_json three)) "token" informed ≫= get_manager) (λ '(url, s') _,
    length s'.(buf_delay) = 2%nat ∧ ∃ id, url = url_of (node_of three id "") ∧ first_of_name three id ∧
      ∀ time, times3 !! name_of three id = Some time → time ≤ 1000) never 0.
Proof.
  destruct (get_manager_fastest (H := network (to_json three)) "token" informed 0 times3 11000000)
    as (l & _ & Hl & Hwp); [done|by eexists|exact measured|by rewrite mycenter_informed|].
  exists l. rewrite mycenter_informed in Hl, Hwp. split; [exact Hl|]. eapply wp_mono; [| |exact Hwp]; [|done].
  intros [url s'] w' (Hn & _ & id & id1 & time & Hu & Hf & _ & Ht & Hmin). split; [exact Hn|].
  exists id. split; [exact Hu|]. split; [exact Hf|]. intros time2 Ht2. rewrite Ht in Ht2. injection Ht2 as <-.
  destruct (Hmin "3") as (id2 & t3 & _ & H3 & Hle); [by vm_compute; right; right; left|].
  vm_compute in H3. injection H3 as <-. exact Hle.
Defined.

Example dead_manager_chosen :
  (entry 1 (H := network (to_json three)) "token" informed ≫= get_manager) 0 =
    (Val ("http://10.0.0.3:9090", set_delay [Node "north" "10.0.0.3" "9090" ""; Node "south" "10.0.0.1" "9090" ""] informed),
     12000000).
Proof. by vm_compute. Qed.

Theorem fail_answer_loses_managers_witness :
  wp (getCenterInformation (H := network "fail") "token" informed) (λ s1 w1,
    wp (entry_turn (H := network "fail") "token" s1 ≫= get_manager) (λ '(url, s2) _,
      url = "" ∧ s2.(buf_delay) = [] ∧ ∀ name, getmapIdName name s2 = "fail") never w1) never 0.
Proof.
  eapply wp_mono; [| |apply (fail_answer_loses_managers (H := network "fail") "token" "10.0.0.9:9090" informed 0); done];
    [|done].
  intros s1 w1. destruct (String.eqb_spec (center_Information informed) "") as [He|_]; [by vm_compute in He|done].
Defined.

Definition rights : AuthSearch.t :=
  AuthSearch.mk "u1" ["z1"] {["z1" := "1"]} {["z1" := "0"]} {["z1" := "1"]} {["z1" := "1"]} {["z1" := "1"]} ∅ ∅ {["z1" := "work"]}.

Lemma rights_wf : AuthSearch.wf rights.
Proof.
  unfold AuthSearch.wf. split_and!; [done|by repeat constructor|..]; first [apply map_Forall_empty|by apply map_Forall_singleton].
Qed.

Theorem rights_received_witness :
  wp (getAuthFromServer (H := network (to_json rights)) "token" "u1" informed ≫= getAuthFromClient) (λ '(tmp, s') _,
    s'.(myauth) = rights ∧ s'.(locked) = false ∧ rights_of rights tmp) never 0.
Proof.
  apply (rights_received (H := network (to_json rights)) rights "token" "u1" informed 0);
    [done|exact rights_wf|done|by vm_compute|by vm_compute|done].
Defined.

(** The client of a manager: the world is the manager's database. *)
Definition manager_url : string := "http://x/mconf/searchCenter".
#[export] Instance manager_network : Pistache world := {|
  http_get url token w := if String.eqb url manager_url then answer_of (Mconf.searchCenterRest w) else (Rejected, w);
  http_post url token data w := (Rejected, w);
  http_delete url w := (Rejected, w);
  http_post_plain url data w := (None, w);
  steady_now w := (0, w);
|}.

Definition D0 : gmap (string * string) string := {[Mconf.info_key (W := world) := to_json three]}.
Definition w0 : world := World D0 [] [] 0 None None.
Definition fe0 : FECenterInfo.t := FECenterInfo.mk "4" "10.0.0.4" "80" "west".

Lemma centers_D0 : Mconf.centers (W := world) D0 = three.
Proof. by vm_compute. Qed.
Lemma three_wf : CenterInfo.wf three.
Proof. unfold CenterInfo.wf. cbn. split_and!; [by repeat constructor|..]; apply map_Forall_to_list; by repeat constructor. Qed.

Theorem added_centre_is_seen_witness :
  wp (Mconf.addCenterRest (to_json fe0) ≫= λ _, start "token" init) (λ s _,
    Node "west" "10.0.0.4" "80" "4" ∈ s.(buf_delay) ∧ getmapIdName "west" s = "4") never w0.
Proof.
  eapply wp_mono; [| |apply (added_centre_is_seen "x" "token" fe0 D0 w0);
    [done|by intros token w|done|done|rewrite centers_D0; apply three_wf]]; [|done].
  cbn zeta. rewrite centers_D0. intros s w' (_ & _ & _ & Hin & Hid). split; [exact Hin|].
  apply (Hid "4"); [by vm_compute; do 3 right; left|].
  intros id Hi. vm_compute in Hi. repeat (apply elem_of_cons in Hi as [->|Hi]; [by vm_compute|]). by apply elem_of_nil in Hi.
Defined.
End SelectRuns.
