(* ===== verification/IpcMod.v ===== *)
(** * The commands of the user (client/ipc_mod.cc, client/clientuser/ClientUser.cc)

    The command line tools send an [IPCreq] to the client, which answers with a
    text: [dispatch]. A command looks names up, sends one or more requests to a
    manager and words the result. It is a computation over the client's modules and
    the outside, [C A]; [io] is a call of another module. The texts are those of the
    source, in UTF-8; what it prints besides is left out. *)
From S2P Require Import Prelude CxxString Json Records Datastore Instances User Mconf ClientZone SelectNode.

Lemma get_member {A} l key (c : codec A) `{!CodecOk c} a d :
  member key l = Some (enc c a) → enc_wf c a → get l key c d = a.
Proof. intros Hm Ha. unfold get. rewrite Hm. by apply dec_enc. Qed.

Ltac unpack := repeat match goal with H : _ ∧ _ |- _ => destruct H end.

(** client/ipc_struct.h: [class IPCreq] *)
Module IPCreq.

Record t : Type := mk {
  cmdname : string;
  ip : string;
  port : Z;
  zonename : string;
  newzonename : string;
  ownName : string;
  memName : list string;
  newspacename : string;
  spacename : string;
  spacenames : list string;
  newspacesize : Z;
  spacesize : Z;
  spaceurl : string;
  accountName : string;
  Password : string;
  gvdsID : string;
  email : string;
  phone : string;
  address : string;
  department : string;
  changeauth : string;
  centerID : string;
  centerIP : string;
  centerPort : string;
  centerName : string;
  sug : string;
  applyid : string;
  storage_src_id : string;
  storage_src_name : string;
  host_center_id : string;
  host_center_name : string;
  total_capacity : Z;
  assign_capacity : Z;
  mgs_address : string;
  state : Z;
}.

(** A default-initialised object. *)
Definition init `{Indet} : t := mk "" "" junk_int "" "" "" [] "" "" [] junk_int64 junk_int64 "" "" "" "" "" "" "" "" "" "" "" "" "" "" "" "#default" "#default" "#default" "#default" (-1) (-1) "#default" (-1).

Definition serialize_impl (x : t) : list (string * json) := [
  put "cmdname" codec_string x.(cmdname);
  put "ip" codec_string x.(ip);
  put "port" codec_int x.(port);
  put "zonename" codec_string x.(zonename);
  put "newzonename" codec_string x.(newzonename);
  put "ownName" codec_string x.(ownName);
  put "memName" (codec_vector codec_string "") x.(memName);
  put "newspacename" codec_string x.(newspacename);
  put "spacename" codec_string x.(spacename);
  put "spacenames" (codec_vector codec_string "") x.(spacenames);
  put "newspacesize" codec_int64 x.(newspacesize);
  put "spacesize" codec_int64 x.(spacesize);
  put "spaceurl" codec_string x.(spaceurl);
  put "accountName" codec_string x.(accountName);
  put "Password" codec_string x.(Password);
  put "gvdsID" codec_string x.(gvdsID);
  put "email" codec_string x.(email);
  put "phone" codec_string x.(phone);
  put "address" codec_string x.(address);
  put "department" codec_string x.(department);
  put "changeauth" codec_string x.(changeauth);
  put "centerID" codec_string x.(centerID);
  put "centerIP" codec_string x.(centerIP);
  put "centerPort" codec_string x.(centerPort);
  put "centerName" codec_string x.(centerName);
  put "sug" codec_string x.(sug);
  put "applyid" codec_string x.(applyid);
  put "storage_src_id" codec_string x.(storage_src_id);
  put "storage_src_name" codec_string x.(storage_src_name);
  put "host_center_id" codec_string x.(host_center_id);
  put "host_center_name" codec_string x.(host_center_name);
  put "total_capacity" codec_int64 x.(total_capacity);
  put "assign_capacity" codec_int64 x.(assign_capacity);
  put "mgs_address" codec_string x.(mgs_address);
  put "state" codec_int x.(state)].

Definition deserialize_impl (l : list (string * json)) (x : t) : t := {|
  cmdname := get l "cmdname" codec_string x.(cmdname);
  ip := get l "ip" codec_string x.(ip);
  port := get l "port" codec_int x.(port);
  zonename := get l "zonename" codec_string x.(zonename);
  newzonename := get l "newzonename" codec_string x.(newzonename);
  ownName := get l "ownName" codec_string x.(ownName);
  memName := get l "memName" (codec_vector codec_string "") x.(memName);
  newspacename := get l "newspacename" codec_string x.(newspacename);
  spacename := get l "spacename" codec_string x.(spacename);
  spacenames := get l "spacenames" (codec_vector codec_string "") x.(spacenames);
  newspacesize := get l "newspacesize" codec_int64 x.(newspacesize);
  spacesize := get l "spacesize" codec_int64 x.(spacesize);
  spaceurl := get l "spaceurl" codec_string x.(spaceurl);
  accountName := get l "accountName" codec_string x.(accountName);
  Password := get l "Password" codec_string x.(Password);
  gvdsID := get l "gvdsID" codec_string x.(gvdsID);
  email := get l "email" codec_string x.(email);
  phone := get l "phone" codec_string x.(phone);
  address := get l "address" codec_string x.(address);
  department := get l "department" codec_string x.(department);
  changeauth := get l "changeauth" codec_string x.(changeauth);
  centerID := get l "centerID" codec_string x.(centerID);
  centerIP := get l "centerIP" codec_string x.(centerIP);
  centerPort := get l "centerPort" codec_string x.(centerPort);
  centerName := get l "centerName" codec_string x.(centerName);
  sug := get l "sug" codec_string x.(sug);
  applyid := get l "applyid" codec_string x.(applyid);
  storage_src_id := get l "storage_src_id" codec_string x.(storage_src_id);
  storage_src_name := get l "storage_src_name" codec_string x.(storage_src_name);
  host_center_id := get l "host_center_id" codec_string x.(host_center_id);
  host_center_name := get l "host_center_name" codec_string x.(host_center_name);
  total_capacity := get l "total_capacity" codec_int64 x.(total_capacity);
  assign_capacity := get l "assign_capacity" codec_int64 x.(assign_capacity);
  mgs_address := get l "mgs_address" codec_string x.(mgs_address);
  state := get l "state" codec_int x.(state) |}.

(** Values the wire format represents faithfully. *)
Definition wf (x : t) : Prop :=
  enc_wf codec_string x.(cmdname) ∧
  enc_wf codec_string x.(ip) ∧
  enc_wf codec_int x.(port) ∧
  enc_wf codec_string x.(zonename) ∧
  enc_wf codec_string x.(newzonename) ∧
  enc_wf codec_string x.(ownName) ∧
  enc_wf (codec_vector codec_string "") x.(memName) ∧
  enc_wf codec_string x.(newspacename) ∧
  enc_wf codec_string x.(spacename) ∧
  enc_wf (codec_vector codec_string "") x.(spacenames) ∧
  enc_wf codec_int64 x.(newspacesize) ∧
  enc_wf codec_int64 x.(spacesize) ∧
  enc_wf codec_string x.(spaceurl) ∧
  enc_wf codec_string x.(accountName) ∧
  enc_wf codec_string x.(Password) ∧
  enc_wf codec_string x.(gvdsID) ∧
  enc_wf codec_string x.(email) ∧
  enc_wf codec_string x.(phone) ∧
  enc_wf codec_string x.(address) ∧
  enc_wf codec_string x.(department) ∧
  enc_wf codec_string x.(changeauth) ∧
  enc_wf codec_string x.(centerID) ∧
  enc_wf codec_string x.(centerIP) ∧
  enc_wf codec_string x.(centerPort) ∧
  enc_wf codec_string x.(centerName) ∧
  enc_wf codec_string x.(sug) ∧
  enc_wf codec_string x.(applyid) ∧
  enc_wf codec_string x.(storage_src_id) ∧
  enc_wf codec_string x.(storage_src_name) ∧
  enc_wf codec_string x.(host_center_id) ∧
  enc_wf codec_string x.(host_center_name) ∧
  enc_wf codec_int64 x.(total_capacity) ∧
  enc_wf codec_int64 x.(assign_capacity) ∧
  enc_wf codec_string x.(mgs_address) ∧
  enc_wf codec_int x.(state).

#[global] Instance struct : JsonStruct t := {|
  ser_impl := serialize_impl; deser_impl := deserialize_impl; struct_wf := wf |}.
#[global] Instance struct_ok : JsonStructOk t.
Proof.
  split; cbn [ser_impl deser_impl struct_wf struct].
  - intros x Hx. unfold wf in Hx. unpack. unfold serialize_impl. json_fields_wf.
  - intros x d Hx. unfold wf in Hx. unpack. destruct x. unfold deserialize_impl.
    f_equal; (eapply get_member; [apply _|reflexivity|done]).
  - intros l x Hx. unfold wf in *. unpack. split_and?; (refine (get_wf _ _ _ _ _); done).
Qed.

End IPCreq.
(** client/clientuser/ClientUser.h *)
Module ClientUser.
Record t : Type := mk {
  mtoken : string;
  accountName : string;
  accountID : string;
  apply_id_data : gmap string string;
}.
Definition init : t := mk "1" "" "" ∅.
Definition setToken (m : string) (u : t) : t := mk m u.(accountName) u.(accountID) u.(apply_id_data).
Definition setAccountName (m : string) (u : t) : t := mk u.(mtoken) m u.(accountID) u.(apply_id_data).
Definition setAccountID (m : string) (u : t) : t := mk u.(mtoken) u.(accountName) m u.(apply_id_data).
Definition setApply (id data : string) (u : t) : t :=
  mk u.(mtoken) u.(accountName) u.(accountID) (<[id := data]> u.(apply_id_data)).
Definition clearApply (u : t) : t := mk u.(mtoken) u.(accountName) u.(accountID) ∅.
(** [apply_id_data[id]] makes an empty entry of a missing one. *)
Definition getApply (id : string) (u : t) : string * t :=
  match u.(apply_id_data) !! id with
  | Some data => (data, u)
  | None => ("", setApply id "" u)
  end.
End ClientUser.

(** The modules the commands use; [zonemap] is the one of [ClientIPC]. *)
Record client : Type := Client {
  user : ClientUser.t;
  optNode : SelectNode.t;
  zone : ClientZone.t;
  zonemap : gmap string Zone.t;
}.
Definition set_user (f : ClientUser.t → ClientUser.t) (c : client) : client :=
  Client (f c.(user)) c.(optNode) c.(zone) c.(zonemap).
Definition set_optNode (n : SelectNode.t) (c : client) : client := Client c.(user) n c.(zone) c.(zonemap).
Definition set_zone (z : ClientZone.t) (c : client) : client := Client c.(user) c.(optNode) z c.(zonemap).
Definition set_zonemap (m : gmap string Zone.t) (c : client) : client := Client c.(user) c.(optNode) c.(zone) m.

Module ClientIPC.

(** ** Texts *)
Definition no_zone_info : string := "未获得对应区域信息，请确认账户信息正确！".
Definition no_such_zone : string := "区域名不存在，请确认区域名称正确！".
Definition no_such_space : string := "空间名不存在，请确认空间名称正确！".
Definition missing_space (m : string) : string := "空间名" +:+ m +:+ "不存在，请确认空间名称正确！".
Definition no_owner : string := "未获得对应主人信息，请确认信息正确！".
Definition no_member : string := "未获得对应成员信息，请确认信息正确！".
Definition no_account : string := "未获得对应账户信息，请确认信息正确！".
Definition retry : string := "数据库连接失败，请重试".
Definition unknown_error : string := "未知错误".
Definition name_taken : string := "已存在的空间名".

Section commands.
Context {W : Type} `{Pistache W, Host W, Rapidjson, Indet}.

Local Notation C := (M (client * W)).

Definition io {A} (m : M W A) : C A := λ '(c, w), let '(o, w') := m w in (o, (c, w')).
Definition self : C client := λ '(c, w), (Val c, (c, w)).
Definition update (f : client → client) : C () := λ '(c, w), (Val (), (f c, w)).

(** ** Calls of the other modules *)

Definition get_manager : C string :=
  c ← self;
  '(url, n) ← io (SelectNode.get_manager c.(optNode));
  _ ← update (set_optNode n);
  mret url.
Definition get_request (endpoint url : string) : C string :=
  c ← self;
  io (ClientRpc.get_request c.(user).(ClientUser.mtoken) endpoint url).
Definition post_request (endpoint url data : string) : C string :=
  c ← self;
  io (ClientRpc.post_request c.(user).(ClientUser.mtoken) endpoint url data).
(** [post_request(client->get_manager(), url, data)] *)
Definition post (url data : string) : C string :=
  endpoint ← get_manager;
  post_request endpoint url data.
Definition get_from (url : string) : C string :=
  endpoint ← get_manager;
  get_request endpoint url.
Definition accountID : C string := c ← self; mret c.(user).(ClientUser.accountID).
Definition accountName : C string := c ← self; mret c.(user).(ClientUser.accountName).
Definition getAuthFromServer (gvdsID : string) : C () :=
  c ← self;
  n ← io (SelectNode.getAuthFromServer c.(user).(ClientUser.mtoken) gvdsID c.(optNode));
  update (set_optNode n).

(** [ClientUser::getMemberID], into an empty vector. *)
Definition getMemberID (memberName : list string) : C (bool * list string) :=
  res ← post "/users/memberID" (json_encode (codec_vector codec_string "") memberName);
  if String.eqb res "fail" then mret (false, [])
  else mret (true, json_decode (codec_vector codec_string "") res []).

(** client/zone_mod.cc: [ClientZone::GetZoneInfo] with its request. *)
Definition refresh_zone (clientID : string) : C () :=
  inforesult ← post "/zone/info" clientID;
  c ← self;
  '(_, z) ← deref (ClientZone.GetZoneInfo inforesult c.(zone));
  update (set_zone z).

(** [GetZoneInfo]: the zones a client knows are replaced, unless there are none. *)
Definition by_name (zs : list Zone.t) : gmap string Zone.t :=
  foldl (λ m it, <[it.(Zone.zoneName) := it]> m) ∅ zs.
Definition GetZoneInfo (clientID : string) : C bool :=
  inforesult ← post "/zone/info" clientID;
  zoneinfores ← deref (if String.eqb inforesult "" then Some [] else ClientZone.decode_zones inforesult);
  match zoneinfores with
  | [] => mret false
  | _ =>
      _ ← update (set_zonemap (by_name zoneinfores));
      mret true
  end.

(** ** What the commands have in common *)

Definition with_login (k : string → C string) : C string :=
  ownID ← accountID;
  if String.eqb ownID "" then mret "login first" else k ownID.
(** The commands of an administrator name the owner; the first identifier of the
    answer is used, which may have none. *)
Definition with_owner (missing : string) (ipcreq : IPCreq.t) (k : list string → C string) : C string :=
  if String.eqb ipcreq.(IPCreq.ownName) "" then mret missing
  else
    '(tm, ownID) ← getMemberID [ipcreq.(IPCreq.ownName)];
    if negb tm then mret no_owner else k ownID.
Definition with_members (ipcreq : IPCreq.t) (k : list string → C string) : C string :=
  '(tm, memID) ← getMemberID ipcreq.(IPCreq.memName);
  if negb tm then mret no_member else k memID.
Definition with_zone (ownID zonename : string) (k : Zone.t → C string) : C string :=
  ret ← GetZoneInfo ownID;
  if negb ret then mret no_zone_info
  else
    c ← self;
    match c.(zonemap) !! zonename with
    | Some z => k z
    | None => mret no_such_zone
    end.

Definition space_named (name : string) (z : Zone.t) : option Space.t :=
  head (filter (λ sp, sp.(Space.spaceName) = name) z.(Zone.spaceBicInfo)).
Definition taken (name : string) (z : Zone.t) : bool := bool_decide (is_Some (space_named name z)).
(** The identifiers of the named spaces, or the first name that is missing. *)
Fixpoint space_ids (z : Zone.t) (names ids : list string) : string + list string :=
  match names with
  | [] => inr ids
  | m :: names =>
      match space_named m z with
      | Some sp => space_ids z names (ids ++ [sp.(Space.spaceID)])
      | None => inl m
      end
  end.

(** [int result; json_decode(response, result)]: a response that is no number
    leaves what was in memory. *)
Definition worded (texts : list (Z * string)) (other response : string) : string :=
  let result := json_decode codec_int response junk_int in
  if result =? 0 then "success"
  else default other (snd <$> head (filter (λ p, p.1 = result) texts)).

(** The client's own name, or none yet. *)
Definition with_name (ipcreq : IPCreq.t) (refused : string) (k : C string) : C string :=
  name ← accountName;
  if negb (String.eqb ipcreq.(IPCreq.accountName) name) && negb (String.eqb name "") then mret refused else k.

(** ** Storage resources *)

Definition starts_hash (s : string) : bool := match s with String "#" _ => true | _ => false end.
Definition with_centre (id name : string) (r : StorageResource.t) : StorageResource.t :=
  StorageResource.mk r.(StorageResource.storage_src_id) r.(StorageResource.storage_src_name) id name
    r.(StorageResource.total_capacity) r.(StorageResource.assign_capacity) r.(StorageResource.mgs_address)
    r.(StorageResource.state).
(** The centre is given by its identifier, its name or both; "#..." is not given. *)
Fixpoint find_centre (c : CenterInfo.t) (ids : list string) (r : StorageResource.t) : option StorageResource.t :=
  match ids with
  | [] => None
  | centerid :: ids =>
      let centername := SelectNode.at_key c.(CenterInfo.centerName) centerid in
      let id := r.(StorageResource.host_center_id) in
      let name := r.(StorageResource.host_center_name) in
      if negb (starts_hash name) && negb (starts_hash id) then
        if String.eqb centername name && String.eqb centerid id then Some r else find_centre c ids r
      else if String.eqb centerid id || String.eqb centername name then Some (with_centre centerid centername r)
      else find_centre c ids r
  end.
Definition doregisterupdate (ipcreq : IPCreq.t) (url : string) : C string :=
  let newRes := StorageResource.mk ipcreq.(IPCreq.storage_src_id) ipcreq.(IPCreq.storage_src_name)
    ipcreq.(IPCreq.host_center_id) ipcreq.(IPCreq.host_center_name) ipcreq.(IPCreq.total_capacity)
    ipcreq.(IPCreq.assign_capacity) ipcreq.(IPCreq.mgs_address) ipcreq.(IPCreq.state) in
  c ← self;
  let mycenter := SelectNode.mycenter c.(optNode) in
  match find_centre mycenter mycenter.(CenterInfo.centerID) newRes with
  | None => mret "input center id or center name is wrong"
  | Some newRes => post url (to_json newRes)
  end.
Definition doresourceupdate (ipcreq : IPCreq.t) : C string := doregisterupdate ipcreq "/resource/update".
Definition doresourceregister (ipcreq : IPCreq.t) : C string := doregisterupdate ipcreq "/resource/register".
Definition doresourcequery (ipcreq : IPCreq.t) : C string :=
  get_from ("/resource/query/" +:+ ipcreq.(IPCreq.storage_src_id)).
Definition doresourcedelete (ipcreq : IPCreq.t) : C string :=
  endpoint ← get_manager;
  io (ClientRpc.delete_request endpoint ("/resource/delete/" +:+ ipcreq.(IPCreq.storage_src_id))).

(** ** Spaces *)

Definition space_rename (ownName : string) (ipcreq : IPCreq.t) (zoneinfo : Zone.t) : C string :=
  if negb (String.eqb zoneinfo.(Zone.ownerID) ownName) then mret "权限不足"
  else if taken ipcreq.(IPCreq.newspacename) zoneinfo then mret name_taken
  else
    let spaceuuid := default "" (Space.spaceID <$> space_named ipcreq.(IPCreq.spacename) zoneinfo) in
    if String.eqb spaceuuid "" then mret no_such_space
    else
      response ← post "/space/rename" (to_json (SpaceRequest.mk spaceuuid [] junk_int64 ipcreq.(IPCreq.newspacename)));
      if String.eqb response "success" then mret response
      else mret (response +:+ "空间不存在或访问数据库失败").
Definition dospacerename (ipcreq : IPCreq.t) : C string :=
  with_login (λ ownID,
    ownName ← accountName;
    with_zone ownID ipcreq.(IPCreq.zonename) (space_rename ownName ipcreq)).
Definition dospacerename_admin (ipcreq : IPCreq.t) : C string :=
  with_owner "no ownername" ipcreq (λ ownID,
    id ← deref (head ownID);
    with_zone id ipcreq.(IPCreq.zonename) (space_rename ipcreq.(IPCreq.ownName) ipcreq)).

Definition space_usage (ipcreq : IPCreq.t) (zoneinfo : Zone.t) : C string :=
  match space_ids zoneinfo ipcreq.(IPCreq.spacenames) [] with
  | inl m => mret (missing_space m)
  | inr spaceuuids =>
      response ← post "/space/spaceusagecheck" (to_json (SpaceRequest.mk "" spaceuuids junk_int64 ""));
      mret ("1" +:+ response)
  end.
Definition dospaceusage (ipcreq : IPCreq.t) : C string :=
  with_login (λ ownID, with_zone ownID ipcreq.(IPCreq.zonename) (space_usage ipcreq)).
Definition dospaceusage_admin (ipcreq : IPCreq.t) : C string :=
  with_owner " no ownername" ipcreq (λ ownID,
    id ← deref (head ownID);
    with_zone id ipcreq.(IPCreq.zonename) (space_usage ipcreq)).

(** The new size goes through an [int]. *)
Definition dospacesizechange (ipcreq : IPCreq.t) : C string :=
  let newspacesize := to_i32 ipcreq.(IPCreq.newspacesize) in
  with_login (λ ownID, with_zone ownID ipcreq.(IPCreq.zonename) (λ zoneinfo,
    let spaceuuid := default "" (Space.spaceID <$> space_named ipcreq.(IPCreq.spacename) zoneinfo) in
    if String.eqb spaceuuid "" then mret no_such_space
    else
      response ← post "/space/changesizeapply" (to_json (SpaceRequest.mk spaceuuid [] newspacesize ""));
      mret (worded [] retry response))).

(** The centre of a new space: that of the first node, or the one named. *)
Definition with_host (id name : string) (s : Space.t) : Space.t :=
  Space.mk s.(Space.spaceID) s.(Space.spaceName) s.(Space.spaceSize) id s.(Space.storageSrcID) s.(Space.spacePath)
    name s.(Space.storageSrcName) s.(Space.status) s.(Space.replica_spaces).
Definition locate_space (space : Space.t) (k : Space.t → C string) : C string :=
  c ← self;
  if String.eqb space.(Space.hostCenterName) "" then
    '(centers, n) ← io (SelectNode.getNode 1 c.(optNode));
    _ ← update (set_optNode n);
    center ← deref (head centers);
    k (with_host center.(SelectNode.center_id) center.(SelectNode.location) space)
  else
    let centerid := SelectNode.getmapIdName space.(Space.hostCenterName) c.(optNode) in
    if String.eqb centerid "fail" then mret "no such center"
    else k (Space.set_hostCenterID centerid space).
Definition domapadd (ipcreq : IPCreq.t) : C string :=
  with_login (λ ownID,
    let space := of_json Space.init ipcreq.(IPCreq.spaceurl) in
    with_zone ownID ipcreq.(IPCreq.zonename) (λ zoneinfo,
      if taken ipcreq.(IPCreq.spacename) zoneinfo then mret name_taken
      else if String.eqb ipcreq.(IPCreq.spacename) "" || (ipcreq.(IPCreq.spacesize) =? 0) then mret "信息不全，无法创建映射"
      else locate_space space (λ space,
        response ← post "/zone/mapaddapply" (to_json (ZoneRequest.mk zoneinfo.(Zone.zoneID) "" [] [] ownID "" ""
          ipcreq.(IPCreq.spacesize) ipcreq.(IPCreq.spacename) (to_json space)));
        mret (worded [] retry response)))).

Definition map_deduct (ownID : string) (ipcreq : IPCreq.t) (zoneinfo : Zone.t) : C string :=
  match space_ids zoneinfo ipcreq.(IPCreq.spacenames) [] with
  | inl m => mret (missing_space m)
  | inr spaceuuids =>
      response ← post "/zone/mapdeduct"
        (to_json (ZoneRequest.mk zoneinfo.(Zone.zoneID) "" [] spaceuuids ownID "" "" junk_int64 "" ""));
      mret (worded [(11, "数据库连接失败或空间权限删除失败请重试"); (22, "空间名不存在"); (13, "并非区域主人无权删除空间")]
        unknown_error response)
  end.
Definition domapdeduct (ipcreq : IPCreq.t) : C string :=
  with_login (λ ownID, with_zone ownID ipcreq.(IPCreq.zonename) (map_deduct ownID ipcreq)).
Definition domapdeduct_admin (ipcreq : IPCreq.t) : C string :=
  with_owner " no ownername" ipcreq (λ ownID,
    id ← deref (head ownID);
    with_zone id ipcreq.(IPCreq.zonename) (map_deduct id ipcreq)).

Definition dospacereplica (ipcreq : IPCreq.t) : C string :=
  let req : gmap string string :=
    <["single" := ipcreq.(IPCreq.newspacename)]> {["replicated" := ipcreq.(IPCreq.spacename)]} in
  response ← post "/space/replica" (json_encode (codec_map codec_string "") req);
  mret (worded [(- E2BIG, "ERROR: the number of replicated space exceeds maximun limit")]
    "ERROR: cannot create replica space for UNKNOWN ERROR" response).

(** ** Zones *)

Definition dozoneadd_admin (ipcreq : IPCreq.t) : C string :=
  with_owner " no ownername" ipcreq (λ ownID,
    with_members ipcreq (λ memID,
      let space := of_json Space.init ipcreq.(IPCreq.spaceurl) in
      id ← deref (head ownID);
      if String.eqb space.(Space.hostCenterName) "" then mret "no center name"
      else if String.eqb space.(Space.storageSrcName) "" then mret "no storage name"
      else
        c ← self;
        if String.eqb (SelectNode.getmapIdName space.(Space.hostCenterName) c.(optNode)) "fail" then mret "no such center"
        else
          response ← post "/zone/add" (to_json (ZoneRequest.mk "" "" memID [] id ipcreq.(IPCreq.zonename) "" junk_int64 ""
            ipcreq.(IPCreq.spaceurl)));
          mret (worded [(22, "未在实际路径中找到相应空间或数据库中存在多个同命名的区域");
                         (11, "数据库连接失败或权限添加失败请重试或联系管理员")] unknown_error response))).

Definition zone_cancel (ownID : string) (zoneinfo : Zone.t) : C string :=
  response ← post "/zone/cancel" (to_json (ZoneRequest.mk zoneinfo.(Zone.zoneID) "" [] [] ownID "" "" junk_int64 "" ""));
  mret (worded [(11, "数据库连接失败或权限删除失败请重试或联系管理员"); (13, "不是管理员或区域主人，没有权限删除区域信息");
                 (2, "未找到对应区域信息")] unknown_error response).
Definition dozonecancel (ipcreq : IPCreq.t) : C string :=
  with_login (λ ownID, with_zone ownID ipcreq.(IPCreq.zonename) (zone_cancel ownID)).
Definition dozonecancel_admin (ipcreq : IPCreq.t) : C string :=
  with_owner " no ownername" ipcreq (λ ownID,
    id ← deref (head ownID);
    with_zone id ipcreq.(IPCreq.zonename) (zone_cancel id)).

Definition dozoneregister (ipcreq : IPCreq.t) : C string :=
  with_login (λ ownID,
    with_members ipcreq (λ memID,
      if existsb (String.eqb ownID) memID then mret "不能见区域主人作为成员添加"
      else
        locate_space (of_json Space.init ipcreq.(IPCreq.spaceurl)) (λ space,
          response ← post "/zone/registerapply" (to_json (ZoneRequest.mk "" "" memID [] ownID ipcreq.(IPCreq.zonename) ""
            ipcreq.(IPCreq.spacesize) ipcreq.(IPCreq.spacename) (to_json space)));
          mret (worded [] retry response)))).

Definition zone_rename (refused ownID : string) (ipcreq : IPCreq.t) (zoneinfo : Zone.t) : C string :=
  response ← post "/zone/rename"
    (to_json (ZoneRequest.mk zoneinfo.(Zone.zoneID) "" [] [] ownID "" ipcreq.(IPCreq.newzonename) junk_int64 "" ""));
  mret (worded [(11, "数据库连接失败请重试"); (22, "已存在同名区域"); (13, refused)] unknown_error response).
Definition dozonerename (ipcreq : IPCreq.t) : C string :=
  with_login (λ ownID, with_zone ownID ipcreq.(IPCreq.zonename) (zone_rename "并非区域主人无权重命名" ownID ipcreq)).
Definition dozonerename_admin (ipcreq : IPCreq.t) : C string :=
  with_owner " no ownername" ipcreq (λ ownID,
    id ← deref (head ownID);
    with_zone id ipcreq.(IPCreq.zonename) (zone_rename "并非区域主人或管理员无权重命名" id ipcreq)).

(** The request of a zone's members: [url] adds them or removes them. *)
Definition zone_members (url : string) (texts : list (Z * string)) (ownID : string) (memID : list string)
    (zoneinfo : Zone.t) : C string :=
  response ← post url (to_json (ZoneRequest.mk zoneinfo.(Zone.zoneID) "" memID [] ownID "" "" junk_int64 "" ""));
  mret (worded texts unknown_error response).
Definition share_texts : list (Z * string) :=
  [(11, "数据库连接失败或区域成员权限添加失败请重试或联系管理员"); (13, "非区域主人或管理员，无权进行区域共享")].
Definition sharecancel_texts : list (Z * string) :=
  [(11, "数据库连接失败或区域成员权限删除失败请重试或联系管理员"); (13, "非区域主人或管理员，无权进行区域共享取消");
   (22, "某个要删除的成员并非区域成员")].
Definition dozoneshare (ipcreq : IPCreq.t) : C string :=
  with_login (λ ownID, with_members ipcreq (λ memID,
    with_zone ownID ipcreq.(IPCreq.zonename) (zone_members "/zone/share" share_texts ownID memID))).
Definition dozoneshare_admin (ipcreq : IPCreq.t) : C string :=
  with_owner " no ownername" ipcreq (λ ownID, with_members ipcreq (λ memID,
    id ← deref (head ownID);
    with_zone id ipcreq.(IPCreq.zonename) (zone_members "/zone/share" share_texts id memID))).
Definition dozonesharecancel (ipcreq : IPCreq.t) : C string :=
  with_login (λ ownID, with_members ipcreq (λ memID,
    with_zone ownID ipcreq.(IPCreq.zonename) (zone_members "/zone/sharecancel" sharecancel_texts ownID memID))).
Definition dozonesharecancel_admin (ipcreq : IPCreq.t) : C string :=
  with_owner " no ownername" ipcreq (λ ownID, with_members ipcreq (λ memID,
    id ← deref (head ownID);
    with_zone id ipcreq.(IPCreq.zonename) (zone_members "/zone/sharecancel" sharecancel_texts id memID))).

Definition dozonelist (ipcreq : IPCreq.t) : C string := with_login (λ ownID, post "/zone/info" ownID).
(** The endpoint is chosen before the identifier is taken. *)
Definition dozonelist_admin (ipcreq : IPCreq.t) : C string :=
  with_owner " no ownername" ipcreq (λ ownID,
    endpoint ← get_manager;
    id ← deref (head ownID);
    post_request endpoint "/zone/info" id).

(** ** Accounts *)

(** [body.substr(2)], which throws on a shorter text. *)
Definition substr_2 (body : string) : option string := if (String.length body <? 2)%nat then None else Some (substr_from 2 body).
(** Without a response the promise of the answer is never fulfilled, and the
    command never ends; so it is when the callback throws. *)
Definition douserlogin (ipcreq : IPCreq.t) : C string :=
  manager ← get_manager;
  let url := snprintf 256 (c_str manager +:+ "/users/login") in
  let mes := to_json (AccountPass.mk ipcreq.(IPCreq.accountName) ipcreq.(IPCreq.Password)) in
  r ← io (extern (http_post_plain url mes));
  '(body, cookies) ← deref r;
  if String.eqb body "-1" then mret "-1"
  else
    let mtoken := default "" (snd <$> last cookies) in
    _ ← update (set_user (ClientUser.setToken mtoken));
    _ ← update (set_user (ClientUser.setAccountName ipcreq.(IPCreq.accountName)));
    id ← deref (substr_2 body);
    _ ← update (set_user (ClientUser.setAccountID id));
    _ ← getAuthFromServer id;
    _ ← refresh_zone id;
    mret "0".

Definition dousersearch (ipcreq : IPCreq.t) : C string :=
  with_name ipcreq "client_input_error" (
    endpoint ← get_manager;
    id ← accountID;
    get_request endpoint ("/users/search/" +:+ id)).
Definition account_of (gvdsID : string) (ipcreq : IPCreq.t) : Account.t :=
  Account.mk ipcreq.(IPCreq.accountName) ipcreq.(IPCreq.Password) gvdsID ipcreq.(IPCreq.email) ipcreq.(IPCreq.phone)
    ipcreq.(IPCreq.address) ipcreq.(IPCreq.department).
Definition dousersignup (ipcreq : IPCreq.t) : C string :=
  post "/users/bufferuserregister" (to_json (account_of ipcreq.(IPCreq.gvdsID) ipcreq)).
Definition doadminsignup (ipcreq : IPCreq.t) : C string :=
  post "/users/adminregistration" (to_json (account_of ipcreq.(IPCreq.gvdsID) ipcreq)).
Definition dousermodify (ipcreq : IPCreq.t) : C string :=
  gvdsID ← accountID;
  with_name ipcreq "client_input_error" (post "/users/modify" (to_json (account_of gvdsID ipcreq))).
(** Leaving keeps the token, and sets a name and an identifier of their own. *)
Definition douserexit (ipcreq : IPCreq.t) : C string :=
  with_name ipcreq "client_input_error" (
    endpoint ← get_manager;
    id ← accountID;
    res ← get_request endpoint ("/users/exit/" +:+ id);
    _ ← (if String.eqb res "0" then
           _ ← update (set_user (ClientUser.setAccountName "100"));
           update (set_user (ClientUser.setAccountID "200"))
         else mret ());
    mret res).
Definition dousercancel (ipcreq : IPCreq.t) : C string :=
  with_name ipcreq "client_input_error" (
    endpoint ← get_manager;
    id ← accountID;
    get_request endpoint ("/users/cancel/" +:+ id)).

(** ** Rights *)

Definition doauthsearch (ipcreq : IPCreq.t) : C string :=
  with_name ipcreq "client_input_error" (
    gvdsID ← accountID;
    post "/auth/search" gvdsID).
Definition auth_outcome (res : string) : string :=
  if String.eqb res "-1" then "modify auth fail"
  else if String.eqb res "33" then "Verification failed, access denied"
  else "modify auth success".
Definition auth_modify (gvdsID : string) (ipcreq : IPCreq.t) : C string :=
  post "/auth/modify" (to_json (FEAuthModifygroupinfo.mk gvdsID ipcreq.(IPCreq.zonename) ipcreq.(IPCreq.changeauth))).
Definition doauthmodify (ipcreq : IPCreq.t) : C string :=
  with_name ipcreq "-2" (
    gvdsID ← accountID;
    res ← auth_modify gvdsID ipcreq;
    _ ← getAuthFromServer gvdsID;
    mret (auth_outcome res)).

(** ** Centres *)

(** Centres are added at the configured manager, whatever the chosen one is. *)
Definition domodifycenter (ipcreq : IPCreq.t) : C string :=
  let value := to_json (FECenterInfo.mk ipcreq.(IPCreq.centerID) ipcreq.(IPCreq.centerIP) ipcreq.(IPCreq.centerPort)
    ipcreq.(IPCreq.centerName)) in
  addr ← deref (config "manager_addr");
  post_request ("http://" +:+ addr) "/mconf/addCenter" value.
Definition dosearchcenter (ipcreq : IPCreq.t) : C string := get_from "/mconf/searchCenter".
Definition dodeletecenter (ipcreq : IPCreq.t) : C string := post "/mconf/deleteCenter" ipcreq.(IPCreq.centerID).

(** ** Administration *)

Definition dolistapply (ipcreq : IPCreq.t) : C string :=
  gvdsID ← accountID;
  res ← post "/users/listapply" gvdsID;
  if String.eqb res "1" || String.eqb res "33" then mret res
  else
    let my := json_decode (codec_vector codec_string "") res [] in
    _ ← update (set_user ClientUser.clearApply);
    _ ← update (set_user (λ u, foldl (λ u con,
      let singel_content := of_json struct_apply_info.init con in
      ClientUser.setApply singel_content.(struct_apply_info.id) singel_content.(struct_apply_info.data) u) u my));
    mret res.

(** The kinds of application: the request that grants it, and what is answered. *)
Definition registercheck_texts : list (Z * string) :=
  [(11, "数据库连接失败或空间目录创建失败或权限添加失败请重试"); (22, "区域名已存在或区域名、空间名、空间容量为空");
   (28, "分配容量失败，存储资源容量不足"); (2, "存储资源选择失败,未找到相关存储资源"); (13, "获取区域账户映射信息失败")].
Definition mapaddcheck_texts : list (Z * string) :=
  [(11, "数据库连接失败或空间目录创建失败或权限同步失败请重试"); (22, "空间已存在或同一区域在一个中心不能有两个空间或空间名、空间容量为空");
   (28, "分配容量失败，存储资源容量不足"); (2, "存储资源选择失败,未找到相关存储资源"); (13, "获取区域账户映射信息失败")].
Definition changesize_texts : list (Z * string) :=
  [(11, "数据库连接失败"); (22, "空间容量缩小过多"); (28, "分配容量失败，存储资源容量不足")].
Definition granted (tmp : string) : option (string * (string → string)) :=
  if String.eqb tmp "usign" then Some ("/users/registration", λ res, res)
  else if String.eqb tmp "zregi" then Some ("/zone/registercheck", worded registercheck_texts unknown_error)
  else if String.eqb tmp "spadd" then Some ("/zone/mapaddcheck", worded mapaddcheck_texts unknown_error)
  else if String.eqb tmp "spsiz" then Some ("/space/changesize", worded changesize_texts unknown_error)
  else None.
(** An application is removed whatever came of the request that grants it. *)
Definition dosuggestion (ipcreq : IPCreq.t) : C string :=
  let id := ipcreq.(IPCreq.applyid) in
  endpoint ← get_manager;
  if String.eqb ipcreq.(IPCreq.sug) "reject" then
    res ← post_request endpoint "/users/removeapply" id;
    mret (if String.eqb res "0" then "success" else "fail")
  else if String.eqb ipcreq.(IPCreq.sug) "agree" then
    c ← self;
    let '(value, u) := ClientUser.getApply id c.(user) in
    _ ← update (set_user (λ _, u));
    match granted (substr 0 5 id) with
    | Some (routepath, say) =>
        response ← post_request endpoint routepath value;
        _ ← post_request endpoint "/users/removeapply" id;
        mret (say response)
    | None => mret ""
    end
  else mret "input error".

(** The commands that name another account. *)
Definition with_account (failed : string) (ipcreq : IPCreq.t) (k : list string → C string) : C string :=
  '(tmsuccess, memID) ← getMemberID [ipcreq.(IPCreq.accountName)];
  if negb tmsuccess then mret failed else k memID.
Definition account_map (url centername : string) (memID : list string) : C string :=
  adgvdsID ← accountID;
  id ← deref (head memID);
  post url (to_json (struct_AdminAccountMap.mk adgvdsID id centername)).
Definition doadcam (ipcreq : IPCreq.t) : C string :=
  with_account no_account ipcreq (account_map "/users/adcam" ipcreq.(IPCreq.centerName)).
Definition doaduam (ipcreq : IPCreq.t) : C string :=
  with_account no_account ipcreq (account_map "/users/aduam" ipcreq.(IPCreq.centerName)).
Definition doadsearcham (ipcreq : IPCreq.t) : C string :=
  with_account "-1" ipcreq (account_map "/users/adsearcham" "").
Definition doadseepool (ipcreq : IPCreq.t) : C string :=
  adgvdsID ← accountID;
  post "/users/adsearchpool" adgvdsID.
Definition doadauthsearch (ipcreq : IPCreq.t) : C string :=
  with_account "-1" ipcreq (λ memID,
    gvdsID ← deref (head memID);
    post "/auth/search" gvdsID).
Definition doadauthmodify (ipcreq : IPCreq.t) : C string :=
  with_account no_account ipcreq (λ memID,
    id ← deref (head memID);
    res ← auth_modify id ipcreq;
    mret (auth_outcome res)).

(** ** The callback of the IPC server *)

Definition commands : list (string * (IPCreq.t → C string)) := [
  ("spacerename", dospacerename); ("spacerename_admin", dospacerename_admin); ("spacesizechange", dospacesizechange);
  ("spaceusage", dospaceusage); ("spaceusage_admin", dospaceusage_admin); ("mapadd", domapadd);
  ("mapdeduct", domapdeduct); ("mapdeduct_admin", domapdeduct_admin); ("zoneadd_admin", dozoneadd_admin);
  ("zonecancel", dozonecancel); ("zonecancel_admin", dozonecancel_admin); ("zoneregister", dozoneregister);
  ("zonerename", dozonerename); ("zonerename_admin", dozonerename_admin); ("zoneshare", dozoneshare);
  ("zoneshare_admin", dozoneshare_admin); ("zonesharecancel", dozonesharecancel);
  ("zonesharecancel_admin", dozonesharecancel_admin); ("zonelist", dozonelist); ("zonelist_admin", dozonelist_admin);
  ("userlogin", douserlogin); ("usersearch", dousersearch); ("usersignup", dousersignup); ("usermodify", dousermodify);
  ("userexit", douserexit); ("usercancel", dousercancel); ("authsearch", doauthsearch); ("authmodify", doauthmodify);
  ("modifycenter", domodifycenter); ("searchcenter", dosearchcenter); ("deletecenter", dodeletecenter);
  ("adminsignup", doadminsignup); ("listapply", dolistapply); ("suggestion", dosuggestion); ("adcam", doadcam);
  ("aduam", doaduam); ("adsearcham", doadsearcham); ("adseepool", doadseepool); ("adauthsearch", doadauthsearch);
  ("adauthmodify", doadauthmodify); ("resourceregister", doresourceregister); ("resourcedelete", doresourcedelete);
  ("resourcequery", doresourcequery); ("resourceupdate", doresourceupdate); ("spacereplica", dospacereplica)].
Definition dispatch (cmdlinereq : string) : C string :=
  let ipcreq := of_json IPCreq.init cmdlinereq in
  match head (filter (λ p : string * (IPCreq.t → C string), p.1 = ipcreq.(IPCreq.cmdname)) commands) with
  | Some (_, command) => command ipcreq
  | None => mret "警告：出现不支持的命令的请求！"
  end.
End commands.
End ClientIPC.
