(* ===== verification/Commands.v ===== *)
(** * What the commands of the user do

    Rules for the calls of IpcMod.v, the dispatch of a command, what a command
    answers in every case, and where the answer is not what happened. *)
From S2P Require Import Prelude CxxString Json Records Datastore Instances User Mconf ClientZone SelectNode IpcMod.

Import ClientIPC.

Section rules.
Context {W : Type} `{Pistache W, Host W, Rapidjson, Indet}.
Implicit Types (c : client) (w : W).

Lemma wp_io {A} (m : M W A) Q E c w :
  wp m (λ a w', Q a (c, w')) (λ w', E (c, w')) w → wp (io m) Q E (c, w).
Proof. unfold wp, io. by destruct (m w) as [[a|] w']. Qed.

Lemma wp_self Q E c w : Q c (c, w) → wp (W := client * W) self Q E (c, w).
Proof. done. Qed.

Lemma wp_update f Q E c w : Q () (f c, w) → wp (W := client * W) (update f) Q E (c, w).
Proof. done. Qed.

(** The response to a request at the chosen manager. *)
Definition manager_url c : string := SelectNode.first_url c.(optNode).
Definition asked c (url data : string) w : http_outcome * W :=
  http_post (manager_url c +:+ url) c.(user).(ClientUser.mtoken) data w.
Definition answer (r : http_outcome * W) : string := ClientRpc.body_of r.1.
Definition free c : Prop := c.(optNode).(SelectNode.locked) = false.

Lemma wp_manager Q E c w : free c → Q (manager_url c) (c, w) → wp get_manager Q E (c, w).
Proof.
  intros Hf HQ. unfold get_manager. wp_step. apply wp_self. wp_step. apply wp_io.
  apply SelectNode.wp_get_manager; [done|]. wp_step. apply wp_update. wp_step. by destruct c.
Qed.

Lemma wp_post_request endpoint url data Q E c w :
  let r := http_post (endpoint +:+ url) c.(user).(ClientUser.mtoken) data w in
  Q (answer r) (c, r.2) → wp (post_request endpoint url data) Q E (c, w).
Proof.
  intros r HQ. unfold post_request, ClientRpc.post_request. wp_step. apply wp_self. apply wp_io.
  wp_step. apply wp_extern. wp_step. exact HQ.
Qed.

Lemma wp_post url data Q E c w :
  free c → Q (answer (asked c url data w)) (c, (asked c url data w).2) → wp (post url data) Q E (c, w).
Proof.
  intros Hf HQ. unfold post. wp_step. apply wp_manager; [done|]. by apply wp_post_request.
Qed.

Lemma wp_accountID Q E c w : Q c.(user).(ClientUser.accountID) (c, w) → wp accountID Q E (c, w).
Proof. intros HQ. unfold accountID. wp_step. apply wp_self. by wp_step. Qed.
Lemma wp_accountName Q E c w : Q c.(user).(ClientUser.accountName) (c, w) → wp accountName Q E (c, w).
Proof. intros HQ. unfold accountName. wp_step. apply wp_self. by wp_step. Qed.

Lemma wp_with_login k Q E c w :
  c.(user).(ClientUser.accountID) ≠ "" → wp (k c.(user).(ClientUser.accountID)) Q E (c, w) → wp (with_login k) Q E (c, w).
Proof.
  intros Hid HQ. unfold with_login. wp_step. apply wp_accountID.
  by destruct (String.eqb_spec (ClientUser.accountID (user c)) "").
Qed.

(** The identifiers a manager answers with, or its failure. *)
Lemma wp_getMemberID names Q E c w :
  free c →
  let r := asked c "/users/memberID" (json_encode (codec_vector codec_string "") names) w in
  Q (if String.eqb (answer r) "fail" then (false, [])
     else (true, json_decode (codec_vector codec_string "") (answer r) [])) (c, r.2) →
  wp (getMemberID names) Q E (c, w).
Proof.
  intros Hf r HQ. unfold getMemberID. wp_step. apply wp_post; [done|]. fold r. by case_match; wp_step.
Qed.
End rules.

(** One step through a command. *)
Ltac cmd_step :=
  first [ apply wp_io | apply wp_self | apply wp_update | apply wp_accountID | apply wp_accountName
        | apply wp_manager; [done|] | apply wp_post; [done|] | apply wp_post_request | wp_step ].

(** ** Which command runs *)
Section dispatch.
Context {W : Type} `{Pistache W, Host W, RapidjsonLaws, Indet}.

Lemma commands_names : NoDup (commands (W := W)).*1.
Proof. apply (bool_decide_unpack _). vm_compute. exact I. Qed.

Lemma head_filter_key {A} (l : list (string * A)) k a :
  NoDup l.*1 → (k, a) ∈ l → head (filter (λ p : string * A, p.1 = k) l) = Some (k, a).
Proof.
  induction l as [|[k' a'] l IH]; intros Hnd Hin; [by apply elem_of_nil in Hin|].
  rewrite fmap_cons in Hnd. inversion_clear Hnd as [|? ? Hk Hl]. rewrite filter_cons. apply elem_of_cons in Hin as [[= <- <-]|Hin].
  - by rewrite decide_True.
  - rewrite decide_False; [by apply IH|]. cbn. intros ->. apply Hk. by apply (list_elem_of_fmap_2 fst _ (k, a)).
Qed.

(** What a command line tool sends is what the client executes: every field of
    the request arrives as it was sent, and the handler is the one of its name; a
    name without a handler is answered with a warning and nothing is sent. *)
Theorem dispatch_spec (ipcreq : IPCreq.t) :
  IPCreq.wf ipcreq →
  (∀ command, (ipcreq.(IPCreq.cmdname), command) ∈ commands (W := W) → dispatch (to_json ipcreq) = command ipcreq) ∧
  (ipcreq.(IPCreq.cmdname) ∉ (commands (W := W)).*1 →
   dispatch (to_json ipcreq) = mret "警告：出现不支持的命令的请求！").
Proof.
  intros Hwf. unfold dispatch. rewrite (of_to_json (A := IPCreq.t)) by done. split.
  - intros command Hin. by rewrite (head_filter_key _ _ command) by (done || apply commands_names).
  - intros Hn. destruct (filter _ _) as [|p l] eqn:Hf; [done|]. exfalso. apply Hn.
    assert (Hp : p ∈ filter (λ p : string * (IPCreq.t → M (client * W) string), p.1 = ipcreq.(IPCreq.cmdname)) commands)
      by (rewrite Hf; left).
    apply list_elem_of_filter in Hp as [Hk Hp]. rewrite <-Hk. by apply list_elem_of_fmap_2.
Qed.
End dispatch.

(** ** Zones and spaces by name *)
Section names.
Context {W : Type} `{Pistache W, Host W, RapidjsonLaws, !RapidjsonErrors, Indet}.
Implicit Types (c : client) (w : W) (z : Zone.t).

Definition zone_named (name : string) (zs : list Zone.t) : option Zone.t :=
  last (filter (λ x, x.(Zone.zoneName) = name) zs).

Lemma by_name_lookup zs name : by_name zs !! name = zone_named name zs.
Proof.
  unfold by_name, zone_named. induction zs as [|x zs IH] using rev_ind; [done|].
  rewrite foldl_app, filter_app. cbn [foldl]. rewrite filter_cons, filter_nil. case_decide as Hx.
  - by rewrite last_snoc, <-Hx, lookup_insert_eq.
  - by rewrite app_nil_r, lookup_insert_ne.
Qed.

(** Zones as the manager sends them. *)
Definition sendable (zs : list Zone.t) : Prop :=
  zs ≠ [] ∧ Forall (λ x, Zone.wf x ∧ x.(Zone.contains_spaceinfo) = true) zs.

Lemma zones_text_parses zs : sendable zs → ClientZone.zones_text zs ≠ "".
Proof.
  intros [_ Hzs] He. pose proof (ClientZone.decode_encode_zones zs Hzs) as Hd.
  assert (Hw : json_wf (JArray (JObject ∘ Zone.serialize_impl <$> zs))).
  { constructor. rewrite Forall_fmap. eapply Forall_impl; [exact Hzs|]. intros x [Hx _]. cbn.
    constructor. by apply Zone.serialize_wf. }
  pose proof (rj_parse_write _ Hw) as Hp. fold (ClientZone.zones_text zs) in Hp.
  rewrite He, parse_empty in Hp. done.
Qed.

(** A zone is found when the manager lists it, by the last entry of its name. *)
Lemma wp_with_zone zs ownID zonename k Q E c w :
  free c → sendable zs → answer (asked c "/zone/info" ownID w) = ClientZone.zones_text zs →
  let c' := set_zonemap (by_name zs) c in
  let w' := (asked c "/zone/info" ownID w).2 in
  match zone_named zonename zs with
  | Some z => wp (k z) Q E (c', w')
  | None => Q no_such_zone (c', w')
  end → wp (with_zone ownID zonename k) Q E (c, w).
Proof.
  intros Hf Hs Ha c' w' HQ. unfold with_zone, GetZoneInfo. do 2 wp_step. apply wp_post; [done|]. rewrite Ha.
  destruct (String.eqb_spec (ClientZone.zones_text zs) "") as [He|_]; [by apply zones_text_parses in He|].
  wp_step. rewrite ClientZone.decode_encode_zones by (by destruct Hs). wp_step.
  destruct zs as [|x zs']; [by destruct Hs|]. set (zs := x :: zs') in *.
  wp_step. apply wp_update. wp_step. cbn [negb]. wp_step. apply wp_self.
  cbn [zonemap set_zonemap]. rewrite by_name_lookup. fold c' w'. destruct (zone_named zonename zs); [done|by wp_step].
Qed.

(** Without an answer, or with the failure of the manager, no command goes on. *)
Lemma wp_with_no_zone ownID zonename k Q E c w :
  free c → answer (asked c "/zone/info" ownID w) ∈ ["fail"; ""] →
  Q no_zone_info (c, (asked c "/zone/info" ownID w).2) → wp (with_zone ownID zonename k) Q E (c, w).
Proof.
  intros Hf Ha HQ. unfold with_zone, GetZoneInfo. do 2 wp_step. apply wp_post; [done|].
  assert (Hd : (if String.eqb (answer (asked c "/zone/info" ownID w)) "" then Some []
    else ClientZone.decode_zones (answer (asked c "/zone/info" ownID w))) = Some []).
  { apply elem_of_cons in Ha as [Ha|Ha%list_elem_of_singleton]; rewrite Ha; [|done].
    unfold ClientZone.decode_zones. change (c_str "fail") with "fail". by rewrite parse_fail. }
  rewrite Hd. wp_step. do 2 wp_step. cbn [negb]. by wp_step.
Qed.

(** Names are resolved in order; the first one that is missing is reported. *)
Lemma space_ids_app z names ids :
  match space_ids z names ids with
  | inr l => ∃ l', l = ids ++ l' ∧ Forall2 (λ m id, ∃ sp, space_named m z = Some sp ∧ sp.(Space.spaceID) = id) names l'
  | inl m => ∃ before after, names = before ++ m :: after ∧ space_named m z = None ∧
      Forall (λ m, is_Some (space_named m z)) before
  end.
Proof.
  revert ids. induction names as [|m names IH]; intros ids; cbn [space_ids].
  { exists []. by rewrite app_nil_r. }
  destruct (space_named m z) as [sp|] eqn:Hm.
  - specialize (IH (ids ++ [sp.(Space.spaceID)])). destruct (space_ids z names _) as [m'|l].
    + destruct IH as (before & after & -> & Hm' & Hb). exists (m :: before), after. split_and!; [done..|].
      constructor; [by eexists|done].
    + destruct IH as (l' & -> & Hl). exists (sp.(Space.spaceID) :: l'). rewrite <-(assoc_L (++)). split; [done|].
      constructor; [by eexists|done].
  - by exists [], names.
Qed.

(** Removing spaces from a zone by their names: every name is looked up in the
    zone as the manager just sent it; when one is missing the first of them is named
    and nothing is removed, otherwise one request with all identifiers, in order,
    is sent in the name of the user, and its outcome is worded. *)
Theorem domapdeduct_spec zs z ipcreq c w :
  free c → c.(user).(ClientUser.accountID) ≠ "" → sendable zs →
  let u := c.(user).(ClientUser.accountID) in
  answer (asked c "/zone/info" u w) = ClientZone.zones_text zs → zone_named ipcreq.(IPCreq.zonename) zs = Some z →
  let names := ipcreq.(IPCreq.spacenames) in
  let w1 := (asked c "/zone/info" u w).2 in
  wp (domapdeduct ipcreq) (λ text '(c', w'), c' = set_zonemap (by_name zs) c ∧
    ((∃ m before after, names = before ++ m :: after ∧ space_named m z = None ∧
        Forall (λ m, is_Some (space_named m z)) before ∧ text = missing_space m ∧ w' = w1) ∨
     (∃ ids r, Forall2 (λ m id, ∃ sp, space_named m z = Some sp ∧ sp.(Space.spaceID) = id) names ids ∧
        r = asked c "/zone/mapdeduct"
          (to_json (ZoneRequest.mk z.(Zone.zoneID) "" [] ids u "" "" junk_int64 "" "")) w1 ∧
        w' = r.2 ∧ text = worded [(11, "数据库连接失败或空间权限删除失败请重试"); (22, "空间名不存在");
          (13, "并非区域主人无权删除空间")] unknown_error (answer r)))) never (c, w).
Proof.
  intros Hf Hu Hs u Ha Hz names w1. unfold domapdeduct. apply wp_with_login; [done|]. fold u.
  eapply wp_with_zone; [done..|]. rewrite Hz. unfold map_deduct. fold names w1.
  pose proof (space_ids_app z names []) as Hi. destruct (space_ids z names []) as [m|ids].
  - wp_step. split; [done|]. left. destruct Hi as (before & after & ? & ? & ?). by exists m, before, after.
  - wp_step. apply wp_post; [done|]. wp_step. split; [done|]. right.
    destruct Hi as (ids' & -> & Hi). exists ids'. eexists. split_and!; [done|done|done|done].
Qed.

(** The commands for which a user has to log in. *)
Definition needs_login : list (string * (IPCreq.t → M (client * W) string)) := [
  ("spacerename", dospacerename); ("spacesizechange", dospacesizechange); ("spaceusage", dospaceusage);
  ("mapadd", domapadd); ("mapdeduct", domapdeduct); ("zonecancel", dozonecancel); ("zoneregister", dozoneregister);
  ("zonerename", dozonerename); ("zoneshare", dozoneshare); ("zonesharecancel", dozonesharecancel);
  ("zonelist", dozonelist)].

(** No command on zones or spaces does anything before the user has logged in:
    each of the eleven answers "login first", sends nothing and changes nothing. *)
Theorem login_required name (command : IPCreq.t → M (client * W) string) ipcreq c w :
  (name, command) ∈ needs_login → c.(user).(ClientUser.accountID) = "" →
  (name, command) ∈ commands (W := W) ∧ command ipcreq (c, w) = (Val "login first", (c, w)).
Proof.
  intros Hin Hu. unfold needs_login in Hin.
  repeat (apply elem_of_cons in Hin as [[= -> ->]|Hin]); [..|by apply elem_of_nil in Hin].
  all: split; [unfold commands; repeat (first [left; done|right])|].
  all: unfold dospacerename, dospacesizechange, dospaceusage, domapadd, domapdeduct, dozonecancel, dozoneregister,
    dozonerename, dozoneshare, dozonesharecancel, dozonelist, with_login, accountID, self, mbind, M_bind, mret, M_ret;
    by rewrite Hu.
Qed.
End names.

(** ** Where the answer is not what happened *)
Section surprises.
Context {W : Type} `{Pistache W, Host W, RapidjsonLaws, !RapidjsonErrors, Indet}.
Implicit Types (c : client) (w : W).

(** The worded outcome of no response: what the memory of [result] held. *)
Lemma worded_nothing texts other :
  worded texts other "" = if junk_int =? 0 then "success"
    else default other (snd <$> head (filter (λ p : Z * string, p.1 = junk_int) texts)).
Proof. unfold worded, json_decode. change (c_str "") with "". by rewrite parse_empty. Qed.

Lemma worded_code texts other e :
  in_i32 e = true → worded texts other (json_encode codec_int e) =
    if e =? 0 then "success" else default other (snd <$> head (filter (λ p : Z * string, p.1 = e) texts)).
Proof. intros He. unfold worded. rewrite (json_decode_encode codec_int) by exact He. done. Qed.

(** A command whose request gets no response words whatever its uninitialised
    result held: with zero there, replicating a space, cancelling and renaming a
    zone, changing its members and removing its spaces are all reported as a
    success, without any manager. *)
Theorem no_response_is_success c w :
  free c → junk_int = 0 → (∀ url token data w, ClientRpc.body_of (http_post url token data w).1 = "") →
  let succeeds m := wp m (λ text _, text = "success") never (c, w) in
  (∀ ipcreq, succeeds (dospacereplica ipcreq)) ∧
  ∀ u z ipcreq, succeeds (zone_cancel u z) ∧ (∀ refused, succeeds (zone_rename refused u ipcreq z)) ∧
    (∀ url texts ms, succeeds (zone_members url texts u ms z)) ∧
    (Forall (λ m, is_Some (space_named m z)) ipcreq.(IPCreq.spacenames) → succeeds (map_deduct u ipcreq z)).
Proof.
  intros Hf Hj Hn succeeds. assert (Hs : ∀ texts other url data, worded texts other (answer (asked c url data w)) = "success").
  { intros. unfold answer, asked. by rewrite Hn, worded_nothing, Hj. }
  unfold succeeds. split; [|intros u z ipcreq; split_and!].
  - intros ipcreq. unfold dospacereplica. wp_step. apply wp_post; [done|]. wp_step. apply Hs.
  - unfold zone_cancel. wp_step. apply wp_post; [done|]. wp_step. apply Hs.
  - intros refused. unfold zone_rename. wp_step. apply wp_post; [done|]. wp_step. apply Hs.
  - intros url texts ms. unfold zone_members. wp_step. apply wp_post; [done|]. wp_step. apply Hs.
  - intros Hall. unfold map_deduct. pose proof (space_ids_app z ipcreq.(IPCreq.spacenames) []) as Hi.
    destruct (space_ids _ _ _) as [m|ids].
    + destruct Hi as (before & after & He & Hm & _). rewrite He in Hall.
      apply Forall_app in Hall as [_ Hall]. inversion_clear Hall as [|? ? Hx]. rewrite Hm in Hx. by destruct Hx.
    + wp_step. apply wp_post; [done|]. wp_step. apply Hs.
Qed.

(** Leaving is not logging out: after it the client goes by the identifier
    "200" and keeps its token, so that no command asks for a login, and the next one
    is sent in the name of that identifier with the token of the user who left. *)
Theorem exit_is_not_logout ipcreq ipcreq' c w :
  free c → let name := c.(user).(ClientUser.accountName) in
  ipcreq.(IPCreq.accountName) = name →
  let token := c.(user).(ClientUser.mtoken) in
  let left := http_get (manager_url c +:+ "/users/exit/" +:+ c.(user).(ClientUser.accountID)) token w in
  answer left = "0" →
  wp (douserexit ipcreq ≫= λ _, dozonelist ipcreq') (λ text '(c', w'),
    c'.(user).(ClientUser.accountID) = "200" ∧
    (text, w') = let r := http_post (manager_url c +:+ "/zone/info") token "200" left.2 in (answer r, r.2)) never (c, w).
Proof.
  intros Hf name Hname token left Hl. wp_step. unfold douserexit, with_name. wp_step. apply wp_accountName.
  rewrite Hname. rewrite String.eqb_refl. cbn [negb andb]. wp_step. apply wp_manager; [done|]. wp_step. apply wp_accountID.
  wp_step. unfold get_request, ClientRpc.get_request. wp_step. apply wp_self. apply wp_io. wp_step. apply wp_extern. wp_step.
  change (http_get _ _ w) with left. fold (answer left). rewrite Hl. change (String.eqb "0" "0") with true. cbv iota.
  do 2 wp_step. apply wp_update. apply wp_update. wp_step.
  unfold dozonelist. apply wp_with_login; [done|]. apply wp_post; [done|]. done.
Qed.

(** An application that is agreed to is gone, whatever came of it: the request
    that grants it may fail or get no response, its removal is sent all the same. *)
Theorem agreed_is_removed ipcreq say routepath c w :
  free c → ipcreq.(IPCreq.sug) = "agree" → let id := ipcreq.(IPCreq.applyid) in
  granted (substr 0 5 id) = Some (routepath, say) →
  let value := (ClientUser.getApply id c.(user)).1 in
  wp (dosuggestion ipcreq) (λ text '(c', w'),
    let r := asked c routepath value w in
    text = say (answer r) ∧ w' = (asked c "/users/removeapply" id r.2).2) never (c, w).
Proof.
  intros Hf Hs id Hg value. unfold dosuggestion. wp_step. apply wp_manager; [done|]. rewrite Hs.
  change (String.eqb "agree" "reject") with false. change (String.eqb "agree" "agree") with true. cbv iota.
  wp_step. apply wp_self. fold id. unfold value. destruct (ClientUser.getApply id (user c)) as [v u] eqn:Hv.
  assert (Ht : u.(ClientUser.mtoken) = c.(user).(ClientUser.mtoken)).
  { unfold ClientUser.getApply in Hv. by case_match; injection Hv as <- <-. }
  wp_step. apply wp_update. rewrite Hg. wp_step. apply wp_post_request. wp_step. apply wp_post_request. wp_step.
  unfold asked, manager_url. cbn. by rewrite Ht.
Qed.

(** A zone or space that is to be made at the default centre: once the managers
    have been ranked, the centre of the request has its name and no identifier. *)
Theorem default_centre_has_no_id `{StdSortLaws} token c w times w1 :
  free c → is_Some (config "manager_addr") →
  SelectNode.getRTT token c.(optNode) w = (Val (0, times), w1) →
  let known := SelectNode.mycenter c.(optNode) in
  known.(CenterInfo.centerID) ≠ [] →
  wp (SelectNode.entry_turn token c.(optNode)) (λ n w', ∀ space k Q E,
    space.(Space.hostCenterName) = "" →
    (∀ id, id ∈ known.(CenterInfo.centerID) →
      wp (k (with_host "" (SelectNode.name_of known id) space)) Q E (set_optNode n c, w')) →
    wp (locate_space space k) Q E (set_optNode n c, w')) never w.
Proof.
  intros Hf Ha Hr known Hids. pose proof (SelectNode.getRTT_dom _ _ _ _ _ Hr) as [_ Hdom]. fold known in Hdom.
  eapply SelectNode.entry_turn_ranked; [done..|]. intros i w' space k Q E Hs HQ.
  assert (Hne : map_items times ≠ []) by by apply SelectNode.times_nonempty with token (optNode c) w w1.
  destruct (SelectNode.std_sort_head _ Hne) as ([n time] & rest & Hsort & Hin & _).
  assert (Hn : n ∈ SelectNode.name_of known <$> known.(CenterInfo.centerID)).
  { apply Hdom. rewrite map_items_perm in Hin. apply elem_of_map_to_list in Hin. by eexists. }
  apply list_elem_of_fmap in Hn as (id & -> & Hid).
  pose proof (SelectNode.getmapIdName_spec (optNode c) id Hid) as [Hr1 _].
  set (n' := SelectNode.set_information i _).
  assert (Hb : head n'.(SelectNode.buf_delay) = Some (SelectNode.node_of known (SelectNode.getmapIdName
    (SelectNode.name_of known id) (optNode c)) "")) by (unfold n', SelectNode.ranked; cbn; by rewrite Hsort).
  assert (Hl : n'.(SelectNode.locked) = false) by exact Hf.
  unfold locate_space. wp_step. apply wp_self. rewrite Hs. change (String.eqb "" "") with true. cbv iota.
  wp_step. apply wp_io. unfold SelectNode.getNode. wp_step. apply SelectNode.wp_lock; [exact Hl|].
  cbn [Z.eqb Pos.eqb]. wp_step. wp_step. apply wp_update. rewrite SelectNode.unlock_locked by exact Hl.
  wp_step. change (SelectNode.buf_delay (SelectNode.set_locked true (optNode (set_optNode n' c)))) with (SelectNode.buf_delay n'). rewrite Hb. wp_step.
  destruct c. exact (HQ _ Hr1).
Qed.
End surprises.
