(* ===== verification/Ipc.v ===== *)
(** * The socket of the command line tools (common/ipc)

    A tool sends texts to the client and prints what it answers, over a connection of
    two byte streams: IPCMessage.hpp, and the loops of IPCSession (IPCServer.cc) and
    IPCClient.cc, which write queues of messages and read a header and a body in turn.
    Bytes arrive in pieces of any size. The two ends run in one thread each, so a
    completion handler is one step; what a session does with a message is a parameter,
    a computation on the outside. *)
From S2P Require Import Prelude CxxString.

(** Cutting at a fixed place of a stream of which more is to come. *)
Lemma split_stream n a b c d :
  a +:+ b = c +:+ d → String.length c = n → (n ≤ String.length a)%nat → str_take n a = c ∧ str_drop n a +:+ b = d.
Proof.
  revert a c. induction n as [|n IH]; intros a c Heq Hn Ha.
  { destruct c; [|done]. by destruct a. }
  destruct c as [|x c]; [done|]. destruct a as [|y a]; [cbn in Ha; lia|]. cbn in *.
  rewrite !append_cons in Heq. injection Heq as -> Heq. destruct (IH a c Heq ltac:(lia) ltac:(lia)) as [-> ->]. done.
Qed.

Module IPCMessage.

Definition header_length : nat := 4.
Definition max_body_length : Z := 1048576.

(** [data_]: the header, and the body of [body_length_] bytes. *)
Record t : Type := mk {
  header : string;
  body : string;
}.
Definition data (m : t) : string := m.(header) +:+ m.(body).

Definition body_length (new_length : Z) : Z := if max_body_length <? new_length then max_body_length else new_length.

(** The format "%4d". *)
Fixpoint pad_left (n : nat) (s : string) : string := match n with O => s | S n => String " " (pad_left n s) end.
Definition format_4d (n : Z) : string := let s := pretty n in pad_left (header_length - String.length s) s.

(** [sprintf] into [header_length + 1] bytes; [None] where it writes past them. *)
Definition encode_header (body_length_ : Z) : option string :=
  let text := format_4d body_length_ in
  if (String.length text <=? header_length)%nat then Some text else None.

Definition make_message_by_charstring (str : string) : option t :=
  let n := body_length (size (c_str str)) in
  h ← encode_header n;
  Some (mk h (str_take (Z.to_nat n) (c_str str))).

(** [body_length_] after [decode_header]; [None] where it returns false. *)
Definition decode_header (data_ : string) : option Z :=
  n ← atoi (str_take header_length data_);
  let body_length_ := to_u64 n in
  if max_body_length <? body_length_ then None else Some body_length_.

(** ** Messages *)

(** The texts that fit: the header has four digits. *)
Definition fits (s : string) : Prop := size s ≤ 9999.

Definition header_ok (n : Z) : bool :=
  bool_decide (encode_header n = Some (format_4d n) ∧ String.length (format_4d n) = 4%nat ∧ decode_header (format_4d n) = Some n).
Lemma header_table : forallb header_ok (seqZ 0 10000) = true.
Proof. vm_compute. reflexivity. Qed.
Lemma header_roundtrip n : 0 ≤ n ≤ 9999 →
  encode_header n = Some (format_4d n) ∧ String.length (format_4d n) = 4%nat ∧ decode_header (format_4d n) = Some n.
Proof.
  intros Hn. pose proof header_table as Ht. rewrite forallb_forall in Ht. specialize (Ht n).
  apply bool_decide_eq_true in Ht; [done|]. apply list_elem_of_In, elem_of_seqZ. lia.
Qed.

(** A text on the wire. *)
Definition frame (s : string) : string := format_4d (size s) +:+ s.
Fixpoint frames (l : list string) : string := match l with [] => "" | s :: l => frame s +:+ frames l end.
Lemma frames_app l l' : frames (l ++ l') = frames l +:+ frames l'.
Proof. induction l as [|s l IH]; [done|]. cbn. by rewrite IH, <-!append_assoc. Qed.

Lemma make_message_fits s : c_str s = s → fits s → ∃ m, make_message_by_charstring s = Some m ∧ data m = frame s ∧ m.(body) = s.
Proof.
  intros Hs Hf. unfold fits in Hf. pose proof (size_nonneg s). unfold make_message_by_charstring. rewrite Hs.
  assert (Hb : body_length (size s) = size s).
  { unfold body_length, max_body_length. rewrite (proj2 (Z.ltb_ge _ _)); lia. }
  rewrite Hb. destruct (header_roundtrip (size s)) as (-> & _ & _); [lia|]. eexists. split; [reflexivity|].
  unfold size. rewrite Nat2Z.id, str_take_all by lia. done.
Qed.
End IPCMessage.

(** Any other text is written past the end of the header. *)
Lemma pretty_digits x s : ∃ k : nat, String.length (pretty_N_go x s) = (String.length s + k)%nat ∧ Z.of_N x < 10 ^ Z.of_nat k.
Proof.
  revert s. induction (N.lt_wf_0 x) as [x _ IH]; intros s. destruct (decide (x = 0)%N) as [->|Hx].
  { exists 0%nat. rewrite pretty_N_go_0. split; [lia|done]. }
  rewrite pretty_N_go_step by lia. destruct (IH (x `div` 10)%N ltac:(apply N.div_lt; lia) (String (pretty_N_char (x `mod` 10)) s))
    as (k & -> & Hk). exists (S k). split; [cbn; lia|]. rewrite N2Z.inj_div in Hk.
  rewrite Nat2Z.inj_succ, Z.pow_succ_r by lia. pose proof (Z.div_mod (Z.of_N x) 10 ltac:(lia)).
  pose proof (Z.mod_pos_bound (Z.of_N x) 10 ltac:(lia)). change (Z.of_N 10) with 10 in Hk. lia.
Qed.
Lemma format_4d_long n : 10000 ≤ n → (4 < String.length (IPCMessage.format_4d n))%nat.
Proof.
  intros Hn. assert (Hl : (4 < String.length (pretty n))%nat).
  { destruct n as [|p|p]; [lia| |lia]. change (pretty (Zpos p)) with (pretty_N_go (Npos p) "").
    destruct (pretty_digits (Npos p) "") as (k & -> & Hk). cbn [String.length]. destruct (decide (4 < k)%nat) as [|Hk4]; [lia|exfalso].
    assert (10 ^ Z.of_nat k ≤ 10 ^ 4) by (apply Z.pow_le_mono_r; lia). change (Z.of_N (Npos p)) with (Zpos p) in Hk. lia. }
  unfold IPCMessage.format_4d, IPCMessage.header_length. destruct (4 - _)%nat eqn:H; [exact Hl|lia].
Qed.
Lemma make_message_long s : ¬ IPCMessage.fits (c_str s) → IPCMessage.make_message_by_charstring s = None.
Proof.
  unfold IPCMessage.fits. intros Hs. unfold IPCMessage.make_message_by_charstring, IPCMessage.encode_header.
  pose proof (format_4d_long (IPCMessage.body_length (size (c_str s)))) as Hl.
  unfold IPCMessage.body_length, IPCMessage.max_body_length in *.
  rewrite (proj2 (Nat.leb_gt _ _)); [done|]. apply Hl. destruct (Z.ltb_spec 1048576 (size (c_str s))); lia.
Qed.

(** ** A connection *)

(** What a reader waits for; it gives up when a read fails or a header is refused. *)
Inductive phase : Type := Header | Body (body_length_ : nat) | Left.

(** One direction: the messages of the writer, of which the first is being written;
    the bytes on their way, those that have arrived, and what the reader has been
    given so far. *)
Record channel : Type := Channel {
  write_msgs : list IPCMessage.t;
  wire : string;
  inbox : string;
  reading : phase;
  given : list string;
}.
Definition open_channel : channel := Channel [] "" "" Header [].

Module IPCSession.
(** [async_write] of the first message. *)
Definition do_write (c : channel) : channel :=
  match c.(write_msgs) with
  | [] => c
  | m :: _ => Channel c.(write_msgs) (c.(wire) +:+ IPCMessage.data m) c.(inbox) c.(reading) c.(given)
  end.
Definition deal_with_msg (msg : IPCMessage.t) (c : channel) : channel :=
  let write_in_progress := negb (bool_decide (c.(write_msgs) = [])) in
  let c := Channel (c.(write_msgs) ++ [msg]) c.(wire) c.(inbox) c.(reading) c.(given) in
  if write_in_progress then c else do_write c.
(** Its completion. *)
Definition written (c : channel) : option channel :=
  match c.(write_msgs) with
  | [] => None
  | _ :: rest =>
      let c := Channel rest c.(wire) c.(inbox) c.(reading) c.(given) in
      Some (match rest with [] => c | _ => do_write c end)
  end.
(** The completions of the reads of a header and of a body; the second hands the
    message on. *)
Definition do_read_header (c : channel) : channel :=
  let rest := str_drop IPCMessage.header_length c.(inbox) in
  match IPCMessage.decode_header (str_take IPCMessage.header_length c.(inbox)) with
  | Some n => Channel c.(write_msgs) c.(wire) rest (Body (Z.to_nat n)) c.(given)
  | None => Channel c.(write_msgs) c.(wire) rest Left c.(given)
  end.
Definition do_read_body (n : nat) (c : channel) : channel * string :=
  let msg := str_take n c.(inbox) in
  (Channel c.(write_msgs) c.(wire) (str_drop n c.(inbox)) Header (c.(given) ++ [msg]), msg).
Definition read (c : channel) : option (channel * option string) :=
  match c.(reading) with
  | Header =>
      if (IPCMessage.header_length <=? String.length c.(inbox))%nat then Some (do_read_header c, None) else None
  | Body n =>
      if (n <=? String.length c.(inbox))%nat then (let '(c, msg) := do_read_body n c in Some (c, Some msg)) else None
  | Left => None
  end.
(** [k] more bytes arrive. *)
Definition arrive (k : nat) (c : channel) : option channel :=
  if (1 <=? k)%nat && (k <=? String.length c.(wire))%nat
  then Some (Channel c.(write_msgs) (str_drop k c.(wire)) (c.(inbox) +:+ str_take k c.(wire)) c.(reading) c.(given))
  else None.
(** A read fails. *)
Definition reset (c : channel) : channel := Channel c.(write_msgs) c.(wire) c.(inbox) Left c.(given).
End IPCSession.

(** The two directions of a connection; [asked] is a history of what the tool wrote,
    [down] that the client has died. *)
Record connection : Type := Connection {
  requests : channel;
  responses : channel;
  asked : list string;
  down : bool;
}.
Definition connected : connection := Connection open_channel open_channel [] false.

Section session.
Import IPCSession.
Context {W : Type}.
(** The callback of the server. *)
Variable process : string → M W string.

(** [do_work] of a session's worker; its queue of tasks is empty, since it works on
    a message as soon as it has it. *)
Definition do_work (msg : string) (s : connection) (w : W) : connection * W :=
  match process msg w with
  | (Val ret, w) =>
      match IPCMessage.make_message_by_charstring ret with
      | Some m => (Connection s.(requests) (deal_with_msg m s.(responses)) s.(asked) s.(down), w)
      | None => (Connection s.(requests) s.(responses) s.(asked) true, w)
      end
  | (UB, w) => (Connection s.(requests) s.(responses) s.(asked) true, w)
  end.

Inductive action : Type :=
| Write (str : string)
| Arrive (to_client : bool) (k : nat)
| Read (by_client : bool)
| Written (by_client : bool)
| Reset (by_client : bool).
Definition internal (a : action) : bool := match a with Write _ | Reset _ => false | _ => true end.

Definition set_requests (c : channel) (s : connection) : connection := Connection c s.(responses) s.(asked) s.(down).
Definition set_responses (c : channel) (s : connection) : connection := Connection s.(requests) c s.(asked) s.(down).

(** The client reads requests and writes responses; the tool the other way round. A
    text too long for a message kills the tool, which then writes nothing. *)
Definition act (a : action) (s : connection) (w : W) : option (connection * W) :=
  if s.(down) then None
  else
    match a with
    | Write str =>
        m ← IPCMessage.make_message_by_charstring str;
        Some (Connection (deal_with_msg m s.(requests)) s.(responses) (s.(asked) ++ [m.(IPCMessage.body)]) s.(down), w)
    | Arrive true k => c ← arrive k s.(requests); Some (set_requests c s, w)
    | Arrive false k => c ← arrive k s.(responses); Some (set_responses c s, w)
    | Read true =>
        '(c, msg) ← read s.(requests);
        let s := set_requests c s in
        Some (match msg with Some msg => do_work msg s w | None => (s, w) end)
    | Read false => '(c, _) ← read s.(responses); Some (set_responses c s, w)
    | Written true => c ← written s.(responses); Some (set_responses c s, w)
    | Written false => c ← written s.(requests); Some (set_requests c s, w)
    | Reset true => Some (set_requests (reset s.(requests)) s, w)
    | Reset false => Some (set_responses (reset s.(responses)) s, w)
    end.
Fixpoint run (l : list action) (s : connection) (w : W) : option (connection * W) :=
  match l with
  | [] => Some (s, w)
  | a :: l => '(s, w) ← act a s w; run l s w
  end.
End session.

(** ** What a channel carries *)
Section carries.
Import IPCSession IPCMessage.

Fixpoint bytes (l : list IPCMessage.t) : string := match l with [] => "" | m :: l => data m +:+ bytes l end.
Lemma bytes_snoc l m : bytes (l ++ [m]) = bytes l +:+ data m.
Proof. induction l as [|x l IH]; cbn; [by rewrite append_nil_r|]. by rewrite IH, append_assoc. Qed.
(** All bytes the reader has not seen, in order. *)
Definition stream (c : channel) : string := c.(inbox) +:+ c.(wire) +:+ bytes (tail c.(write_msgs)).

(** Of the texts [ms] some are read and the stream is the rest. *)
Definition carries (ms : list string) (c : channel) : Prop := ∃ todo, ms = c.(given) ++ todo ∧ Forall fits todo ∧
  match c.(reading) with
  | Header => stream c = frames todo
  | Body n => ∃ m rest, todo = m :: rest ∧ String.length m = n ∧ stream c = m +:+ frames rest
  | Left => True
  end.

Lemma carries_open : carries [] open_channel.
Proof. by exists []. Qed.

(** The stream grows at its end. *)
Lemma carries_more ms c c' s : c'.(reading) = c.(reading) → c'.(given) = c.(given) → stream c' = stream c +:+ frame s →
  fits s → carries ms c → carries (ms ++ [s]) c'.
Proof.
  intros Hr Hg Hs Hf (todo & -> & Ht & Hc). exists (todo ++ [s]). rewrite Hr, Hg, Hs.
  split; [by rewrite (assoc_L (++))|]. split; [apply Forall_app; split; [done|by apply Forall_singleton]|].
  destruct (reading c) as [|n|]; [|destruct Hc as (m & rest & -> & Hm & Hc); exists m, (rest ++ [s]); split_and!; [done..|]|done];
    rewrite Hc, frames_app; cbn [frames]; by rewrite append_nil_r, ?append_assoc.
Qed.
Lemma carries_send ms c m s : data m = frame s → fits s → carries ms c → carries (ms ++ [s]) (deal_with_msg m c).
Proof.
  intros Hm Hs. unfold deal_with_msg, do_write, stream. destruct c as [q wr inb rd g]. cbn [write_msgs].
  destruct q as [|x q]; cbn -[String.append].
  - apply carries_more; [done..| |done]. unfold stream. cbn -[String.append].
    by rewrite Hm, !append_nil_r, !append_assoc.
  - apply carries_more; [done..| |done]. unfold stream. cbn -[String.append]. by rewrite bytes_snoc, Hm, !append_assoc.
Qed.

(** Nor do the other steps change it. *)
Lemma carries_same ms c c' : c'.(reading) = c.(reading) → c'.(given) = c.(given) → stream c' = stream c → carries ms c → carries ms c'.
Proof. intros Hr Hg Hs (todo & -> & Ht & Hc). exists todo. by rewrite Hr, Hg, Hs. Qed.
Lemma carries_written ms c c' : written c = Some c' → carries ms c → carries ms c'.
Proof.
  destruct c as [[|m [|m' q]] wr inb rd g]; unfold written, do_write; cbn -[String.append]; [done|intros [= <-]..]; apply carries_same; [done..|].
  unfold stream. cbn -[String.append]. by rewrite <-!append_assoc.
Qed.
Lemma carries_arrive ms k c c' : arrive k c = Some c' → carries ms c → carries ms c'.
Proof.
  unfold arrive. destruct (_ && _); [|done]. intros [= <-]. apply carries_same; [done..|]. unfold stream. cbn -[String.append].
  by rewrite <-(str_take_drop k (wire c)) at 3; rewrite <-!append_assoc.
Qed.
Lemma carries_reset ms c : carries ms c → carries ms (reset c).
Proof. intros (todo & -> & Ht & _). by exists todo. Qed.

Lemma carries_read ms c c' o : read c = Some (c', o) → carries ms c →
  carries ms c' ∧ c'.(given) = c.(given) ++ option_list o ∧ c'.(write_msgs) = c.(write_msgs) ∧ c'.(wire) = c.(wire) ∧
  (o = None → c.(reading) = Header ∧ ∃ n, c'.(reading) = Body n) ∧ (is_Some o → (∃ n, c.(reading) = Body n) ∧ c'.(reading) = Header).
Proof.
  intros Hr (todo & -> & Ht & Hc). unfold read in Hr. destruct (reading c) as [|n|] eqn:Hph; [| |done].
  - destruct (Nat.leb_spec header_length (String.length (inbox c))) as [Hl|]; [|done]. injection Hr as <- <-.
    destruct todo as [|m todo].
    { exfalso. unfold stream in Hc. apply (f_equal String.length) in Hc. rewrite length_append in Hc.
      change (String.length (frames [])) with 0%nat in Hc. unfold header_length in Hl. lia. }
    apply Forall_cons in Ht as [Hm Ht]. unfold stream in Hc. cbn [frames] in Hc. unfold frame in Hc. rewrite <-append_assoc in Hc.
    destruct (header_roundtrip (size m)) as (_ & Hlen & Hdec); [unfold fits in Hm; pose proof (size_nonneg m); lia|].
    destruct (split_stream header_length _ _ _ _ Hc Hlen Hl) as [Htake Hdrop].
    unfold do_read_header. rewrite Htake, Hdec. cbn [given write_msgs wire reading]. rewrite app_nil_r.
    split_and!; [|done..|intros _; by split; [|eexists]|by intros []]. exists (m :: todo). split_and!; [done|by apply Forall_cons|].
    exists m, todo. split_and!; [done|unfold size; by rewrite Nat2Z.id|exact Hdrop].
  - destruct Hc as (m & rest & -> & Hm & Hc). destruct (Nat.leb_spec n (String.length (inbox c))) as [Hl|]; [|done].
    unfold do_read_body in Hr. injection Hr as <- <-. unfold stream in Hc.
    destruct (split_stream n _ _ _ _ Hc Hm Hl) as [Htake Hdrop]. rewrite Htake. cbn [given write_msgs wire reading option_list].
    apply Forall_cons in Ht as [_ Ht]. split_and!; [|done..|by intros _; split; [eexists|]].
    exists rest. split_and!; [cbn [given]; by rewrite <-(assoc_L (++))|done|exact Hdrop].
Qed.

Lemma carries_given ms c : carries ms c → c.(given) `prefix_of` ms.
Proof. intros (todo & -> & _). by exists todo. Qed.

(** When nothing can be written, arrive or be read, everything was read. *)
Lemma carries_rest ms c : carries ms c → written c = None → (∀ k, arrive k c = None) → read c = None → c.(reading) ≠ Left →
  c.(given) = ms.
Proof.
  intros (todo & -> & Ht & Hc) Hw Ha Hr Hl.
  assert (Hq : write_msgs c = []) by (unfold written in Hw; by destruct (write_msgs c)).
  assert (Hwire : wire c = "").
  { specialize (Ha 1%nat). unfold arrive in Ha. destruct (wire c) as [|x s]; [done|]. done. }
  unfold stream in Hc. rewrite Hq, Hwire in Hc. cbn [bytes tail] in Hc. rewrite !append_nil_r in Hc. unfold read in Hr.
  destruct (reading c) as [|n|]; [| |done].
  - destruct todo as [|m todo]; [by rewrite app_nil_r|exfalso]. rewrite Hc in Hr. cbn [frames] in Hr. unfold frame in Hr.
    rewrite !length_append in Hr. apply Forall_cons in Ht as [Hm _].
    destruct (header_roundtrip (size m)) as (_ & -> & _) in Hr; [unfold fits in Hm; pose proof (size_nonneg m); lia|]. done.
  - destruct Hc as (m & rest & -> & Hm & Hc). exfalso. rewrite Hc, length_append, Hm in Hr.
    by rewrite (proj2 (Nat.leb_le _ _)) in Hr by lia.
Qed.
End carries.

Lemma c_str_c_str s : c_str (c_str s) = c_str s.
Proof. induction s as [|c s IH]; [done|]. cbn. destruct (Ascii.eqb c zero) eqn:Hc; [done|]. cbn. by rewrite Hc, IH. Qed.
Lemma make_message_some str m : IPCMessage.make_message_by_charstring str = Some m →
  m.(IPCMessage.body) = c_str str ∧ IPCMessage.fits (c_str str) ∧ IPCMessage.data m = IPCMessage.frame (c_str str).
Proof.
  intros Hm. destruct (decide (size (c_str str) ≤ 9999)) as [Hf|Hf]; [|by rewrite make_message_long in Hm].
  destruct (IPCMessage.make_message_fits (c_str str) (c_str_c_str str) Hf) as (m' & Hm' & Hd & Hb).
  unfold IPCMessage.make_message_by_charstring in *. rewrite c_str_c_str in Hm'. rewrite Hm in Hm'. by injection Hm' as <-.
Qed.

(** ** Requests are served one after the other *)
Section serve.
Import IPCSession.
#[local] Arguments act : simpl never.
Context {W : Type}.
Variable process : string → M W string.
Implicit Types (s : connection) (w : W) (c : channel).

(** The reply to one request, if there is one and it fits. *)
Definition reply (m : string) (w : W) : option (string * W) :=
  match process m w with
  | (Val ret, w) => if bool_decide (IPCMessage.fits (c_str ret)) then Some (c_str ret, w) else None
  | (UB, _) => None
  end.
#[local] Arguments reply : simpl never.
Fixpoint serve (ms : list string) (w : W) : option (list string * W) :=
  match ms with
  | [] => Some ([], w)
  | m :: ms => '(r, w) ← reply m w; '(rs, w) ← serve ms w; Some (r :: rs, w)
  end.
Lemma serve_snoc ms m w : serve (ms ++ [m]) w = '(rs, w) ← serve ms w; '(r, w) ← reply m w; Some (rs ++ [r], w).
Proof.
  revert w. induction ms as [|x ms IH]; intros w; cbn [serve app].
  { unfold mbind, option_bind. by destruct (reply m w) as [[r w1]|]. }
  destruct (reply x w) as [[r w1]|]; [|done]. unfold mbind, option_bind in *. rewrite IH. destruct (serve ms w1) as [[rs w2]|]; [|done].
  by destruct (reply m w2) as [[r' w3]|].
Qed.

(** What is left to do: bytes on their way, messages to be written, reads. *)
Definition left_of c : Z :=
  size c.(wire) + size (bytes (tail c.(write_msgs))) + size_of c.(write_msgs) - match c.(reading) with Body _ => 1 | _ => 0 end.
Definition effort s : Z :=
  left_of s.(requests) + left_of s.(responses) + 10008 * (size_of s.(asked) - size_of s.(requests).(given))
  + 2 * (size_of s.(requests).(given) - size_of s.(responses).(given)).

Definition serving w0 s w : Prop := s.(down) = false ∧ carries s.(asked) s.(requests) ∧
  ∃ replies, serve s.(requests).(given) w0 = Some (replies, w) ∧ carries replies s.(responses).

Lemma serve_length ms w rs w' : serve ms w = Some (rs, w') → length rs = length ms.
Proof.
  revert w rs. induction ms as [|m ms IH]; intros w rs; cbn [serve]; [by intros [= <- _]|].
  destruct (reply m w) as [[r w1]|]; [|done]. unfold mbind, option_bind. destruct (serve ms w1) as [[rs' w2]|] eqn:Hs; [|done].
  intros [= <- <-]. cbn. f_equal. by apply (IH w1).
Qed.
Lemma left_of_carries ms c : carries ms c → size_of c.(given) - size_of ms ≤ left_of c.
Proof.
  intros (todo & -> & _ & Hc). unfold left_of, size_of. rewrite length_app.
  pose proof (size_nonneg (wire c)). pose proof (size_nonneg (bytes (tail (write_msgs c)))).
  destruct (reading c); [lia| |lia]. destruct Hc as (? & ? & -> & _). cbn [length]. lia.
Qed.
Lemma effort_nonneg s replies : carries s.(asked) s.(requests) → carries replies s.(responses) →
  size_of replies ≤ size_of s.(requests).(given) → 0 ≤ effort s.
Proof.
  intros Hq Hp Hl. pose proof (left_of_carries _ _ Hq). pose proof (left_of_carries _ _ Hp).
  apply carries_given, prefix_length in Hq, Hp. unfold effort, size_of in *. lia.
Qed.

(** The bytes a message adds. *)
Lemma left_of_send m c : left_of (deal_with_msg m c) = left_of c + size (IPCMessage.data m) + 1.
Proof.
  unfold left_of, deal_with_msg, do_write, size_of. destruct c as [q wr inb rd g]. cbn [write_msgs].
  destruct q as [|x q]; cbn -[String.append Z.of_nat]; rewrite ?bytes_snoc, ?size_app, ?length_app; cbn [length]; unfold size; cbn [String.length]; lia.
Qed.
Lemma send_keeps m c : (deal_with_msg m c).(given) = c.(given).
Proof. unfold deal_with_msg, do_write. by destruct (bool_decide _); [destruct (_ ++ _)|]. Qed.
Lemma written_keeps c c' : written c = Some c' → c'.(given) = c.(given) ∧ left_of c' < left_of c.
Proof.
  unfold written, left_of, do_write, size_of. destruct c as [[|m [|m' q]] wr inb rd g]; [done|..]; intros [= <-]; (split; [done|]);
    cbn -[String.append Z.of_nat]; rewrite ?size_app; unfold size; cbn [String.length]; lia.
Qed.
Lemma arrive_keeps k c c' : arrive k c = Some c' → c'.(given) = c.(given) ∧ left_of c' < left_of c.
Proof.
  unfold arrive. destruct (_ && _) eqn:Hk; [|done]. intros [= <-]. split; [done|]. apply andb_prop in Hk as [H1 H2].
  apply Nat.leb_le in H1, H2. unfold left_of, size. cbn [wire write_msgs reading]. rewrite length_str_drop. lia.
Qed.
Lemma read_keeps ms c c' o : read c = Some (c', o) → carries ms c →
  left_of c' = left_of c + (if o then 1 else -1) ∧ size_of c'.(given) = size_of c.(given) + (if o then 1 else 0).
Proof.
  intros Hr Hc. destruct (carries_read _ _ _ _ Hr Hc) as (_ & Hg & Hq & Hw & Hn & Hs). unfold left_of, size_of. rewrite Hg, Hq, Hw, length_app.
  destruct o as [m|].
  - destruct (Hs ltac:(by eexists)) as ((n & ->) & ->). cbn. lia.
  - destruct (Hn eq_refl) as (-> & n & ->). cbn. lia.
Qed.

(** The client has worked on a request, or has died of it. *)
Definition died w0 s s' w' : Prop := s'.(down) = true ∧ s'.(responses) = s.(responses) ∧ 0 ≤ effort s' ∧
  ∃ m replies w1, s.(requests).(given) ++ [m] `prefix_of` s.(asked) ∧ serve s.(requests).(given) w0 = Some (replies, w1) ∧
    reply m w1 = None ∧ w' = (process m w1).2.
Definition moved w0 s s' w' : Prop := (serving w0 s' w' ∨ died w0 s s' w') ∧ s'.(asked) = s.(asked) ∧ effort s' < effort s.

Lemma frame_size r : IPCMessage.fits r → size (IPCMessage.frame r) ≤ 10003.
Proof.
  unfold IPCMessage.fits. intros Hr. pose proof (size_nonneg r). unfold IPCMessage.frame. rewrite size_app.
  destruct (IPCMessage.header_roundtrip (size r)) as (_ & Hl & _); [lia|]. unfold size at 1. rewrite Hl. lia.
Qed.

Lemma read_moved w0 s w c o s' w' : serving w0 s w → read s.(requests) = Some (c, o) →
  match o with Some m => do_work process m (set_requests c s) w | None => (set_requests c s, w) end = (s', w') → moved w0 s s' w'.
Proof.
  intros (Hd & Hq & replies & Hs & Hp) Hr Hdo. destruct (carries_read _ _ _ _ Hr Hq) as (Hc & Hg & _).
  destruct (read_keeps _ _ _ _ Hr Hq) as [Hl Hsz]. destruct o as [m|]; cbn in Hg; [|injection Hdo as <- <-].
  2: { split_and!; [|done|unfold effort; cbn; lia]. left. split_and!; [done..|]. exists replies. cbn. by rewrite Hg, app_nil_r. }
  assert (Hdie : reply m w = None → died w0 s (Connection c s.(responses) s.(asked) true) (process m w).2).
  { intros Hn. split_and!; [done..| |].
    { apply (effort_nonneg _ replies); [done|done|]. cbn. rewrite Hsz. apply serve_length in Hs. unfold size_of. lia. }
    exists m, replies, w. rewrite <-Hg. split; [by apply carries_given|done]. }
  unfold do_work in Hdo. unfold reply in Hdie. destruct (process m w) as [[ret|] w1] eqn:Hpr; cbn in Hdo.
  2: { injection Hdo as <- <-. split_and!; [right; by apply Hdie|done|]. unfold effort; cbn. lia. }
  destruct (IPCMessage.make_message_by_charstring ret) as [msg|] eqn:Hm; injection Hdo as <- <-.
  - destruct (make_message_some _ _ Hm) as (_ & Hf & Hdata). split_and!; [|done|].
    + left. split_and!; [done..|]. exists (replies ++ [c_str ret]). cbn. rewrite Hg, serve_snoc, Hs.
      unfold mbind, option_bind, reply. rewrite Hpr, bool_decide_true by done. split; [done|]. by apply carries_send.
    + unfold effort. cbn. rewrite left_of_send, send_keeps, Hdata. pose proof (frame_size _ Hf). lia.
  - split_and!; [right; apply Hdie|done|unfold effort; cbn; lia]. case_bool_decide as Hf; [|done].
    destruct (IPCMessage.make_message_fits (c_str ret) (c_str_c_str ret) Hf) as (m' & Hm' & _).
    unfold IPCMessage.make_message_by_charstring in *. rewrite c_str_c_str in Hm'. congruence.
Qed.

Lemma act_moved w0 a s w s' w' : serving w0 s w → act process a s w = Some (s', w') →
  if internal a then moved w0 s s' w' else serving w0 s' w' ∧ s.(asked) `prefix_of` s'.(asked).
Proof.
  intros Hsv Ha. pose proof Hsv as (Hd & Hq & replies & Hs & Hp). unfold act in Ha. rewrite Hd in Ha.
  assert (Hreq : ∀ c, carries s.(asked) c → c.(given) = s.(requests).(given) → serving w0 (set_requests c s) w).
  { intros c Hc Hg. split_and!; [done..|]. exists replies. cbn. by rewrite Hg. }
  assert (Hresp : ∀ c, carries replies c → serving w0 (set_responses c s) w) by (intros c Hc; split_and!; [done..|]; by exists replies).
  destruct a as [str|[] k|[]|[]|[]]; cbn [internal].
  - destruct (IPCMessage.make_message_by_charstring str) as [m|] eqn:Hm; [|done]. injection Ha as <- <-.
    destruct (make_message_some _ _ Hm) as (-> & Hf & Hdata). split; [|by eexists]. split_and!; [done|by apply carries_send|].
    exists replies. cbn. by rewrite send_keeps.
  - destruct (arrive k _) as [c|] eqn:Hk; [|done]. injection Ha as <- <-. destruct (arrive_keeps _ _ _ Hk) as [Hg Hl].
    split_and!; [left; apply Hreq; [by eapply carries_arrive|done]|done|unfold effort; cbn; rewrite Hg; lia].
  - destruct (arrive k _) as [c|] eqn:Hk; [|done]. injection Ha as <- <-. destruct (arrive_keeps _ _ _ Hk) as [Hg Hl].
    split_and!; [left; apply Hresp; by eapply carries_arrive|done|unfold effort; cbn; rewrite Hg; lia].
  - destruct (read _) as [[c o]|] eqn:Hr; [|done]. cbn in Ha. injection Ha as Ha.
    by apply (read_moved w0 s w c o).
  - destruct (read _) as [[c o]|] eqn:Hr; [|done]. injection Ha as <- <-. destruct (carries_read _ _ _ _ Hr Hp) as (Hc & _).
    destruct (read_keeps _ _ _ _ Hr Hp) as [Hl Hsz]. split_and!; [left; by apply Hresp|done|]. unfold effort. cbn. destruct o; lia.
  - destruct (written _) as [c|] eqn:Hk; [|done]. injection Ha as <- <-. destruct (written_keeps _ _ Hk) as [Hg Hl].
    split_and!; [left; apply Hresp; by eapply carries_written|done|unfold effort; cbn; rewrite Hg; lia].
  - destruct (written _) as [c|] eqn:Hk; [|done]. injection Ha as <- <-. destruct (written_keeps _ _ Hk) as [Hg Hl].
    split_and!; [left; apply Hreq; [by eapply carries_written|done]|done|unfold effort; cbn; rewrite Hg; lia].
  - injection Ha as <- <-. split; [|done]. apply Hreq; [by apply carries_reset|done].
  - injection Ha as <- <-. split; [|done]. apply Hresp. by apply carries_reset.
Qed.

Lemma run_down l s w s' w' : s.(down) = true → run process l s w = Some (s', w') → l = [] ∧ s' = s ∧ w' = w.
Proof. destruct l as [|a l]; cbn [run]; [by intros _ [= <- <-]|]. intros Hd. unfold act. by rewrite Hd. Qed.
Lemma serving_connected w : serving w connected w.
Proof. split_and!; [done|apply carries_open|]. exists []. split; [done|apply carries_open]. Qed.

(** The connection on the way: it serves, or the client has died of a request. *)
Definition on_the_way w0 s w : Prop := serving w0 s w ∨ ∃ s1, s.(down) = true ∧ s.(asked) = s1.(asked) ∧
  s.(responses) = s1.(responses) ∧ (∃ w1, serving w0 s1 w1) ∧ died w0 s1 s w.
Lemma run_on_the_way w0 l s w s' w' : serving w0 s w → run process l s w = Some (s', w') → on_the_way w0 s' w'.
Proof.
  revert s w. induction l as [|a l IH]; intros s w Hs Hr; cbn in Hr; [by injection Hr as <- <-; left|].
  destruct (act process a s w) as [[s1 w1]|] eqn:Ha; [|done]. cbn in Hr. pose proof (act_moved _ _ _ _ _ _ Hs Ha) as Hm.
  destruct (internal a); [|by apply (IH s1 w1); [apply Hm|]]. destruct Hm as ([H1|Hdied] & Hask & _); [by apply (IH s1 w1)|].
  destruct (run_down _ _ _ _ _ (proj1 Hdied) Hr) as (-> & -> & ->). right. exists s. split_and!; [apply Hdied|done|apply Hdied|by exists w|done].
Qed.

(** C12: the client serves a connection in order, however the bytes are cut and the two
    ends take turns: what the tool has read is the beginning of the replies to its
    texts, carried out one after the other from the start; if the client has died, then
    of the next text, whose command has no defined result or whose reply is longer than
    the 9999 bytes a header can announce. *)
Theorem requests_served_in_order l w0 s w : run process l connected w0 = Some (s, w) →
  ∃ served replies w1, served `prefix_of` s.(asked) ∧ serve served w0 = Some (replies, w1) ∧
    s.(responses).(given) `prefix_of` replies ∧
    if s.(down) then ∃ m, served ++ [m] `prefix_of` s.(asked) ∧ w = (process m w1).2 ∧
      ((process m w1).1 = UB ∨ ∃ ret, (process m w1).1 = Val ret ∧ ¬ IPCMessage.fits (c_str ret))
    else w1 = w.
Proof.
  intros Hr. destruct (run_on_the_way w0 _ _ _ _ _ (serving_connected w0) Hr)
    as [(Hd & Hq & replies & Hs & Hp)|(s1 & Hd & Hask & Hresp & (w1 & _ & Hq & replies & Hs & Hp) & _ & _ & _ & m & ? & w2 & Hm & Hs' & Hn & Hw)].
  - exists (given (requests s)), replies, w. rewrite Hd. split_and!; [by apply carries_given|done|by apply carries_given|done].
  - exists (given (requests s1)), replies, w1. rewrite Hd, Hask, Hresp.
    split_and!; [by apply carries_given|done|by apply carries_given|]. exists m. split; [done|].
    rewrite Hs in Hs'. injection Hs' as <- <-. split; [done|]. unfold reply in Hn. destruct (process m w1) as [[ret|] w2]; [|by left].
    right. exists ret. split; [done|]. by case_bool_decide.
Qed.

(** No step is left, and neither end has given up. *)
Definition at_rest s w : Prop := (∀ a, internal a = true → act process a s w = None) ∧ s.(down) = false ∧
  s.(requests).(reading) ≠ Left ∧ s.(responses).(reading) ≠ Left.
Lemma serving_rests w0 l s w s' w' : serving w0 s w → forallb internal l = true → run process l s w = Some (s', w') →
  Z.of_nat (length l) ≤ effort s ∧ s'.(asked) = s.(asked) ∧
  (at_rest s' w' → serve s.(asked) w0 = Some (s'.(responses).(given), w')).
Proof.
  intros Hs Hi Hr. assert (Hpos : ∀ s w, serving w0 s w → 0 ≤ effort s).
  { clear. intros s w (_ & Hq & replies & Hs & Hp). apply (effort_nonneg _ replies); [done..|].
    apply serve_length in Hs. unfold size_of. lia. }
  revert s w Hs Hr. induction l as [|a l IH]; intros s w Hs Hr; cbn in Hi, Hr.
  { injection Hr as <- <-. split_and!; [by eapply Hpos|done|]. intros (Hstuck & _ & Hl1 & Hl2).
    destruct Hs as (Hd & Hq & replies & Hs & Hp). unfold act in Hstuck. rewrite Hd in Hstuck.
    assert (H1 : given (requests s) = asked s).
    { apply carries_rest; [done| | | |done].
      - specialize (Hstuck (Written false) eq_refl). by destruct (written (requests s)).
      - intros k. specialize (Hstuck (Arrive true k) eq_refl). cbn in Hstuck. by destruct (arrive k (requests s)).
      - specialize (Hstuck (Read true) eq_refl). cbn in Hstuck. destruct (read (requests s)) as [[c [m|]]|]; [done..|done]. }
    assert (H2 : given (responses s) = replies); [|by rewrite H2, <-H1].
    apply carries_rest; [done| | | |done].
    - specialize (Hstuck (Written true) eq_refl). by destruct (written (responses s)).
    - intros k. specialize (Hstuck (Arrive false k) eq_refl). cbn in Hstuck. by destruct (arrive k (responses s)).
    - specialize (Hstuck (Read false) eq_refl). cbn in Hstuck. by destruct (read (responses s)) as [[c o]|]. }
  apply andb_prop in Hi as [Hi Hil]. destruct (act process a s w) as [[s1 w1]|] eqn:Ha; [|done]. cbn in Hr.
  pose proof (act_moved _ _ _ _ _ _ Hs Ha) as Hm. rewrite Hi in Hm. destruct Hm as ([H1|Hdied] & Hask & He).
  { destruct (IH Hil s1 w1 H1 Hr) as (Hlen & Hask' & Hall). split_and!; [cbn; lia|congruence|]. by rewrite <-Hask. }
  destruct (run_down _ _ _ _ _ (proj1 Hdied) Hr) as (-> & -> & ->). destruct Hdied as (Hd' & _ & Hp & _).
  split_and!; [cbn; lia|done|]. intros (_ & Hd & _). congruence.
Qed.

(** C13: a connection comes to rest: unless the tool writes more or the connection
    breaks, the steps that are left are bounded by the bytes and messages under way;
    and when no step is left the tool has the reply to every text it has written. *)
Theorem every_request_answered l w0 s w l' s' w' : run process l connected w0 = Some (s, w) → s.(down) = false →
  forallb internal l' = true → run process l' s w = Some (s', w') →
  Z.of_nat (length l') ≤ effort s ∧ s'.(asked) = s.(asked) ∧
  (at_rest s' w' → serve s.(asked) w0 = Some (s'.(responses).(given), w')).
Proof.
  intros Hr Hd Hi Hr'. destruct (run_on_the_way w0 _ _ _ _ _ (serving_connected w0) Hr) as [Hs|(? & ? & _)]; [|congruence].
  exact (serving_rests w0 l' s w s' w' Hs Hi Hr').
Qed.
End serve.

(** ** An example: an outside that counts, and answers each text with itself *)
Module IpcRun.
Definition echo (m : string) (w : nat) : outcome string * nat := (Val (m +:+ "!"), S w).
Definition asking : list action := [Write "hi"; Arrive true 2; Write "you"].
Definition answering : list action :=
  [Arrive true 4; Read true; Read true; Written false; Arrive true 7; Written false; Read true; Read true; Arrive false 3;
   Written true; Arrive false 12; Read false; Read false; Read false; Read false; Written true].
Definition after (l : list action) : connection * nat := default (connected, O) (run echo l connected O).
End IpcRun.

Lemma requests_served_in_order_witness : ∃ served replies w1, served `prefix_of` ["hi"; "you"] ∧
  serve IpcRun.echo served O = Some (replies, w1) ∧ ["hi!"] `prefix_of` replies ∧ w1 = 2%nat.
Proof.
  destruct (requests_served_in_order IpcRun.echo (IpcRun.asking ++ take 13 IpcRun.answering) O
    (IpcRun.after (IpcRun.asking ++ take 13 IpcRun.answering)).1 (IpcRun.after (IpcRun.asking ++ take 13 IpcRun.answering)).2)
    as (served & replies & w1 & H1 & H2 & H3 & H4); [vm_compute; reflexivity|].
  exists served, replies, w1. split_and!; [exact H1|exact H2|exact H3|exact H4].
Defined.

Lemma every_request_answered_witness :
  serve IpcRun.echo ["hi"; "you"] O = Some (["hi!"; "you!"], 2%nat) ∧
  ∃ s w, run IpcRun.echo IpcRun.asking connected O = Some (s, w) ∧ Z.of_nat (length IpcRun.answering) ≤ effort s.
Proof.
  destruct (every_request_answered IpcRun.echo IpcRun.asking O (IpcRun.after IpcRun.asking).1 (IpcRun.after IpcRun.asking).2 IpcRun.answering
    (IpcRun.after (IpcRun.asking ++ IpcRun.answering)).1 (IpcRun.after (IpcRun.asking ++ IpcRun.answering)).2) as (H1 & _ & H2);
    [vm_compute; reflexivity..|].
  split; [|exists (IpcRun.after IpcRun.asking).1, (IpcRun.after IpcRun.asking).2; split; [vm_compute; reflexivity|exact H1]].
  apply H2. split_and!; [|vm_compute; reflexivity|vm_compute; discriminate..].
  intros [str|[] [|k]|[]|[]|[]] Ha; first [discriminate Ha|vm_compute; reflexivity].
Defined.
