(* ===== verification/Tools.v ===== *)
(** * The command line tools (cmdline/CmdLineProxy.cc, and what their programs share)

    A tool reads its arguments with boost::program_options, refuses some, sends one
    [IPCreq] to the client and prints the answer. [tool] is what one program of
    cmdline/ says, [main] and [finish] are its run before and after the answer; the
    programs themselves are in ToolList.v. Lines for the terminal are those of both
    output streams, in order. *)
From S2P Require Import Prelude CxxString Json Records IpcMod.

(** ** Options *)
Inductive value_type : Type := Flag | OneString | ManyStrings | Int64 | Int32.
Definition option_description : Type := string * value_type * string.
(** A group of options under a caption. *)
Definition options_description : Type := string * list option_description.

(** The options found, with values of their types, by their long names. *)
Record variables : Type := Variables {
  flags : gset string;
  strings : gmap string string;
  string_lists : gmap string (list string);
  int64s : gmap string Z;
  ints : gmap string Z;
}.

(** What argv can hold, and a [po::value<T>] of it. *)
Definition plain (s : string) : Prop := c_str s = s.
Definition variables_wf (v : variables) : Prop :=
  map_Forall (λ _, plain) v.(strings) ∧ map_Forall (λ _, Forall plain) v.(string_lists) ∧
  map_Forall (λ _ z, in_i64 z = true) v.(int64s) ∧ map_Forall (λ _ z, in_i32 z = true) v.(ints).

(** boost::program_options: [store] of the parsed arguments, or the text of its
    exception; the lines of a description. *)
Class ProgramOptions : Type := {
  po_store : list options_description → list string → variables + string;
  po_print : list options_description → list string;
}.
Class ProgramOptionsLaws `{ProgramOptions} : Prop := {
  po_store_wf opts args v : Forall plain args → po_store opts args = inl v → variables_wf v;
}.

(** The values of local variables: a missing option leaves the first one. *)
Definition text (v : variables) (k : string) : string := default "" (v.(strings) !! k).
Definition text_or (d : string) (v : variables) (k : string) : string := default d (v.(strings) !! k).
Definition texts (v : variables) (k : string) : list string := default [] (v.(string_lists) !! k).
Definition int64_or (d : Z) (v : variables) (k : string) : Z := default d (v.(int64s) !! k).
Definition int_or (d : Z) (v : variables) (k : string) : Z := default d (v.(ints) !! k).

(** ** What becomes of a program *)
Inductive ending : Type :=
| Exited (code : Z) (lines : list string)
| Crashed
| Waiting (lines : list string).

Module CmdLineProxy.
Section proxy.
Context `{ProgramOptions}.

Definition is_validate (dest : string) : bool :=
  let invalidate : list ascii := ["!"; "#"; "@"; "$"; "%"; "^"; "&"; "*"; "~"; "`"; "/"; "|"]%char in
  forallb (λ i, bool_decide (i ∉ invalidate)) (String.list_ascii_of_string dest).

Definition cmdline_print (str : string) : string := "命令行消息: " +:+ str.

Definition set_global_description : list options_description := [
  ("一般选项", [("version,v", Flag, "输出可执行程序版本信息"); ("help,h", Flag, "输出帮助信息")]);
  ("高级选项", [("input-file,I", ManyStrings, "输入文件"); ("output-file,O", ManyStrings, "输出文件")])].
Definition cmdline_options (command : options_description) : list options_description :=
  set_global_description ++ [command].

(** [start]: the description of the command, and its function on what is parsed. *)
Definition do_global_decode (command : options_description) (argv : list string) : variables + ending :=
  match po_store (cmdline_options command) (tail argv) with
  | inr what =>
      inr (Exited (-1) ([cmdline_print what; cmdline_print "参数中出现不支持项目！请仔细阅读使用说明！"] ++ po_print (cmdline_options command)))
  | inl v =>
      if bool_decide ("help" ∈ v.(flags)) then inr (Exited 0 (po_print (cmdline_options command)))
      else if bool_decide ("version" ∈ v.(flags)) then inr (Exited 0 ["主程序版本: 0.0.1"])
      else inl v
  end.
End proxy.
End CmdLineProxy.

(** ** The request *)

(** Assignments to members of an [IPCreq], by name. *)
Inductive member_value : Type := Str (s : string) | Strs (l : list string) | I64 (z : Z) | I32 (z : Z).
Definition assignments : Type := list (string * member_value).
Definition assigned (l : assignments) (k : string) : option member_value := snd <$> head (filter (λ p, p.1 = k) l).
Definition str_of (l : assignments) (k d : string) : string := match assigned l k with Some (Str s) => s | _ => d end.
Definition strs_of (l : assignments) (k : string) (d : list string) : list string := match assigned l k with Some (Strs s) => s | _ => d end.
Definition i64_of (l : assignments) (k : string) (d : Z) : Z := match assigned l k with Some (I64 z) => z | _ => d end.
Definition i32_of (l : assignments) (k : string) (d : Z) : Z := match assigned l k with Some (I32 z) => z | _ => d end.

Section request.
Context `{Indet}.
Import IPCreq.
Definition ipcreq (l : assignments) : IPCreq.t := let x := IPCreq.init in {|
  cmdname := str_of l "cmdname" x.(cmdname); ip := str_of l "ip" x.(ip); port := i32_of l "port" x.(port);
  zonename := str_of l "zonename" x.(zonename); newzonename := str_of l "newzonename" x.(newzonename);
  ownName := str_of l "ownName" x.(ownName); memName := strs_of l "memName" x.(memName);
  newspacename := str_of l "newspacename" x.(newspacename); spacename := str_of l "spacename" x.(spacename);
  spacenames := strs_of l "spacenames" x.(spacenames); newspacesize := i64_of l "newspacesize" x.(newspacesize);
  spacesize := i64_of l "spacesize" x.(spacesize); spaceurl := str_of l "spaceurl" x.(spaceurl);
  accountName := str_of l "accountName" x.(accountName); Password := str_of l "Password" x.(Password);
  gvdsID := str_of l "gvdsID" x.(gvdsID); email := str_of l "email" x.(email); phone := str_of l "phone" x.(phone);
  address := str_of l "address" x.(address); department := str_of l "department" x.(department);
  changeauth := str_of l "changeauth" x.(changeauth); centerID := str_of l "centerID" x.(centerID);
  centerIP := str_of l "centerIP" x.(centerIP); centerPort := str_of l "centerPort" x.(centerPort);
  centerName := str_of l "centerName" x.(centerName); sug := str_of l "sug" x.(sug); applyid := str_of l "applyid" x.(applyid);
  storage_src_id := str_of l "storage_src_id" x.(storage_src_id);
  storage_src_name := str_of l "storage_src_name" x.(storage_src_name);
  host_center_id := str_of l "host_center_id" x.(host_center_id);
  host_center_name := str_of l "host_center_name" x.(host_center_name);
  total_capacity := i64_of l "total_capacity" x.(total_capacity);
  assign_capacity := i64_of l "assign_capacity" x.(assign_capacity);
  mgs_address := str_of l "mgs_address" x.(mgs_address); state := i32_of l "state" x.(state) |}.

(** [Space spaceurl] with the members the tools set. *)
Definition space_at (hostCenterName storageSrcName spacePath : string) : Space.t :=
  let x := Space.init in
  Space.mk x.(Space.spaceID) x.(Space.spaceName) x.(Space.spaceSize) x.(Space.hostCenterID) x.(Space.storageSrcID)
    spacePath hostCenterName storageSrcName x.(Space.status) x.(Space.replica_spaces).
End request.

(** ** A program *)
Record tool : Type := Tool {
  cmdname : string;
  command : options_description;
  (** the check of argv before the options are parsed *)
  precheck : list string → option ending;
  (** the checks after, given the lines of [print_options] *)
  refuse : list string → Z → variables → option ending;
  (** the members set, after [cmdname] *)
  members : variables → assignments;
  (** the lines of the callback; [None]: an exception or worse in it *)
  shown : variables → string → option (list string);
  (** lines printed between the two *)
  preamble : variables → list string;
  (** what is done when no answer comes, after how many seconds *)
  patience : option (Z * string * Z);
}.

Definition executing : string := "正在执行命令...".

Section run.
Context `{ProgramOptions, Indet}.

(** Up to the request. *)
Definition main (t : tool) (argv : list string) : (variables * IPCreq.t) + ending :=
  match t.(precheck) argv with
  | Some e => inr e
  | None =>
      match CmdLineProxy.do_global_decode t.(command) argv with
      | inr e => inr e
      | inl v =>
          match t.(refuse) (po_print (CmdLineProxy.cmdline_options t.(command))) (size_of argv) v with
          | Some e => inr e
          | None => inl (v, ipcreq (("cmdname", Str t.(cmdname)) :: t.(members) v))
          end
      end
  end.

(** From then on, given the answer if one comes in time. *)
Definition finish (t : tool) (v : variables) (answer : option string) : ending :=
  let before := executing :: t.(preamble) v in
  match answer with
  | Some msg =>
      match t.(shown) v msg with
      | Some lines => Exited 0 (before ++ lines)
      | None => Crashed
      end
  | None =>
      match t.(patience) with
      | Some (_, line, code) => Exited code (before ++ [line])
      | None => Waiting before
      end
  end.
End run.

(** *** Parts of programs *)
Definition unchecked : list string → option ending := λ _, None.
Definition no_preamble : variables → list string := λ _, [].
Definition accept : list string → Z → variables → option ending := λ _ _ _, None.
Definition refused (why : string) (usage : list string) : ending := Exited (-1) (why :: usage).
Definition needs_arguments (usage : list string) (argc : Z) (v : variables) : option ending :=
  if argc <=? 1 then Some (refused "请输入命令参数！" usage) else None.
Definition also (first second : list string → Z → variables → option ending) (usage : list string) (argc : Z) (v : variables) : option ending :=
  match first usage argc v with Some e => Some e | None => second usage argc v end.
Definition validate (names : list string) (usage : list string) (argc : Z) (v : variables) : option ending :=
  if forallb (λ k, CmdLineProxy.is_validate (text v k)) names then None else Some (refused "包含非法字符" usage).
Definition for_20s : option (Z * string * Z) := Some (20, "命令行执行20s，超时；请确认当前fuse client进程正在运行！", -1).
Definition for_3s : option (Z * string * Z) := Some (3, "操作失败，请求超时！", 0).
Definition print_result (v : variables) (ipcresult : string) : option (list string) := Some [ipcresult].
Definition first_char_is (c : ascii) (s : string) : bool := match s with String a _ => Ascii.eqb a c | "" => false end.
