(* ===== verification/ToolList.v ===== *)
(** * The programs of cmdline/

    One [tool] per file. Options the user leaves out keep the value the variable was
    declared with; [spacesize] and the like have none ([junk_int64]). *)
From S2P Require Import Prelude CxxString Json Records IpcMod ClientZone Tools.

Definition print (line : string) (v : variables) (ipcresult : string) : option (list string) := Some [line].
(** A chain of comparisons of the answer. *)
Definition worded (pairs : list (string * string)) (other : variables → string → option (list string)) (v : variables) (ipcresult : string) : option (list string) :=
  match head (filter (λ p : string * string, p.1 = ipcresult) pairs) with
  | Some (_, line) => Some [line]
  | None => other v ipcresult
  end.

(** ** Checks *)
Definition valid_argv (code : Z) (argv : list string) : option ending :=
  if forallb CmdLineProxy.is_validate (tail argv) then None else Some (Exited code ["输入非法字符"]).
Definition needs_no_arguments (usage : list string) (argc : Z) (v : variables) : option ending :=
  if 1 <? argc then Some (refused "参数错误" usage) else None.
Definition needs_four_arguments (usage : list string) (argc : Z) (v : variables) : option ending :=
  if negb (argc =? 5) then Some (refused "命令参数错误！" usage) else None.
Definition needs_user (usage : list string) (argc : Z) (v : variables) : option ending :=
  let username := text v "user" in
  if String.eqb username "--pass" || String.eqb username "-p" || String.eqb username "" then Some (refused "请输入正确参数！" usage) else None.
Definition needs_two_spaces (usage : list string) (argc : Z) (v : variables) : option ending :=
  match v.(strings) !! "replicated" with
  | None => Some (refused "ERROR: Need replicated space ID!" usage)
  | Some _ =>
      match v.(strings) !! "single" with
      | None => Some (refused "ERROR: Need single space ID!" usage)
      | Some _ => if argc <=? 1 then Some (refused "Please input parameters！" usage) else None
      end
  end.
Definition needs_everything (usage : list string) (argc : Z) (v : variables) : option ending :=
  let unset k := first_char_is "#" (text_or "#default" v k) in
  if negb (negb (unset "ri") && negb (unset "rn") && (negb (unset "ci") || negb (unset "cn")) &&
      negb (int64_or (-1) v "tc" =? -1) && negb (int64_or (-1) v "ac" =? -1) && negb (unset "mgs") && negb (int_or (-1) v "st" =? -1))
  then Some (Exited (-1) (executing :: "请完整的命令参数！" :: usage)) else None.
Definition needs_operation (usage : list string) (argc : Z) (v : variables) : option ending :=
  let unset k := first_char_is "#" (text_or "#default" v k) in
  if argc <=? 1 then Some (refused (CmdLineProxy.cmdline_print "请输入命令参数！") usage)
  else if argc <? 7 then Some (refused (CmdLineProxy.cmdline_print "请输入足够的参数，至少包含一个种操作！") usage)
  else if (unset "ri" && unset "rn") || (unset "ci" && unset "cn")
  then Some (refused (CmdLineProxy.cmdline_print "请输入存储资源名称或其UUID 和 超算中心的名称或UUID") [])
  else None.

Section tools.
Context `{Rapidjson, Indet}.

(** ** Answers *)
Definition space_lines (with_id : bool) (s : Space.t) : list string :=
  ["空间名称:" +:+ s.(Space.spaceName)] ++ (if with_id then ["空间ID: " +:+ s.(Space.spaceID)] else []) ++
  ["空间容量:" +:+ pretty s.(Space.spaceSize); "空间所在地:" +:+ s.(Space.hostCenterName)].
Definition zone_lines (with_id : bool) (it : Zone.t) : list string :=
  ["区域名称:" +:+ it.(Zone.zoneName); "区域主人:" +:+ it.(Zone.ownerID)] ++ (append "区域成员:" <$> it.(Zone.memberID)) ++
  concat (space_lines with_id <$> it.(Zone.spaceBicInfo)) ++ ["============================="].
Definition print_zones (with_id : bool) (v : variables) (ipcresult : string) : option (list string) :=
  if String.eqb ipcresult "fail" then Some ["没有对应区域"]
  else res ← ClientZone.decode_zones ipcresult; Some (concat (zone_lines with_id <$> res)).

(** [result[i]] of each name, which may not exist. *)
Definition print_usage (v : variables) (ipcresult : string) : option (list string) :=
  if negb (String.eqb (substr 0 1 ipcresult) "1") then Some [ipcresult]
  else
    let ipcres := substr_from 1 ipcresult in
    if String.eqb ipcres "fail" then Some ["空间容量查询失败,请联系管理员或稍后重试"]
    else
      let result := json_decode (codec_vector codec_int64 0) ipcres [] in
      mapM (λ '(i, name), used ← result !! i; Some ("空间名称：" +:+ name +:+ "空间已用容量：" +:+ pretty used +:+ "K"))
        (imap pair (texts v "spacename")).

Definition print_account (v : variables) (ipcresult : string) : option (list string) :=
  worded [("-1", "search fail"); ("33", "Verification failed, access denied"); ("client_input_error", "输入错误")]
    (λ _ r, let person := of_json Account.init r in Some [
      "账户名： " +:+ person.(Account.accountName); "账户密码： " +:+ person.(Account.Password);
      "邮箱： " +:+ person.(Account.accountEmail); "电话： " +:+ person.(Account.accountPhone);
      "地址： " +:+ person.(Account.accountAddress); "单位： " +:+ person.(Account.Department)]) v ipcresult.

Definition print_account_map (v : variables) (ipcresult : string) : option (list string) :=
  let rule := "============================" in
  worded [("1", "查询账户映射失败"); ("33", "权限不足：无法查询账户映射"); ("-1", "未获得对应账户信息，请确认信息正确！")]
    (λ v r, let person := of_json SCAccount.init r in
      Some ([rule; "虚拟数据空间账户名： " +:+ text v "user"; rule] ++
        concat ((λ c, ["映射的账户名: " +:+ default "" (person.(SCAccount.localaccount) !! c); "映射位置： " +:+ c; rule])
          <$> person.(SCAccount.centerName)))) v ipcresult.

Definition print_applies (v : variables) (ipcresult : string) : option (list string) :=
  worded [("1", "fail"); ("33", "is not admin")]
    (λ _ r, let my := json_decode (codec_vector codec_string "") r [] in
      Some ("========" :: concat ((λ con, let singel_content := of_json struct_apply_info.init con in
        ["id: " +:+ singel_content.(struct_apply_info.id); "apply: " +:+ singel_content.(struct_apply_info.data); "========"]) <$> my))) v ipcresult.

(** [vector<StorageResource>]; an element that is not an object fails an assertion. *)
Definition decode_resources (text : string) : option (list StorageResource.t) :=
  match rj_parse (c_str text) with
  | Some (JArray vs) => mapM (λ v, match v with JObject l => Some (StorageResource.deserialize_impl l StorageResource.init) | _ => None end) vs
  | _ => Some []
  end.
Definition resource_state (state : Z) : string :=
  match state with
  | 0 => "Initializing" | 1 => "Normal" | 2 => "OverLoad" | 3 => "Logouting" | 4 => "Quited" | _ => ""
  end.
(** [substr] throws when the identifier is shorter than the prefix of the keys. *)
Definition resource_lines (qres : StorageResource.t) : option (list string) :=
  let prefixlen := String.length StorageResource.prefix in
  if (String.length qres.(StorageResource.storage_src_id) <? prefixlen)%nat then None
  else Some ["存储资源ID:" +:+ substr_from prefixlen qres.(StorageResource.storage_src_id);
    "存储资源名称:" +:+ qres.(StorageResource.storage_src_name); "存储资源所在超算中心UUID:" +:+ qres.(StorageResource.host_center_id);
    "存储资源所在超算中心名称:" +:+ qres.(StorageResource.host_center_name);
    "存储资源空间容量大小(MB):" +:+ pretty qres.(StorageResource.total_capacity);
    "存储资源已分配空间容量大小(MB):" +:+ pretty qres.(StorageResource.assign_capacity);
    "存储资源MGS地址:" +:+ qres.(StorageResource.mgs_address); "存储资源状态:" +:+ resource_state qres.(StorageResource.state); ""].
Definition print_resources (v : variables) (ipcresult : string) : option (list string) :=
  if String.eqb ipcresult "" then Some ["no match resource"]
  else lists ← decode_resources ipcresult; lines ← mapM resource_lines lists; Some (concat lines).

(** ** cmdline/zonecmdline *)

Definition mapadd_ipc : tool := {|
  cmdname := "mapadd";
  command := ("映射增加模块", [
    ("zonename,z", OneString, "区域名称"); ("spacename,s", OneString, "空间名称"); ("size", Int64, "空间大小");
    ("center,c", OneString, "超算名称")]);
  precheck := unchecked; refuse := also needs_arguments (validate ["spacename"]);
  members := λ v, [
    ("zonename", Str (text v "zonename")); ("spacename", Str (text v "spacename"));
    ("spacesize", I64 (int64_or junk_int64 v "size")); ("spaceurl", Str (to_json (space_at (text v "center") "" "")))];
  shown := print_result;
  preamble := no_preamble; patience := for_20s |}.

Definition mapdeduct_admin : tool := {|
  cmdname := "mapdeduct_admin";
  command := ("映射删除模块", [
    ("ownername,w", OneString, "主人账户名"); ("zonename,z", OneString, "区域名称"); ("spacename,s", ManyStrings, "空间名称")]);
  precheck := unchecked; refuse := needs_arguments;
  members := λ v, [
    ("ownName", Str (text v "ownername")); ("zonename", Str (text v "zonename"));
    ("spacenames", Strs (texts v "spacename"))];
  shown := print_result;
  preamble := no_preamble; patience := for_20s |}.

Definition mapdeduct_ipc : tool := {|
  cmdname := "mapdeduct";
  command := ("映射删除模块", [
    ("zonename,z", OneString, "区域名称"); ("spacename,s", ManyStrings, "空间名称")]);
  precheck := unchecked; refuse := needs_arguments;
  members := λ v, [
    ("zonename", Str (text v "zonename")); ("spacenames", Strs (texts v "spacename"))];
  shown := print_result;
  preamble := no_preamble; patience := for_20s |}.

Definition zoneadd_admin : tool := {|
  cmdname := "zoneadd_admin";
  command := ("管理员区域添加模块", [
    ("zonename,z", OneString, "区域名称"); ("ownername,w", OneString, "主人账户名"); ("member,m", ManyStrings, "区域成员");
    ("center,c", OneString, "超算名称"); ("storage,s", OneString, "存储资源名称"); ("path,p", OneString, "空间路径")]);
  precheck := unchecked; refuse := also needs_arguments (validate ["zonename"]);
  members := λ v, [
    ("zonename", Str (text v "zonename")); ("ownName", Str (text v "ownername"));
    ("memName", Strs (texts v "member"));
    ("spaceurl", Str (to_json (space_at (text v "center") (text v "storage") (text v "path"))))];
  shown := print_result;
  preamble := no_preamble; patience := for_20s |}.

Definition zonecancel_admin : tool := {|
  cmdname := "zonecancel_admin";
  command := ("区域注销模块", [
    ("ownername,w", OneString, "主人账户名"); ("zonename,z", OneString, "区域名称")]);
  precheck := unchecked; refuse := needs_arguments;
  members := λ v, [
    ("ownName", Str (text v "ownername")); ("zonename", Str (text v "zonename"))];
  shown := print_result;
  preamble := no_preamble; patience := for_20s |}.

Definition zonecancel_ipc : tool := {|
  cmdname := "zonecancel";
  command := ("区域注销模块", [("zonename,z", OneString, "区域名称")]);
  precheck := unchecked; refuse := needs_arguments;
  members := λ v, [("zonename", Str (text v "zonename"))];
  shown := print_result;
  preamble := no_preamble; patience := for_20s |}.

Definition zonelist_admin : tool := {|
  cmdname := "zonelist_admin";
  command := ("区域查询模块", [("ownername,w", OneString, "主人账户名")]);
  precheck := unchecked; refuse := accept;
  members := λ v, [("ownName", Str (text v "ownername"))];
  shown := print_zones false;
  preamble := no_preamble; patience := for_20s |}.

Definition zonelist_ipc : tool := {|
  cmdname := "zonelist";
  command := ("区域查询模块", []);
  precheck := unchecked; refuse := accept;
  members := λ v, [];
  shown := print_zones true;
  preamble := no_preamble; patience := for_20s |}.

Definition zoneregister_ipc : tool := {|
  cmdname := "zoneregister";
  command := ("区域注册模块", [
    ("zonename,z", OneString, "区域名称"); ("member,m", ManyStrings, "区域成员"); ("spacename,s", OneString, "空间名称");
    ("size", Int64, "空间大小"); ("center,c", OneString, "超算名称")]);
  precheck := unchecked; refuse := also needs_arguments (validate ["zonename"; "spacename"]);
  members := λ v, [
    ("zonename", Str (text v "zonename")); ("memName", Strs (texts v "member"));
    ("spacename", Str (text v "spacename")); ("spacesize", I64 (int64_or junk_int64 v "size"));
    ("spaceurl", Str (to_json (space_at (text v "center") "" "")))];
  shown := print_result;
  preamble := no_preamble; patience := for_20s |}.

Definition zonerename_admin : tool := {|
  cmdname := "zonerename_admin";
  command := ("区域重命名模块", [
    ("ownername,w", OneString, "主人账户名"); ("zonename,z", OneString, "区域名称"); ("newname,n", OneString, "区域新名称")]);
  precheck := unchecked; refuse := also needs_arguments (validate ["newname"]);
  members := λ v, [
    ("ownName", Str (text v "ownername")); ("zonename", Str (text v "zonename"));
    ("newzonename", Str (text v "newname"))];
  shown := print_result;
  preamble := no_preamble; patience := for_20s |}.

Definition zonerename_ipc : tool := {|
  cmdname := "zonerename";
  command := ("区域重命名模块", [
    ("zonename,z", OneString, "区域名称"); ("newname,n", OneString, "区域新名称")]);
  precheck := unchecked; refuse := also needs_arguments (validate ["newname"]);
  members := λ v, [
    ("zonename", Str (text v "zonename")); ("newzonename", Str (text v "newname"))];
  shown := print_result;
  preamble := no_preamble; patience := for_20s |}.

Definition zoneshare_admin : tool := {|
  cmdname := "zoneshare_admin";
  command := ("区域共享模块", [
    ("ownername,w", OneString, "主人账户名"); ("zonename,z", OneString, "区域名称"); ("member,m", ManyStrings, "区域新成员")]);
  precheck := unchecked; refuse := needs_arguments;
  members := λ v, [
    ("ownName", Str (text v "ownername")); ("zonename", Str (text v "zonename")); ("memName", Strs (texts v "member"))];
  shown := print_result;
  preamble := no_preamble; patience := for_20s |}.

Definition zoneshare_ipc : tool := {|
  cmdname := "zoneshare";
  command := ("区域共享模块", [
    ("zonename,z", OneString, "区域名称"); ("member,m", ManyStrings, "区域新成员")]);
  precheck := unchecked; refuse := needs_arguments;
  members := λ v, [
    ("zonename", Str (text v "zonename")); ("memName", Strs (texts v "member"))];
  shown := print_result;
  preamble := no_preamble; patience := for_20s |}.

Definition zonesharecancel_admin : tool := {|
  cmdname := "zonesharecancel_admin";
  command := ("区域共享取消模块", [
    ("ownername,w", OneString, "主人账户名"); ("zonename,z", OneString, "区域名称"); ("member,m", ManyStrings, "区域删除的成员")]);
  precheck := unchecked; refuse := needs_arguments;
  members := λ v, [
    ("ownName", Str (text v "ownername")); ("zonename", Str (text v "zonename")); ("memName", Strs (texts v "member"))];
  shown := print_result;
  preamble := no_preamble; patience := for_20s |}.

Definition zonesharecancel_ipc : tool := {|
  cmdname := "zonesharecancel";
  command := ("区域共享取消模块", [
    ("zonename,z", OneString, "区域名称"); ("member,m", ManyStrings, "区域删除的成员")]);
  precheck := unchecked; refuse := needs_arguments;
  members := λ v, [
    ("zonename", Str (text v "zonename")); ("memName", Strs (texts v "member"))];
  shown := print_result;
  preamble := no_preamble; patience := for_20s |}.

(** ** cmdline/spacecmdline *)

Definition spacerename_admin : tool := {|
  cmdname := "spacerename_admin";
  command := ("空间重命名模块", [
    ("ownername,w", OneString, "主人账户名"); ("zonename,z", OneString, "区域名称"); ("oldname,o", OneString, "空间旧名称");
    ("newname,n", OneString, "空间新名称")]);
  precheck := unchecked; refuse := also needs_arguments (validate ["newname"]);
  members := λ v, [
    ("ownName", Str (text v "ownername")); ("zonename", Str (text v "zonename"));
    ("spacename", Str (text v "oldname")); ("newspacename", Str (text v "newname"))];
  shown := print_result;
  preamble := no_preamble; patience := for_20s |}.

Definition spacerename_ipc : tool := {|
  cmdname := "spacerename";
  command := ("空间重命名模块", [
    ("zonename,z", OneString, "区域名称"); ("oldname,o", OneString, "空间旧名称"); ("newname,n", OneString, "空间新名称")]);
  precheck := unchecked; refuse := also needs_arguments (validate ["newname"]);
  members := λ v, [
    ("zonename", Str (text v "zonename")); ("spacename", Str (text v "oldname"));
    ("newspacename", Str (text v "newname"))];
  shown := print_result;
  preamble := no_preamble; patience := for_20s |}.

Definition spacereplica : tool := {|
  cmdname := "spacereplica";
  command := ("空间重命名模块", [
    ("replicated,r", OneString, "原副本空间"); ("single,s", OneString, "目标副本空间")]);
  precheck := unchecked; refuse := needs_two_spaces;
  members := λ v, [
    ("spacename", Str (text v "replicated")); ("newspacename", Str (text v "single"))];
  shown := print_result;
  preamble := no_preamble; patience := for_20s |}.

Definition spacesizechange_ipc : tool := {|
  cmdname := "spacesizechange";
  command := ("空间缩放模块", [
    ("zonename,z", OneString, "区域名称"); ("spacename,s", OneString, "空间名称"); ("newsize,n", Int64, "空间新容量")]);
  precheck := unchecked; refuse := needs_arguments;
  members := λ v, [
    ("zonename", Str (text v "zonename")); ("spacename", Str (text v "spacename"));
    ("newspacesize", I64 (int64_or junk_int64 v "newsize"))];
  shown := print_result;
  preamble := no_preamble; patience := for_20s |}.

Definition spaceusage_admin : tool := {|
  cmdname := "spaceusage_admin";
  command := ("空间已用容量查询模块", [
    ("ownername,w", OneString, "主人账户名"); ("zonename,z", OneString, "区域名称"); ("spacename,s", ManyStrings, "空间名称")]);
  precheck := unchecked; refuse := needs_arguments;
  members := λ v, [
    ("ownName", Str (text v "ownername")); ("zonename", Str (text v "zonename"));
    ("spacenames", Strs (texts v "spacename"))];
  shown := print_usage;
  preamble := no_preamble; patience := for_20s |}.

Definition spaceusage_ipc : tool := {|
  cmdname := "spaceusage";
  command := ("空间已用容量查询模块", [
    ("zonename,z", OneString, "区域名称"); ("spacename,s", ManyStrings, "空间名称")]);
  precheck := unchecked; refuse := needs_arguments;
  members := λ v, [
    ("zonename", Str (text v "zonename")); ("spacenames", Strs (texts v "spacename"))];
  shown := print_usage;
  preamble := no_preamble; patience := for_20s |}.

(** ** cmdline/usercmdline *)

Definition adcreateaccountmap : tool := {|
  cmdname := "adcam";
  command := ("管理员给[指定用户]添加[指定位置]的账户映射", [
    ("user,u", OneString, "账户名"); ("location,l", OneString, "位置")]);
  precheck := unchecked; refuse := needs_arguments;
  members := λ v, [
    ("accountName", Str (text v "user")); ("centerName", Str (text v "location"))];
  shown := worded [("0", "建立账户映射成功"); ("1", "建立账户映射失败"); ("33", "权限不足：无法建立账户映射")] print_result;
  preamble := no_preamble; patience := None |}.

Definition adminsignup : tool := {|
  cmdname := "adminsignup";
  command := ("管理员账户注册", [
    ("user,u", OneString, "账户名"); ("pass", OneString, "密码"); ("email,e", OneString, "邮箱"); ("phone", OneString, "电话");
    ("ad", OneString, "地址"); ("de", OneString, "部门")]);
  precheck := unchecked; refuse := needs_arguments;
  members := λ v, [
    ("accountName", Str (text v "user")); ("gvdsID", Str "1"); ("Password", Str (text v "pass"));
    ("email", Str (text v "email")); ("phone", Str (text v "phone")); ("address", Str (text v "ad"));
    ("department", Str (text v "de"))];
  shown := print_result;
  preamble := no_preamble; patience := None |}.

Definition adsearchaccountmap : tool := {|
  cmdname := "adsearcham";
  command := ("管理员查询[指定用户]账户映射信息", [("user,u", OneString, "账户名")]);
  precheck := unchecked; refuse := needs_arguments;
  members := λ v, [("accountName", Str (text v "user"))];
  shown := print_account_map;
  preamble := no_preamble; patience := None |}.

Definition adseepool : tool := {|
  cmdname := "adseepool";
  command := ("管理员查询各个账户池使用量情况", []);
  precheck := unchecked; refuse := accept;
  members := λ v, [];
  shown := worded [("1", "账户池信息查询失败"); ("33", "权限不足：无法查询账户池信息")] print_result;
  preamble := no_preamble; patience := None |}.

Definition aduaccountmap : tool := {|
  cmdname := "aduam";
  command := ("管理员给[指定用户]删除[指定位置]的账户映射", [
    ("user,u", OneString, "账户名"); ("location,l", OneString, "位置")]);
  precheck := unchecked; refuse := needs_arguments;
  members := λ v, [
    ("accountName", Str (text v "user")); ("centerName", Str (text v "location"))];
  shown := worded [("0", "删除账户映射成功"); ("1", "删除账户映射失败"); ("33", "权限不足：无法删除账户映射")] print_result;
  preamble := no_preamble; patience := None |}.

Definition listapply : tool := {|
  cmdname := "listapply";
  command := ("展示请求", []);
  precheck := unchecked; refuse := accept;
  members := λ v, [];
  shown := print_applies;
  preamble := no_preamble; patience := None |}.

Definition suggestion : tool := {|
  cmdname := "suggestion";
  command := ("审批请求", [
    ("sug,s", OneString, "意见：[agree, reject]"); ("id,i", OneString, "请求id")]);
  precheck := unchecked; refuse := needs_four_arguments;
  members := λ v, [
    ("sug", Str (text v "sug")); ("applyid", Str (text v "id"))];
  shown := print_result;
  preamble := no_preamble; patience := None |}.

Definition usercancel_ipc : tool := {|
  cmdname := "usercancel";
  command := ("账户永久注销", [("user,u", OneString, "账户名")]);
  precheck := unchecked; refuse := needs_arguments;
  members := λ v, [("accountName", Str (text v "user"))];
  shown := worded [
    ("-1", "User cancellation fail"); ("-2", "User cancellation fail, your Zone is not cancal success");
    ("33", "Verification failed, access denied"); ("client_input_error", "账户名输入错误")] print_result;
  preamble := no_preamble; patience := None |}.

Definition userexit_ipc : tool := {|
  cmdname := "userexit";
  command := ("账户退出", [("user,u", OneString, "账户名")]);
  precheck := unchecked; refuse := needs_arguments;
  members := λ v, [("accountName", Str (text v "user"))];
  shown := worded [("-1", "Exit fail"); ("33", "Verification failed, access denied"); ("client_input_error", "账户名输入错误")] (print "Exit success");
  preamble := no_preamble; patience := None |}.

Definition userlogin_ipc : tool := {|
  cmdname := "userlogin";
  command := ("账户登录", [
    ("user,u", OneString, "账户名"); ("pass,p", OneString, "账户密码")]);
  precheck := unchecked; refuse := needs_arguments;
  members := λ v, [
    ("accountName", Str (text v "user")); ("Password", Str (text v "pass"))];
  shown := worded [("-1", "login fail")] (print "login success");
  preamble := no_preamble; patience := None |}.

Definition usermodify_ipc : tool := {|
  cmdname := "usermodify";
  command := ("账户信息修改", [
    ("user,u", OneString, "账户名"); ("pass", OneString, "密码"); ("email,e", OneString, "邮箱"); ("phone", OneString, "电话");
    ("ad", OneString, "地址"); ("de", OneString, "部门")]);
  precheck := unchecked; refuse := needs_arguments;
  members := λ v, [
    ("accountName", Str (text v "user")); ("Password", Str (text v "pass")); ("email", Str (text v "email"));
    ("phone", Str (text v "phone")); ("address", Str (text v "ad")); ("department", Str (text v "de"))];
  shown := worded [("33", "Verification failed, access denied"); ("client_input_error", "账户名输入错误")] print_result;
  preamble := no_preamble; patience := None |}.

Definition usersearch_ipc : tool := {|
  cmdname := "usersearch";
  command := ("账户信息查询", [("user,u", OneString, "账户名")]);
  precheck := unchecked; refuse := needs_arguments;
  members := λ v, [("accountName", Str (text v "user"))];
  shown := print_account;
  preamble := no_preamble; patience := None |}.

Definition usersignup_ipc : tool := {|
  cmdname := "usersignup";
  command := ("账户注册", [
    ("user,u", OneString, "账户名"); ("pass,p", OneString, "密码"); ("email,e", OneString, "邮箱");
    ("phone", OneString, "电话"); ("ad", OneString, "地址"); ("de", OneString, "部门")]);
  precheck := unchecked; refuse := also needs_arguments needs_user;
  members := λ v, [
    ("accountName", Str (text v "user")); ("gvdsID", Str "1"); ("Password", Str (text v "pass"));
    ("email", Str (text v "email")); ("phone", Str (text v "phone")); ("address", Str (text v "ad"));
    ("department", Str (text v "de"))];
  shown := worded [("0", "请求成功")] (print "请求失败，请再尝试");
  preamble := no_preamble; patience := None |}.

(** ** cmdline/mconfcmdline *)

Definition deletecenter : tool := {|
  cmdname := "deletecenter";
  command := ("删除超算信息", [("centerID", OneString, "超算ID")]);
  precheck := unchecked; refuse := needs_arguments;
  members := λ v, [("centerID", Str (text v "centerID"))];
  shown := worded [("fail", "delete fail")] (print "delete success");
  preamble := (λ v, ["centerID: " +:+ text v "centerID"]); patience := None |}.

Definition modifycenter : tool := {|
  cmdname := "modifycenter";
  command := ("添加或修改超算信息", [
    ("centerID,i", OneString, "超算ID"); ("centerIP,a", OneString, "超算IP"); ("centerPort,p", OneString, "超算端口");
    ("centerName,n", OneString, "超算名字")]);
  precheck := unchecked; refuse := needs_arguments;
  members := λ v, [
    ("centerID", Str (text v "centerID")); ("centerIP", Str (text v "centerIP"));
    ("centerPort", Str (text v "centerPort")); ("centerName", Str (text v "centerName"))];
  shown := worded [("fail", "modify fail")] (print "modify success");
  preamble := no_preamble; patience := None |}.

Definition searchcenter : tool := {|
  cmdname := "searchcenter";
  command := ("查询超算信息", []);
  precheck := unchecked; refuse := needs_no_arguments;
  members := λ v, [];
  shown := worded [("fail", "search fail")] print_result;
  preamble := no_preamble; patience := None |}.

(** ** cmdline/aggregationcmdline *)

Definition resourcedelete : tool := {|
  cmdname := "resourcedelete";
  command := ("资源删除模块", [("ri", OneString, "存储资源UUID")]);
  precheck := valid_argv 0; refuse := needs_arguments;
  members := λ v, [("storage_src_id", Str (text v "ri"))];
  shown := worded [("", "delete fail")] print_result;
  preamble := no_preamble; patience := for_3s |}.

Definition resourcequery : tool := {|
  cmdname := "resourcequery";
  command := ("资源查询模块", [("ri", OneString, "存储资源UUID")]);
  precheck := valid_argv 0; refuse := needs_arguments;
  members := λ v, [("storage_src_id", Str (text v "ri"))];
  shown := print_resources;
  preamble := no_preamble; patience := for_3s |}.

Definition resourceregister : tool := {|
  cmdname := "resourceregister";
  command := ("资源注册模块", [
    ("ri", OneString, "存储资源UUID"); ("rn", OneString, "存储资源名称"); ("ci", OneString, "超算中心UUID");
    ("cn", OneString, "超算中心名称"); ("tc", Int64, "存储资源空间容量大小(MB)"); ("ac", Int64, "已分配存储资源空间容量大小(MB)");
    ("mgs", OneString, "资源mgs地址"); ("st", Int32, "资源状态,0:初始化中 1:正常使用 2:负载过载 3:注销退出中 4:已经退出")]);
  precheck := valid_argv 0; refuse := also needs_arguments needs_everything;
  members := λ v, [
    ("storage_src_id", Str (text_or "#default" v "ri")); ("storage_src_name", Str (text_or "#default" v "rn"));
    ("host_center_id", Str (text_or "#default" v "ci")); ("host_center_name", Str (text_or "#default" v "cn"));
    ("total_capacity", I64 (int64_or (-1) v "tc")); ("assign_capacity", I64 (int64_or (-1) v "ac"));
    ("mgs_address", Str (text_or "#default" v "mgs")); ("state", I32 (int_or (-1) v "st"))];
  shown := worded [("", "resource register fail")] print_result;
  preamble := no_preamble; patience := for_3s |}.

Definition resourceupdate : tool := {|
  cmdname := "resourceupdate";
  command := ("资源更新模块", [
    ("ri", OneString, "存储资源UUID"); ("rn", OneString, "存储资源名称"); ("ci", OneString, "超算中心UUID");
    ("cn", OneString, "超算中心名称"); ("tc", Int64, "存储资源空间容量大小(MB)"); ("ac", Int64, "已分配存储资源空间容量大小(MB)");
    ("mgs", OneString, "资源mgs地址"); ("st", Int32, "资源状态,0:初始化中 1:正常使用 2:负载过载 3:注销退出中 4:已经退出")]);
  precheck := valid_argv (-1); refuse := needs_operation;
  members := λ v, [
    ("storage_src_id", Str (text_or "#default" v "ri")); ("storage_src_name", Str (text_or "#default" v "rn"));
    ("host_center_id", Str (text_or "#default" v "ci")); ("host_center_name", Str (text_or "#default" v "cn"));
    ("total_capacity", I64 (int64_or (-1) v "tc")); ("assign_capacity", I64 (int64_or (-1) v "ac"));
    ("mgs_address", Str (text_or "#default" v "mgs")); ("state", I32 (int_or (-1) v "st"))];
  shown := worded [("", "resource register fail")] print_result;
  preamble := no_preamble; patience := for_3s |}.

Definition tools : list tool := [
  mapadd_ipc; mapdeduct_admin; mapdeduct_ipc; zoneadd_admin; zonecancel_admin; zonecancel_ipc; zonelist_admin;
  zonelist_ipc; zoneregister_ipc; zonerename_admin; zonerename_ipc; zoneshare_admin; zoneshare_ipc;
  zonesharecancel_admin; zonesharecancel_ipc; spacerename_admin; spacerename_ipc; spacereplica;
  spacesizechange_ipc; spaceusage_admin; spaceusage_ipc; adcreateaccountmap; adminsignup; adsearchaccountmap;
  adseepool; aduaccountmap; listapply; suggestion; usercancel_ipc; userexit_ipc; userlogin_ipc; usermodify_ipc;
  usersearch_ipc; usersignup_ipc; deletecenter; modifycenter; searchcenter; resourcedelete; resourcequery;
  resourceregister; resourceupdate].
End tools.
