(* ===== verification/Service.v ===== *)
(** * A client and its manager

    The manager as a client meets it: its route tables send a request to a handler
    of User.v, Zones.v, Space.v or Mconf.v, which runs on the database. Commands of
    IpcMod.v in front of it, end to end. *)
From S2P Require Import Prelude CxxString Json Records Datastore Instances Md5 User Space Zones Mconf ClientZone SelectNode IpcMod Commands.

Import ClientIPC.

(** ** The routes of POST requests *)
Section routes.
Context {W : Type} `{Couchbase W, Host W, Rapidjson, Indet}.

Definition user_routes : list (string * (string → M W response)) := [
  ("/users/modify", UserModelServer.modifyUserinfoRest); ("/users/registration", UserModelServer.UserRegisterRest);
  ("/users/memberID", UserModelServer.getMemberIDRest); ("/users/adminregistration", UserModelServer.AdminUserRegisterRest);
  ("/users/bufferuserregister", UserModelServer.bufferUserRegisterRest); ("/users/listapply", UserModelServer.viewbufferListRest);
  ("/users/removeapply", UserModelServer.removeoneofApplyInfoRest); ("/users/adcam", UserModelServer.adminCreateAccountMapping);
  ("/users/aduam", UserModelServer.adminDelAccountMapping); ("/users/adsearcham", UserModelServer.adminSearchAccountMapping);
  ("/users/adsearchpool", UserModelServer.adminSearchAccountPoolRest)].
Definition zone_routes : list (string * (string → M W response)) := [
  ("/zone/rename", ZoneServer.ZoneRenameRest); ("/zone/locate", ZoneServer.GetZoneLocateInfoRest);
  ("/zone/info", ZoneServer.GetZoneInfoRest); ("/zone/share", ZoneServer.ZoneShareRest);
  ("/zone/sharecancel", ZoneServer.ZoneShareCancelRest); ("/zone/registerapply", ZoneServer.ZoneRegisterApplyRest);
  ("/zone/registercheck", ZoneServer.ZoneRegisterCheckRest); ("/zone/register", ZoneServer.ZoneRegisterRest);
  ("/zone/cancel", ZoneServer.ZoneCancelRest); ("/zone/mapaddapply", ZoneServer.MapAddApplyRest);
  ("/zone/mapaddcheck", ZoneServer.MapAddCheckRest); ("/zone/mapadd", ZoneServer.MapAddRest);
  ("/zone/mapdeduct", ZoneServer.MapDeductRest); ("/zone/add", ZoneServer.ZoneAddRest)].
Definition space_routes : list (string * (string → M W response)) := [
  ("/space/rename", SpaceServer.SpaceRenameRest); ("/space/changesizeapply", SpaceServer.SpaceSizeChangeApplyRest);
  ("/space/changesize", SpaceServer.SpaceSizeChangeRest); ("/space/spaceusage", SpaceServer.SpaceUsageRest);
  ("/space/spaceusagecheck", SpaceServer.SpaceUsageCheckRest); ("/space/spacenumber", SpaceServer.SpaceNumberRest);
  ("/space/replica", SpaceServer.SpaceReplicaRest)].
Definition mconf_routes : list (string * (string → M W response)) := [
  ("/mconf/addCenter", Mconf.addCenterRest); ("/mconf/deleteCenter", Mconf.deleteCenterRest)].
Definition routes := user_routes ++ zone_routes ++ space_routes ++ mconf_routes.

Definition route (url : string) : option (string → M W response) :=
  snd <$> head (filter (λ p : string * (string → M W response), p.1 = url) routes).
End routes.

Section service.
Context {W : Type} `{CouchbaseLaws W, !Host W, !HostLaws W, RapidjsonLaws, !RapidjsonErrors, Indet}.
Context `{!CouchbaseUp W, !SubdocLaws W, Pistache W}.
Implicit Types (D : gmap (string * string) string) (w : W) (c : client).

(** The manager at [base] runs the handlers on the world. *)
Definition serves (base : string) : Prop := ∀ url handler token data w,
  route url = Some handler → http_post (base +:+ url) token data w = SelectNode.answer_of (handler data w).

Lemma asked_served c url handler data w P :
  serves (manager_url c) → route url = Some handler → wp (handler data) P never w →
  ∃ r w', asked c url data w = (Answered r.(http_body), w') ∧ P r w'.
Proof.
  intros Hs Hu Hw. apply wp_run in Hw as (r & w' & Hr & HP). exists r, w'. split; [|done].
  unfold asked. by rewrite (Hs url handler), Hr.
Qed.

(** What the manager answers for a list of names, if all of them are registered. *)
Definition all_registered D (names ids : list string) : Prop :=
  Forall2 (λ n u, UserModelServer.registered D n = Some (json_encode codec_string u)) names ids.

Lemma getMemberIDRest_up names ids D w :
  serving D w → ZoneServer.texts names → ZoneServer.texts ids → all_registered D names ids →
  wp (UserModelServer.getMemberIDRest (json_encode (codec_vector codec_string "") names))
    (λ r w', r.(http_body) = json_encode (codec_vector codec_string "") ids ∧ serving D w') never w.
Proof.
  intros HD Hn Hi Hall. unfold UserModelServer.getMemberIDRest, UserModelServer.getMemberID.
  rewrite (json_decode_encode (codec_vector codec_string "")) by exact Hn. do 2 wp_step. db_up.
  eapply wp_mono; [| |by apply UserModelServer.getMemberID_loop_up]; [|done].
  intros r w2 [-> HD']. wp_step. done.
Qed.

Lemma json_encode_parses {A} (cd : codec A) `{!CodecOk cd} a : enc_wf cd a → json_encode cd a ≠ "fail".
Proof.
  intros Ha He. pose proof (rj_parse_write (enc cd a) (enc_json_wf a Ha)) as Hp.
  unfold json_encode in He. rewrite He, parse_fail in Hp. done.
Qed.

(** Names of registered users become their identifiers, in order. *)
Lemma wp_members_served names ids D Q E c w :
  free c → serves (manager_url c) → serving D w → ZoneServer.texts names → ZoneServer.texts ids →
  all_registered D names ids → (∀ w', serving D w' → Q (true, ids) (c, w')) →
  wp (getMemberID names) Q E (c, w).
Proof.
  intros Hf Hs HD Hn Hi Hall HQ. apply wp_getMemberID; [done|].
  destruct (asked_served c "/users/memberID" UserModelServer.getMemberIDRest
    (json_encode (codec_vector codec_string "") names) w _ Hs eq_refl (getMemberIDRest_up _ _ _ _ HD Hn Hi Hall))
    as (r & w' & Ha & Hb & HD').
  rewrite Ha. unfold answer. cbn [fst snd ClientRpc.body_of]. rewrite Hb.
  destruct (String.eqb_spec (json_encode (codec_vector codec_string "") ids) "fail") as [He|_].
  { exfalso. by apply (json_encode_parses (codec_vector codec_string "") ids) in He. }
  rewrite (json_decode_encode (codec_vector codec_string "")) by exact Hi. by apply HQ.
Qed.

(** The zones that the manager's queries list for a user. *)
Definition listed_text (zs : list Zone.t) : string := match zs with [] => "fail" | _ => ClientZone.zones_text zs end.
Definition lists D (u : string) (zs : list Zone.t) : Prop := ∀ w, serving D w →
  wp (ZoneServer.GetZoneInfoRest u) (λ r w', r.(http_body) = listed_text zs ∧ serving D w') never w.
Lemma listed_sendable zs : sendable zs → listed_text zs = ClientZone.zones_text zs.
Proof. destruct zs; [by intros []|done]. Qed.

Lemma wp_zone_served zs u zonename z k D Q E c w :
  free c → serves (manager_url c) → serving D w → lists D u zs → sendable zs → zone_named zonename zs = Some z →
  (∀ w', serving D w' → wp (k z) Q E (set_zonemap (by_name zs) c, w')) →
  wp (with_zone u zonename k) Q E (c, w).
Proof.
  intros Hf Hs HD Hl Hz Hn HQ.
  destruct (asked_served c "/zone/info" ZoneServer.GetZoneInfoRest u w _ Hs eq_refl (Hl w HD)) as (r & w' & Ha & Hb & HD').
  rewrite (listed_sendable zs Hz) in Hb.
  eapply (wp_with_zone zs); [done|done|by rewrite Ha|]. rewrite Hn, Ha. by apply HQ.
Qed.

(** A request of a zone, as the handler reads it. *)
Definition zone_request (id u name : string) (memID spaceID : list string) : ZoneRequest.t :=
  ZoneRequest.mk id "" memID spaceID u "" name junk_int64 "" "".
Lemma zone_request_read id u name memID spaceID :
  c_str id = id → c_str u = u → c_str name = name → ZoneServer.texts memID → ZoneServer.texts spaceID →
  of_json ZoneRequest.init (to_json (zone_request id u name memID spaceID)) = zone_request id u name memID spaceID.
Proof.
  intros. apply of_to_json. unfold struct_wf. cbn. unfold ZoneRequest.wf. cbn -[junk_int64].
  split_and!; try done. apply junk_int64_wf.
Qed.

(** C20: a user shares a zone by the names of the new members, end to end: the client
    answers "success", and in the manager's database the zone has, besides the
    members it had, exactly the accounts of the names, and is otherwise as it was. *)
Theorem share_end_to_end ipcreq ids zs (z zi : Zone.t) D c w :
  free c → serves (manager_url c) → serving D w →
  let u := c.(user).(ClientUser.accountID) in
  u ≠ "" → c_str u = u →
  ZoneServer.texts ipcreq.(IPCreq.memName) → ZoneServer.texts ids → all_registered D ipcreq.(IPCreq.memName) ids →
  lists D u zs → sendable zs → zone_named ipcreq.(IPCreq.zonename) zs = Some zi → c_str zi.(Zone.zoneID) = zi.(Zone.zoneID) →
  ZoneServer.zone_stored D zi.(Zone.zoneID) z → ZoneServer.editor D z u →
  wp (dozoneshare ipcreq) (λ text '(c', w'), text = "success" ∧ c' = set_zonemap (by_name zs) c ∧
    ∃ D' members, serving D' w' ∧ ZoneServer.zone_updated D zi.(Zone.zoneID) (ZoneServer.with_members z members) D' ∧
      ∀ x, x ∈ members ↔ x ∈ z.(Zone.memberID) ∨ x ∈ ids) never (c, w).
Proof.
  intros Hf Hs HD u Hu Huw Hn Hi Hall Hl Hz Hzi Hid Hst Hed. unfold dozoneshare. apply wp_with_login; [done|]. fold u.
  unfold with_members. wp_step. eapply wp_members_served; [done..|]. intros w1 HD1. cbn [negb].
  eapply wp_zone_served; [done..|]. intros w2 HD2. unfold zone_members. wp_step.
  set (c2 := set_zonemap _ c). apply wp_post; [done|].
  change (ZoneRequest.mk _ _ _ _ _ _ _ _ _ _) with (zone_request zi.(Zone.zoneID) u "" ids []).
  assert (Hw : wp (ZoneServer.ZoneShareRest (to_json (zone_request zi.(Zone.zoneID) u "" ids []))) (λ r w',
    r.(http_body) = json_encode codec_int 0 ∧ ∃ D', serving D' w' ∧ ZoneServer.zone_updated D zi.(Zone.zoneID)
      (ZoneServer.with_members z (ZoneServer.add_members z.(Zone.memberID) ids)) D') never w2).
  { unfold ZoneServer.ZoneShareRest. rewrite zone_request_read by (done || constructor). cbn. wp_step.
    eapply wp_mono; [| |by apply ZoneServer.ZoneShare_up]; [|done]. intros e w' (-> & HD'). by wp_step. }
  destruct (asked_served c2 "/zone/share" ZoneServer.ZoneShareRest _ w2 _ Hs eq_refl Hw) as (r & w' & Ha & Hb & D' & HD' & Hup).
  rewrite Ha. wp_step. unfold answer. cbn [fst snd ClientRpc.body_of]. rewrite Hb, worded_code by done.
  split_and!; [done|done|]. exists D'. eexists. split_and!; [done..|]. intros x. apply ZoneServer.add_members_elem.
Qed.

(** ** Logging in *)

(** The login, whose response carries the token; a crash of the manager is no response. *)
Definition serves_login (junk : list Z) (base : string) : Prop := ∀ data w,
  http_post_plain (snprintf 256 (c_str base +:+ "/users/login")) data w =
  match UserModelServer.UserLoginRest junk data w with
  | (Val (res, cookie), w') => (Some (res.(http_body), option_list cookie), w')
  | (UB, w') => (None, w')
  end.
(** A request that has no route does nothing on the manager. *)
Definition ignores_others (base : string) : Prop := ∀ url token data w,
  route (W := W) url = None → (http_post (base +:+ url) token data w).2 = w.

(** What a login with a password does on the manager. *)
Lemma UserLoginRest_up junk name pass u (acct : Account.t) D w :
  serving D w → c_str name = name → c_str pass = pass → c_str u = u →
  UserModelServer.registered D name = Some (json_encode codec_string u) →
  D !! UserModelServer.account_key (UserModelServer.user_prefix +:+ u) = Some (to_json acct) → Account.wf acct →
  let token := md5 junk (name +:+ pass) in
  wp (UserModelServer.UserLoginRest junk (to_json (AccountPass.mk name pass))) (λ '(res, cookie) w',
    if String.eqb pass acct.(Account.Password)
    then (∃ flag, flag ∈ ["0"; "1"] ∧ res.(http_body) = flag +:+ "_" +:+ u) ∧ cookie = Some ("token", token) ∧
      serving (<[UserModelServer.account_key token := "1"]> D) w'
    else res.(http_body) = "-1" ∧ cookie = None ∧ serving D w') never w.
Proof.
  intros HD Hn Hp Hu Hreg Hacct Hwf token. unfold UserModelServer.UserLoginRest.
  rewrite (of_to_json (A := AccountPass.t)) by done. cbn [AccountPass.accountName AccountPass.Password]. wp_step.
  eapply wp_mono; [| |by apply UserModelServer.UserLogin_up]; [|done].
  intros [[ok userID] identity] w2 (HD2 & -> & Hid & ->). destruct (String.eqb pass _); wp_step; try done.
  db_up. wp_step. db_up. wp_steps. rewrite Hid by done. split_and!; [|done..].
  eexists. split; [|done]. case_bool_decide; set_solver.
Qed.

(** The zones of the client when the manager has listed these: those it had, when there
    are none. *)
Definition zones_after (zs : list Zone.t) (z : ClientZone.t) : ClientZone.t :=
  match zs with [] => z | _ => foldl ClientZone.add_zone ClientZone.init zs end.
Lemma zones_received zs z : zs = [] ∨ sendable zs → ∃ b, ClientZone.GetZoneInfo (listed_text zs) z = Some (b, zones_after zs z).
Proof.
  intros [->|Hz].
  - exists false. unfold ClientZone.GetZoneInfo, listed_text. cbn [String.eqb]. unfold ClientZone.decode_zones.
    change (c_str "fail") with "fail". by rewrite parse_fail.
  - exists true. rewrite listed_sendable by done. unfold ClientZone.GetZoneInfo.
    destruct (String.eqb_spec (ClientZone.zones_text zs) "") as [He|_]; [by apply zones_text_parses in He|].
    rewrite ClientZone.decode_encode_zones by (by destruct Hz). by destruct zs as [|x zs']; [destruct Hz|].
Qed.

(** C21: logging in, end to end, with a database and a network without faults and
    names without NUL bytes: with the password of the account the client answers "0"
    and has its identifier, its name, the token that the manager's database now holds
    and the zones the manager lists for it; an account without zones leaves it those
    it had before, another user's for instance. With any other password it answers
    "-1", and neither the client nor the manager has changed. *)
Theorem login_end_to_end junk ipcreq u (acct : Account.t) zs D c w :
  free c → let base := manager_url c in serves base → serves_login junk base → ignores_others base →
  serving D w → let name := ipcreq.(IPCreq.accountName) in let pass := ipcreq.(IPCreq.Password) in
  c_str name = name → c_str pass = pass → c_str u = u →
  UserModelServer.registered D name = Some (json_encode codec_string u) →
  D !! UserModelServer.account_key (UserModelServer.user_prefix +:+ u) = Some (to_json acct) → Account.wf acct →
  let token := md5 junk (name +:+ pass) in
  let D1 := <[UserModelServer.account_key token := "1"]> D in
  (pass = acct.(Account.Password) → lists D1 u zs) → zs = [] ∨ sendable zs →
  wp (douserlogin ipcreq) (λ text '(c', w'),
    if String.eqb pass acct.(Account.Password) then
      text = "0" ∧ c'.(user) = ClientUser.mk token name u c.(user).(ClientUser.apply_id_data) ∧ free c' ∧
      c'.(zone) = zones_after zs c.(zone) ∧ serving D1 w'
    else text = "-1" ∧ c' = c ∧ serving D w') never (c, w).
Proof.
  intros Hf base Hs Hsl Hig HD name pass Hn Hp Hu Hreg Hacct Hwf token D1 Hl Hz. unfold douserlogin.
  wp_step. apply wp_manager; [done|]. wp_step. apply wp_io, wp_extern. fold base name pass. rewrite (Hsl _ w).
  destruct (wp_run _ _ _ (UserLoginRest_up junk name pass u acct D w HD Hn Hp Hu Hreg Hacct Hwf))
    as ([res cookie] & w1 & Hr & HP).
  rewrite Hr. cbn [fst snd]. wp_step. wp_step. destruct (String.eqb_spec pass (Account.Password acct)) as [Hpass|_].
  2: { destruct HP as (-> & -> & HD1). change (String.eqb "-1" "-1") with true. cbv iota. by wp_step. }
  destruct HP as ((flag & Hflag & Hb) & -> & HD1). fold token D1 in HD1.
  assert (Hbody : String.eqb res.(http_body) "-1" = false ∧ substr_2 res.(http_body) = Some u).
  { rewrite Hb. apply elem_of_cons in Hflag as [->|Hflag%list_elem_of_singleton]; [by destruct u|subst flag; by destruct u]. }
  destruct Hbody as [-> Hid]. cbn [option_list last fmap option_fmap option_map default from_option snd id].
  wp_step. apply wp_update. wp_step. apply wp_update. wp_step. rewrite Hid. wp_step. wp_step. apply wp_update.
  set (c1 := set_user _ _). wp_step. unfold getAuthFromServer. wp_step. apply wp_self. wp_step. apply wp_io.
  unfold SelectNode.getAuthFromServer. wp_step. apply SelectNode.wp_get_manager; [exact Hf|].
  wp_step. unfold ClientRpc.post_request at 1. wp_step. apply wp_extern.
  change (SelectNode.first_url (optNode c1)) with base. rewrite (Hig "/auth/search") by done. wp_step.
  set (res2 := ClientRpc.body_of _).
  set (c2 := λ a, set_optNode (SelectNode.set_auth a c1.(optNode)) c1).
  destruct (zones_received zs c.(zone) Hz) as [listed Hg].
  assert (Hzone : ∀ a, wp (refresh_zone u ≫= λ _, mret "0") (λ text '(c', w'),
    text = "0" ∧ c'.(user) = ClientUser.mk token name u c.(user).(ClientUser.apply_id_data) ∧ free c' ∧
    c'.(zone) = zones_after zs c.(zone) ∧ serving D1 w') never (c2 a, w1)).
  { intros a. wp_step. unfold refresh_zone. wp_step. apply wp_post; [exact Hf|].
    destruct (asked_served (c2 a) "/zone/info" ZoneServer.GetZoneInfoRest u w1 _ Hs eq_refl (Hl Hpass w1 HD1)) as (r & w2 & Ha & Hbz & HD2).
    rewrite Ha. unfold answer. cbn [fst snd ClientRpc.body_of]. rewrite Hbz. wp_step. apply wp_self. wp_step.
    change (zone (c2 a)) with (zone c). rewrite Hg. wp_step. apply wp_update. wp_step. done. }
  destruct (negb (String.eqb res2 "fail") && negb (String.eqb res2 "33")).
  - wp_step. apply SelectNode.wp_lock; [exact Hf|]. wp_step. apply wp_update.
    specialize (Hzone (of_json (SelectNode.myauth (SelectNode.set_locked true (optNode c1))) res2)).
    match type of Hzone with wp _ _ _ (?x, _) => match goal with |- wp _ _ _ (?y, _) => replace y with x end end; [exact Hzone|].
    unfold c2, c1, SelectNode.mutex_unlock, SelectNode.set_auth, SelectNode.set_locked, set_optNode, free in *. cbn. by rewrite Hf.
  - wp_step. apply wp_update. specialize (Hzone (SelectNode.myauth (optNode c1))).
    match type of Hzone with wp _ _ _ (?x, _) => match goal with |- wp _ _ _ (?y, _) => replace y with x end end; [exact Hzone|].
    unfold c2, c1, SelectNode.set_auth, set_optNode. cbn. by destruct (optNode c).
Qed.
End service.
