(* ===== verification/CommandRuns.v ===== *)
(** * Concrete runs of the commands

    The theorems of Commands.v and Service.v at a network that answers one text to
    everything, and at one that consists of a manager on a small database. *)
From S2P Require Import Prelude CxxString Json Records Datastore Instances Md5 User Space Zones Mconf ClientZone SelectNode IpcMod Commands Service.

Import ClientIPC SelectRuns.

(** A request for [name]; the other fields are empty. *)
Definition request (name zonename newzonename accountName Password sug applyid : string)
    (memName spacenames : list string) : IPCreq.t :=
  IPCreq.mk name "" 0 zonename newzonename "" memName "" "" spacenames 0 0 "" accountName Password "" "" "" "" "" ""
    "" "" "" "" sug applyid "" "" "" "" 0 0 "" 0.

Definition user_ann : ClientUser.t := ClientUser.mk "t0" "ann" "u1" {["zregi7" := "{}"]}.
Definition client_ann : client := Client user_ann informed ClientZone.init ∅.
Definition nobody : client := Client ClientUser.init informed ClientZone.init ∅.

Definition sp1 : Space.t := Space.mk "s1" "home" 5 "1" "x" "/u1/s1" "north" "disk" true [].
Definition z1 : Zone.t := Zone.mk "id1" "work" "ann" [] ["s1"] [sp1] 7 5 0 true.
Lemma z1_sendable : sendable [z1].
Proof.
  split; [done|]. constructor; [split; [|done]|done]. unfold Zone.wf. cbn. repeat constructor.
Qed.

(** Everything is answered with the zones of ann, or with one text. *)
Definition zones_network : Pistache Z := network (ClientZone.zones_text [z1]).
Definition mute : Pistache Z := {|
  http_get url token now := (TimedOut, now);
  http_post url token data now := (TimedOut, now);
  http_delete url now := (TimedOut, now);
  http_post_plain url data now := (None, now);
  steady_now now := (now, now);
|}.
(** Requests to leave are answered "0", others "all". *)
Definition mute_exit : Pistache Z := {|
  http_get url token now := (Answered "0", now);
  http_post url token data now := (Answered "all", now);
  http_delete url now := (TimedOut, now);
  http_post_plain url data now := (None, now);
  steady_now now := (now, now);
|}.
Definition zero_indet : Indet := {| indet_int := 0; indet_int64 := 0; indet_bool := false |}.

Lemma request_wf : IPCreq.wf (request "zonelist" "" "" "" "" "" "" [] []).
Proof. unfold IPCreq.wf. repeat (split; [first [exact (Forall_nil_2 _)|vm_compute; reflexivity]|]). vm_compute. reflexivity. Qed.

Theorem dispatch_spec_witness :
  let r := request "zonelist" "" "" "" "" "" "" [] [] in
  dispatch (H := zones_network) (to_json r) = dozonelist (H := zones_network) r.
Proof.
  intros r. apply (dispatch_spec (H := zones_network) r).
  - apply request_wf.
  - unfold commands. cbn. repeat (first [left; reflexivity|right]).
Defined.

Theorem domapdeduct_spec_witness :
  wp (domapdeduct (H := zones_network) (request "mapdeduct" "work" "" "" "" "" "" [] ["home"; "away"]))
    (λ text _, text = missing_space "away") never (client_ann, 0).
Proof.
  eapply wp_mono; [| |apply (domapdeduct_spec (H := zones_network) [z1] z1 _ client_ann 0);
    [done|done|apply z1_sendable|done|done]]; [|done].
  cbn beta zeta. intros text [c' w'] (_ & [(m & before & after & He & Hm & Hb & Ht & _)|(ids & r & Hf & _)]).
  - destruct before as [|b [|b' before]]; cbn in He.
    + injection He as <- _. by vm_compute in Hm.
    + injection He as <- <- _. exact Ht.
    + injection He as _ _ He. by destruct before.
  - inversion_clear Hf as [|? ? ? ? _ Hf']. inversion_clear Hf' as [|? ? ? ? (sp & Hs & _) _]. by vm_compute in Hs.
Defined.

Theorem login_required_witness :
  dozonelist (H := zones_network) (request "zonelist" "" "" "" "" "" "" [] []) (nobody, 0) = (Val "login first", (nobody, 0)).
Proof.
  apply (login_required (H := zones_network) "zonelist" (dozonelist (H := zones_network))); [|done].
  unfold needs_login. repeat (first [left; reflexivity|right]).
Defined.

Theorem no_response_is_success_witness :
  wp (dospacereplica (H := mute) (H2 := zero_indet) (request "spacereplica" "" "" "" "" "" "" [] []))
    (λ text _, text = "success") never (client_ann, 0).
Proof.
  destruct (no_response_is_success (H := mute) (H4 := zero_indet) client_ann 0) as [Hr _];
    [done..|exact (Hr _)].
Defined.

Theorem exit_is_not_logout_witness :
  wp (douserexit (H := mute_exit) (request "userexit" "" "" "ann" "" "" "" [] []) ≫= λ _,
      dozonelist (H := mute_exit) (request "zonelist" "" "" "" "" "" "" [] []))
    (λ text '(c', _), c'.(user).(ClientUser.accountID) = "200" ∧ text = "all") never (client_ann, 0).
Proof.
  eapply wp_mono; [| |apply (exit_is_not_logout (H := mute_exit)); done]; [|done].
  intros text [c' w'] [Hu He]. split; [exact Hu|]. by injection He.
Defined.

Theorem agreed_is_removed_witness :
  wp (dosuggestion (H := mute) (request "suggestion" "" "" "" "" "agree" "zregi7" [] []))
    (λ text _, text = worded registercheck_texts unknown_error "") never (client_ann, 0).
Proof.
  eapply wp_mono; [| |apply (agreed_is_removed (H := mute) _ (worded registercheck_texts unknown_error) "/zone/registercheck"); done];
    [|done].
  by intros text [c' w'] [Ht _].
Defined.

Theorem default_centre_has_no_id_witness :
  wp (SelectNode.entry_turn (H := network (to_json three)) "token" informed) (λ n w',
    wp (locate_space Space.init (λ space, mret space.(Space.hostCenterID)))
      (λ id _, id = "") never (set_optNode n client_ann, w')) never 0.
Proof.
  eapply wp_mono; [| |apply (default_centre_has_no_id (H := network (to_json three)) "token" client_ann 0 times3 11000000);
    [done|by eexists|exact measured|by (change (optNode client_ann) with informed; rewrite mycenter_informed)]]; [|done].
  cbn beta zeta. intros n w' Hk. apply Hk; [done|]. intros id _. by wp_step.
Defined.

(** ** A manager on a small database *)

(** The manager at an address: its routes and its login, on the world. *)
Definition base : string := "http://10.0.0.1:9090".
Definition service (junk : list Z) : Pistache world := {|
  http_get url token w := (Rejected, w);
  http_post url token data w :=
    match head (filter (λ p : string * (string → M world response), base +:+ p.1 = url) routes) with
    | Some (_, handler) => SelectNode.answer_of (handler data w)
    | None => (Answered "Could not find a matching route", w)
    end;
  http_delete url w := (Rejected, w);
  http_post_plain url data w :=
    match UserModelServer.UserLoginRest junk data w with
    | (Val (res, cookie), w') => (Some (res.(http_body), option_list cookie), w')
    | (UB, w') => (None, w')
    end;
  steady_now w := (0, w);
|}.

Lemma routes_at (url : string) :
  filter (λ p : string * (string → M world response), base +:+ p.1 = base +:+ url) routes =
  filter (λ p : string * (string → M world response), p.1 = url) routes.
Proof. apply list_filter_iff. intros p. split; [apply append_inj_l|by intros ->]. Qed.
Lemma service_serves junk : serves (H6 := service junk) base.
Proof. intros url handler token data w Hr. cbn [http_post service]. rewrite routes_at. unfold route in Hr. destruct (head _) as [[? ?]|]; by simplify_eq/=. Qed.
Lemma service_ignores junk : ignores_others (H6 := service junk) base.
Proof. intros url token data w Hr. cbn [http_post service]. rewrite routes_at. unfold route in Hr. destruct (head _) as [[? ?]|]; by simplify_eq/=. Qed.
Lemma service_login junk : serves_login (H6 := service junk) junk base.
Proof. by intros data w. Qed.

Definition zone_ann : Zone.t := Zone.mk "z" "lab" "u1" ["u2"] [] [] 0 0 0 false.
(** As the manager lists it: by the names of the accounts. *)
Definition zone_seen : Zone.t := Zone.mk "z" "lab" "ann" ["bob"] [] [] 77 77 77 true.
Definition ann : Account.t := Account.mk "ann" "pw" "u1" "" "" "" "".
Definition bob : Account.t := Account.mk "bob" "pw2" "u2" "" "" "" "".
Definition names : string :=
  rj_write (JObject [put "ann" codec_string "u1"; put "bob" codec_string "u2"; put "eve" codec_string "u3"]).
Definition D1 : gmap (string * string) string :=
  <[ZoneServer.zone_key (W := world) "z" := Zone.serialize zone_ann]>
    (<[UserModelServer.account_key (W := world) "USER-u1" := to_json ann]>
      (<[UserModelServer.account_key (W := world) "USER-u2" := to_json bob]>
        {[UserModelServer.account_key (W := world) UserModelServer.user_map := names]})).
(** The queries of the manager find the zone twice, as one that ann owns and as one
    she is a member of. *)
Definition rows : list string := [Zone.serialize zone_ann].
Definition w1 : world := World D1 [] rows 0 None None.
Definition at_manager (u : ClientUser.t) : client :=
  Client u (SelectNode.set_delay [SelectNode.Node "north" "10.0.0.1" "9090" "1"] informed) ClientZone.init ∅.

(** Worlds whose queries find the zone. *)
Definition found : CouchbaseUp world := rows_up (λ r, r = rows).
Definition found_subdoc : SubdocLaws (H2 := found) world := rows_subdoc (λ r, r = rows).

Lemma lists_run uuids mk po ps :
  ZoneServer.GetZoneInfoRest "u1" (World D1 uuids rows mk po ps) =
  (Val (Response Code_Ok (ClientZone.zones_text [zone_seen; zone_seen])), World D1 uuids rows mk po ps).
Proof. vm_compute. reflexivity. Qed.
Lemma lists_ann : lists (CouchbaseUp0 := found) D1 "u1" [zone_seen; zone_seen].
Proof.
  intros [D uuids rws mk po ps] [Hr HD]. change (rws = rows) in Hr. change (D = D1) in HD. rewrite Hr, HD. unfold wp.
  rewrite lists_run. done.
Qed.
Lemma seen_sendable : sendable [zone_seen; zone_seen].
Proof.
  assert (Hs : Zone.wf zone_seen ∧ zone_seen.(Zone.contains_spaceinfo) = true).
  { split; [|done]. unfold Zone.wf. cbn. repeat constructor. }
  split; [done|]. by do 2 (constructor; [exact Hs|]).
Qed.
Lemma serving1 : serving (CouchbaseUp0 := found) D1 w1.
Proof. done. Qed.

Theorem share_end_to_end_witness :
  let r := request "zoneshare" "lab" "" "" "" "" "" ["eve"] [] in
  wp (dozoneshare (H := service []) r) (λ text '(_, w'), text = "success" ∧
    ∃ z, w_docs w' !! ZoneServer.zone_key (W := world) "z" = Some (Zone.serialize z) ∧
      z.(Zone.ownerID) = "u1" ∧ "u3" ∈ z.(Zone.memberID)) never
    (at_manager (ClientUser.mk "t" "ann" "u1" ∅), w1).
Proof.
  intros r. eapply wp_mono; [| |apply (share_end_to_end (H6 := service []) (CouchbaseUp0 := found) (SubdocLaws0 := found_subdoc)
    r ["u3"] [zone_seen; zone_seen] zone_ann zone_seen D1)]; [|done|..].
  - intros text [c' w'] (Ht & _ & D' & members & [_ HD] & (z' & -> & _ & Hc) & Hm). split; [exact Ht|].
    exists z'. unfold Zone.core, ZoneServer.with_members in Hc. injection Hc as _ _ Ho Hms _.
    rewrite Ho, Hms, Hm. cbn in HD. rewrite HD, lookup_insert_eq. split_and!; [done|done|by right; left].
  - done.
  - apply service_serves.
  - exact serving1.
  - done.
  - done.
  - by repeat constructor.
  - by repeat constructor.
  - repeat constructor.
  - exact lists_ann.
  - exact seen_sendable.
  - by vm_compute.
  - done.
  - split; [by vm_compute|]. unfold Zone.wf; ground_wf.
  - by left.
Defined.

(** The database once ann has logged in. *)
Definition token_ann : string := md5 [] ("ann" +:+ "pw").
Definition D2 : gmap (string * string) string := <[UserModelServer.account_key (W := world) token_ann := "1"]> D1.
Lemma lists_run_after uuids mk po ps :
  ZoneServer.GetZoneInfoRest "u1" (World D2 uuids rows mk po ps) =
  (Val (Response Code_Ok (ClientZone.zones_text [zone_seen; zone_seen])), World D2 uuids rows mk po ps).
Proof. vm_compute. reflexivity. Qed.
Lemma lists_after : lists (CouchbaseUp0 := found) D2 "u1" [zone_seen; zone_seen].
Proof.
  intros [D uuids rws mk po ps] [Hr HD]. change (rws = rows) in Hr. change (D = D2) in HD. rewrite Hr, HD. unfold wp.
  rewrite lists_run_after. done.
Qed.

#[local] Strategy opaque [md5].
Theorem login_end_to_end_witness :
  let login pass := douserlogin (H := service []) (request "userlogin" "" "" "ann" pass "" "" [] []) in
  let start := (at_manager ClientUser.init, w1) in
  wp (login "pw") (λ text '(c', w'), text = "0" ∧ c'.(user) = ClientUser.mk token_ann "ann" "u1" ∅ ∧
    w_docs w' !! UserModelServer.account_key (W := world) token_ann = Some "1") never start ∧
  wp (login "guess") (λ text '(c', w'), text = "-1" ∧ c' = at_manager ClientUser.init ∧ w_docs w' = D1) never start.
Proof.
  intros login start. split.
  all: eapply wp_mono; [| |apply (login_end_to_end (H6 := service []) (CouchbaseUp0 := found) (SubdocLaws0 := found_subdoc)
      [] _ "u1" ann [zone_seen; zone_seen] D1);
      [done|apply service_serves|apply service_login|apply service_ignores|exact serving1|done|done|done|
        by vm_compute|by vm_compute|unfold Account.wf; ground_wf| |by right; exact seen_sendable]];
      [|done|].
  - intros text [c' w'] Hp. hnf in Hp. destruct Hp as (-> & Hu & _ & _ & [_ HD]).
    split_and!; [done|exact Hu|]. change (w_docs w' = D2) in HD.
    rewrite HD. unfold D2. apply lookup_insert_eq.
  - intros _. exact lists_after.
  - intros text [c' w'] Hp. hnf in Hp. destruct Hp as (-> & Hu & [_ HD]). split_and!; [done|exact Hu|exact HD].
  - intros Hp. by vm_compute in Hp.
Defined.
