(* ===== verification/ToolRuns.v ===== *)
(** * From the arguments of a tool to the command of the client

    The tools in front of the client: what a tool sends is a request of the wire
    format, the handler of its name runs it, and the lines the tool prints are the
    wording of what the handler answers. *)
From S2P Require Import Prelude CxxString Json Records Datastore Instances User Mconf ClientZone SelectNode IpcMod Commands CommandRuns Ipc Tools ToolList.

(** ** The requests of the tools *)
Section requests.
Context `{Rapidjson, Indet}.

Definition member_wf (m : member_value) : Prop :=
  match m with
  | Str s => plain s
  | Strs l => Forall plain l
  | I64 z => in_i64 z = true
  | I32 z => in_i32 z = true
  end.
Definition assignments_wf (l : assignments) : Prop := Forall (λ p : string * member_value, member_wf p.2) l.

Lemma assigned_wf l k m : assignments_wf l → assigned l k = Some m → member_wf m.
Proof.
  unfold assigned. intros Hl. destruct (filter _ l) as [|[k' m'] r] eqn:Hf; [done|]. intros [= <-].
  assert (Hin : (k', m') ∈ filter (λ p : string * member_value, p.1 = k) l) by (rewrite Hf; left).
  apply list_elem_of_filter in Hin as [_ Hin]. unfold assignments_wf in Hl. rewrite Forall_forall in Hl. apply (Hl _ Hin).
Qed.

Lemma ipcreq_wf l : assignments_wf l → IPCreq.wf (ipcreq l).
Proof.
  intros Hl. assert (Hs : ∀ k d, plain d → plain (str_of l k d)).
  { intros k d Hd. unfold str_of. destruct (assigned l k) as [[]|] eqn:Ha; try done. apply (assigned_wf _ _ _ Hl Ha). }
  assert (Hss : ∀ k d, Forall plain d → Forall plain (strs_of l k d)).
  { intros k d Hd. unfold strs_of. destruct (assigned l k) as [[]|] eqn:Ha; try done. apply (assigned_wf _ _ _ Hl Ha). }
  assert (H64 : ∀ k d, in_i64 d = true → in_i64 (i64_of l k d) = true).
  { intros k d Hd. unfold i64_of. destruct (assigned l k) as [[]|] eqn:Ha; try done. apply (assigned_wf _ _ _ Hl Ha). }
  assert (H32 : ∀ k d, in_i32 d = true → in_i32 (i32_of l k d) = true).
  { intros k d Hd. unfold i32_of. destruct (assigned l k) as [[]|] eqn:Ha; try done. apply (assigned_wf _ _ _ Hl Ha). }
  pose proof junk_int_wf as Hj32. pose proof junk_int64_wf as Hj64.
  unfold IPCreq.wf. split_and!; first [by apply Hs|by apply Hss|by apply H64|by apply H32].
Qed.
(** The local variables of a tool hold values of their types. *)
Lemma text_or_plain d v k : plain d → variables_wf v → plain (text_or d v k).
Proof. intros Hd (Hs & _). unfold text_or. destruct (strings v !! k) eqn:Hk; [exact (Hs _ _ Hk)|done]. Qed.
Lemma text_plain v k : variables_wf v → plain (text v k).
Proof. by apply text_or_plain. Qed.
Lemma texts_plain v k : variables_wf v → Forall plain (texts v k).
Proof. intros (_ & Hs & _). unfold texts. destruct (string_lists v !! k) eqn:Hk; [exact (Hs _ _ Hk)|done]. Qed.
Lemma int64_or_wf d v k : in_i64 d = true → variables_wf v → in_i64 (int64_or d v k) = true.
Proof. intros Hd (_ & _ & Hs & _). unfold int64_or. destruct (int64s v !! k) eqn:Hk; [exact (Hs _ _ Hk)|done]. Qed.
Lemma int_or_wf d v k : in_i32 d = true → variables_wf v → in_i32 (int_or d v k) = true.
Proof. intros Hd (_ & _ & _ & Hs). unfold int_or. destruct (ints v !! k) eqn:Hk; [exact (Hs _ _ Hk)|done]. Qed.
End requests.
#[export] Hint Resolve text_plain text_or_plain texts_plain int64_or_wf int_or_wf : gvds.
#[export] Hint Extern 1 (plain _) => reflexivity : gvds.
#[export] Hint Extern 1 (_ (-1) = true) => reflexivity : gvds.

Section sent.
Context `{RapidjsonLaws, Indet}.

Lemma to_json_plain {A} `{JsonStruct A} (a : A) : plain (to_json a).
Proof. apply rj_write_c_str. Qed.

Lemma tools_members_wf t v : t ∈ tools → variables_wf v → assignments_wf (("cmdname", Str t.(Tools.cmdname)) :: t.(members) v).
Proof.
  intros Ht Hv. pose proof junk_int64_wf as Hj. unfold tools in Ht.
  repeat (apply elem_of_cons in Ht as [->|Ht];
    [cbn [Tools.cmdname members]; repeat (apply Forall_cons; split; [first [exact eq_refl|apply to_json_plain|cbn; auto with gvds]|]); apply Forall_nil_2|]).
  by apply elem_of_nil in Ht.
Qed.
End sent.

(** ** A tool and its client *)
Section end_to_end.
Context {W : Type} `{Pistache W, Host W, RapidjsonLaws, Indet, ProgramOptionsLaws}.
Import ClientIPC.
Implicit Types (t : tool) (cw : client * W) (s : connection).

(** The tool writes its request; [l] is what happens on the connection until the tool
    has its answer, or its patience is at an end. *)
Definition tool_run t (argv : list string) (l : list action) cw : option (ending * (client * W)) :=
  match main t argv with
  | inr e => Some (e, cw)
  | inl (v, req) =>
      '(s, cw) ← run dispatch (Write (to_json req) :: l) connected cw;
      Some (finish t v (head s.(responses).(given)), cw)
  end.

(** A valid command line, and the connection once the request is written. *)
Lemma main_wf t argv v req : t ∈ tools → Forall plain argv → main t argv = inl (v, req) →
  IPCreq.wf req ∧ req.(IPCreq.cmdname) = t.(Tools.cmdname).
Proof.
  intros Ht Hargv. unfold main. destruct (precheck t argv); [done|].
  unfold CmdLineProxy.do_global_decode. destruct (po_store _ _) as [v'|what] eqn:Hpo; [|done].
  do 2 (case_bool_decide; [done|]). destruct (refuse t _ _ v'); [done|]. intros [= <- <-].
  split; [|done]. apply ipcreq_wf, (tools_members_wf t v' Ht).
  eapply po_store_wf; [|exact Hpo]. destruct argv; [done|by inversion_clear Hargv].
Qed.

Lemma tools_commands t : t ∈ tools → ∃ command, (t.(Tools.cmdname), command) ∈ commands (W := W).
Proof.
  intros Ht. assert (Hc : t.(Tools.cmdname) ∈ (commands (W := W)).*1).
  { unfold tools in Ht. repeat (apply elem_of_cons in Ht as [->|Ht];
      [cbn [Tools.cmdname]; apply (bool_decide_unpack _); vm_compute; exact I|]). by apply elem_of_nil in Ht. }
  apply list_elem_of_fmap in Hc as ([k command] & -> & Hin). by exists command.
Qed.
Lemma dispatch_request (req : IPCreq.t) command : IPCreq.wf req → (req.(IPCreq.cmdname), command) ∈ commands (W := W) →
  dispatch (to_json req) = command req.
Proof. intros Hwf. by apply dispatch_spec. Qed.

(** One request over a new connection. *)
Lemma written_serving process text cw s cw1 : plain text → act (W := client * W) process (Write text) connected cw = Some (s, cw1) →
  cw1 = cw ∧ serving process cw s cw ∧ s.(asked) = [text] ∧ effort s ≤ 20012.
Proof.
  intros Ht Ha. pose proof (act_moved process cw (Write text) connected cw s cw1 (serving_connected process cw) Ha) as [Hs _].
  unfold act in Ha. cbn [down connected] in Ha. destruct (IPCMessage.make_message_by_charstring text) as [m|] eqn:Hm; [|done].
  destruct (make_message_some _ _ Hm) as (Hbody & Hf & Hdata). rewrite Ht in *. injection Ha as <- <-. split_and!; [done|done|cbn; by rewrite Hbody|].
  unfold effort. cbn [requests responses asked]. rewrite left_of_send, send_keeps, Hdata. pose proof (frame_size _ Hf).
  unfold left_of, open_channel, size_of. cbn -[Z.mul IPCMessage.frame size]. change (size "") with 0. lia.
Qed.

Lemma prefix_single (l : list string) x : l `prefix_of` [x] → l = [] ∨ l = [x].
Proof. intros [k Hk]. destruct l as [|y [|z l]]; [by left| |by destruct l]. right. by injection Hk as -> _. Qed.
Lemma one_request process text l cw s cw1 : plain text → forallb internal l = true →
  run (W := client * W) process (Write text :: l) connected cw = Some (s, cw1) →
  (cw1 = cw ∨ cw1 = (process text cw).2) ∧ Z.of_nat (length l) ≤ 20012 ∧
  (s.(responses).(given) = [] ∨ ∃ r, process text cw = (Val r, cw1) ∧ s.(responses).(given) = [c_str r]) ∧
  (at_rest process s cw1 → ∃ r, process text cw = (Val r, cw1) ∧ s.(responses).(given) = [c_str r]).
Proof.
  intros Ht Hi Hr. assert (Hr' := Hr). cbn [run] in Hr'. destruct (act process (Write text) connected cw) as [[s0 cw0]|] eqn:Ha; [|done].
  destruct (written_serving _ _ _ _ _ Ht Ha) as (-> & Hs0 & Hasked & He). cbn in Hr'.
  destruct (serving_rests process cw l s0 cw s cw1 Hs0 Hi Hr') as (Hlen & Hask & Hrest). rewrite Hasked in *.
  assert (Hone : ∀ rs w', serve process [text] cw = Some (rs, w') → ∃ r, process text cw = (Val r, w') ∧ rs = [c_str r]).
  { cbn [serve]. unfold reply. intros rs w'. destruct (process text cw) as [[r|] w2]; [|done]. cbn.
    case_bool_decide; [|done]. cbn. intros [= <- <-]. by exists r. }
  assert (Hboth : (cw1 = cw ∨ cw1 = (process text cw).2) ∧
    (s.(responses).(given) = [] ∨ ∃ r, process text cw = (Val r, cw1) ∧ s.(responses).(given) = [c_str r])).
  { destruct (run_on_the_way process cw _ _ _ _ _ (serving_connected process cw) Hr)
      as [(_ & Hq & replies & Hsv & Hp)|(s1 & _ & Hask1 & Hresp & (w1 & _ & Hq & replies & Hsv & Hp) & _ & _ & _ & m & replies' & w2 & Hm & Hsv' & _ & ->)].
    - rewrite Hask in Hq. apply carries_given in Hq, Hp. destruct (prefix_single _ _ Hq) as [Hg|Hg]; rewrite Hg in Hsv.
      + injection Hsv as <- <-. apply prefix_nil_inv in Hp. split; by left.
      + destruct (Hone _ _ Hsv) as (r & Hpr & ->). rewrite Hpr. split; [by right|].
        destruct (prefix_single _ _ Hp); [by left|right; by exists r].
    - rewrite Hsv in Hsv'. injection Hsv' as <- <-. rewrite <-Hask1, Hask in Hm. rewrite Hresp.
      destruct (prefix_single _ _ Hm) as [Hg|Hg]; [by destruct (given (requests s1))|].
      destruct (given (requests s1)) as [|x y]; [|by destruct y]. injection Hg as ->. injection Hsv as <- <-.
      apply carries_given, prefix_nil_inv in Hp. split; [by right|by left]. }
  destruct Hboth as [Hcw Hg]. split_and!; [exact Hcw|lia|exact Hg|intros Hat; by apply Hone, Hrest].
Qed.

(** C8: a tool prints what its command answers. Of a command line it accepts, the
    request arrives at the client with every member as the options said, the handler of
    its name runs it, once at most, and the lines the tool ends with are the wording of
    that handler's result; else those for no answer. *)
Theorem tool_runs_its_command t argv v req l cw e cw' : t ∈ tools → Forall plain argv → main t argv = inl (v, req) →
  forallb internal l = true → tool_run t argv l cw = Some (e, cw') →
  ∃ command : IPCreq.t → M (client * W) string, (t.(Tools.cmdname), command) ∈ commands ∧
    (e = finish t v None ∧ (cw' = cw ∨ cw' = (command req cw).2) ∨
     ∃ r, command req cw = (Val r, cw') ∧ e = finish t v (Some (c_str r))).
Proof.
  intros Ht Hargv Hmain Hi Hrun. unfold tool_run in Hrun. rewrite Hmain in Hrun.
  destruct (main_wf t argv v req Ht Hargv Hmain) as [Hwf Hname]. destruct (tools_commands t Ht) as [command Hin].
  exists command. split; [done|]. rewrite <-Hname in Hin.
  destruct (run dispatch _ _ _) as [[s cw1]|] eqn:Hr; [|done]. cbn in Hrun. injection Hrun as <- <-.
  destruct (one_request _ _ _ _ _ _ (to_json_plain req) Hi Hr) as (Hcw & _ & Hg & _). rewrite dispatch_request with (command := command) in * by done.
  destruct Hg as [->|(r & Hc & ->)]; [left; split; [done|exact Hcw]|right; by exists r].
Qed.

(** C22: and it gets its answer: within 20012 steps of the connection nothing is left to
    do, and then, unless the client has died or the connection is broken, the tool has
    printed the wording of what the command answers. *)
Theorem tool_gets_its_answer t argv v req l cw s cw' : t ∈ tools → Forall plain argv → main t argv = inl (v, req) →
  forallb internal l = true → run dispatch (Write (to_json req) :: l) connected cw = Some (s, cw') →
  Z.of_nat (length l) ≤ 20012 ∧
  (at_rest dispatch s cw' → ∃ (command : IPCreq.t → M (client * W) string) r, (t.(Tools.cmdname), command) ∈ commands ∧
     command req cw = (Val r, cw') ∧ tool_run t argv l cw = Some (finish t v (Some (c_str r)), cw')).
Proof.
  intros Ht Hargv Hmain Hi Hr. destruct (main_wf t argv v req Ht Hargv Hmain) as [Hwf Hname].
  destruct (tools_commands t Ht) as [command Hin]. assert (Hin' := Hin). rewrite <-Hname in Hin'.
  destruct (one_request _ _ _ _ _ _ (to_json_plain req) Hi Hr) as (_ & Hlen & _ & Hrest). split; [done|].
  intros Hat. destruct (Hrest Hat) as (r & Hc & Hg). rewrite dispatch_request with (command := command) in Hc by done.
  exists command, r. split_and!; [done|done|]. unfold tool_run. rewrite Hmain, Hr. unfold mbind, option_bind. by rewrite Hg.
Qed.
End end_to_end.

(** ** What some tools tell the user *)
Section told.
Context {W : Type} `{Pistache W, Host W, RapidjsonLaws, !RapidjsonErrors, Indet}.
Import ClientIPC.
Implicit Types (c : client) (w : W) (v : variables) (req : IPCreq.t).

(** What is printed for a list of zones. *)
Lemma print_zones_sent with_id zs v : sendable zs → print_zones with_id v (ClientZone.zones_text zs) = Some (concat (zone_lines with_id <$> zs)).
Proof.
  intros [Hne Hzs]. unfold print_zones. destruct (String.eqb_spec (ClientZone.zones_text zs) "fail") as [He|_].
  - pose proof (ClientZone.decode_encode_zones zs Hzs) as Hd. rewrite He in Hd. unfold ClientZone.decode_zones in Hd.
    change (c_str "fail") with "fail" in Hd. rewrite parse_fail in Hd. by injection Hd as <-.
  - by rewrite ClientZone.decode_encode_zones.
Qed.

(** Zonelist prints the zones the manager lists for the user: each with its name,
    owner, members and spaces, in the order of the answer; but to a user who has not
    logged in it prints nothing, since the refusal is read as a list. *)
Theorem zonelist_shows c w v req zs : free c → sendable zs →
  (∀ vs, rj_parse "login first" ≠ Some (JArray vs)) →
  answer (Commands.asked c "/zone/info" c.(user).(ClientUser.accountID) w) = ClientZone.zones_text zs →
  wp (dozonelist req) (λ text _, finish zonelist_ipc v (Some text) = Exited 0 (executing ::
    if String.eqb c.(user).(ClientUser.accountID) "" then [] else concat (zone_lines true <$> zs))) never (c, w).
Proof.
  intros Hf Hzs Hlogin Ha. unfold dozonelist, with_login. wp_step. apply wp_accountID.
  destruct (String.eqb (ClientUser.accountID (user c)) "").
  - wp_step. unfold finish. cbn [zonelist_ipc shown preamble no_preamble]. unfold print_zones. cbn [String.eqb Ascii.eqb Bool.eqb].
    unfold ClientZone.decode_zones. change (c_str "login first") with "login first".
    destruct (rj_parse "login first") as [[]|]; try done. by destruct (Hlogin l).
  - apply wp_post; [done|]. rewrite Ha. unfold finish. cbn [zonelist_ipc shown preamble no_preamble].
    by rewrite print_zones_sent.
Qed.

(** The tools that delete or modify a centre report success when no manager has
    answered: the client hands on an empty text, and they know only "fail". *)
Theorem silence_deletes_centre c w v req : free c → answer (Commands.asked c "/mconf/deleteCenter" req.(IPCreq.centerID) w) = "" →
  wp (dodeletecenter req) (λ text _, finish deletecenter v (Some text) =
    Exited 0 [executing; "centerID: " +:+ Tools.text v "centerID"; "delete success"]) never (c, w).
Proof. intros Hf Ha. unfold dodeletecenter. apply wp_post; [done|]. by rewrite Ha. Qed.
End told.

(** ** Examples *)
Module ToolExample.

(** Options by their long names, each value an argument of its own. *)
Definition long_name (o : option_description) : string :=
  let name := o.1.1 in default name ((λ n, str_take n name) <$> find_char "," name).
Definition found (args : list option_description) (arg : string) : option option_description :=
  head (filter (λ o, "--" +:+ long_name o = arg) args).
Fixpoint parse (opts : list option_description) (args : list string) (v : variables) : variables + string :=
  match args with
  | [] => inl v
  | k :: rest =>
      match found opts k, rest with
      | Some ((_, Flag, _) as o), _ =>
          parse opts rest (Variables ({[long_name o]} ∪ v.(flags)) v.(strings) v.(string_lists) v.(int64s) v.(ints))
      | Some ((_, OneString, _) as o), x :: rest =>
          parse opts rest (Variables v.(flags) (<[long_name o := x]> v.(strings)) v.(string_lists) v.(int64s) v.(ints))
      | Some ((_, ManyStrings, _) as o), x :: rest =>
          parse opts rest (Variables v.(flags) v.(strings) (<[long_name o := texts v (long_name o) ++ [x]]> v.(string_lists)) v.(int64s) v.(ints))
      | Some ((_, Int64, _) as o), x :: rest =>
          match stoi x with
          | Some z => parse opts rest (Variables v.(flags) v.(strings) v.(string_lists) (<[long_name o := z]> v.(int64s)) v.(ints))
          | None => inr "the argument is invalid"
          end
      | Some ((_, Int32, _) as o), x :: rest =>
          match stoi x with
          | Some z => parse opts rest (Variables v.(flags) v.(strings) v.(string_lists) v.(int64s) (<[long_name o := z]> v.(ints)))
          | None => inr "the argument is invalid"
          end
      | Some _, [] => inr "the required argument is missing"
      | None, _ => inr "unrecognised option"
      end
  end.
Definition nothing : variables := Variables ∅ ∅ ∅ ∅ ∅.
#[export] Instance options : ProgramOptions := {|
  po_store groups args := parse (concat groups.*2) args nothing;
  po_print groups := groups.*1;
|}.

Lemma stoi_range s z : stoi s = Some z → in_i32 z = true.
Proof.
  unfold stoi, signed_digits. destruct (sign_split s) as [neg [|c r]]; [done|]. cbn [snd]. destruct (digit c); [|done]. cbn.
  destruct (in_i32 _) eqn:Hi; [|done]. by intros [= <-].
Qed.
Lemma parse_wf opts args v v' : Forall plain args → variables_wf v → parse opts args v = inl v' → variables_wf v'.
Proof.
  remember (length args) as n eqn:Hn. revert args v Hn. induction n as [n IH] using lt_wf_ind. intros args v -> Hargs Hv.
  destruct args as [|k rest]; cbn [parse]; [by intros [= <-]|]. inversion_clear Hargs as [|? ? Hk Hrest].
  destruct (found opts k) as [[[name ty] help]|]; [|done]. pose proof Hv as (Hs & Hl & H64 & H32).
  assert (Hgo : ∀ rest' u, (length rest' < length (k :: rest))%nat → Forall plain rest' → variables_wf u → parse opts rest' u = inl v' → variables_wf v').
  { intros rest' u Hlen Hrest' Hu. exact (IH _ Hlen rest' u eq_refl Hrest' Hu). }
  destruct ty; destruct rest as [|x rest]; try done; try (inversion_clear Hrest as [|? ? Hx Hxs]).
  - apply Hgo; [cbn; lia|done|done].
  - apply Hgo; [cbn; lia|by constructor|done].
  - apply Hgo; [cbn; lia|done|]. split_and!; try done. by apply map_Forall_insert_2.
  - apply Hgo; [cbn; lia|done|]. split_and!; try done. apply map_Forall_insert_2; [|done].
    apply Forall_app. split; [by apply texts_plain|by constructor].
  - destruct (stoi x) as [z|] eqn:Hz; [|done]. apply Hgo; [cbn; lia|done|]. split_and!; try done.
    apply map_Forall_insert_2; [|done]. apply stoi_range in Hz. unfold in_i32, in_i64 in *. lia.
  - destruct (stoi x) as [z|] eqn:Hz; [|done]. apply Hgo; [cbn; lia|done|]. split_and!; try done.
    apply map_Forall_insert_2; [|done]. by apply stoi_range in Hz.
Qed.
#[export] Instance options_laws : ProgramOptionsLaws.
Proof.
  split. intros groups args v Hargs Hp. eapply parse_wf; [exact Hargs| |exact Hp].
  split_and!; apply map_Forall_empty.
Qed.
End ToolExample.
Import ToolExample ClientIPC SelectRuns.

(** Ann lists her zones. *)
Module ZonelistRun.
Definition req : IPCreq.t := ipcreq [("cmdname", Str "zonelist")].
Definition length_of (s : string) : nat := String.length (IPCMessage.frame s).
Definition steps : list action := [
  Arrive true (length_of (to_json req)); Written false; Read true; Read true;
  Arrive false (length_of (ClientZone.zones_text [z1])); Written true; Read false; Read false].
Definition ending_now : ending := Exited 0 (executing :: zone_lines true z1).
Definition process : string → M (client * Z) string := dispatch (H := zones_network).
Definition after (l : list action) : connection * (client * Z) :=
  default (connected, (client_ann, 0)) (run process (Write (to_json req) :: l) connected (client_ann, 0)).
End ZonelistRun.

Theorem tool_runs_its_command_witness :
  tool_run (H := zones_network) zonelist_ipc ["zonelist"] ZonelistRun.steps (client_ann, 0) = Some (ZonelistRun.ending_now, (client_ann, 1000000)) ∧
  ∃ command : IPCreq.t → M (client * Z) string, ("zonelist", command) ∈ commands (H := zones_network) ∧
    ∃ r, command ZonelistRun.req (client_ann, 0) = (Val r, (client_ann, 1000000)).
Proof.
  assert (Hrun : tool_run (H := zones_network) zonelist_ipc ["zonelist"] ZonelistRun.steps (client_ann, 0) =
    Some (ZonelistRun.ending_now, (client_ann, 1000000))) by (vm_compute; reflexivity).
  split; [exact Hrun|].
  destruct (tool_runs_its_command (H := zones_network) zonelist_ipc ["zonelist"] nothing ZonelistRun.req ZonelistRun.steps (client_ann, 0)
    ZonelistRun.ending_now (client_ann, 1000000)) as (command & Hin & [[He _]|(r & Hc & _)]);
    [unfold tools; repeat (first [left; reflexivity|right])|repeat constructor|vm_compute; reflexivity|reflexivity|exact Hrun| |].
  - discriminate He.
  - exists command. split; [exact Hin|]. exists r. exact Hc.
Defined.

Theorem tool_gets_its_answer_witness :
  ∃ r, tool_run (H := zones_network) zonelist_ipc ["zonelist"] ZonelistRun.steps (client_ann, 0) =
    Some (finish zonelist_ipc nothing (Some (c_str r)), (client_ann, 1000000)).
Proof.
  destruct (tool_gets_its_answer (H := zones_network) zonelist_ipc ["zonelist"] nothing ZonelistRun.req ZonelistRun.steps (client_ann, 0)
    (ZonelistRun.after ZonelistRun.steps).1 (client_ann, 1000000)) as [_ Hrest];
    [unfold tools; repeat (first [left; reflexivity|right])|repeat constructor|vm_compute; reflexivity|reflexivity|vm_compute; reflexivity|].
  destruct Hrest as (command & r & _ & _ & Hr); [|exists r; exact Hr].
  split_and!; [|vm_compute; reflexivity|vm_compute; discriminate..].
  intros [str|[] [|k]|[]|[]|[]] Ha; first [discriminate Ha|vm_compute; reflexivity].
Defined.

Theorem zonelist_shows_witness :
  wp (dozonelist (H := zones_network) ZonelistRun.req)
    (λ text _, finish zonelist_ipc nothing (Some text) = Exited 0 [executing; "区域名称:work"; "区域主人:ann"; "空间名称:home"; "空间ID: s1";
      "空间容量:5"; "空间所在地:north"; "============================="]) never (client_ann, 0).
Proof.
  apply (zonelist_shows (H := zones_network) client_ann 0 nothing ZonelistRun.req [z1]); [done|apply z1_sendable| |done].
  intros vs Hp. vm_compute in Hp. discriminate.
Defined.

Theorem silence_deletes_centre_witness :
  wp (dodeletecenter (H := mute) ZonelistRun.req)
    (λ text _, finish deletecenter nothing (Some text) = Exited 0 [executing; "centerID: "; "delete success"]) never (client_ann, 0).
Proof. apply (silence_deletes_centre (H := mute) client_ann 0 nothing ZonelistRun.req); done. Defined.
