(* ===== verification/Config.v ===== *)
(** * The configuration (config/ConfigureSettings.cc, default_config.hpp)

    Settings are a tree of groups over libconfig, addressed by paths with dots. The
    references that the source walks along are replaced by the steps themselves: what
    is done at the end of a path is done by a function, and the groups on the way are
    put back. libconfig is the interface [Libconfig]. *)
From S2P Require Import Prelude CxxString.

(** The values of the program, with their types: [ConfigTypeConvert]. *)
Inductive config_value : Type :=
| CInt (z : Z)
| CInt64 (z : Z)
| CFloat (literal : string)
| CBool (b : bool)
| CString (s : string)
| CList (l : list config_value).
Inductive config_type : Type := TypeInt | TypeInt64 | TypeFloat | TypeBoolean | TypeString | TypeList.
#[export] Instance config_type_dec : EqDecision config_type.
Proof. solve_decision. Defined.
Definition code (v : config_value) : config_type :=
  match v with
  | CInt _ => TypeInt | CInt64 _ => TypeInt64 | CFloat _ => TypeFloat | CBool _ => TypeBoolean | CString _ => TypeString
  | CList _ => TypeList
  end.

(** libconfig: a setting, and the operations of [Setting] the source uses on its
    members. [add_setting] is [None] where it throws. *)
Class Libconfig : Type := {
  setting : Type;
  new_group : setting;
  new_value : config_value → setting;
  isGroup : setting → bool;
  (** [exists] and [operator[]] *)
  member : setting → string → option setting;
  add_setting : string → setting → setting → option setting;
  (** a change of an existing member, through a reference *)
  put_back : string → setting → setting → setting;
  (** [lookupValue] of a found setting, into a variable of a type *)
  value_of : config_type → setting → option config_value;
  isList : setting → bool;
  elements : setting → list setting;
  getType : setting → option config_type;
}.
(** All values but the lists, of which the source reads the elements ([get_list]). *)
Definition scalar (v : config_value) : bool := match v with CList _ => false | _ => true end.
(** The names of settings. *)
Definition name_ok (s : string) : bool :=
  let letter c := let n := byte_of c in ((65 <=? n) && (n <=? 90)) || ((97 <=? n) && (n <=? 122)) || (n =? 42) in
  let more c := letter c || (if digit c then true else false) || (byte_of c =? 45) || (byte_of c =? 95) in
  match s with String c s => letter c && forallb more (String.list_ascii_of_string s) | "" => false end.
Class LibconfigLaws `{Libconfig} : Prop := {
  new_group_group : isGroup new_group = true;
  new_group_empty k : member new_group k = None;
  new_value_scalar v : isGroup (new_value v) = false;
  scalar_no_members g k : isGroup g = false → member g k = None;
  member_add k n g g' : add_setting k n g = Some g' → member g' k = Some n;
  member_add_ne k k' n g g' : add_setting k n g = Some g' → k' ≠ k → member g' k' = member g k';
  add_group k n g g' : add_setting k n g = Some g' → isGroup g' = isGroup g;
  member_put_back k n g : is_Some (member g k) → member (put_back k n g) k = Some n;
  member_put_back_ne k k' n g : k' ≠ k → member (put_back k n g) k' = member g k';
  put_back_group k n g : isGroup (put_back k n g) = isGroup g;
  value_of_new v : scalar v = true → value_of (code v) (new_value v) = Some v;
  value_of_group ty g : isGroup g = true → value_of ty g = None;
  add_some k n g : isGroup g = true → member g k = None → name_ok k = true → is_Some (add_setting k n g);
}.

(** The tokens in front of dots, and the rest. *)
Fixpoint split_path (fuel : nat) (path : string) : list string * string :=
  match fuel, find_char "." path with
  | S fuel, Some pos =>
      let '(tokens, rest) := split_path fuel (str_drop (pos + 1) path) in (substr 0 pos path :: tokens, rest)
  | _, _ => ([], path)
  end.
Definition path_of (path : string) : list string * string := split_path (String.length path) path.

Module ConfigureSettings.
Record config (S : Type) : Type := mk {
  baseCfg : S;
  vaild : bool;
}.
Arguments mk {S}.
Arguments baseCfg {S}.
Arguments vaild {S}.

Section settings.
Context `{Libconfig}.

Notation t := (config setting).

(** The groups along the tokens; [None] where it returns null. *)
Fixpoint push_forward (tokens : list string) (setting_cur : setting) : option setting :=
  match tokens with
  | [] => Some setting_cur
  | token :: tokens =>
      match member setting_cur token with
      | None => None
      | Some next => if negb (isGroup next) then None else push_forward tokens next
      end
  end.
(** The setting at a path. *)
Definition at_path (path : list string * string) (root : setting) : option setting :=
  setting_cur ← push_forward path.1 root; member setting_cur path.2.

Definition get (ty : config_type) (path : string) (c : t) : option config_value :=
  if negb c.(vaild) then None else n ← at_path (path_of path) c.(baseCfg); value_of ty n.

(** The elements of the type asked for; the others are left out. *)
Definition get_list (ty : config_type) (path : string) (c : t) : option (list config_value) :=
  if negb c.(vaild) then None
  else
    n ← at_path (path_of path) c.(baseCfg);
    if isList n
    then Some (omap (λ value, if bool_decide (getType value = Some ty) then value_of ty value else None) (elements n))
    else None.

(** [_build_group], and what is done in the group it returns; [None] where the process
    ends, with [ASSERT] or an exception. *)
Fixpoint build_group {A} (tokens : list string) (f : setting → option (setting * A)) (setting_cur : setting) : option (setting * A) :=
  match tokens with
  | [] => f setting_cur
  | token :: tokens =>
      setting_cur ← match member setting_cur token with
                    | None => add_setting token new_group setting_cur
                    | Some next => if negb (isGroup next) then None else Some setting_cur
                    end;
      next ← member setting_cur token;
      '(next, a) ← build_group tokens f next;
      Some (put_back token next setting_cur, a)
  end.
Definition add_here (path : string) (value : config_value) (setting_cur : setting) : option (setting * bool) :=
  match member setting_cur path with
  | Some _ => Some (setting_cur, false)
  | None => g ← add_setting path (new_value value) setting_cur; Some (g, true)
  end.

(** [add]; the second [_build_group] has no dots left to follow. *)
Definition add (path : string) (value : config_value) (c : t) : option (t * bool) :=
  if negb c.(vaild) then Some (c, false)
  else
    '(root, added) ← build_group (path_of path).1 (add_here (path_of path).2 value) c.(baseCfg);
    Some (mk root c.(vaild), added).

(** config/default_config.hpp: the additions in turn, their results ignored. *)
Definition defaults : list (string * config_value) := [
  ("user.age", CInt 1); ("user.hello.world", CBool false); ("user.world", CString "any string"); ("float", CFloat "3.14");
  ("list", CList [CInt 1; CInt 2; CInt 3]); ("ip", CString "127.0.0.1"); ("manager_addr", CString "127.0.0.1:9090");
  ("ioproxy.cid", CString "1"); ("log.path", CString "/var/log/gvds.log"); ("log.level", CInt 10);
  ("ioproxy.rpc_port", CInt 9092); ("ioproxy.rpc_workers", CInt 6); ("ioproxy.rpc_timeout", CInt 3000);
  ("ioproxy.rpc_retry", CInt 3); ("manager.couchbase_addr", CString "127.0.0.1"); ("manager.couchbase_user", CString "dev");
  ("manager.couchbase_passwd", CString "buaaica"); ("client.mountpoint", CString "/mnt/gvds"); ("client.foreground", CBool true);
  ("client.debug", CBool false); ("client.multithread", CBool true); ("client.auto_unmount", CBool true);
  ("client.use_udt", CBool false); ("ioproxy.scher", CInt 6); ("ioproxy.data_port", CInt 9095);
  ("ioproxy.data_buffer", CInt 10240000); ("ioproxy.data_conn", CInt 50); ("client.data_port_begin", CInt 9096);
  ("client.data_port_end", CInt 9150); ("client.data_buffer", CInt 10240000); ("manager.port", CInt 9090);
  ("manager.thread_num", CInt 6); ("manager.id", CString "1")].
Fixpoint add_all (l : list (string * config_value)) (_config : config setting) : option (config setting) :=
  match l with
  | [] => Some _config
  | (path, value) :: l => '(_config, _) ← add path value _config; add_all l _config
  end.
Definition default_config (_config : config setting) : option (config setting) := add_all defaults _config.

(** The constructor: [readFile] gives the root, or throws one of three exceptions. *)
Definition read (file : option setting) : t :=
  match file with
  | Some root => mk root true
  | None => mk new_group false
  end.
(** [init_config], given what [exists] and [readFile] say of each path: null, or the
    configuration; the outer [None] where the process ends. *)
Fixpoint first_existing (paths : list string) (files : string → option (option setting)) : option (option setting) :=
  match paths with
  | [] => None
  | path :: paths => match files path with Some file => Some file | None => first_existing paths files end
  end.
Definition init_config (config_path : string) (files : string → option (option setting)) : option (option t) :=
  let default_config_paths := (if String.eqb config_path "" then [] else [config_path]) ++
    ["./gvds.conf"; "/etc/gvds/gvds.conf"; "/opt/gvds/gvds.conf"] in
  match first_existing default_config_paths files with
  | None => Some None
  | Some file =>
      let _config := read file in
      if negb _config.(vaild) then Some None else c ← default_config _config; Some (Some c)
  end.
End settings.
End ConfigureSettings.

(** ** Paths *)
Fixpoint join (tokens : list string) (last : string) : string :=
  match tokens with [] => last | t :: ts => t +:+ "." +:+ join ts last end.
Lemma find_char_split c s pos : find_char c s = Some pos → s = substr 0 pos s +:+ String c (str_drop (pos + 1) s).
Proof.
  revert pos. induction s as [|a s IH]; intros pos; cbn [find_char]; [done|].
  destruct (Ascii.eqb_spec c a) as [<-|_]; [by intros [= <-]|]. destruct (find_char c s) as [n|]; [|done]. cbn.
  intros [= <-]. specialize (IH n eq_refl). unfold substr in *. cbn. rewrite append_cons. f_equal. exact IH.
Qed.
Lemma join_split fuel path : join (split_path fuel path).1 (split_path fuel path).2 = path.
Proof.
  revert path. induction fuel as [|fuel IH]; intros path; [done|]. cbn [split_path].
  destruct (find_char "." path) as [pos|] eqn:Hf; [|done]. specialize (IH (str_drop (pos + 1) path)).
  destruct (split_path fuel _) as [ts l]. cbn [join fst snd] in *. rewrite IH. symmetry. by apply find_char_split.
Qed.
Lemma path_of_inj p q : path_of p = path_of q → p = q.
Proof. unfold path_of. intros Hpq. rewrite <-(join_split (String.length p) p), <-(join_split (String.length q) q). by rewrite Hpq. Qed.

Module ConfigFacts.
Import ConfigureSettings.
Section facts.
Context `{LibconfigLaws}.
Implicit Types (g n : setting) (p q : list string * string).

(** [q] is a group on the way to [p]. *)
Definition section q p : Prop := q.1 ++ [q.2] `prefix_of` p.1.
#[export] Instance section_dec q p : Decision (section q p).
Proof. unfold section. apply _. Defined.

Lemma at_path_cons t ts l g : at_path (t :: ts, l) g = n ← member g t; if negb (isGroup n) then None else at_path (ts, l) n.
Proof. unfold at_path, mbind, option_bind. cbn [push_forward fst snd]. destruct (member g t) as [n|]; [|done]. by destruct (isGroup n). Qed.
Lemma at_path_nil l g : at_path ([], l) g = member g l.
Proof. done. Qed.
Lemma at_path_new_group q : at_path q new_group = None.
Proof. destruct q as [[|t ts] l]; [by apply new_group_empty|]. by rewrite at_path_cons, new_group_empty. Qed.

(** One level of [build_group]: a group [next] at the token, which is replaced. *)
Lemma build_group_cons {A} t ts (f : setting → option (setting * A)) g g' a : build_group (t :: ts) f g = Some (g', a) →
  ∃ g1 next next', (member g t = None ∧ add_setting t new_group g = Some g1 ∧ next = new_group ∨ member g t = Some next ∧ g1 = g) ∧
    isGroup next = true ∧ member g1 t = Some next ∧ build_group ts f next = Some (next', a) ∧ g' = put_back t next' g1.
Proof.
  cbn [build_group]. destruct (member g t) as [next|] eqn:Hm.
  - destruct (isGroup next) eqn:Hg; [|done]. unfold mbind, option_bind. cbn [negb]. rewrite Hm.
    destruct (build_group ts f next) as [[next' a']|] eqn:Hb; [|done]. intros [= <- <-]. exists g, next, next'. split_and!; auto.
  - unfold mbind, option_bind. destruct (add_setting t new_group g) as [g1|] eqn:Ha; [|done]. rewrite (member_add _ _ _ _ Ha).
    destruct (build_group ts f new_group) as [[next' a']|] eqn:Hb; [|done]. intros [= <- <-].
    exists g1, new_group, next'. split_and!; auto using new_group_group. by apply (member_add _ _ _ _ Ha).
Qed.

Lemma build_group_group ts f g g' (b : bool) : (∀ g g' b, f g = Some (g', b) → isGroup g' = isGroup g) →
  build_group ts f g = Some (g', b) → isGroup g' = isGroup g.
Proof.
  intros Hf. destruct ts as [|t ts]; [by apply Hf|].
  intros (g1 & next & next' & Hor & _ & _ & _ & ->)%build_group_cons. rewrite put_back_group.
  destruct Hor as [(_ & Ha & _)|[_ ->]]; [by apply (add_group _ _ _ _ Ha)|done].
Qed.
Lemma add_here_group l v g g' b : add_here l v g = Some (g', b) → isGroup g' = isGroup g.
Proof.
  unfold add_here. destruct (member g l); [by intros [= <- <-]|]. unfold mbind, option_bind.
  destruct (add_setting _ _ _) as [g1|] eqn:Ha; [|done]. intros [= <- <-]. by apply (add_group _ _ _ _ Ha).
Qed.

(** What an addition does at its path, and elsewhere. *)
Lemma added_here ts l v g g' b : build_group ts (add_here l v) g = Some (g', b) →
  b = bool_decide (at_path (ts, l) g = None) ∧ at_path (ts, l) g' = if b then Some (new_value v) else at_path (ts, l) g.
Proof.
  revert g g'. induction ts as [|t ts IH]; intros g g'.
  { cbn [build_group]. unfold add_here. rewrite !at_path_nil. destruct (member g l) as [n|] eqn:Hm; [by intros [= <- <-]; rewrite Hm|].
    unfold mbind, option_bind. destruct (add_setting _ _ _) as [g1|] eqn:Ha; [|done]. intros [= <- <-]. by rewrite (member_add _ _ _ _ Ha). }
  intros (g1 & next & next' & Hor & Hng & Hn1 & Hb & ->)%build_group_cons. destruct (IH _ _ Hb) as [-> Hat].
  assert (Hng' : isGroup next' = true) by (rewrite <-Hng; eapply build_group_group; [apply add_here_group|exact Hb]).
  assert (Hat0 : at_path (t :: ts, l) g = at_path (ts, l) next).
  { rewrite at_path_cons. unfold mbind, option_bind. destruct Hor as [(-> & _ & ->)|[-> ->]]; [by rewrite at_path_new_group|]. by rewrite Hng. }
  rewrite Hat0, at_path_cons, member_put_back by (by eexists). unfold mbind, option_bind. by rewrite Hng'.
Qed.

Lemma added_elsewhere ts l v g g' b q : build_group ts (add_here l v) g = Some (g', b) → q ≠ (ts, l) →
  at_path q g' = at_path q g ∨
  section q (ts, l) ∧ (∀ n, at_path q g = Some n → isGroup n = true) ∧ ∃ n', at_path q g' = Some n' ∧ isGroup n' = true.
Proof.
  destruct q as [ts' l']. revert ts' g g'. induction ts as [|t ts IH]; intros ts' g g'.
  { intros Hb Hq. left. cbn [build_group] in Hb. unfold add_here in Hb. destruct (member g l) as [n|] eqn:Hm; [by injection Hb as <- _|].
    unfold mbind, option_bind in Hb. destruct (add_setting _ _ _) as [g1|] eqn:Ha; [|done]. injection Hb as <- _.
    destruct ts' as [|t' ts']; [rewrite !at_path_nil; apply (member_add_ne _ _ _ _ _ Ha); by intros ->|].
    rewrite !at_path_cons. destruct (decide (t' = l)) as [->|Ht]; [|by rewrite (member_add_ne _ _ _ _ _ Ha)].
    rewrite (member_add _ _ _ _ Ha), Hm. unfold mbind, option_bind. by rewrite new_value_scalar. }
  intros (g1 & next & next' & Hor & Hng & Hn1 & Hb & ->)%build_group_cons Hq.
  assert (Hng' : isGroup next' = true) by (rewrite <-Hng; eapply build_group_group; [apply add_here_group|exact Hb]).
  assert (Hne : ∀ k, k ≠ t → member (put_back t next' g1) k = member g k).
  { intros k Hk. rewrite member_put_back_ne by done. destruct Hor as [(_ & Ha & _)|[_ ->]]; [|done]. by apply (member_add_ne _ _ _ _ _ Ha). }
  destruct ts' as [|t' ts'].
  { rewrite !at_path_nil. destruct (decide (l' = t)) as [->|Hl]; [|left; by apply Hne]. right. split_and!.
    - exists ts. done.
    - intros n Hn. destruct Hor as [(Hm & _)|[Hm _]]; [congruence|]. rewrite Hm in Hn. by injection Hn as <-.
    - exists next'. by rewrite member_put_back by (by eexists). }
  rewrite !at_path_cons. destruct (decide (t' = t)) as [->|Ht]; [|left; by rewrite Hne].
  rewrite member_put_back by (by eexists).
  assert (Hat0 : (member g t ≫= λ n, if negb (isGroup n) then None else at_path (ts', l') n) = at_path (ts', l') next).
  { unfold mbind, option_bind. destruct Hor as [(-> & _ & ->)|[-> ->]]; [by rewrite at_path_new_group|]. by rewrite Hng. }
  rewrite Hat0. unfold mbind, option_bind. rewrite Hng'. cbn [negb]. destruct (IH ts' _ _ Hb ltac:(congruence)) as [He|((k & Hk) & Hs)]; [by left|right].
  split; [|exact Hs]. exists k. cbn in *. by rewrite Hk.
Qed.

(** A setting that [at_path] does not find, or that is a group, has no value. *)
Definition value_at ty q g : option config_value := n ← at_path q g; value_of ty n.
Lemma value_added_elsewhere ts l v g g' b q ty : build_group ts (add_here l v) g = Some (g', b) → q ≠ (ts, l) → value_at ty q g' = value_at ty q g.
Proof.
  intros Hb Hq. unfold value_at. destruct (added_elsewhere _ _ _ _ _ _ _ Hb Hq) as [->|(_ & Hn & n' & -> & Hn')]; [done|].
  unfold mbind, option_bind. rewrite value_of_group by done. destruct (at_path q g) as [n|]; [|done]. by rewrite value_of_group by auto.
Qed.

(** ** No addition ends the process where sections are groups *)
Fixpoint open (tokens : list string) g : Prop :=
  match tokens with
  | [] => True
  | t :: ts => ∀ n, member g t = Some n → isGroup n = true ∧ open ts n
  end.
Lemma open_new_group ts : open ts new_group.
Proof. destruct ts as [|t ts]; [done|]. intros n. by rewrite new_group_empty. Qed.
Lemma build_group_total ts l v g : isGroup g = true → open ts g → name_ok l = true → Forall (λ t, name_ok t = true) ts →
  is_Some (build_group ts (add_here l v) g).
Proof.
  intros Hg Ho Hl Hts. revert g Hg Ho. induction Hts as [|t ts Ht Hts IH]; intros g Hg Ho; cbn [build_group].
  { unfold add_here. destruct (member g l) eqn:Hm; [by eexists|]. unfold mbind, option_bind.
    destruct (add_some l (new_value v) g Hg Hm Hl) as [g' ->]. by eexists. }
  unfold mbind, option_bind. destruct (member g t) as [next|] eqn:Hm.
  - destruct (Ho next Hm) as [Hn Hon]. rewrite Hn. cbn [negb]. rewrite Hm.
    destruct (IH next Hn Hon) as [[next' b] ->]. by eexists.
  - destruct (add_some t new_group g Hg Hm Ht) as [g1 Ha]. rewrite Ha, (member_add _ _ _ _ Ha).
    destruct (IH new_group new_group_group (open_new_group ts)) as [[next' b] ->]. by eexists.
Qed.
(** A setting on the way that is no group ends it. *)
Lemma build_group_open ts l v g : is_Some (build_group ts (add_here l v) g) → open ts g.
Proof.
  revert g. induction ts as [|t ts IH]; intros g [[g' b] Hb]; [done|]. intros n Hm.
  apply build_group_cons in Hb as (g1 & next & next' & [(Hm' & _)|[Hm' ->]] & Hng & _ & Hb & _); [congruence|].
  rewrite Hm in Hm'. injection Hm' as ->. split; [done|]. apply IH. by eexists.
Qed.
Lemma open_added ts l v g g' b ts' : build_group ts (add_here l v) g = Some (g', b) → ¬ (ts ++ [l] `prefix_of` ts') →
  open ts' g → open ts' g'.
Proof.
  revert ts' g g'. induction ts as [|t ts IH]; intros ts' g g' Hb Hp Ho; (destruct ts' as [|t' ts']; [done|]).
  { cbn [build_group] in Hb. unfold add_here in Hb. destruct (member g l) as [n|] eqn:Hm; [by injection Hb as <- _|].
    unfold mbind, option_bind in Hb. destruct (add_setting _ _ _) as [g1|] eqn:Ha; [|done]. injection Hb as <- _.
    intros n Hn. apply Ho. rewrite <-(member_add_ne _ t' _ _ _ Ha); [done|]. intros ->. apply Hp. by exists ts'. }
  apply build_group_cons in Hb as (g1 & next & next' & Hor & Hng & Hn1 & Hb & ->). intros n.
  destruct (decide (t' = t)) as [->|Ht].
  - rewrite member_put_back by (by eexists). intros [= <-]. split; [rewrite <-Hng; eapply build_group_group; [apply add_here_group|exact Hb]|].
    apply (IH ts' _ _ Hb); [intros [k Hk]; apply Hp; exists k; by rewrite Hk|].
    destruct Hor as [(_ & _ & ->)|[Hm ->]]; [apply open_new_group|by apply (Ho next)].
  - rewrite member_put_back_ne by done. intros Hn. apply Ho. destruct Hor as [(_ & Ha & _)|[_ ->]]; [|done].
    by rewrite <-(member_add_ne _ t' _ _ _ Ha).
Qed.

(** ** Many additions *)
Definition separated (l : list (string * config_value)) : Prop :=
  NoDup l.*1 ∧ Forall (λ x, Forall (λ y, ¬ section (path_of x) (path_of y)) l.*1) l.*1.
Lemma separated_cons k v l : separated ((k, v) :: l) → separated l ∧ k ∉ l.*1 ∧
  Forall (λ x, ¬ section (path_of k) (path_of x) ∧ ¬ section (path_of x) (path_of k)) l.*1.
Proof.
  unfold separated. rewrite fmap_cons. cbn [fst]. intros [[Hk Hnd]%NoDup_cons [Hks Hs]%Forall_cons]. split_and!; [done| |done|].
  - eapply Forall_impl; [exact Hs|]. intros x Hx. by inversion_clear Hx.
  - apply Forall_cons in Hks as [_ Hks]. rewrite Forall_forall in Hks, Hs. apply Forall_forall. intros x Hx.
    split; [by apply Hks|]. pose proof (Hs x Hx) as Hpk. by inversion_clear Hpk.
Qed.

Lemma get_value ty path c : c.(vaild) = true → get ty path c = value_at ty (path_of path) c.(baseCfg).
Proof. intros Hv. unfold get. by rewrite Hv. Qed.
Lemma add_build path v c c' b : c.(vaild) = true → ConfigureSettings.add path v c = Some (c', b) →
  c'.(vaild) = true ∧ build_group (path_of path).1 (add_here (path_of path).2 v) c.(baseCfg) = Some (c'.(baseCfg), b).
Proof.
  intros Hv. unfold ConfigureSettings.add. rewrite Hv. cbn [negb]. destruct (build_group _ _ _) as [[root b']|]; [|done].
  by intros [= <- <-].
Qed.

Lemma add_all_values l c c' : separated l → c.(vaild) = true → add_all l c = Some c' →
  c'.(vaild) = true ∧ ∀ ty path,
    (∀ v, (path, v) ∈ l → get ty path c' = match at_path (path_of path) c.(baseCfg) with Some n => value_of ty n | None => value_of ty (new_value v) end) ∧
    (path ∉ l.*1 → get ty path c' = get ty path c).
Proof.
  revert c. induction l as [|[k v0] l IH]; intros c Hsep Hv Hall; cbn [add_all] in Hall.
  { injection Hall as <-. split; [done|]. intros ty path. split; [by intros v ?%elem_of_nil|done]. }
  destruct (ConfigureSettings.add k v0 c) as [[c1 b]|] eqn:Ha; [|done]. cbn in Hall. destruct (separated_cons _ _ _ Hsep) as (Hl & Hk & Hks).
  destruct (add_build _ _ _ _ _ Hv Ha) as [Hv1 Hb]. destruct (IH c1 Hl Hv1 Hall) as [Hv' Hvals]. split; [done|]. intros ty path.
  assert (Hone : path ≠ k → get ty path c1 = get ty path c).
  { intros Hne. rewrite !get_value by done. apply (value_added_elsewhere _ _ _ _ _ _ _ _ Hb).
    rewrite <-surjective_pairing. by intros ?%path_of_inj. }
  destruct (Hvals ty path) as [Hin Hout]. split.
  - intros v [[= -> ->]|Hvl]%elem_of_cons.
    + rewrite Hout, get_value by done. destruct (added_here _ _ _ _ _ _ Hb) as [-> Hat].
      unfold value_at. rewrite <-surjective_pairing in Hat. rewrite Hat. case_bool_decide as Hn; [by rewrite Hn|].
      by destruct (at_path (path_of k) (baseCfg c)).
    + rewrite (Hin v Hvl). assert (Hp : path ∈ l.*1) by (by apply (list_elem_of_fmap_2 fst _ (path, v))).
      destruct (added_elsewhere _ _ _ _ _ _ (path_of path) Hb) as [->|[Hsec _]]; [|done|].
      * rewrite <-surjective_pairing. intros ->%path_of_inj. done.
      * rewrite <-surjective_pairing in Hsec. rewrite Forall_forall in Hks. by destruct (Hks path Hp) as [_ []].
  - rewrite fmap_cons. intros Hp. apply not_elem_of_cons in Hp as [Hne Hp]. rewrite Hout by done. by apply Hone.
Qed.

Lemma add_all_total l c : separated l → isGroup c.(baseCfg) = true →
  Forall (λ x, open (path_of x).1 c.(baseCfg) ∧ name_ok (path_of x).2 = true ∧ Forall (λ t, name_ok t = true) (path_of x).1) l.*1 →
  is_Some (add_all l c).
Proof.
  revert c. induction l as [|[k v0] l IH]; intros c Hsep Hg Hall; [by eexists|]. cbn [add_all].
  destruct (separated_cons _ _ _ Hsep) as (Hl & Hk & Hks). rewrite fmap_cons in Hall. apply Forall_cons in Hall as [(Ho & Hn & Hns) Hall].
  unfold mbind, option_bind. destruct (vaild c) eqn:Hv.
  - destruct (build_group_total (path_of k).1 (path_of k).2 v0 (baseCfg c) Hg Ho Hn Hns) as [[root b] Hb].
    assert (Ha : ConfigureSettings.add k v0 c = Some (mk root (vaild c), b)) by (unfold ConfigureSettings.add; by rewrite Hv, Hb).
    rewrite Ha. apply IH; [done| |].
    + cbn. rewrite <-Hg. eapply build_group_group; [apply add_here_group|exact Hb].
    + rewrite Forall_forall in Hall, Hks |- *. intros x Hx. destruct (Hall x Hx) as (Hop & Hnp). split; [|done].
      apply (open_added _ _ _ _ _ _ _ Hb); [|done]. by destruct (Hks x Hx).
  - unfold ConfigureSettings.add at 1. rewrite Hv. cbn [negb]. by apply IH.
Qed.

Lemma defaults_separated : separated defaults.
Proof. unfold separated. split; apply (bool_decide_unpack _); vm_compute; exact I. Qed.
Lemma defaults_named : Forall (λ x, name_ok (path_of x).2 = true ∧ Forall (λ t, name_ok t = true) (path_of x).1) defaults.*1.
Proof. apply (bool_decide_unpack _). vm_compute. exact I. Qed.
End facts.
End ConfigFacts.
Import ConfigureSettings ConfigFacts.

Section theorems.
Context `{LibconfigLaws}.

(** C24: what is added is what is read. In a configuration that was read from a
    file, and at a path of names that libconfig accepts, an addition comes to its end
    exactly where every setting on the way to the path is a group or is missing; below
    a setting that is no group, the process ends with [ASSERT]. The addition succeeds
    where nothing was at the path before. Any value but a list is then read back at
    its type, and no other path reads differently. It never replaces a setting: where
    there is one, nothing changes. *)
Theorem added_is_read path v c : c.(vaild) = true → isGroup c.(baseCfg) = true →
  name_ok (path_of path).2 = true → Forall (λ t, name_ok t = true) (path_of path).1 →
  (is_Some (ConfigureSettings.add path v c) ↔ open (path_of path).1 c.(baseCfg)) ∧
  ∀ c' b, ConfigureSettings.add path v c = Some (c', b) →
    (b = true ↔ at_path (path_of path) c.(baseCfg) = None) ∧
    (b = true → scalar v = true → get (code v) path c' = Some v) ∧
    (∀ ty path', b = false ∨ path' ≠ path → get ty path' c' = get ty path' c).
Proof.
  intros Hv Hg Hl Hts. split.
  { unfold ConfigureSettings.add. rewrite Hv. cbn [negb]. unfold mbind, option_bind. split.
    - intros Hs. apply (build_group_open _ (path_of path).2 v). destruct (build_group _ _ _); [by eexists|by destruct Hs].
    - intros Ho. destruct (build_group_total _ _ v _ Hg Ho Hl Hts) as [[root b] ->]. by eexists. }
  intros c' b Ha. destruct (add_build _ _ _ _ _ Hv Ha) as [Hv' Hb]. destruct (added_here _ _ _ _ _ _ Hb) as [-> Hat].
  rewrite <-surjective_pairing in *. split_and!.
  - by rewrite bool_decide_eq_true.
  - intros Hn Hs. rewrite Hn in Hat. rewrite get_value by done. unfold value_at. rewrite Hat. by apply value_of_new.
  - intros ty path' Hor. rewrite !get_value by done. destruct (decide (path' = path)) as [->|Hne].
    + destruct Hor as [Hn|]; [|done]. rewrite Hn in Hat. unfold value_at. by rewrite Hat.
    + apply (value_added_elsewhere _ _ _ _ _ _ _ _ Hb). rewrite <-surjective_pairing. by intros ?%path_of_inj.
Qed.

(** The configuration a process starts with: of a file in which the sections of the
    defaults are groups, [init_config] makes one in which every default is read where
    the file has no setting, and everything else is read as the file has it. *)
Theorem configured config_path files root :
  first_existing ((if String.eqb config_path "" then [] else [config_path]) ++ ["./gvds.conf"; "/etc/gvds/gvds.conf"; "/opt/gvds/gvds.conf"]) files
    = Some (Some root) →
  isGroup root = true → Forall (λ x, open (path_of x).1 root) defaults.*1 →
  ∃ c, init_config config_path files = Some (Some c) ∧ ∀ path ty,
    (∀ v, (path, v) ∈ defaults → get ty path c =
       match at_path (path_of path) root with Some n => value_of ty n | None => value_of ty (new_value v) end) ∧
    (path ∉ defaults.*1 → get ty path c = get ty path (read (Some root))).
Proof.
  intros Hf Hg Ho. unfold init_config. rewrite Hf. cbn [read vaild negb]. unfold default_config.
  destruct (add_all_total defaults (read (Some root)) defaults_separated Hg) as [c Hc].
  { pose proof defaults_named as Hn. rewrite Forall_forall in *. intros x Hx. split; [by apply Ho|by apply Hn]. }
  cbn [read] in Hc. exists c. unfold mbind, option_bind. rewrite Hc. split; [done|]. intros path ty.
  by apply (add_all_values _ _ _ defaults_separated (eq_refl : vaild (read (Some root)) = true) Hc).
Qed.

(** The texts the other components ask the interface [Host] for. *)
Definition config_of (c : config setting) (k : string) : option string :=
  match get TypeString k c with Some (CString s) => Some s | _ => None end.
(** A text with a default is there, unless the file has something else in its place. *)
Lemma default_texts config_path files root c k s :
  first_existing ((if String.eqb config_path "" then [] else [config_path]) ++ ["./gvds.conf"; "/etc/gvds/gvds.conf"; "/opt/gvds/gvds.conf"]) files
    = Some (Some root) →
  init_config config_path files = Some (Some c) → (k, CString s) ∈ defaults →
  (∀ n, at_path (path_of k) root = Some n → ∃ s', value_of TypeString n = Some (CString s')) →
  is_Some (config_of c k).
Proof.
  intros Hf Hc Hk Hn. unfold init_config in Hc. rewrite Hf in Hc. cbn [read vaild negb] in Hc. unfold mbind, option_bind in Hc.
  destruct (default_config _) as [c'|] eqn:Hd; [|done]. injection Hc as ->.
  destruct (add_all_values _ _ _ defaults_separated (eq_refl : vaild (read (Some root)) = true) Hd) as [_ Hv].
  unfold config_of. rewrite (proj1 (Hv TypeString k) _ Hk). cbn [read baseCfg]. destruct (at_path _ root) as [n|].
  - destruct (Hn n eq_refl) as [s' ->]. by eexists.
  - rewrite (value_of_new (CString s)) by done. by eexists.
Qed.
End theorems.

(** ** An example: settings as a tree *)
Module SettingTree.
Inductive tree : Type := Leaf (v : config_value) | Group (l : list (string * tree)).
Definition members (g : tree) : list (string * tree) := match g with Group l => l | Leaf _ => [] end.
Definition find (g : tree) (k : string) : option tree := snd <$> head (filter (λ p : string * tree, p.1 = k) (members g)).
Definition is_group (g : tree) : bool := match g with Group _ => true | Leaf _ => false end.
#[export] Instance trees : Libconfig := {|
  setting := tree; new_group := Group []; new_value := Leaf; isGroup := is_group; member := find;
  add_setting k n g := match g with
    | Group l => if name_ok k && bool_decide (find g k = None) then Some (Group ((k, n) :: l)) else None
    | Leaf _ => None
    end;
  put_back k n g := match g with Group l => Group ((λ p, if String.eqb p.1 k then (k, n) else p) <$> l) | Leaf v => Leaf v end;
  value_of ty g := match g with Leaf v => if bool_decide (code v = ty) then Some v else None | Group _ => None end;
  isList g := match g with Leaf (CList _) => true | _ => false end;
  elements g := match g with Leaf (CList l) => Leaf <$> l | _ => [] end;
  getType g := match g with Leaf v => Some (code v) | Group _ => None end;
|}.

#[export] Instance tree_dec (o : option tree) : Decision (o = None).
Proof. destruct o; [by right|by left]. Defined.
Lemma find_cons k' k n l : find (Group ((k, n) :: l)) k' = if bool_decide (k = k') then Some n else find (Group l) k'.
Proof. unfold find. cbn [members]. rewrite filter_cons. cbn [fst]. by case_decide; case_bool_decide. Qed.
Lemma find_put_back k n l k' : find (put_back k n (Group l)) k' =
  if bool_decide (k' = k) then (if find (Group l) k then Some n else None) else find (Group l) k'.
Proof.
  cbn [put_back trees]. induction l as [|[x m] l IH]; [by case_bool_decide|]. rewrite fmap_cons. cbn [fst].
  destruct (String.eqb_spec x k) as [->|Hx]; rewrite !find_cons, IH.
  - rewrite (bool_decide_true (k = k)) by done. by repeat case_bool_decide.
  - rewrite (bool_decide_false (x = k)) by done. repeat case_bool_decide; simplify_eq; done.
Qed.
#[export] Instance trees_laws : LibconfigLaws.
Proof.
  split.
  - done.
  - done.
  - done.
  - by intros [v|l] k Hg.
  - intros k n [v|l] g'; cbn; [done|]. destruct (_ && _); [|done]. intros [= <-]. by rewrite find_cons, bool_decide_true.
  - intros k k' n [v|l] g'; cbn; [done|]. destruct (_ && _); [|done]. intros [= <-] Hk. by rewrite find_cons, bool_decide_false.
  - intros k n [v|l] g'; cbn; [done|]. destruct (_ && _); [|done]. by intros [= <-].
  - intros k n [v|l] [m Hm]; [done|]. cbn in Hm. change (member ?g k) with (find g k). by rewrite find_put_back, bool_decide_true, Hm.
  - intros k k' n [v|l] Hk; [done|]. change (member ?g k') with (find g k'). by rewrite find_put_back, bool_decide_false.
  - by intros k n [v|l].
  - intros v _. cbn. by rewrite bool_decide_true.
  - by intros ty [v|l].
  - intros k n [v|l] Hg Hm Hk; [done|]. cbn in *. rewrite Hk, bool_decide_true by done. by eexists.
Qed.

(** A file with a manager of its own and an identifier without quotes. *)
Definition file : setting := Group [("manager_addr", Leaf (CString "10.0.0.9:9090")); ("ioproxy", Group [("cid", Leaf (CInt 3))])].
Definition files (path : string) : option (option setting) := if String.eqb path "/etc/gvds/gvds.conf" then Some (Some file) else None.
End SettingTree.
Import SettingTree.

(** An addition to the group "ioproxy", and one below the number "ioproxy.cid". *)
Lemma added_is_read_witness :
  (∃ c', ConfigureSettings.add "ioproxy.scher" (CInt 6) (read (Some file)) = Some (c', true) ∧
    get TypeInt "ioproxy.scher" c' = Some (CInt 6) ∧ get TypeInt "ioproxy.cid" c' = Some (CInt 3)) ∧
  ConfigureSettings.add "ioproxy.cid.new" (CInt 6) (read (Some file)) = None.
Proof.
  split.
  - destruct (added_is_read "ioproxy.scher" (CInt 6) (read (Some file))) as [[_ Hs] H12]; [reflexivity|reflexivity|reflexivity| |].
    { apply Forall_cons; split; [reflexivity|apply Forall_nil_2]. }
    destruct Hs as [[c' b] Ha]; [cbn; intros ? [= <-]; by split|].
    destruct (H12 c' b Ha) as (H0 & H1 & H2). assert (Hb : b = true) by (apply H0; reflexivity). subst b.
    exists c'. split_and!; [exact Ha|exact (H1 eq_refl eq_refl)|]. rewrite H2 by (right; discriminate). vm_compute. reflexivity.
  - destruct (added_is_read "ioproxy.cid.new" (CInt 6) (read (Some file))) as [[Hs _] _]; [reflexivity|reflexivity|reflexivity| |].
    { apply Forall_cons; split; [reflexivity|apply Forall_cons; split; [reflexivity|apply Forall_nil_2]]. }
    destruct (ConfigureSettings.add _ _ _) as [p|] eqn:Ha; [|reflexivity]. exfalso.
    destruct (Hs (ex_intro _ p eq_refl) _ eq_refl) as [_ Ho]. destruct (Ho _ eq_refl) as [Hg _]. discriminate Hg.
Defined.

Lemma configured_witness :
  ∃ c, init_config "" files = Some (Some c) ∧ get TypeString "manager_addr" c = Some (CString "10.0.0.9:9090") ∧
    get TypeString "ip" c = Some (CString "127.0.0.1") ∧ get TypeString "ioproxy.cid" c = None.
Proof.
  destruct (configured "" files file) as (c & Hc & Hv); [reflexivity|reflexivity| |].
  { unfold defaults. rewrite !fmap_cons, fmap_nil. repeat (apply Forall_cons; split); [..|apply Forall_nil_2]; cbn;
      repeat first [exact I|intros ? [= <-]; split; [reflexivity|]|intros; discriminate]. }
  exists c. split_and!; [exact Hc|rewrite (proj1 (Hv _ _) (CString "127.0.0.1:9090"))|rewrite (proj1 (Hv _ _) (CString "127.0.0.1"))|rewrite (proj1 (Hv _ _) (CString "1"))];
    first [vm_compute; reflexivity|unfold defaults; repeat (first [left; reflexivity|right])].
Defined.
