(* ===== verification/Log.v ===== *)
(** * The log (log/Log.cc, log/Entry.h)

    Threads submit entries to a queue; the log thread, or whoever calls [flush], takes
    the queue and writes its lines through a buffer of 64 KiB into the file. The two
    mutexes make the critical sections the steps of a transition system. *)
From S2P Require Import Prelude CxxString.

Definition MAX_LOG_BUF : Z := 65536.
Definition newline : string := String "010" "".

(** ** Texts of the formats *)
Fixpoint padded (c : ascii) (n : nat) (s : string) : string := match n with O => s | S n => String c (padded c n s) end.
(** [%0wd] and [%wd]. *)
Definition zero_padded (w : nat) (n : Z) : string := let s := pretty n in padded "0" (w - String.length s) s.
Definition blank_padded (w : nat) (n : Z) : string := let s := pretty n in padded " " (w - String.length s) s.
(** [%lx], of 64 bits. *)
Definition hex_digit (n : Z) : ascii := ascii_of_N (Z.to_N (if n <? 10 then 48 + n else 87 + n)).
Fixpoint hex_digits (fuel : nat) (n : Z) (acc : string) : string :=
  match fuel with
  | O => acc
  | S fuel => let acc := String (hex_digit (n mod 16)) acc in if n <? 16 then acc else hex_digits fuel (n / 16) acc
  end.
Definition hex (n : Z) : string := hex_digits 16 n "".

(** The broken-down local time of a time stamp in nanoseconds: [localtime_r]. *)
Record calendar : Type := Calendar { tm_year : Z; tm_mon : Z; tm_mday : Z; tm_hour : Z; tm_min : Z; tm_sec : Z }.
Class LocalTime : Type := localtime : Z → calendar.
(** A clock of 64 bits in nanoseconds reaches from 1677 to 2262. *)
Class LocalTimeLaws `{LocalTime} : Prop := localtime_range t : let c := localtime t in
  -223 ≤ c.(tm_year) ≤ 362 ∧ 0 ≤ c.(tm_mon) ≤ 11 ∧ 1 ≤ c.(tm_mday) ≤ 31 ∧ 0 ≤ c.(tm_hour) ≤ 23 ∧ 0 ≤ c.(tm_min) ≤ 59 ∧
  0 ≤ c.(tm_sec) ≤ 60.

Module Entry.
Record t : Type := mk {
  m_stamp : Z;
  m_thread : Z;
  m_prio : Z;
  m_buf : string;
  m_stream_p : option string;
}.
Definition new (s t level : Z) (prefix : option string) : Entry.t :=
  mk s t level "" (Some (match prefix with Some p => p +:+ " " | None => "" end)).
(** [None] where the assertion fails. *)
Definition set_str (s : string) (e : t) : option t :=
  stream ← e.(m_stream_p); Some (mk e.(m_stamp) e.(m_thread) e.(m_prio) e.(m_buf) (Some (stream +:+ s))).
Definition get_str (e : t) : string := default e.(m_buf) e.(m_stream_p).
Definition finish (e : t) : t := mk e.(m_stamp) e.(m_thread) e.(m_prio) (get_str e) None.
Definition size (e : t) : Z := CxxString.size e.(m_buf).
(** What is copied of the text, at most [max_n] bytes. *)
Definition snprintf (max_n : Z) (e : t) : string := if max_n <? size e then str_take (Z.to_nat max_n) e.(m_buf) else e.(m_buf).
End Entry.

Module Log.
Section log.
Context `{LocalTime}.

Definition append_time (t : Z) : string :=
  let c := localtime t in
  zero_padded 4 (c.(tm_year) + 1900) +:+ "-" +:+ zero_padded 2 (c.(tm_mon) + 1) +:+ "-" +:+ zero_padded 2 c.(tm_mday) +:+ " " +:+
  zero_padded 2 c.(tm_hour) +:+ ":" +:+ zero_padded 2 c.(tm_min) +:+ ":" +:+ zero_padded 2 c.(tm_sec) +:+ "." +:+
  zero_padded 6 (t mod 1000000000 / 1000).

(** ** The lines *)

(** What becomes of a write to the file: all of it is written, or its first bytes are and
    the stream is bad from then on. It is the write itself that finds out, or ([late]) the
    flush of the stream after it. *)
Inductive fate : Type := whole | fails (n : nat) (late : bool).

(** Where they go: the part of [m_log_buf] that is filled, the file, if it is open,
    whether its stream is bad, what becomes of the writes to come (all is written when
    nothing is said), and what has been printed to stderr. *)
Record sink : Type := Sink {
  m_log_buf : string;
  m_fstream : option string;
  bad : bool;
  fates : list fate;
  printed : list string;
}.
Definition set_buf (b : string) (s : sink) : sink := Sink b s.(m_fstream) s.(bad) s.(fates) s.(printed).
Definition set_printed (l : list string) (s : sink) : sink := Sink s.(m_log_buf) s.(m_fstream) s.(bad) s.(fates) l.
Record levels : Type := Levels {
  log_level : Z;
  m_syslog_log : Z;
  m_stderr_log : Z;
  m_log_stderr_prefix : string;
}.

(** The end of the message, with the file and the error, is left out. *)
Definition problem : string := "problem writing to ".
(** A bad stream writes nothing; only a failure that is seen is reported. *)
Definition _log_safe_write (what : string) (s : sink) : sink :=
  match s.(m_fstream) with
  | None => s
  | Some file =>
      if s.(bad) then set_printed (s.(printed) ++ [problem]) s
      else match s.(fates) with
      | fails n late :: rest =>
          Sink s.(m_log_buf) (Some (file +:+ str_take n what)) true rest (s.(printed) ++ if late then [] else [problem])
      | rest => Sink s.(m_log_buf) (Some (file +:+ what)) false (tail rest) s.(printed)
      end
  end.
Definition _flush_logbuf (s : sink) : sink :=
  if String.eqb s.(m_log_buf) "" then s else set_buf "" (_log_safe_write s.(m_log_buf) s).

(** The text of a line in [line_size] bytes; [None] where a part of it would be cut,
    or the assertion fails. *)
Definition line_of (e : Entry.t) (line_size : Z) : option string :=
  let stamp := append_time e.(Entry.m_stamp) in
  let line_used := size stamp in
  if line_size <=? line_used then None
  else
    let head := " " +:+ hex e.(Entry.m_thread) +:+ " " +:+ blank_padded 2 e.(Entry.m_prio) +:+ " " in
    if line_size - line_used <=? size head then None
    else
      let line_used := line_used + size head in
      let text := Entry.snprintf (line_size - line_used - 1) e in
      if line_size <=? line_used + size text then None else Some (stamp +:+ head +:+ text).

(** One entry; [None] also where the buffer is overrun. *)
Definition flush_entry (lv : levels) (e : Entry.t) (s : sink) : option sink :=
  let should_log := e.(Entry.m_prio) <=? lv.(log_level) in
  let do_fd := (if s.(m_fstream) then true else false) && should_log in
  let do_syslog := (e.(Entry.m_prio) <=? lv.(m_syslog_log)) && should_log in
  let do_stderr := (e.(Entry.m_prio) <=? lv.(m_stderr_log)) && should_log in
  if do_fd || do_syslog || do_stderr then
    let line_size := 80 + Entry.size e in
    let need_dynamic := MAX_LOG_BUF <=? line_size in
    let s := if MAX_LOG_BUF <=? size s.(m_log_buf) + line_size then _flush_logbuf s else s in
    line ← line_of e line_size;
    let s := if do_stderr then set_printed (s.(printed) ++ [lv.(m_log_stderr_prefix) +:+ c_str line]) s else s in
    if do_fd then
      if need_dynamic then Some (set_buf "" (_log_safe_write (line +:+ newline) s))
      else if MAX_LOG_BUF <? size s.(m_log_buf) + size line + 1 then None
      else Some (set_buf (s.(m_log_buf) +:+ line +:+ newline) s)
    else Some (set_buf "" s)
  else Some s.
Fixpoint flush_entries (lv : levels) (t : list Entry.t) (s : sink) : option sink :=
  match t with
  | [] => Some s
  | e :: t => s ← flush_entry lv e s; flush_entries lv t s
  end.
Definition _flush (lv : levels) (t : list Entry.t) (s : sink) : option sink := s ← flush_entries lv t s; Some (_flush_logbuf s).
End log.
End Log.

(** ** The lengths of the parts of a line *)
Lemma padded_length c n s : String.length (padded c n s) = (n + String.length s)%nat.
Proof. induction n as [|n IH]; cbn; [done|]. by rewrite IH. Qed.
Lemma pretty_go_short x s k : Z.of_N x < 10 ^ Z.of_nat k → (String.length (pretty_N_go x s) ≤ String.length s + k)%nat.
Proof.
  revert x s. induction k as [|k IH]; intros x s Hx.
  { change (10 ^ Z.of_nat 0) with 1 in Hx. assert (x = 0%N) as -> by lia. rewrite pretty_N_go_0. lia. }
  destruct (decide (x = 0)%N) as [->|Hx0]; [rewrite pretty_N_go_0; lia|]. rewrite pretty_N_go_step by lia.
  specialize (IH (x `div` 10)%N (String (pretty_N_char (x `mod` 10)) s)). cbn [String.length] in IH.
  rewrite Nat2Z.inj_succ, Z.pow_succ_r in Hx by lia. rewrite N2Z.inj_div in IH. change (Z.of_N 10) with 10 in IH.
  specialize (IH ltac:(apply Z.div_lt_upper_bound; lia)). lia.
Qed.
Lemma pretty_N_short x k : (1 ≤ k)%nat → Z.of_N x < 10 ^ Z.of_nat k → (String.length (pretty x) ≤ k)%nat.
Proof.
  intros Hk Hx. destruct (decide (x = 0)%N) as [->|Hx0]; [exact Hk|].
  change (pretty x) with (if decide (x = 0%N) then "0" else pretty_N_go x ""). rewrite decide_False by done.
  by apply (pretty_go_short x "" k).
Qed.
Lemma pretty_short n k : (1 ≤ k)%nat → Z.abs n < 10 ^ Z.of_nat k → (String.length (pretty n) ≤ (if decide (n < 0)%Z then S k else k))%nat.
Proof.
  intros Hk Hn. destruct n as [|p|p].
  - exact Hk.
  - rewrite decide_False by lia. apply (pretty_N_short (Npos p)); [done|]. cbn in *. lia.
  - rewrite decide_True by lia. change (pretty (Zneg p)) with ("-" +:+ pretty (Npos p)). rewrite append_cons. cbn [String.length String.append].
    apply le_n_S, pretty_N_short; [done|]. cbn in *. lia.
Qed.
Lemma size_zero_padded w n : (1 ≤ w)%nat → 0 ≤ n < 10 ^ Z.of_nat w → size (zero_padded w n) = Z.of_nat w.
Proof.
  intros Hw Hn. pose proof (pretty_short n w Hw ltac:(lia)) as Hl. rewrite decide_False in Hl by lia.
  unfold size, zero_padded. rewrite padded_length. lia.
Qed.
Lemma size_blank_padded n : in_i32 n = true → size (blank_padded 2 n) ≤ 11.
Proof.
  intros Hn. unfold in_i32 in Hn. pose proof (pretty_short n 10 ltac:(lia)) as Hl. change (10 ^ Z.of_nat 10) with 10000000000 in Hl.
  specialize (Hl ltac:(lia)). unfold size, blank_padded. rewrite padded_length. destruct (decide (n < 0)%Z); lia.
Qed.
Lemma length_hex_digits fuel n acc : (String.length (hex_digits fuel n acc) ≤ fuel + String.length acc)%nat.
Proof.
  revert n acc. induction fuel as [|fuel IH]; intros n acc; [done|]. cbn [hex_digits].
  destruct (n <? 16); [cbn; lia|]. specialize (IH (n / 16) (String (hex_digit (n mod 16)) acc)). cbn in IH. lia.
Qed.

Section lines.
Context `{LocalTimeLaws}.
Import Log.
Implicit Types (e : Entry.t) (s : sink) (lv : levels) (t : list Entry.t).

Lemma size_append_time (stamp : Z) : size (append_time stamp) = 26.
Proof.
  destruct (localtime_range stamp) as (H1 & H2 & H3 & H4 & H5 & H6). unfold append_time. cbn zeta.
  pose proof (Z.mod_pos_bound stamp 1000000000 ltac:(lia)) as Hm.
  assert (0 ≤ stamp mod 1000000000 / 1000 < 1000000) by (split; [apply Z.div_pos; lia|apply Z.div_lt_upper_bound; lia]).
  rewrite !size_app, !(size_zero_padded 2), (size_zero_padded 4), (size_zero_padded 6) by (cbn; lia). done.
Qed.

(** The line of an entry, uncut. *)
Definition line e : string :=
  append_time e.(Entry.m_stamp) +:+ (" " +:+ hex e.(Entry.m_thread) +:+ " " +:+ blank_padded 2 e.(Entry.m_prio) +:+ " ") +:+ e.(Entry.m_buf).
Lemma size_head e : in_i32 e.(Entry.m_prio) = true →
  size (" " +:+ hex e.(Entry.m_thread) +:+ " " +:+ blank_padded 2 e.(Entry.m_prio) +:+ " ") ≤ 30.
Proof.
  intros Hp. rewrite !size_app. pose proof (size_blank_padded _ Hp). change (size " ") with 1.
  assert (size (hex (Entry.m_thread e)) ≤ 16); [|lia]. unfold size, hex.
  pose proof (length_hex_digits 16 (Entry.m_thread e) "") as Hl. cbn [String.length] in Hl. lia.
Qed.
Lemma line_fits e : in_i32 e.(Entry.m_prio) = true → size (line e) + 1 ≤ 80 + Entry.size e.
Proof.
  intros Hp. unfold line. rewrite size_app, size_append_time, size_app. pose proof (size_head e Hp). unfold Entry.size. lia.
Qed.
Lemma line_of_fits e : in_i32 e.(Entry.m_prio) = true → line_of e (80 + Entry.size e) = Some (line e).
Proof.
  intros Hp. unfold line_of. rewrite size_append_time. pose proof (size_head e Hp) as Hh.
  assert (Hs : 0 ≤ Entry.size e) by apply size_nonneg.
  rewrite (proj2 (Z.leb_gt _ _)) by lia. rewrite (proj2 (Z.leb_gt _ _)) by lia. cbn zeta.
  unfold Entry.snprintf. rewrite (proj2 (Z.ltb_ge _ _)) by lia.
  rewrite (proj2 (Z.leb_gt _ _)); [done|]. unfold Entry.size in *. lia.
Qed.

(** What entries add to the file, and print. *)
Definition recorded lv t : string := foldr (λ e text, line e +:+ newline +:+ text) "" (filter (λ e, e.(Entry.m_prio) ≤ lv.(log_level)) t).
Definition printed_lines lv t : list string :=
  (λ e, lv.(m_log_stderr_prefix) +:+ c_str (line e)) <$> filter (λ e, e.(Entry.m_prio) ≤ lv.(log_level) ∧ e.(Entry.m_prio) ≤ lv.(m_stderr_log)) t.
Definition sound s : Prop := size s.(m_log_buf) < MAX_LOG_BUF ∧ (s.(m_fstream) = None → s.(m_log_buf) = "").
Definition writable e : Prop := in_i32 e.(Entry.m_prio) = true.
(** [text] is what the lines make of an empty file: the file, which held [old], has it
    except for what is in the buffer; or the beginning of it, when its stream is bad. *)
Definition holds (old : option string) (text : string) s : Prop :=
  match old, s.(m_fstream) with
  | None, None => True
  | Some old, Some file => ∃ kept rest, file = old +:+ kept ∧ text = kept +:+ rest ∧ (s.(bad) = false → rest = s.(m_log_buf))
  | _, _ => False
  end.
(** No write has failed and none will. *)
Definition reliable s : Prop := s.(bad) = false ∧ Forall (eq whole) s.(fates).
(** What was printed contains these lines, in order. *)
Definition prints (ls : list string) s s' : Prop := ∃ more, s'.(printed) = s.(printed) ++ more ∧ ls `sublist_of` more.
Record writes (ls : list string) (added : string) s s' : Prop := {
  w_sound : sound s';
  w_holds old text : holds old text s → holds old (text +:+ added) s';
  w_reliable : reliable s → reliable s';
  w_prints : prints ls s s';
  w_open : s'.(m_fstream) = None ↔ s.(m_fstream) = None;
}.

Lemma writes_refl s : sound s → writes [] "" s s.
Proof. intros Hs. split; [done| |done|exists []; by rewrite app_nil_r|done]. intros old text. by rewrite append_nil_r. Qed.
Lemma writes_trans l1 l2 a1 a2 s1 s2 s3 : writes l1 a1 s1 s2 → writes l2 a2 s2 s3 → writes (l1 ++ l2) (a1 +:+ a2) s1 s3.
Proof.
  intros [_ Hh Hr (m1 & Hp & Hl) Ho] [Hs' Hh' Hr' (m2 & Hp' & Hl') Ho']. split; [done| |auto| |by rewrite Ho'].
  - intros old text Ht. rewrite append_assoc. by apply Hh', Hh.
  - exists (m1 ++ m2). split; [by rewrite Hp', Hp, (assoc_L (++))|by apply sublist_app].
Qed.
Lemma sound_empty f b l p : sound (Sink "" f b l p).
Proof. by split. Qed.

(** Writing what the buffer holds, or a line behind it when it is empty. *)
Lemma safe_write_holds old text what s : s.(m_fstream) ≠ None → (s.(m_log_buf) = "" ∨ s.(m_log_buf) = what) →
  holds old text s → holds old (if String.eqb s.(m_log_buf) "" then text +:+ what else text) (set_buf "" (_log_safe_write what s)).
Proof.
  unfold holds, _log_safe_write. destruct (m_fstream s) as [file|] eqn:Hf; [|done]. intros _ Hb. destruct old as [old|]; [|done].
  intros (kept & rest & -> & -> & Hr). destruct (bad s) eqn:Hbad.
  { cbn. rewrite Hf. destruct (String.eqb _ ""); [exists kept, (rest +:+ what)|exists kept, rest]; by rewrite ?Hbad, ?append_assoc. }
  specialize (Hr eq_refl). subst rest.
  assert (Htext : (if String.eqb (Log.m_log_buf s) "" then (kept +:+ Log.m_log_buf s) +:+ what else kept +:+ Log.m_log_buf s) = kept +:+ what).
  { destruct (String.eqb_spec (Log.m_log_buf s) "") as [->|Hne]; [by rewrite append_nil_r|]. by destruct Hb as [?| ->]. }
  rewrite Htext. destruct (fates s) as [|[|n late] rest]; cbn.
  - exists (kept +:+ what), "". by rewrite append_assoc, append_nil_r.
  - exists (kept +:+ what), "". by rewrite append_assoc, append_nil_r.
  - exists (kept +:+ str_take n what), (str_drop n what). split_and!; [by rewrite append_assoc| |done].
    by rewrite <-(append_assoc kept), str_take_drop.
Qed.
Lemma safe_write_writes what s : s.(m_fstream) ≠ None → (s.(m_log_buf) = "" ∨ s.(m_log_buf) = what) →
  writes [] (if String.eqb s.(m_log_buf) "" then what else "") s (set_buf "" (_log_safe_write what s)).
Proof.
  intros Hf Hb. split; [apply sound_empty| |..].
  - intros old text Ht. pose proof (safe_write_holds old text what s Hf Hb Ht) as Hw. destruct (String.eqb _ ""); [done|by rewrite append_nil_r].
  - unfold reliable, _log_safe_write. destruct (m_fstream s); [|done]. intros [-> Hall].
    destruct (fates s) as [|[|n late] rest]; cbn; [done|inversion Hall; by split|by inversion Hall].
  - unfold prints, _log_safe_write. destruct (m_fstream s); [|done]. destruct (bad s); [eexists; split; [done|apply sublist_nil_l]|].
    destruct (fates s) as [|[|n late] rest]; cbn; eexists; (split; [first [done|by rewrite app_nil_r]|apply sublist_nil_l]).
  - unfold _log_safe_write. destruct (m_fstream s) eqn:Hs; [|done]. destruct (bad s); [cbn; by rewrite Hs|].
    by destruct (fates s) as [|[|n late] rest].
Qed.
Lemma flush_logbuf_writes s : sound s → writes [] "" s (_flush_logbuf s) ∧ (_flush_logbuf s).(Log.m_log_buf) = "".
Proof.
  intros [Hsz Hn]. unfold _flush_logbuf. destruct (String.eqb_spec (Log.m_log_buf s) "") as [He|He]; [by split; [apply writes_refl|]|].
  split; [|done]. pose proof (safe_write_writes (Log.m_log_buf s) s) as Hw. rewrite (proj2 (String.eqb_neq _ _) He) in Hw.
  apply Hw; [by intros Hf%Hn|by right].
Qed.

(** Room for a line: after the flush the buffer is empty, or the line fits behind it. *)
Definition make_room line_size s : sink := if MAX_LOG_BUF <=? size s.(m_log_buf) + line_size then _flush_logbuf s else s.
Lemma make_room_room line_size s : sound s → let s' := make_room line_size s in
  writes [] "" s s' ∧ (s'.(m_log_buf) = "" ∨ size s'.(m_log_buf) + line_size < MAX_LOG_BUF).
Proof.
  intros Hs. unfold make_room. destruct (Z.leb_spec MAX_LOG_BUF (size s.(m_log_buf) + line_size)); [|split; [by apply writes_refl|auto]].
  destruct (flush_logbuf_writes s Hs) as [Hw Hb]. split; [done|by left].
Qed.
Lemma recorded_one lv e : recorded lv [e] = if decide (e.(Entry.m_prio) ≤ lv.(log_level)) then line e +:+ newline else "".
Proof. unfold recorded. rewrite filter_cons, filter_nil. case_decide; [|done]. cbn. by rewrite append_nil_r. Qed.

(** A line behind the others in the buffer; and a closed file, whose buffer is empty. *)
Lemma append_writes what s : size s.(m_log_buf) + size what < MAX_LOG_BUF → s.(m_fstream) ≠ None →
  writes [] what s (set_buf (s.(m_log_buf) +:+ what) s).
Proof.
  intros Hsz Hf. split; cbn; try done.
  - split; cbn; [by rewrite size_app|done].
  - intros [old|] text; unfold holds; cbn; destruct (m_fstream s); try done. intros (kept & rest & -> & -> & Hr).
    exists kept, (rest +:+ what). split_and!; [done|by rewrite append_assoc|]. intros Hb. by rewrite Hr.
  - exists []. by rewrite app_nil_r.
Qed.
Lemma closed_writes what s : s.(m_fstream) = None → writes [] what s (set_buf "" s).
Proof.
  intros Hf. split; cbn; try done; [|exists []; by rewrite app_nil_r].
  intros [old|] text; unfold holds; cbn; by rewrite Hf.
Qed.
Lemma print_writes l s : sound s → writes l "" s (set_printed (s.(printed) ++ l) s).
Proof. intros Hs. split; [done| |done|by exists l|done]. intros old text. by rewrite append_nil_r. Qed.

Lemma flush_entry_writes lv e s : writable e → sound s →
  ∃ s', flush_entry lv e s = Some s' ∧ writes (printed_lines lv [e]) (recorded lv [e]) s s'.
Proof.
  intros He Hs. unfold flush_entry. cbn zeta. fold (make_room (80 + Entry.size e) s). rewrite recorded_one. unfold printed_lines.
  rewrite filter_cons, filter_nil. destruct (Z.leb_spec (Entry.m_prio e) (log_level lv)) as [Hl|Hl].
  2: { rewrite !andb_false_r. cbn [orb]. exists s. rewrite !decide_False by lia. split; [done|by apply writes_refl]. }
  rewrite !andb_true_r, (decide_True (P := Entry.m_prio e ≤ log_level lv)) by done.
  destruct (make_room_room (80 + Entry.size e) s Hs) as (Hw1 & Hroom). set (s1 := make_room _ s) in *.
  pose proof (line_fits e He) as Hlen. rewrite line_of_fits by done. unfold mbind, option_bind.
  set (ls := (λ e, _) <$> (if decide _ then _ else _)).
  assert (Hls : ls = if Entry.m_prio e <=? m_stderr_log lv then [m_log_stderr_prefix lv +:+ c_str (line e)] else []).
  { unfold ls. destruct (Z.leb_spec (Entry.m_prio e) (m_stderr_log lv)); [by rewrite decide_True by lia|by rewrite decide_False by lia]. }
  rewrite Hls. clearbody ls. clear ls Hls. set (ls := if Entry.m_prio e <=? m_stderr_log lv then [m_log_stderr_prefix lv +:+ c_str (line e)] else []). set (s2 := if _ <=? m_stderr_log lv then set_printed _ _ else _).
  assert (Hw2 : writes ls "" s s2 ∧ s2.(m_log_buf) = s1.(m_log_buf)).
  { pose proof (w_sound _ _ _ _ Hw1) as Hs1. unfold s2, ls. destruct (_ <=? m_stderr_log lv); (split; [|done]).
    - exact (writes_trans [] _ "" "" _ _ _ Hw1 (print_writes _ _ Hs1)).
    - exact (writes_trans [] [] "" "" _ _ _ Hw1 (writes_refl _ Hs1)). }
  destruct Hw2 as [Hw2 Hb2]. assert (Hquiet : (Entry.m_prio e <=? m_stderr_log lv) = false → ls = []) by (unfold ls; by intros ->).
  clearbody s2 ls.
  assert (Hend : ∀ s3, writes [] (line e +:+ newline) s2 s3 → writes ls (line e +:+ newline) s s3).
  { intros s3 Hw3. rewrite <-(right_id_L [] (++) ls). exact (writes_trans _ _ "" _ _ _ _ Hw2 Hw3). }
  pose proof (w_open _ _ _ _ Hw2) as Ho2. destruct (m_fstream s) as [file|] eqn:Hf; cbn [orb].
  - assert (Hopen : m_fstream s2 ≠ None) by (intros Hn; by apply Ho2 in Hn).
    destruct (Z.leb_spec MAX_LOG_BUF (80 + Entry.size e)) as [Hdyn|Hdyn].
    + eexists. split; [done|]. apply Hend. assert (Hb : s2.(m_log_buf) = "").
      { rewrite Hb2. destruct Hroom as [|Hb1]; [done|]. pose proof (size_nonneg (Log.m_log_buf s1)). lia. }
      pose proof (safe_write_writes (line e +:+ newline) s2 Hopen (or_introl Hb)) as Hw3. by rewrite Hb in Hw3.
    + rewrite <-Hb2 in Hroom. assert (Hfit : size s2.(m_log_buf) + size (line e +:+ newline) < MAX_LOG_BUF).
      { rewrite size_app. change (size newline) with 1. destruct Hroom as [->|?]; [change (size "") with 0|]; lia. }
      rewrite (proj2 (Z.ltb_ge _ _)) by (rewrite size_app in Hfit; change (size newline) with 1 in Hfit; lia).
      eexists. split; [done|]. apply Hend. by apply append_writes.
  - assert (Hclosed : m_fstream s2 = None) by by apply Ho2.
    destruct (Entry.m_prio e <=? m_syslog_log lv), (Entry.m_prio e <=? m_stderr_log lv) eqn:Hse; cbn [orb];
      try (eexists; split; [done|]; apply Hend; by apply closed_writes).
    exists s. split; [done|]. rewrite Hquiet by done. split; [done| |done|exists []; by rewrite app_nil_r|by rewrite Hf].
    intros [old|] text; unfold holds; by rewrite Hf.
Qed.

(** A whole flush. *)
Lemma recorded_cons lv e t : recorded lv (e :: t) = recorded lv [e] +:+ recorded lv t.
Proof. rewrite recorded_one. unfold recorded. rewrite filter_cons. case_decide; [|done]. cbn [foldr]. by rewrite append_assoc. Qed.
Lemma printed_cons lv e t : printed_lines lv (e :: t) = printed_lines lv [e] ++ printed_lines lv t.
Proof. unfold printed_lines. change (e :: t) with ([e] ++ t). by rewrite filter_app, fmap_app. Qed.
Lemma flush_entries_write lv t s : Forall writable t → sound s →
  ∃ s', flush_entries lv t s = Some s' ∧ writes (printed_lines lv t) (recorded lv t) s s'.
Proof.
  intros Ht. revert s. induction Ht as [|e t He Ht IH]; intros s Hs.
  { exists s. split; [done|by apply writes_refl]. }
  cbn [flush_entries]. destruct (flush_entry_writes lv e s He Hs) as (s1 & -> & Hw1).
  destruct (IH s1 (w_sound _ _ _ _ Hw1)) as (s' & Hf & Hw). exists s'. unfold mbind, option_bind. split; [done|].
  rewrite recorded_cons, printed_cons. by eapply writes_trans.
Qed.
Lemma flush_writes lv t s : Forall writable t → sound s → ∃ s', _flush lv t s = Some s' ∧ s'.(Log.m_log_buf) = "" ∧
  writes (printed_lines lv t) (recorded lv t) s s'.
Proof.
  intros Ht Hs. destruct (flush_entries_write lv t s Ht Hs) as (s1 & Hf & Hw). unfold _flush, mbind, option_bind. rewrite Hf.
  destruct (flush_logbuf_writes s1 (w_sound _ _ _ _ Hw)) as [Hw' Hb]. eexists. split; [done|]. split; [done|].
  rewrite <-(right_id_L [] (++) (printed_lines lv t)), <-(append_nil_r (recorded lv t)). by eapply writes_trans.
Qed.
End lines.

(** ** The threads *)

(** What the two mutexes guard. [taken] is the queue the holder of [m_flush_mutex] works
    on, [ended] says that the log thread has left its loop and begun its last flush;
    [submitted] and [flushed] are histories. *)
Record state : Type := State {
  m_new : list Entry.t;
  taken : option (list Entry.t);
  out : Log.sink;
  lv : Log.levels;
  m_stop : bool;
  ended : bool;
  submitted : list Entry.t;
  flushed : list (Log.levels * list Entry.t);
}.
Definition opened (file : option string) (lv : Log.levels) (fates : list Log.fate) : state :=
  State [] None (Log.Sink "" file false fates []) lv false false [] [].

Section threads.
Context `{LocalTimeLaws}.
(** The bound of the queue, of type [int] and never initialised. *)
Variable m_max_new : Z.
Implicit Types (e : Entry.t) (st : state).

Inductive action : Type :=
| Submit_entry (e : Entry.t)   (** a thread finds room in the queue *)
| Entry                        (** the loop of the log thread comes to its call of [flush] *)
| Flush                        (** another thread calls [flush] *)
| Write                        (** [_flush], to the release of the mutex *)
| Set_log_level (n : Z)
| Set_stderr_level (n : Z)
| Stop.
Definition internal (a : action) : bool := match a with Entry | Write => true | _ => false end.

(** The first half of [flush]. *)
Definition take st : option state :=
  match st.(taken) with
  | Some _ => None
  | None => Some (State [] (Some st.(m_new)) st.(out) st.(lv) st.(m_stop) st.(ended) st.(submitted) st.(flushed))
  end.
Definition set_levels (f : Log.levels → Log.levels) st : option state :=
  match st.(taken) with
  | Some _ => None
  | None => Some (State st.(m_new) None st.(out) (f st.(lv)) st.(m_stop) st.(ended) st.(submitted) st.(flushed))
  end.
Definition act (a : action) st : option state :=
  match a with
  | Submit_entry e =>
      let e := Entry.finish e in
      if to_u64 m_max_new <? size_of st.(m_new) then None
      else Some (State (st.(m_new) ++ [e]) st.(taken) st.(out) st.(lv) st.(m_stop) st.(ended) (st.(submitted) ++ [e]) st.(flushed))
  | Entry =>
      if st.(ended) then None
      else if negb st.(m_stop) then (if bool_decide (st.(m_new) = []) then None else take st)
      else st ← take st; Some (State st.(m_new) st.(taken) st.(out) st.(lv) st.(m_stop) true st.(submitted) st.(flushed))
  | Flush => take st
  | Write =>
      t ← st.(taken);
      out ← Log._flush st.(lv) t st.(out);
      Some (State st.(m_new) None out st.(lv) st.(m_stop) st.(ended) st.(submitted) (st.(flushed) ++ [(st.(lv), t)]))
  | Set_log_level n => set_levels (λ v, Log.Levels n v.(Log.m_syslog_log) v.(Log.m_stderr_log) v.(Log.m_log_stderr_prefix)) st
  | Set_stderr_level n => set_levels (λ v, Log.Levels v.(Log.log_level) v.(Log.m_syslog_log) n v.(Log.m_log_stderr_prefix)) st
  | Stop => Some (State st.(m_new) st.(taken) st.(out) st.(lv) true st.(ended) st.(submitted) st.(flushed))
  end.
Fixpoint run (l : list action) st : option state :=
  match l with
  | [] => Some st
  | a :: l => st ← act a st; run l st
  end.

(** The file is what the flushes recorded, each at the level of its time, behind what
    it held before; and no entry is lost or overtakes another. *)
Definition recorded_by (l : list (Log.levels * list Entry.t)) : string := foldr (λ p text, recorded p.1 p.2 +:+ text) "" l.
Lemma recorded_by_snoc l v t : recorded_by (l ++ [(v, t)]) = recorded_by l +:+ recorded v t.
Proof. unfold recorded_by. induction l as [|p l IH]; cbn; [by rewrite append_nil_r|]. by rewrite IH, append_assoc. Qed.
Definition in_order (file : option string) st : Prop :=
  concat st.(flushed).*2 ++ default [] st.(taken) ++ st.(m_new) = st.(submitted) ∧ Forall writable st.(submitted) ∧
  st.(out).(Log.m_log_buf) = "" ∧ holds file (recorded_by st.(flushed)) st.(out).

Definition submits_writable (a : action) : Prop := match a with Submit_entry e => writable e | _ => True end.
Lemma write_enabled file st t : in_order file st → st.(taken) = Some t → ∃ st', act Write st = Some st'.
Proof.
  intros (Hord & Hw & Hb & _) Ht. cbn [act]. rewrite Ht in *. rewrite <-Hord in Hw. apply Forall_app in Hw as [_ Hw].
  apply Forall_app in Hw as [Hw _]. unfold mbind, option_bind.
  destruct (flush_writes st.(lv) t st.(out) Hw) as (s' & -> & _); [|by eexists].
  unfold sound. rewrite Hb. by split.
Qed.
Lemma act_in_order file a st st' : submits_writable a → in_order file st → act a st = Some st' → in_order file st'.
Proof.
  intros Ha (Hord & Hw & Hb & Hf). assert (Htake : ∀ st', take st = Some st' → in_order file st').
  { unfold take. intros st1. destruct (taken st) eqn:Ht; [done|]. intros [= <-]. split_and!; cbn; [|done..].
    cbn in Hord. by rewrite app_nil_r. }
  assert (Hset : ∀ f st', set_levels f st = Some st' → in_order file st').
  { unfold set_levels. intros f st1. destruct (taken st) eqn:Ht; [done|]. intros [= <-]. by split_and!. }
  destruct a as [e| | | |n|n|]; cbn [act]; [| |by apply Htake| |by apply Hset|by apply Hset|].
  - destruct (_ <? _); [done|]. intros [= <-]. split_and!; cbn; [by rewrite <-Hord, !(assoc_L (++))|by apply Forall_app; split; [|constructor]|done|done].
  - destruct (ended st); [done|]. destruct (m_stop st); cbn [negb].
    + destruct (take st) as [st1|] eqn:Ht; [|done]. intros [= <-]. exact (Htake _ eq_refl).
    + case_bool_decide; [done|]. by apply Htake.
  - unfold mbind, option_bind. destruct (taken st) as [t|] eqn:Ht; [|done]. cbn in Hord.
    rewrite <-Hord in Hw. assert (Hwt : Forall writable t) by (apply Forall_app in Hw as [_ Hw]; by apply Forall_app in Hw as [Hw _]).
    destruct (flush_writes st.(lv) t st.(out) Hwt) as (s' & -> & Hb' & Hwr); [unfold sound; rewrite Hb; by split|].
    intros [= <-]. split_and!; cbn; [|by rewrite <-Hord|done|].
    + rewrite <-Hord, fmap_app, concat_app. cbn. by rewrite app_nil_r, (assoc_L (++)).
    + rewrite recorded_by_snoc. by apply (w_holds _ _ _ _ Hwr).
  - intros [= <-]. by split_and!.
Qed.
Lemma threads_in_order file l st st' : Forall submits_writable l → in_order file st → run l st = Some st' → in_order file st'.
Proof.
  intros Hl. revert st. induction Hl as [|a l Ha Hl IH]; intros st Hst; cbn [run]; [by intros [= <-]|].
  destruct (act a st) as [st1|] eqn:Hact; [|done]. cbn. apply IH. by apply (act_in_order file a st).
Qed.
Lemma opened_in_order file v fates : in_order file (opened file v fates).
Proof.
  split_and!; [done|by constructor|done|]. destruct file as [text|]; cbn; [|done]. exists "", "". by rewrite append_nil_r.
Qed.
Lemma run_reliable file l st st' : Forall submits_writable l → in_order file st → run l st = Some st' →
  reliable st.(out) → reliable st'.(out).
Proof.
  intros Hl. revert st. induction Hl as [|a l Ha Hl IH]; intros st Hst; cbn [run]; [by intros [= <-]|].
  destruct (act a st) as [st1|] eqn:Hact; [|done]. intros Hr Hrel. pose proof (act_in_order file a st st1 Ha Hst Hact) as Hst1.
  apply (IH st1 Hst1 Hr). clear IH Hr. destruct Hst as (Hord & Hw & Hb & _).
  assert (Htake : ∀ st', take st = Some st' → reliable st'.(out)) by (unfold take; intros st2; destruct (taken st); [done|]; by intros [= <-]).
  destruct a as [e| | | |n|n|]; cbn [act] in Hact; unfold set_levels in Hact; [| |by apply Htake| |..].
  - destruct (_ <? _); [done|]. by injection Hact as <-.
  - destruct (ended st); [done|]. destruct (m_stop st); cbn [negb] in Hact.
    + destruct (take st) as [st2|] eqn:Ht; [|done]. injection Hact as <-. exact (Htake _ eq_refl).
    + case_bool_decide; [done|]. by apply Htake.
  - unfold mbind, option_bind in Hact. destruct (taken st) as [t|] eqn:Ht; [|done]. cbn in Hord.
    rewrite <-Hord in Hw. assert (Hwt : Forall writable t) by (apply Forall_app in Hw as [_ Hw]; by apply Forall_app in Hw as [Hw _]).
    destruct (flush_writes st.(lv) t st.(out) Hwt) as (s' & Hf & Hb' & Hwr); [unfold sound; rewrite Hb; by split|].
    rewrite Hf in Hact. injection Hact as <-. by apply (w_reliable _ _ _ _ Hwr).
  - destruct (taken st); [done|]. by injection Hact as <-.
  - destruct (taken st); [done|]. by injection Hact as <-.
  - by injection Hact as <-.
Qed.

(** What the threads submit is what is in the queue, in the flush and in the file. *)
Definition submits (l : list action) : list Entry.t := omap (λ a, match a with Submit_entry e => Some (Entry.finish e) | _ => None end) l.
Lemma take_keeps st st' : take st = Some st' → st'.(submitted) = st.(submitted).
Proof. unfold take. destruct (taken st); [done|]. by intros [= <-]. Qed.
Lemma act_submitted a st st' : act a st = Some st' → st'.(submitted) = st.(submitted) ++ submits [a].
Proof.
  destruct a; cbn [act submits omap list_omap]; rewrite ?app_nil_r; unfold set_levels.
  - destruct (_ <? _); [done|]. by intros [= <-].
  - destruct (ended st); [done|]. destruct (m_stop st); cbn [negb].
    + destruct (take st) as [st1|] eqn:Ht; [|done]. intros [= <-]. by apply take_keeps in Ht.
    + case_bool_decide; [done|]. apply take_keeps.
  - apply take_keeps.
  - destruct (taken st) as [t|]; [|done]. unfold mbind, option_bind. destruct (Log._flush (lv st) t (out st)); [|done]. by intros [= <-].
  - destruct (taken st); [done|]. by intros [= <-].
  - destruct (taken st); [done|]. by intros [= <-].
  - by intros [= <-].
Qed.
Lemma run_submitted l st st' : run l st = Some st' → st'.(submitted) = st.(submitted) ++ submits l.
Proof.
  revert st. induction l as [|a l IH]; intros st; cbn [run]; [intros [= <-]; by rewrite app_nil_r|].
  destruct (act a st) as [st1|] eqn:Ha; [|done]. intros Hr. change (a :: l) with ([a] ++ l). unfold submits. rewrite omap_app, (assoc_L (++)).
  fold (submits [a]) (submits l). by rewrite <-(act_submitted _ _ _ Ha), <-(IH st1 Hr).
Qed.

(** C14: the log keeps the lines whole and in order, until a write to its file fails.
    However the threads take turns, the entries submitted are those flushed, those
    being flushed and those in the queue, in the order of submission. The file holds,
    behind what it held, the lines of the flushed ones that the level of their time
    lets pass, in order and none cut short; after a failing write, at whatever byte,
    the stream is bad and it keeps only the beginning of them: nothing is written any
    more and the rest is lost. While no write fails it has them all. And a flush that
    has begun never overruns the buffer or fails an assertion. *)
Theorem log_in_order file v fates l st : Forall submits_writable l → run l (opened file v fates) = Some st →
  concat st.(flushed).*2 ++ default [] st.(taken) ++ st.(m_new) = submits l ∧
  (∀ text now, file = Some text → st.(out).(Log.m_fstream) = Some now →
    ∃ kept lost, now = text +:+ kept ∧ recorded_by st.(flushed) = kept +:+ lost ∧ (st.(out).(Log.bad) = false → lost = "")) ∧
  (file = None ↔ st.(out).(Log.m_fstream) = None) ∧
  (Forall (eq Log.whole) fates → st.(out).(Log.bad) = false) ∧
  (is_Some st.(taken) → is_Some (act Write st)).
Proof.
  intros Hl Hr. pose proof (threads_in_order file l _ _ Hl (opened_in_order file v fates) Hr) as Ho.
  pose proof Ho as (Hord & _ & Hb & Hh). split_and!.
  - rewrite Hord. by rewrite (run_submitted _ _ _ Hr).
  - intros text now -> Hnow. unfold holds in Hh. rewrite Hnow in Hh. destruct Hh as (kept & rest & -> & Ht & Hrest).
    exists kept, rest. split_and!; [done|done|]. intros Hg. by rewrite Hrest.
  - unfold holds in Hh. by destruct file, (Log.m_fstream (out st)).
  - intros Hall. by apply (run_reliable file l _ _ Hl (opened_in_order file v fates) Hr).
  - intros [t Ht]. destruct (write_enabled file st t Ho Ht) as [st' ->]. by eexists.
Qed.

(** Flushes to come. *)
Definition effort st : Z :=
  (if bool_decide (st.(m_new) = []) then 0 else 2) + (if st.(taken) then 1 else 0) + (if st.(ended) then 0 else 2).
Lemma effort_bounds st : 0 ≤ effort st ≤ 5.
Proof. unfold effort. destruct (bool_decide _), (taken st), (ended st); lia. Qed.
Lemma internal_effort a st st' : internal a = true → act a st = Some st' → effort st' < effort st.
Proof.
  destruct a; try done; intros _; cbn [act]; unfold effort, take.
  - destruct (ended st); [done|]. destruct (m_stop st); cbn [negb].
    + destruct (taken st); [done|]. intros [= <-]. cbn. destruct (bool_decide (m_new st = [])); cbn; lia.
    + case_bool_decide; [done|]. destruct (taken st); [done|]. intros [= <-]. cbn. lia.
  - destruct (taken st) as [t|]; [|done]. unfold mbind, option_bind. destruct (Log._flush (lv st) t (out st)); [|done]. intros [= <-]. cbn. lia.
Qed.
Lemma run_effort l st st' : forallb internal l = true → run l st = Some st' → Z.of_nat (length l) ≤ effort st - effort st'.
Proof.
  revert st. induction l as [|a l IH]; intros st; cbn [run forallb]; [intros _ [= <-]; cbn; lia|]. intros [Ha Hl]%andb_prop.
  destruct (act a st) as [st1|] eqn:Hact; [|done]. intros Hr. specialize (IH st1 Hl Hr). pose proof (internal_effort _ _ _ Ha Hact). cbn [length]. lia.
Qed.

(** And it catches up: unless entries keep coming, within five steps of the log thread
    and of whoever flushes there is nothing left to do. Then, while the log runs, all that
    was submitted is flushed and no thread waits for room, whatever the bound of the queue
    happens to be; and after [stop] the flush of the destructor writes the rest. *)
Theorem log_catches_up file v fates l st l' st' : Forall submits_writable l → run l (opened file v fates) = Some st →
  forallb internal l' = true → run l' st = Some st' → Z.of_nat (length l') ≤ 5 ∧
  ((∀ a, internal a = true → act a st' = None) →
   (st'.(m_stop) = false → st'.(ended) = false → concat st'.(flushed).*2 = submits l ∧ ∀ e, is_Some (act (Submit_entry e) st')) ∧
   ∃ st'', run [Flush; Write] st' = Some st'' ∧ concat st''.(flushed).*2 = submits l).
Proof.
  intros Hl Hr Hi Hr'. pose proof (threads_in_order file l _ _ Hl (opened_in_order file v fates) Hr) as Ho.
  assert (Hw' : Forall submits_writable l').
  { apply Forall_forall. intros a Ha. rewrite forallb_forall in Hi. apply list_elem_of_In in Ha. specialize (Hi a Ha). by destruct a as [e| | | | | |]. }
  pose proof (threads_in_order file l' _ _ Hw' Ho Hr') as Ho'. split.
  { pose proof (run_effort _ _ _ Hi Hr'). pose proof (effort_bounds st). pose proof (effort_bounds st'). lia. }
  intros Hrest. assert (Hsub : submitted st' = submits l).
  { rewrite (run_submitted _ _ _ Hr'), (run_submitted _ _ _ Hr). cbn. assert (submits l' = []) as ->; [|by rewrite app_nil_r].
    clear -Hi. induction l' as [|a l' IH]; [done|]. cbn in Hi. apply andb_prop in Hi as [Ha Hi]. destruct a; try done; by apply IH. }
  assert (Htaken : taken st' = None).
  { destruct (taken st') as [t|] eqn:Ht; [|done]. destruct (write_enabled file st' t Ho' Ht) as [x Hx]. by rewrite (Hrest Write eq_refl) in Hx. }
  split.
  - intros Hstop Hended. pose proof (Hrest Entry eq_refl) as He. cbn [act] in He. rewrite Hended, Hstop in He. cbn [negb] in He.
    unfold take in He. rewrite Htaken in He. case_bool_decide as Hnew; [|done]. split.
    + destruct Ho' as (Hord & _). rewrite Htaken, Hnew in Hord. cbn in Hord. by rewrite app_nil_r, Hsub in Hord.
    + intros e. cbn [act]. rewrite Hnew. rewrite (proj2 (Z.ltb_ge _ _)); [by eexists|]. unfold to_u64. cbn. apply Z.mod_pos_bound. lia.
  - cbn [run act]. assert (Hf : take st' = Some (State [] (Some st'.(m_new)) st'.(out) st'.(lv) st'.(m_stop) st'.(ended) st'.(submitted) st'.(flushed)))
      by (unfold take; by rewrite Htaken).
    rewrite Hf. pose proof (act_in_order file Flush st' _ I Ho' Hf) as Ho1. set (st1 := State [] _ _ _ _ _ _ _) in *.
    destruct (write_enabled file st1 (m_new st') Ho1 eq_refl) as [st2 Hst2]. exists st2.
    pose proof (act_in_order file Write _ _ I Ho1 Hst2) as (Hord & _). pose proof (act_submitted Write _ _ Hst2) as Hs2.
    assert (Hst : st2.(taken) = None ∧ st2.(m_new) = []).
    { unfold act, mbind, option_bind in Hst2. cbn [taken st1] in Hst2. destruct (Log._flush (lv st1) (m_new st') (out st1)); [|done]. by injection Hst2 as <-. }
    split; [unfold mbind, option_bind; change (match act Write st1 with Some y => Some y | None => None end = Some st2); by rewrite Hst2|].
    destruct Hst as [Ht2 Hn2]. rewrite Ht2, Hn2, Hs2 in Hord. cbn in Hord. rewrite !app_nil_r in Hord. by rewrite Hord, <-Hsub.
Qed.
End threads.

(** ** An example *)
Module LogRun.
Definition clock : LocalTime := λ _, Calendar 119 2 4 20 32 48.
#[export] Existing Instance clock.
#[export] Instance clock_laws : LocalTimeLaws.
Proof. intros t. cbn. lia. Qed.
Definition entry_of (stamp level : Z) (text : string) : Entry.t := default (Entry.new 0 0 0 None) (Entry.set_str text (Entry.new stamp 255 level (Some "ioproxy"))).
Definition levels : Log.levels := Log.Levels 10 (-2) (-1) "".
(** Two entries, of which the first is flushed while the second arrives. *)
Definition early : list action := [Submit_entry (entry_of 874123000 5 "started"); Entry; Submit_entry (entry_of 874124000 20 "detail")].
Definition late : list action := [Write; Entry; Write].
Definition failing : list action := [Submit_entry (entry_of 874125000 5 "stopped"); Entry; Write].
Definition before : option string := Some ("old" +:+ newline).
(** The second write to the file fails after ten bytes. *)
Definition fates : list Log.fate := [Log.whole; Log.fails 10 false].
Definition after (l : list action) : state := default (opened before levels fates) (run (-1) l (opened before levels fates)).
End LogRun.
Import LogRun.

Lemma log_in_order_witness :
  (after (early ++ late)).(out).(Log.m_fstream) = Some ("old" +:+ newline +:+ "2019-03-04 20:32:48.874123 ff  5 ioproxy started" +:+ newline) ∧
  concat (after (early ++ late)).(flushed).*2 ++ default [] (after (early ++ late)).(taken) ++ (after (early ++ late)).(m_new) = submits (early ++ late) ∧
  (∃ kept lost, (after (early ++ late ++ failing)).(out).(Log.m_fstream) = Some ("old" +:+ newline +:+ kept) ∧
    recorded_by (after (early ++ late ++ failing)).(flushed) = kept +:+ lost).
Proof.
  destruct (log_in_order (-1) before levels fates (early ++ late) (after (early ++ late))) as (H1 & H2 & _);
    [repeat constructor|vm_compute; reflexivity|].
  destruct (log_in_order (-1) before levels fates (early ++ late ++ failing) (after (early ++ late ++ failing))) as (_ & H3 & _);
    [repeat constructor|vm_compute; reflexivity|].
  split_and!; [vm_compute; reflexivity|exact H1|].
  assert (Hnow : Log.m_fstream (out (after (early ++ late ++ failing))) =
    Some (default "" (Log.m_fstream (out (after (early ++ late ++ failing)))))) by (vm_compute; reflexivity).
  revert H3 Hnow. generalize (after (early ++ late ++ failing)) as st. intros st H3 Hnow.
  destruct (H3 ("old" +:+ newline) _ eq_refl Hnow) as (kept & lost & Heq & Hrec & _). exists kept, lost.
  rewrite Hnow, Heq. by rewrite append_assoc.
Defined.

Lemma log_catches_up_witness :
  concat (after (early ++ late)).(flushed).*2 = submits early ∧ ∀ e, is_Some (act (-1) (Submit_entry e) (after (early ++ late))).
Proof.
  destruct (log_catches_up (-1) before levels fates early (after early) late (after (early ++ late))) as [_ Hrest];
    [repeat constructor|vm_compute; reflexivity..|].
  destruct Hrest as [Hdone _]; [|apply Hdone; vm_compute; reflexivity].
  intros [e| | | |n|n|] Ha; first [discriminate Ha|vm_compute; reflexivity].
Defined.
