(* ===== verification/OpQueue.v ===== *)
(** * The queue of operations of the I/O proxy (io_proxy/io_proxy.cc)

    [queue_op] puts an operation into the line, and the dispatcher thread hands those of
    the line to idle workers. The mutexes make the critical sections the steps of a
    transition system. The workers are identified by numbers. *)
From S2P Require Import Prelude CxxString.

Module OpQueue.
Section queue.
Context {op : Type}.

(** [taken] is what the dispatcher took from the line, in [_dispatch_unsafe]; [holder] is a
    thread that left [queue_op] with the mutex locked; [queued] and [events] are histories:
    the operations accepted, and the [OpQueued] events handed out. *)
Record t : Type := mk {
  op_waiting_line : list op;
  taken : option (list op);
  idle_list : list Z;
  m_stop : bool;
  ended : bool;
  holder : option Z;
  queued : list op;
  events : list (Z * op);
}.
Implicit Types (st : t) (o : op) (th : Z).
Definition start : t := mk [] None [] false false None [] [].
Definition m_max_op : Z := 1000.
Definition m_max_worker : Z := 1024.

(** [m_queue_mutex] is recursive: the thread that holds it can lock it again. *)
Definition can_lock th st : bool := match st.(holder) with None => true | Some h => h =? th end.
Definition set_holder (h : option Z) st : t :=
  mk st.(op_waiting_line) st.(taken) st.(idle_list) st.(m_stop) st.(ended) h st.(queued) st.(events).
(** The result and the queue; [None]: the thread waits. *)
Definition queue_op th o (block : bool) st : option (bool * t) :=
  if negb (can_lock th st) then None
  else if m_max_op <? size_of st.(op_waiting_line) then (if block then None else Some (false, set_holder (Some th) st))
  else Some (true, mk (st.(op_waiting_line) ++ [o]) st.(taken) st.(idle_list) st.(m_stop) st.(ended) st.(holder) (st.(queued) ++ [o]) st.(events)).

(** The dispatcher in its loop: the first half of [_dispatch], or the end of the thread. *)
Definition dispatcher : Z := 0.
Definition entry st : option t :=
  match st.(taken) with
  | Some _ => None
  | None =>
      if negb (can_lock dispatcher st) || st.(ended) then None
      else if st.(m_stop) then Some (mk st.(op_waiting_line) None st.(idle_list) true true st.(holder) st.(queued) st.(events))
      else if bool_decide (length st.(op_waiting_line) = 0%nat) then None
      else Some (mk [] (Some st.(op_waiting_line)) st.(idle_list) st.(m_stop) st.(ended) st.(holder) st.(queued) st.(events))
  end.
(** A round of [_dispatch_unsafe]: it spins in [_get_idle_worker] while none is idle. *)
Definition _dispatch_unsafe st : option t :=
  l ← st.(taken);
  match l with
  | [] => Some (mk st.(op_waiting_line) None st.(idle_list) st.(m_stop) st.(ended) st.(holder) st.(queued) st.(events))
  | o :: l =>
      match st.(idle_list) with
      | [] => None
      | w :: ws => Some (mk st.(op_waiting_line) (Some l) ws st.(m_stop) st.(ended) st.(holder) st.(queued) (st.(events) ++ [(w, o)]))
      end
  end.
Definition add_idle_worker (w : Z) st : t :=
  mk st.(op_waiting_line) st.(taken) (st.(idle_list) ++ [w]) st.(m_stop) st.(ended) st.(holder) st.(queued) st.(events).
(** [stop], up to the [join]. *)
Definition stop th st : option t :=
  if can_lock th st then Some (mk st.(op_waiting_line) st.(taken) st.(idle_list) true st.(ended) st.(holder) st.(queued) st.(events)) else None.

Inductive action : Type :=
| Queue_op (th : Z) (o : op) (block : bool)
| Entry
| Dispatch
| Add_idle_worker (w : Z)
| Stop (th : Z).
Definition act (a : action) st : option t :=
  match a with
  | Queue_op th o block => snd <$> queue_op th o block st
  | Entry => entry st
  | Dispatch => _dispatch_unsafe st
  | Add_idle_worker w => Some (add_idle_worker w st)
  | Stop th => stop th st
  end.
Fixpoint run (l : list action) st : option t :=
  match l with
  | [] => Some st
  | a :: l => st ← act a st; run l st
  end.

(** [queue_and_wait] waits for three seconds and ends without a value. *)
Definition queue_and_wait {W} th o st : option (M W bool * t) := '(_, st) ← queue_op th o true st; Some (undefined, st).

(** ** Proofs *)

(** The operations in the order they were accepted: handed out, taken, waiting. *)
Definition in_order st : Prop := st.(events).*2 ++ default [] st.(taken) ++ st.(op_waiting_line) = st.(queued).
Definition bounded st : Prop := size_of st.(op_waiting_line) ≤ m_max_op + 1 ∧ size_of (default [] st.(taken)) ≤ m_max_op + 1.
(** Workers in use and idle are those that were added. *)
Lemma act_keeps_line a st st' : in_order st → bounded st → act a st = Some st' → in_order st' ∧ bounded st'.
Proof.
  intros Ho Hb. destruct a as [th o block| | |w|th]; cbn [act].
  - unfold queue_op. destruct (negb _); [done|]. destruct (Z.ltb_spec m_max_op (size_of (op_waiting_line st))).
    + destruct block; [done|]. by intros [= <-].
    + intros [= <-]. unfold in_order, bounded in *. cbn. rewrite <-Ho, !(assoc_L (++)). split; [done|]. unfold size_of in *. rewrite length_app. cbn. lia.
  - unfold entry. destruct (taken st) eqn:Ht; [done|]. destruct (_ || _); [done|].
    destruct (m_stop st); [intros [= <-]; split; unfold in_order, bounded in *; cbn; rewrite ?Ht in *; done|]. case_bool_decide; [done|]. intros [= <-].
    unfold in_order, bounded in *. cbn. rewrite Ht in *. cbn in *. rewrite app_nil_r. unfold size_of in *. cbn. split; [done|lia].
  - unfold _dispatch_unsafe, mbind, option_bind. destruct (taken st) as [[|o l]|] eqn:Ht; [..|done].
    + intros [= <-]. unfold in_order, bounded in *. rewrite Ht in *. done.
    + destruct (idle_list st) as [|w ws]; [done|]. intros [= <-]. unfold in_order, bounded in *. rewrite Ht in *. cbn in *.
      rewrite <-Ho, fmap_app, <-(assoc_L (++)). split; [done|]. unfold size_of in *. cbn in *. lia.
  - by intros [= <-].
  - unfold stop. destruct (can_lock th st); [|done]. by intros [= <-].
Qed.
Lemma run_keeps_line l st st' : in_order st → bounded st → run l st = Some st' → in_order st' ∧ bounded st'.
Proof.
  revert st. induction l as [|a l IH]; intros st Ho Hb; cbn [run]; [by intros [= <-]|].
  destruct (act a st) as [st1|] eqn:Ha; [|done]. destruct (act_keeps_line _ _ _ Ho Hb Ha). by apply IH.
Qed.
Lemma start_keeps_line : in_order start ∧ bounded start.
Proof. split; [done|]. split; cbn; done. Qed.

Definition adds (l : list action) : list Z := omap (λ a, match a with Add_idle_worker w => Some w | _ => None end) l.
(** No worker is ever handed an operation that was not added before, in that order. *)
Lemma act_workers a st st' : act a st = Some st' → st'.(events).*1 ++ st'.(idle_list) = st.(events).*1 ++ st.(idle_list) ++ adds [a].
Proof.
  destruct a as [th o block| | |w|th]; cbn [act adds omap list_omap]; rewrite ?app_nil_r.
  - unfold queue_op. destruct (negb _); [done|]. destruct (_ <? _); [destruct block; [done|]|]; by intros [= <-].
  - unfold entry. destruct (taken st); [done|]. destruct (_ || _); [done|]. destruct (m_stop st); [by intros [= <-]|]. case_bool_decide; [done|]. by intros [= <-].
  - unfold _dispatch_unsafe, mbind, option_bind. destruct (taken st) as [[|o l]|]; [by intros [= <-]|..|done].
    destruct (idle_list st) as [|w ws]; [done|]. intros [= <-]. cbn. by rewrite fmap_app, <-(assoc_L (++)).
  - by intros [= <-].
  - unfold stop. destruct (can_lock th st); [|done]. by intros [= <-].
Qed.
Lemma run_workers l st st' : run l st = Some st' → st'.(events).*1 ++ st'.(idle_list) = st.(events).*1 ++ st.(idle_list) ++ adds l.
Proof.
  revert st. induction l as [|a l IH]; intros st; cbn [run]; [intros [= <-]; by rewrite app_nil_r|].
  destruct (act a st) as [st1|] eqn:Ha; [|done]. intros Hr. rewrite (IH st1 Hr), (assoc_L (++)), (act_workers _ _ _ Ha).
  change (a :: l) with ([a] ++ l). unfold adds. rewrite omap_app. by rewrite <-!(assoc_L (++)).
Qed.

(** C16: operations are handed out in the order they were accepted, none twice and none lost,
    each to the worker that has been idle longest; and the line never holds more than 1001. *)
Theorem dispatched_in_order l st : run l start = Some st →
  st.(events).*2 ++ default [] st.(taken) ++ st.(op_waiting_line) = st.(queued) ∧
  st.(events).*1 ++ st.(idle_list) = adds l ∧ size_of st.(op_waiting_line) ≤ m_max_op + 1.
Proof.
  intros Hr. destruct (run_keeps_line _ _ _ (proj1 start_keeps_line) (proj2 start_keeps_line) Hr) as [Ho [Hb _]].
  split_and!; [done|apply (run_workers _ _ _ Hr)|done].
Qed.

(** Without workers a proxy carries out nothing: no worker enters the idle list, since
    the call of [add_idle_worker] is commented out, so no operation is ever handed out; the
    dispatcher spins over the first it took, and after at most 2002 operations every
    session that brings one waits for ever. *)
Theorem nothing_without_workers l st : run l start = Some st → adds l = [] →
  st.(events) = [] ∧ size_of st.(queued) ≤ 2 * (m_max_op + 1) ∧
  (∀ o l, st.(taken) = Some (o :: l) → act Dispatch st = None ∧ act Entry st = None).
Proof.
  intros Hr Ha. destruct (run_keeps_line _ _ _ (proj1 start_keeps_line) (proj2 start_keeps_line) Hr) as [Ho [Hb Ht]].
  pose proof (run_workers _ _ _ Hr) as Hw. rewrite Ha in Hw. apply app_eq_nil in Hw as [He Hi].
  assert (Hev : events st = []) by (by destruct (events st)). unfold in_order in Ho. rewrite Hev in Ho. split_and!; [done| |].
  - rewrite <-Ho. unfold size_of in *. rewrite !length_app. cbn. lia.
  - intros o l' Htk. split; cbn; [|unfold entry; by rewrite Htk]. unfold _dispatch_unsafe. rewrite Htk. cbn. by rewrite Hi.
Qed.

(** [queue_op] without blocking leaves the mutex locked when the line is full: from then
    on no other thread gets past it, the dispatcher neither, and the line stays full. *)
Theorem refusal_locks_the_queue th o st st' l st'' : th ≠ dispatcher → queue_op th o false st = Some (false, st') →
  run l st' = Some st'' → st''.(op_waiting_line) = st.(op_waiting_line) ∧ entry st'' = None ∧
  ∀ th' o' block, th' ≠ th → queue_op th' o' block st'' = None.
Proof.
  unfold queue_op at 1. destruct (negb _); [done|]. destruct (Z.ltb_spec m_max_op (size_of (op_waiting_line st))) as [Hfull|]; [|done].
  intros Hth [= <-].
  assert (Hinv : ∀ s, holder s = Some th ∧ op_waiting_line s = op_waiting_line st → entry s = None ∧
    ∀ th' o' block, th' ≠ th → queue_op th' o' block s = None).
  { intros s [Hh Hl]. split.
    - unfold entry, can_lock. rewrite Hh, (proj2 (Z.eqb_neq th dispatcher)) by done. by destruct (taken s).
    - intros th' o' block Hne. unfold queue_op, can_lock. by rewrite Hh, (proj2 (Z.eqb_neq th th')) by done. }
  assert (Hkeep : ∀ s, holder s = Some th ∧ op_waiting_line s = op_waiting_line st → run l s = Some st'' →
    holder st'' = Some th ∧ op_waiting_line st'' = op_waiting_line st).
  { induction l as [|a l IH]; intros s Hs; cbn [run]; [by intros [= <-]|]. destruct (act a s) as [s1|] eqn:Ha; [|done].
    apply IH. destruct (Hinv s Hs) as [He Hq]. destruct Hs as [Hh Hl]. destruct a as [th' o' block| | |w|th']; cbn [act] in Ha.
    - destruct (decide (th' = th)) as [->|Hne]; [|by rewrite Hq in Ha]. unfold queue_op, can_lock in Ha. rewrite Hh, Z.eqb_refl, Hl in Ha.
      cbn [negb] in Ha. rewrite (proj2 (Z.ltb_lt _ _) Hfull) in Ha. destruct block; [done|]. by injection Ha as <-.
    - by rewrite He in Ha.
    - unfold _dispatch_unsafe, mbind, option_bind in Ha. destruct (taken s) as [[|? ?]|]; [by injection Ha as <-|..|done].
      destruct (idle_list s); [done|]. by injection Ha as <-.
    - by injection Ha as <-.
    - unfold stop in Ha. destruct (can_lock th' s); [|done]. by injection Ha as <-. }
  intros Hr. destruct (Hkeep (set_holder (Some th) st) ltac:(done) Hr) as [Hh Hl]. split; [done|]. by apply Hinv.
Qed.
End queue.
End OpQueue.

(** ** Runs *)
Module OpQueueRuns.
Import OpQueue.
Definition after (l : list (action (op := Z))) : t (op := Z) := default start (run l start).
(** Three operations for two workers, one of which is idle again. *)
Definition shift : list (action (op := Z)) :=
  [Add_idle_worker 7; Add_idle_worker 8; Queue_op 1 10 true; Entry; Queue_op 2 11 true; Dispatch; Queue_op 1 12 true; Dispatch; Entry;
   Dispatch; Add_idle_worker 7; Dispatch].
(** As many as the line takes, twice. *)
Definition fill : list (action (op := Z)) := (λ n, Queue_op 1 (Z.of_nat n) true) <$> seq 0 1001.
Definition stuck : list (action (op := Z)) := fill ++ Entry :: fill.
Definition refused : t (op := Z) := set_holder (Some 2) (after fill).
End OpQueueRuns.
Import OpQueueRuns.

Lemma dispatched_in_order_witness :
  (after shift).(OpQueue.events) = [(7, 10); (8, 11); (7, 12)] ∧ (after shift).(OpQueue.events).*1 ++ (after shift).(OpQueue.idle_list) = [7; 8; 7].
Proof.
  split; [vm_compute; reflexivity|].
  destruct (OpQueue.dispatched_in_order shift (after shift)) as (_ & H & _); [vm_compute; reflexivity|exact H].
Defined.

Lemma nothing_without_workers_witness :
  (after stuck).(OpQueue.events) = [] ∧ size_of (after stuck).(OpQueue.queued) = 2002 ∧ OpQueue.act (OpQueue.Queue_op 1 5 true) (after stuck) = None.
Proof.
  split_and!; [|vm_compute; reflexivity..].
  destruct (OpQueue.nothing_without_workers stuck (after stuck)) as (H & _ & _); [vm_compute; reflexivity..|exact H].
Defined.

Lemma refusal_locks_the_queue_witness : OpQueue.entry (after fill) ≠ None ∧ OpQueue.entry (OpQueue.add_idle_worker 7 refused) = None.
Proof.
  split; [vm_compute; discriminate|].
  destruct (OpQueue.refusal_locks_the_queue 2 5 (after fill) refused [OpQueue.Add_idle_worker 7] (OpQueue.add_idle_worker 7 refused)) as (_ & H & _);
    [discriminate|vm_compute; reflexivity|reflexivity|exact H].
Defined.
