(* ===== verification/UdtMessage.v ===== *)
(** * Messages of the UDT sessions (io_proxy/rpc_types.h)

    [ioproxy_rpc_buffer], its constructors, and the msgpack stream the sessions write
    it to and read it from: [Msgpack] is the interface of the library. *)
From S2P Require Import Prelude CxxString Records.

Module ioproxy_rpc_buffer.
Record t : Type := mk {
  error_code : Z;
  is_read : bool;
  id : Z;
  buf : string;
  offset : Z;
  read_size : Z;
  path : string;
  fid : Z;
  flags : Z;
}.
#[global] Instance t_eq_dec : EqDecision t.
Proof. solve_decision. Defined.
#[global] Instance t_countable : Countable t.
Proof.
  refine (inj_countable' (λ m, (m.(error_code), m.(is_read), m.(id), m.(buf), m.(offset), m.(read_size), m.(path), m.(fid), m.(flags)))
    (λ '(e, r, i, b, o, s, p, fd, fl), mk e r i b o s p fd fl) _).
  by intros [].
Defined.

(** What a constructor does not set is whatever the memory held. *)
Section constructors.
Variable junk : t.
Definition for_write (_path buffer : string) (off : Z) : t :=
  mk 0 false junk.(id) buffer (to_u64 off) junk.(read_size) (c_str _path) junk.(fid) junk.(flags).
Definition for_read (_path : string) (off _size : Z) : t :=
  mk 0 true junk.(id) "" (to_u64 off) (to_u64 (to_i32 _size)) (c_str _path) junk.(fid) junk.(flags).
Definition of_error (i : Z) : t :=
  mk (to_i32 i) true junk.(id) "" junk.(offset) junk.(read_size) "" junk.(fid) junk.(flags).
(** From a [Buffer] of the queue of writes. *)
Definition of_buffer (path data : string) (offset : Z) : t :=
  mk junk.(error_code) false junk.(id) data offset 0 path junk.(fid) 0.
End constructors.

Definition set_id (v : Z) (m : t) : t :=
  mk m.(error_code) m.(is_read) v m.(buf) m.(offset) m.(read_size) m.(path) m.(fid) m.(flags).
Definition set_error_code (v : Z) (m : t) : t :=
  mk v m.(is_read) m.(id) m.(buf) m.(offset) m.(read_size) m.(path) m.(fid) m.(flags).
(** As [gvdsfs_read] fills them in. *)
Definition set_file (fid flags : Z) (m : t) : t :=
  mk m.(error_code) m.(is_read) m.(id) m.(buf) m.(offset) m.(read_size) m.(path) fid flags.
End ioproxy_rpc_buffer.
Notation rpc_buffer := ioproxy_rpc_buffer.t.

(** ** The stream *)

(** [unpacker.next]: there is no whole object yet; an object, which is no message where
    [as] throws, and the bytes behind it; or bytes that are no object, where it throws. *)
Inductive unpacked : Type :=
| Incomplete
| Object (o : option rpc_buffer) (rest : string)
| Malformed.
Class Msgpack : Type := {
  pack : rpc_buffer → string;
  unpack : string → unpacked;
}.
Class MsgpackLaws `{Msgpack} : Prop := {
  unpack_pack m rest : unpack (pack m +:+ rest) = Object (Some m) rest;
  unpack_nothing : unpack "" = Incomplete;
  unpack_shorter s o rest : unpack s = Object o rest → (String.length rest < String.length s)%nat;
  unpack_part m p q : pack m = p +:+ q → q ≠ "" → unpack p = Incomplete;
}.

Definition flat (l : list string) : string := foldr String.append "" l.
Lemma flat_app l1 l2 : flat (l1 ++ l2) = flat l1 +:+ flat l2.
Proof. induction l1 as [|f l1 IH]; [done|]. cbn. unfold flat in IH. by rewrite IH, append_assoc. Qed.
Lemma flat_one f : flat [f] = f.
Proof. apply append_nil_r. Qed.

Lemma append_split a b c d : a +:+ b = c +:+ d → (∃ x, a = c +:+ x ∧ d = x +:+ b) ∨ (∃ x, x ≠ "" ∧ c = a +:+ x ∧ b = x +:+ d).
Proof.
  revert c. induction a as [|h a IH]; intros [|k c] Heq.
  - left. by exists "".
  - right. by exists (String k c).
  - left. by exists (String h a).
  - rewrite !append_cons in Heq. injection Heq as -> Heq. destruct (IH c Heq) as [(x & -> & ->)|(x & Hx & -> & ->)]; [left; by exists x|right; by exists x].
Qed.

Section stream.
Context `{MsgpackLaws}.
Implicit Types (m : rpc_buffer) (l : list rpc_buffer).

Definition packed l : string := flat (pack <$> l).
Lemma packed_app l1 l2 : packed (l1 ++ l2) = packed l1 +:+ packed l2.
Proof. unfold packed. by rewrite fmap_app, flat_app. Qed.
Lemma packed_one m : packed [m] = pack m.
Proof. apply flat_one. Qed.

(** What is found at the start of what has arrived of a stream: the next message, or
    nothing yet, and never something else. *)
Lemma unpack_stream b r l : b +:+ r = packed l →
  unpack b = Incomplete ∨ ∃ m l' rest, l = m :: l' ∧ unpack b = Object (Some m) rest ∧ b = pack m +:+ rest ∧ rest +:+ r = packed l'.
Proof.
  destruct l as [|m l]; intros Hb.
  - destruct b; [|done]. left. apply unpack_nothing.
  - change (packed (m :: l)) with (pack m +:+ packed l) in Hb. destruct (append_split _ _ _ _ Hb) as [(x & -> & Hx)|(x & Hx & Hp & _)].
    + right. exists m, l, x. by rewrite unpack_pack.
    + left. by apply (unpack_part m b x).
Qed.
(** Of a whole stream it is the next message. *)
Lemma unpack_whole m l : unpack (packed (m :: l)) = Object (Some m) (packed l).
Proof. apply unpack_pack. Qed.
End stream.

(** ** An encoding that satisfies the laws

    The number of a message in base two behind a mark that ends it. *)
Module ToyPack.
Fixpoint bits (p : positive) : string :=
  match p with xH => "" | xO p => String "0" (bits p) | xI p => String "1" (bits p) end.
(** The digits before the mark, and what is behind it. *)
Fixpoint read_bits (s : string) : option (option positive * string) :=
  match s with
  | "" => None
  | String c s =>
      if Ascii.eqb c ";" then Some (Some xH, s)
      else
        '(p, rest) ← read_bits s;
        Some (if Ascii.eqb c "0" then xO <$> p else if Ascii.eqb c "1" then xI <$> p else None, rest)
  end.
#[export] Instance toy : Msgpack := {|
  pack m := bits (encode m) +:+ ";";
  unpack s := match read_bits s with
              | None => Incomplete
              | Some (p, rest) => Object (p ≫= decode) rest
              end;
|}.
Lemma read_bits_pack p rest : read_bits ((bits p +:+ ";") +:+ rest) = Some (Some p, rest).
Proof.
  assert (Hs : ∀ c p, read_bits ((String c (bits p) +:+ ";") +:+ rest) =
    if Ascii.eqb c ";" then Some (Some xH, (bits p +:+ ";") +:+ rest)
    else '(q, r) ← read_bits ((bits p +:+ ";") +:+ rest);
         Some (if Ascii.eqb c "0" then xO <$> q else if Ascii.eqb c "1" then xI <$> q else None, r)) by done.
  induction p as [p IH|p IH|]; [..|done]; cbn [bits]; rewrite Hs, IH; done.
Qed.
Lemma read_bits_part p a b : bits p +:+ ";" = a +:+ b → b ≠ "" → read_bits a = None.
Proof.
  revert a. induction p as [p IH|p IH|]; intros [|c a] Heq Hb; try done.
  - cbn in Heq. injection Heq as <- Heq. cbn. by rewrite (IH a Heq Hb).
  - cbn in Heq. injection Heq as <- Heq. cbn. by rewrite (IH a Heq Hb).
  - cbn in Heq. injection Heq as <- Heq. by destruct a, b.
Qed.
Lemma read_bits_shorter s p rest : read_bits s = Some (p, rest) → (String.length rest < String.length s)%nat.
Proof.
  revert p. induction s as [|c s IH]; intros p; cbn; [done|]. destruct (Ascii.eqb c ";"); [intros [= _ <-]; lia|].
  destruct (read_bits s) as [[q r]|]; [|done]. cbn. intros [= _ <-]. specialize (IH q eq_refl). lia.
Qed.
#[export] Instance toy_laws : MsgpackLaws.
Proof.
  split; unfold pack, unpack, toy.
  - intros m rest. rewrite read_bits_pack. unfold mbind, option_bind. by rewrite decode_encode.
  - done.
  - intros s o rest. destruct (read_bits s) as [[p r]|] eqn:Hs; [|done]. intros [= _ <-]. by eapply read_bits_shorter.
  - intros m a b Heq Hb. by rewrite (read_bits_part _ _ _ Heq Hb).
Qed.
End ToyPack.
