(* ===== verification/UdtWriter.v ===== *)
(** * The writer of a UDT session (msg/udt_writer.cc)

    Threads of a session hand packed messages to [write]; the writer thread takes
    the queue and gives the bytes to [UDT::send]. The mutexes and the two condition
    variables make the critical sections the steps of a transition system. *)
From S2P Require Import Prelude CxxString UdtMessage.

Module UDTWriter.

(** What the mutexes guard. [batch] is the queue the writer thread works on, in
    [_write_unsafe], and [sending] the message taken from it whose sends are under
    way; [ended] says that the thread has left its loop. Of the threads in [write]
    those in [blocked] sleep on [m_cond_session] and those in [woken] are to test the
    bound again. [wire] is what UDT has accepted, and [submitted] the history of the
    writes that returned. *)
Record t : Type := mk {
  m_new : list string;
  batch : option (list string);
  sending : option string;
  m_pending_write : Z;
  m_stop : bool;
  should_close : bool;
  asleep : bool;
  ended : bool;
  blocked : list string;
  woken : list string;
  wire : string;
  submitted : list string;
}.
Implicit Types (st : t) (f : string).

Definition m_max_write : Z := 20.
(** The state after [start]. *)
Definition start : t := mk [] None None 0 false false false false [] [] "" [].

Definition error_stat st : bool := st.(should_close).

(** The end of [write], behind the test. *)
Definition push f st : t :=
  mk (st.(m_new) ++ [f]) st.(batch) st.(sending) (st.(m_pending_write) + 1) st.(m_stop) st.(should_close) false st.(ended)
    st.(blocked) st.(woken) st.(wire) (st.(submitted) ++ [f]).
Definition block f st : t :=
  mk st.(m_new) st.(batch) st.(sending) st.(m_pending_write) st.(m_stop) st.(should_close) st.(asleep) st.(ended)
    (st.(blocked) ++ [f]) st.(woken) st.(wire) st.(submitted).
Definition write f st : t := if m_max_write <? st.(m_pending_write) then block f st else push f st.

(** The first half of [do_write], up to the broadcast. *)
Definition swap (ended : bool) st : t :=
  mk [] (Some st.(m_new)) None st.(m_pending_write) st.(m_stop) st.(should_close) false ended
    [] (st.(woken) ++ st.(blocked)) st.(wire) st.(submitted).
(** A round of the loop of [entry]. *)
Definition entry st : option t :=
  match st.(batch) with
  | Some _ => None
  | None =>
      if st.(ended) || st.(asleep) then None
      else if st.(m_stop) then Some (swap true st)
      else if bool_decide (st.(m_new) = []) then
        Some (mk [] None None st.(m_pending_write) st.(m_stop) st.(should_close) true st.(ended)
               st.(blocked) st.(woken) st.(wire) st.(submitted))
      else Some (swap false st)
  end.

(** The loop around [UDT::send] over the results of its calls: what was sent, and
    whether it was all; [None] while a call has not returned. *)
Definition UDT_ERROR : Z := -1.
Fixpoint send (rs : list Z) (data : string) : option (string * bool) :=
  match data with
  | "" => Some ("", true)
  | _ =>
      match rs with
      | [] => None
      | ss :: rs =>
          if ss =? UDT_ERROR then Some ("", false)
          else
            '(out, whole) ← send rs (str_drop (Z.to_nat ss) data);
            Some (str_take (Z.to_nat ss) data +:+ out, whole)
      end
  end.

(** [_write_unsafe] and its return to [do_write]: the loop takes a message and counts
    it off, and sends it. *)
Definition set_batch (b : option (list string)) (s : option string) (pending : Z) (close : bool) (wire : string) st : t :=
  mk st.(m_new) b s pending st.(m_stop) close st.(asleep) st.(ended) st.(blocked) st.(woken) wire st.(submitted).
Definition pop st : option t :=
  match st.(sending), st.(batch) with
  | None, Some q =>
      Some (if st.(should_close) then set_batch None None st.(m_pending_write) true st.(wire) st
            else match q with
            | [] => set_batch None None st.(m_pending_write) false st.(wire) st
            | data :: q => set_batch (Some q) (Some data) (st.(m_pending_write) - 1) false st.(wire) st
            end)
  | _, _ => None
  end.
Definition send_out (rs : list Z) st : option t :=
  data ← st.(sending);
  '(out, whole) ← send rs data;
  Some (if whole : bool then set_batch st.(batch) None st.(m_pending_write) st.(should_close) (st.(wire) +:+ out) st
        else set_batch None None st.(m_pending_write) true (st.(wire) +:+ out) st).

(** [close], up to the [join]. *)
Definition close st : t :=
  if st.(m_stop) then st
  else mk st.(m_new) st.(batch) st.(sending) st.(m_pending_write) true st.(should_close) false st.(ended)
         [] (st.(woken) ++ st.(blocked)) st.(wire) st.(submitted).

Inductive action : Type :=
| Write (f : string)      (** a thread calls [write] *)
| Again (n : nat)         (** a thread that was woken tests the bound again *)
| Spurious (n : nat)      (** a thread wakes without a signal *)
| Entry                   (** the writer thread, in its loop *)
| Pop                     (** the loop of [_write_unsafe] *)
| Send (rs : list Z)      (** the loop of sends, with their results *)
| Close.
Definition take_out (n : nat) (l : list string) : list string := take n l ++ drop (S n) l.
Definition act (a : action) st : option t :=
  match a with
  | Write f => Some (write f st)
  | Again n =>
      f ← st.(woken) !! n;
      Some (write f (mk st.(m_new) st.(batch) st.(sending) st.(m_pending_write) st.(m_stop) st.(should_close) st.(asleep) st.(ended)
                       st.(blocked) (take_out n st.(woken)) st.(wire) st.(submitted)))
  | Spurious n =>
      f ← st.(blocked) !! n;
      Some (mk st.(m_new) st.(batch) st.(sending) st.(m_pending_write) st.(m_stop) st.(should_close) st.(asleep) st.(ended)
              (take_out n st.(blocked)) (st.(woken) ++ [f]) st.(wire) st.(submitted))
  | Entry => entry st
  | Pop => pop st
  | Send rs => send_out rs st
  | Close => Some (close st)
  end.
Fixpoint run (l : list action) st : option t :=
  match l with
  | [] => Some st
  | a :: l => st ← act a st; run l st
  end.
Lemma run_writer_app l1 l2 st : run (l1 ++ l2) st = st1 ← run l1 st; run l2 st1.
Proof. revert st. induction l1 as [|a l1 IH]; intros st; [done|]. cbn. destruct (act a st); cbn; [apply IH|done]. Qed.

(** ** What is on the wire *)

Lemma send_result rs data out whole : send rs data = Some (out, whole) →
  if whole : bool then out = data else ∃ q, q ≠ "" ∧ data = out +:+ q.
Proof.
  revert data out whole. induction rs as [|ss rs IH]; intros [|c data] out whole; cbn [send]; try (by intros [= <- <-]).
  set (d := String c data). destruct (ss =? UDT_ERROR); [intros [= <- <-]; by exists d|].
  destruct (send rs (str_drop (Z.to_nat ss) d)) as [[out' whole']|] eqn:Hs; [|done]. intros [= <- <-].
  apply IH in Hs. destruct whole'.
  - subst out'. apply str_take_drop.
  - destruct Hs as (q & Hq & Hd). exists q. split; [done|]. by rewrite <-append_assoc, <-Hd, str_take_drop.
Qed.

(** Not yet on the wire, in order. *)
Definition queued st : list string := option_list st.(sending) ++ default [] st.(batch) ++ st.(m_new).
(** Whole messages, in the order of the writes. *)
Definition whole_messages st : Prop := ∃ done, st.(submitted) = done ++ queued st ∧ st.(wire) = flat done.
(** Whole messages, and a proper part of the one that could not be sent. *)
Definition torn st : Prop :=
  st.(sending) = None ∧
  ∃ done p q rest, q ≠ "" ∧ st.(submitted) = done ++ (p +:+ q) :: rest ∧ st.(wire) = flat done +:+ p.
Definition sound st : Prop :=
  st.(m_pending_write) ≤ m_max_write + 1 ∧
  if st.(should_close) then torn st
  else whole_messages st ∧ st.(m_pending_write) = size_of (default [] st.(batch)) + size_of st.(m_new) ∧
    (is_Some st.(sending) → is_Some st.(batch)).

Lemma sound_start : sound start.
Proof. split; [done|]. split_and!; [by exists []|done|by intros [??]]. Qed.
Lemma torn_more st st' l : torn st → st'.(submitted) = st.(submitted) ++ l → st'.(wire) = st.(wire) → st'.(sending) = None → torn st'.
Proof.
  intros (_ & done & p & q & rest & Hq & Hs & Hw) Hs' Hw' Hn. split; [done|]. exists done, p, q, (rest ++ l).
  rewrite Hs', Hs, Hw'. by rewrite <-(assoc_L (++)).
Qed.
Lemma size_of_app {A} (l1 l2 : list A) : size_of (l1 ++ l2) = size_of l1 + size_of l2.
Proof. unfold size_of. rewrite length_app. lia. Qed.

Lemma push_sound f st : st.(m_pending_write) ≤ m_max_write → sound st → sound (push f st).
Proof.
  intros Hp [_ Hs]. split; [cbn; lia|]. cbn. destruct (should_close st).
  - by apply (torn_more st (push f st) [f]); [..|apply Hs].
  - destruct Hs as ((done & Hd & Hw) & Hc & Hb). split_and!; [|rewrite size_of_app, Hc; unfold size_of; cbn; lia|done].
    exists done. split; [|done]. cbn. rewrite Hd. unfold queued. cbn. by rewrite <-!(assoc_L (++)).
Qed.
Lemma write_sound f st : sound st → sound (write f st).
Proof. intros Hs. unfold write. destruct (Z.ltb_spec m_max_write st.(m_pending_write)); [exact Hs|by apply push_sound]. Qed.
Lemma swap_sound b st : st.(batch) = None → sound st → sound (swap b st).
Proof.
  intros Hb [Hp Hs]. split; [done|]. cbn. destruct (should_close st).
  - by apply (torn_more st (swap b st) []); [|cbn; rewrite app_nil_r|..].
  - rewrite Hb in Hs. destruct Hs as ((done & Hd & Hw) & Hc & Hsend). cbn in Hc.
    assert (Hn : sending st = None) by (destruct (sending st); [destruct (Hsend ltac:(by eexists)); done|done]).
    split_and!; [|unfold size_of in *; cbn in *; lia|by intros [??]]. exists done. split; [|done]. cbn.
    unfold queued in *. cbn. rewrite Hd, Hn, Hb. by rewrite app_nil_r.
Qed.
Lemma entry_sound st st' : sound st → entry st = Some st' → sound st'.
Proof.
  intros Hs. unfold entry. destruct (batch st) eqn:Hb; [done|]. destruct (_ || _); [done|].
  destruct (m_stop st); [intros [= <-]; by apply swap_sound|]. case_bool_decide as Hn; [|intros [= <-]; by apply swap_sound].
  intros [= <-]. destruct Hs as [Hp Hs]. split; [done|]. cbn. destruct (should_close st).
  - by apply (torn_more st _ []); [|cbn; rewrite app_nil_r|..].
  - destruct Hs as ((done & Hd & Hw) & Hc & Hsend). rewrite Hb, Hn in Hc.
    assert (Hn' : sending st = None) by (destruct (sending st); [destruct (Hsend ltac:(by eexists)); congruence|done]).
    split_and!; [|done|by intros [??]]. exists done. split; [|done]. cbn. rewrite Hd. unfold queued. by rewrite Hn', Hb, Hn.
Qed.
Lemma pop_sound st st' : sound st → pop st = Some st' → sound st'.
Proof.
  intros [Hp Hs]. unfold pop. destruct (sending st) eqn:Hn; [done|]. destruct (batch st) as [q|] eqn:Hb; [|done]. intros [= <-].
  destruct (should_close st) eqn:Hc.
  - split; [done|]. cbn. by apply (torn_more st _ []); [|cbn; rewrite app_nil_r|..].
  - destruct Hs as ((done & Hd & Hw) & Hcount & _). unfold queued in Hd. rewrite Hn, Hb in Hd. cbn in Hcount, Hd. destruct q as [|data q].
    + split; [done|]. split_and!; [by exists done|done|by intros [??]].
    + unfold size_of in Hcount. cbn [length] in Hcount. split; [cbn; lia|].
      split_and!; [by exists done|cbn; unfold size_of; lia|by eexists].
Qed.
Lemma send_sound rs st st' : sound st → send_out rs st = Some st' → sound st'.
Proof.
  intros [Hp Hs]. unfold send_out, mbind, option_bind. destruct (sending st) as [data|] eqn:Hn; [|done].
  destruct (send rs data) as [[out whole]|] eqn:Hr; [|done]. apply send_result in Hr. intros [= <-].
  destruct (should_close st) eqn:Hc; [by destruct Hs; congruence|].
  destruct Hs as ((done & Hd & Hw) & Hcount & Hb). unfold queued in Hd. rewrite Hn in Hd. cbn in Hd. destruct whole.
  - subst out. split; [done|]. cbn. split_and!; [|done|by intros [??]]. exists (done ++ [data]). cbn.
    rewrite flat_app, flat_one, Hd, Hw. by rewrite <-!(assoc_L (++)).
  - destruct Hr as (q & Hq & ->). split; [done|]. cbn. split; [done|]. exists done, out, q, (default [] (batch st) ++ m_new st).
    cbn. by rewrite Hd, Hw.
Qed.
Lemma act_sound a st st' : sound st → act a st = Some st' → sound st'.
Proof.
  intros Hs. destruct a as [f|n|n| | |rs|]; cbn [act].
  - intros [= <-]. by apply write_sound.
  - destruct (woken st !! n) as [f|]; [|done]. intros [= <-]. by apply write_sound.
  - destruct (blocked st !! n) as [f|]; [|done]. by intros [= <-].
  - by apply entry_sound.
  - by apply pop_sound.
  - by apply send_sound.
  - intros [= <-]. unfold close. by destruct (m_stop st).
Qed.
Lemma run_sound l st st' : sound st → run l st = Some st' → sound st'.
Proof.
  revert st. induction l as [|a l IH]; intros st Hs; cbn [run]; [by intros [= <-]|].
  destruct (act a st) as [st1|] eqn:Ha; [|done]. apply IH. by apply (act_sound a st).
Qed.

(** ** Every write is accounted for *)

Definition writes (l : list action) : list string := omap (λ a, match a with Write f => Some f | _ => None end) l.
Definition accounted st : list string := st.(submitted) ++ st.(blocked) ++ st.(woken).
Lemma take_out_perm n l f : l !! n = Some f → f :: take_out n l ≡ₚ l.
Proof. intros Hf. unfold take_out. rewrite <-(take_drop_middle l n f Hf) at 3. by rewrite Permutation_middle. Qed.
Lemma write_accounted f st : accounted (write f st) ≡ₚ f :: accounted st.
Proof.
  unfold write. destruct (_ <? _); unfold accounted; cbn; solve_Permutation.
Qed.
Lemma act_accounted a st st' : act a st = Some st' → accounted st' ≡ₚ writes [a] ++ accounted st.
Proof.
  destruct a as [f|n|n| | |rs|]; cbn [act writes omap list_omap app].
  - intros [= <-]. apply write_accounted.
  - destruct (woken st !! n) as [f|] eqn:Hf; [|done]. intros [= <-]. rewrite write_accounted. unfold accounted. cbn.
    rewrite <-(take_out_perm _ _ _ Hf) at 2. solve_Permutation.
  - destruct (blocked st !! n) as [f|] eqn:Hf; [|done]. intros [= <-]. unfold accounted. cbn.
    rewrite <-(take_out_perm _ _ _ Hf) at 2. solve_Permutation.
  - unfold entry. destruct (batch st); [done|]. destruct (_ || _); [done|].
    destruct (m_stop st); [|case_bool_decide]; intros [= <-]; unfold accounted; cbn; solve_Permutation.
  - unfold pop. destruct (sending st); [done|]. destruct (batch st) as [[|? ?]|]; [..|done]; intros [= <-]; by destruct (should_close st).
  - unfold send_out, mbind, option_bind. destruct (sending st) as [data|]; [|done]. destruct (send rs data) as [[out [|]]|]; [..|done]; by intros [= <-].
  - intros [= <-]. unfold close. destruct (m_stop st); [done|]. unfold accounted. cbn. solve_Permutation.
Qed.
Lemma run_accounted l st st' : run l st = Some st' → accounted st' ≡ₚ writes l ++ accounted st.
Proof.
  revert st. induction l as [|a l IH]; intros st; cbn [run]; [by intros [= <-]|].
  destruct (act a st) as [st1|] eqn:Ha; [|done]. intros Hr. rewrite (IH st1 Hr), (act_accounted _ _ _ Ha).
  change (a :: l) with ([a] ++ l). unfold writes. rewrite omap_app. solve_Permutation.
Qed.

(** ** After an error *)
Lemma closed_step a st st' : sound st → st.(should_close) = true → act a st = Some st' →
  st'.(should_close) = true ∧ st'.(wire) = st.(wire) ∧ st'.(m_pending_write) = size_of st'.(submitted) - size_of st.(submitted) + st.(m_pending_write).
Proof.
  intros [_ Hs] Hc. rewrite Hc in Hs. destruct Hs as [Hn _].
  assert (Hw : ∀ f st, (write f st).(should_close) = st.(should_close) ∧ (write f st).(wire) = st.(wire) ∧
    (write f st).(m_pending_write) = size_of (write f st).(submitted) - size_of st.(submitted) + st.(m_pending_write)).
  { intros f s. unfold write. destruct (_ <? _); split_and!; cbn; [done|done|lia|done|done|]. rewrite size_of_app. unfold size_of. cbn. lia. }
  destruct a as [f|n|n| | |rs|]; cbn [act].
  - intros [= <-]. destruct (Hw f st) as (-> & -> & ->). split_and!; [done|done|lia].
  - destruct (woken st !! n) as [f|]; [|done]. intros [= <-]. match goal with |- should_close (write f ?s) = _ ∧ _ => destruct (Hw f s) as (-> & -> & ->) end.
    cbn. split_and!; [done|done|lia].
  - destruct (blocked st !! n) as [f|]; [|done]. intros [= <-]. cbn. split_and!; [done|done|lia].
  - unfold entry. destruct (batch st); [done|]. destruct (_ || _); [done|].
    destruct (m_stop st); [|case_bool_decide]; intros [= <-]; cbn; (split_and!; [done|done|lia]).
  - unfold pop. rewrite Hn, Hc. destruct (batch st); [|done]. intros [= <-]. cbn. split_and!; [done|done|lia].
  - unfold send_out. by rewrite Hn.
  - intros [= <-]. unfold close. destruct (m_stop st); cbn; (split_and!; [done|done|lia]).
Qed.
Lemma closed_run l st st' : sound st → st.(should_close) = true → run l st = Some st' →
  st'.(should_close) = true ∧ st'.(wire) = st.(wire) ∧ st'.(m_pending_write) = size_of st'.(submitted) - size_of st.(submitted) + st.(m_pending_write).
Proof.
  revert st. induction l as [|a l IH]; intros st Hs Hc; cbn [run]; [intros [= <-]; split_and!; [done|done|lia]|].
  destruct (act a st) as [st1|] eqn:Ha; [|done]. intros Hr. destruct (closed_step _ _ _ Hs Hc Ha) as (Hc1 & <- & Hp1).
  destruct (IH st1 (act_sound _ _ _ Hs Ha) Hc1 Hr) as (Hc' & Hw' & Hp'). split_and!; [done|done|lia].
Qed.

(** C6: what a session puts on the wire is well formed, however its threads take turns, wake
    and are closed. While UDT has not failed it is whole messages in the order of the writes,
    and those that follow are in the queue; after a failure it ends in a proper part of one
    message, and nothing is ever added to it. No more than 21 messages wait, and every write
    has been accepted or its thread still waits for room. *)
Theorem wire_in_order l st : run l start = Some st →
  writes l ≡ₚ st.(submitted) ++ st.(blocked) ++ st.(woken) ∧ st.(m_pending_write) ≤ m_max_write + 1 ∧
  if error_stat st then
    (∃ done p q rest, q ≠ "" ∧ st.(submitted) = done ++ (p +:+ q) :: rest ∧ st.(wire) = flat done +:+ p) ∧
    ∀ l' st', run l' st = Some st' → st'.(wire) = st.(wire)
  else ∃ done, st.(submitted) = done ++ queued st ∧ st.(wire) = flat done.
Proof.
  intros Hr. pose proof (run_sound _ _ _ sound_start Hr) as Hs. split_and!.
  - rewrite <-(app_nil_r (writes l)). by rewrite (run_accounted _ _ _ Hr) at 1.
  - apply Hs.
  - unfold error_stat. destruct (should_close st) eqn:Hc; pose proof Hs as [_ Hi]; rewrite Hc in Hi; [|apply Hi].
    split; [apply Hi|]. intros l' st' Hr'. by apply (closed_run l' st st').
Qed.

(** The writer sleeps over an empty queue only. *)
Definition dozes_idle st : Prop := st.(asleep) = true → st.(m_new) = [] ∧ st.(m_stop) = false.
Lemma act_dozes a st st' : dozes_idle st → act a st = Some st' → dozes_idle st'.
Proof.
  intros Hd. assert (Hw : ∀ f s, dozes_idle s → dozes_idle (write f s)) by (intros f s Hs; unfold write; by destruct (_ <? _)).
  destruct a as [f|n|n| | |rs|]; cbn [act].
  - intros [= <-]. by apply Hw.
  - destruct (woken st !! n) as [f|]; [|done]. intros [= <-]. by apply Hw.
  - destruct (blocked st !! n) as [f|]; [|done]. by intros [= <-].
  - unfold entry. destruct (batch st); [done|]. destruct (_ || _); [done|].
    destruct (m_stop st) eqn:Hm; [|case_bool_decide]; intros [= <-]; unfold dozes_idle; cbn; by auto.
  - unfold pop. destruct (sending st); [done|]. destruct (batch st) as [[|? ?]|]; [..|done]; intros [= <-]; by destruct (should_close st).
  - unfold send_out, mbind, option_bind. destruct (sending st) as [data|]; [|done]. destruct (send rs data) as [[out [|]]|]; [..|done]; by intros [= <-].
  - intros [= <-]. unfold close. by destruct (m_stop st) eqn:Hm.
Qed.
Lemma run_dozes l st st' : dozes_idle st → run l st = Some st' → dozes_idle st'.
Proof.
  revert st. induction l as [|a l IH]; intros st Hs; cbn [run]; [by intros [= <-]|].
  destruct (act a st) as [st1|] eqn:Ha; [|done]. apply IH. by apply (act_dozes a st).
Qed.

(** The steps that need no other thread than the writer and those that were woken. *)
Definition at_rest st : Prop := ∀ a, match a with Again _ | Entry | Pop | Send _ => act a st = None | _ => True end.

(** The writer finishes its work: when neither it nor a woken thread can go on, nothing
    is queued, and all that was accepted is on the wire, unless UDT failed or the session
    was closed. *)
Theorem rest_means_sent l st : run l start = Some st → st.(should_close) = false → st.(ended) = false → at_rest st →
  st.(wire) = flat st.(submitted) ∧ st.(m_pending_write) = 0 ∧ st.(woken) = [].
Proof.
  intros Hr Hc He Hrest. pose proof (run_sound _ _ _ sound_start Hr) as [_ Hs]. rewrite Hc in Hs. destruct Hs as ((done & Hd & Hw) & Hcount & _).
  assert (Hn : sending st = None).
  { destruct (sending st) as [data|] eqn:Hn; [|done]. pose proof (Hrest (Send [UDT_ERROR])) as Ha. cbn in Ha.
    unfold send_out, mbind, option_bind in Ha. rewrite Hn in Ha. destruct data; by cbn in Ha. }
  assert (Hb : batch st = None).
  { destruct (batch st) eqn:Hb; [|done]. pose proof (Hrest Pop) as Ha. cbn in Ha. unfold pop in Ha. by rewrite Hn, Hb in Ha. }
  assert (Hwk : woken st = []).
  { destruct (woken st) eqn:Hwk; [done|]. pose proof (Hrest (Again 0)) as Ha. cbn in Ha. by rewrite Hwk in Ha. }
  pose proof (Hrest Entry) as Ha. cbn in Ha. unfold entry in Ha. rewrite Hb, He in Ha. cbn [orb] in Ha.
  destruct (asleep st) eqn:Hsl; [|by destruct (m_stop st); [|case_bool_decide]].
  destruct (run_dozes l start st ltac:(done) Hr Hsl) as [Hnew _].
  unfold queued in Hd. rewrite Hn, Hb, Hnew in Hd. rewrite Hb, Hnew in Hcount. cbn in Hd. rewrite app_nil_r in Hd. by rewrite Hw, Hd.
Qed.

(** ** What a reader of the wire relies on *)
Lemma wire_prefix st : sound st → ∃ r, flat st.(submitted) = st.(wire) +:+ r.
Proof.
  intros [_ Hs]. destruct (should_close st).
  - destruct Hs as (_ & done & p & q & rest & _ & -> & ->). exists (q +:+ flat rest). rewrite flat_app. cbn. by rewrite !append_assoc.
  - destruct Hs as ((done & -> & ->) & _). exists (flat (queued st)). by rewrite flat_app.
Qed.
Lemma act_extends a st st' : act a st = Some st' →
  (∃ out, st'.(wire) = st.(wire) +:+ out) ∧ ∃ fs, st'.(submitted) = st.(submitted) ++ fs.
Proof.
  assert (Hsame : ∀ st', st'.(wire) = st.(wire) → st'.(submitted) = st.(submitted) →
    (∃ out, st'.(wire) = st.(wire) +:+ out) ∧ ∃ fs, st'.(submitted) = st.(submitted) ++ fs).
  { intros st1 -> ->. split; [exists ""; by rewrite append_nil_r|exists []; by rewrite app_nil_r]. }
  assert (Hw : ∀ f s, (write f s).(wire) = s.(wire) ∧ ∃ fs, (write f s).(submitted) = s.(submitted) ++ fs).
  { intros f s. unfold write. destruct (_ <? _); (split; [done|]); [exists []; by rewrite app_nil_r|by exists [f]]. }
  destruct a as [f|n|n| | |rs|]; cbn [act].
  - intros [= <-]. destruct (Hw f st) as [-> Hf]. split; [|done]. exists "". by rewrite append_nil_r.
  - destruct (woken st !! n) as [f|]; [|done]. intros [= <-]. match goal with |- context [write f ?s] => destruct (Hw f s) as [-> Hf] end.
    split; [|done]. exists "". by rewrite append_nil_r.
  - destruct (blocked st !! n) as [f|]; [|done]. intros [= <-]. by apply Hsame.
  - unfold entry. destruct (batch st); [done|]. destruct (_ || _); [done|].
    destruct (m_stop st); [|case_bool_decide]; intros [= <-]; by apply Hsame.
  - unfold pop. destruct (sending st); [done|]. destruct (batch st) as [[|? ?]|]; [..|done]; intros [= <-]; destruct (should_close st); by apply Hsame.
  - unfold send_out, mbind, option_bind. destruct (sending st) as [data|]; [|done]. destruct (send rs data) as [[out [|]]|]; [..|done]; intros [= <-];
      (split; [by exists out|exists []; cbn; by rewrite app_nil_r]).
  - intros [= <-]. apply Hsame; unfold close; by destruct (m_stop st).
Qed.

(** ** What can go wrong *)

Lemma waiting_step a st st' f : f ∈ st.(blocked) ++ st.(woken) → m_max_write < st.(m_pending_write) → act a st = Some st' →
  (∀ b, a = Pop → st.(batch) = Some b → st.(should_close) = true) →
  f ∈ st'.(blocked) ++ st'.(woken) ∧ st'.(submitted) = st.(submitted).
Proof.
  intros Hf Hp Ha Hpop. assert (Hlt : m_max_write <? m_pending_write st = true) by lia.
  destruct a as [g|n|n| | |rs|]; cbn [act] in Ha.
  - injection Ha as <-. unfold write. rewrite Hlt. cbn. split; [set_solver|done].
  - destruct (woken st !! n) as [g|] eqn:Hg; [|done]. injection Ha as <-. unfold write. cbn [m_pending_write]. rewrite Hlt. cbn. split; [|done].
    rewrite <-(take_out_perm _ _ _ Hg) in Hf. set_solver.
  - destruct (blocked st !! n) as [g|] eqn:Hg; [|done]. injection Ha as <-. cbn. split; [|done].
    rewrite <-(take_out_perm _ _ _ Hg) in Hf. set_solver.
  - unfold entry in Ha. destruct (batch st); [done|]. destruct (_ || _); [done|].
    destruct (m_stop st); [|case_bool_decide]; injection Ha as <-; cbn; (split; [set_solver|done]).
  - unfold pop in Ha. destruct (sending st); [done|]. destruct (batch st) as [b|]; [|done]. rewrite (Hpop b) in Ha by done. by injection Ha as <-.
  - unfold send_out, mbind, option_bind in Ha. destruct (sending st) as [data|]; [|done]. destruct (send rs data) as [[out [|]]|]; [..|done]; by injection Ha as <-.
  - injection Ha as <-. unfold close. destruct (m_stop st); cbn; (split; [set_solver|done]).
Qed.

(** A failure of UDT with more than 20 messages behind it is never recovered from: the
    count of the messages that were dropped stays, so a thread that waits for room waits
    for ever, whatever the others do, also after the session is closed. *)
Theorem waits_for_ever l st f l' st' : run l start = Some st → error_stat st = true → m_max_write < st.(m_pending_write) →
  f ∈ st.(blocked) ++ st.(woken) → run l' st = Some st' →
  f ∈ st'.(blocked) ++ st'.(woken) ∧ st'.(submitted) = st.(submitted).
Proof.
  intros Hr. pose proof (run_sound _ _ _ sound_start Hr) as Hs. clear Hr. unfold error_stat. revert st Hs.
  induction l' as [|a l' IH]; intros st Hs Hc Hp Hf; cbn [run]; [by intros [= <-]|].
  destruct (act a st) as [st1|] eqn:Ha; [|done]. intros Hr.
  destruct (waiting_step _ _ _ f Hf Hp Ha) as [Hf1 Hs1]; [done|]. destruct (closed_step _ _ _ Hs Hc Ha) as (Hc1 & _ & Hp1).
  destruct (IH st1 (act_sound _ _ _ Hs Ha) Hc1 ltac:(rewrite Hs1 in Hp1; lia) Hf1 Hr) as [Hf' Hs']. by rewrite Hs', Hs1.
Qed.
End UDTWriter.

(** ** Runs *)
Module WriterRuns.
Import UDTWriter.
(** Threads write before the writer thread runs. *)
Definition burst (n : nat) : list action := Write <$> ((λ n, pretty (Z.of_nat n)) <$> seq 0 n).
Definition after (l : list action) : t := default start (run l start).
(** UDT fails at the first of 21 messages, with two threads waiting: one of them takes the
    room that is left. *)
Definition failing : list action := burst 23 ++ [Entry; Pop; Send [UDT_ERROR]; Again 0].
Definition afterwards : list action := [Entry; Again 0; Pop; Close; Entry; Again 0; Pop].
Definition closing : list action := [Entry; Pop; Close; Entry; Pop].
(** The second message is broken off. *)
Definition breaking : list action := [Write "first"; Write "second"; Entry; Pop; Send [2; 3]; Pop; Send [4; UDT_ERROR]].
(** The broadcast of [do_write] comes before the messages are counted off: the thread it
    wakes still finds the queue full and sleeps again; when all is sent there is room, and
    nobody wakes it. *)
Definition missed : list action := burst 22 ++ [Entry; Again 0] ++ concat (replicate 21 [Pop; Send [1; 1]]) ++ [Pop; Entry].
End WriterRuns.
Import WriterRuns.

Example sleeps_with_room :
  UDTWriter.run missed UDTWriter.start = Some (after missed) ∧ (after missed).(UDTWriter.blocked) = ["21"] ∧
  (after missed).(UDTWriter.m_pending_write) = 0 ∧ UDTWriter.at_rest (after missed).
Proof. split_and!; [vm_compute; reflexivity..|]. by intros [f|n|n| | |rs|]. Qed.

Lemma wire_in_order_witness :
  (after (breaking ++ burst 3)).(UDTWriter.m_pending_write) ≤ UDTWriter.m_max_write + 1 ∧
  (after (breaking ++ burst 3 ++ closing)).(UDTWriter.wire) = "firstseco".
Proof.
  destruct (UDTWriter.wire_in_order (breaking ++ burst 3) (after (breaking ++ burst 3))) as (_ & Hp & _ & H); [vm_compute; reflexivity|].
  split; [exact Hp|]. rewrite (H closing); vm_compute; reflexivity.
Defined.

Lemma waits_for_ever_witness :
  "22" ∈ (after (failing ++ afterwards)).(UDTWriter.blocked) ++ (after (failing ++ afterwards)).(UDTWriter.woken) ∧
  (after (failing ++ afterwards)).(UDTWriter.submitted) = (after failing).(UDTWriter.submitted).
Proof.
  apply (UDTWriter.waits_for_ever failing (after failing) "22" afterwards); [vm_compute; reflexivity..| |vm_compute; reflexivity].
  vm_compute. by left.
Defined.

Lemma rest_means_sent_witness : (after missed).(UDTWriter.wire) = flat (after missed).(UDTWriter.submitted).
Proof.
  destruct (UDTWriter.rest_means_sent missed (after missed)) as (H & _ & _); [vm_compute; reflexivity..| |exact H].
  by intros [f|n|n| | |rs|].
Defined.
