(* ===== verification/UdtSession.v ===== *)
(** * Sessions over UDT (msg/client_session.cc, msg/server_session.cc)

    A client numbers its messages and keeps a promise for each, which its reader
    thread fulfils when the answer with that number arrives; a server makes an
    operation (SyncIo.v) of each message and answers when it is done. Both ends write
    through a [UDTWriter]. *)
From S2P Require Import Prelude CxxString Records Lru FdManager Op Files SyncIo UdtMessage UdtWriter.

(** ** The reading end of a session

    [do_read]: bytes are received into the unpacker, then the loop takes the messages
    out. [Crashed]: an exception left the function and ends the process. *)
Module Inbox.
Inductive phase : Type := Receiving | Parsing | Finished | Crashed.
Record t : Type := mk {
  unpacker : string;
  reading : phase;
  m_stop : bool;
}.
Definition open : t := mk "" Receiving false.
Section inbox.
Context `{Msgpack}.
Definition stop (i : t) : t := mk i.(unpacker) i.(reading) true.
(** [UDT::recv]: the bytes, or an error. *)
Definition recv (r : option string) (i : t) : option t :=
  match i.(reading) with
  | Receiving =>
      Some (if i.(m_stop) then mk i.(unpacker) Finished true
            else match r with
            | None => mk i.(unpacker) Finished true
            | Some bytes => mk (i.(unpacker) +:+ bytes) Parsing false
            end)
  | _ => None
  end.
(** A round of the loop: the message it finds. *)
Definition next (i : t) : option (t * option rpc_buffer) :=
  match i.(reading) with
  | Parsing =>
      Some (match unpack i.(unpacker) with
            | Incomplete => (mk i.(unpacker) Receiving i.(m_stop), None)
            | Malformed => (mk i.(unpacker) Crashed i.(m_stop), None)
            | Object o rest => if i.(m_stop) then (mk rest Receiving true, None) else (mk rest Parsing false, o)
            end)
  | _ => None
  end.
End inbox.
End Inbox.

(** ** The client *)
Module ClientSession.

(** The state a promise shares with its future. *)
Inductive shared : Type := Pending | Value (m : rpc_buffer) | Broken.
(** What has happened, in order: requests, marks (with the callback of
    [registe_handler]) and answers. *)
Inductive event : Type := Asked (m : rpc_buffer) | Marked (id : Z) (f : option Z) | Heard (m : rpc_buffer).

(** What [session_lock] guards; [states] are the shared states in the order of the
    requests, [called] the callbacks that were called and [history] what has happened. *)
Record tables : Type := Tables {
  seq_n : Z;
  futures : gmap Z nat;
  ready_promises : gmap Z nat;
  auto_handler : gset Z;
  handlers : gmap Z Z;
  states : list shared;
  called : list (Z * Z);
  history : list event;
}.
Definition no_requests : tables := Tables 0 ∅ ∅ ∅ ∅ [] [] [].

(** A promise that was kept or broken already stays as it is. *)
Definition settle (n : nat) (v : shared) (l : list shared) : list shared :=
  match l !! n with Some Pending => <[n := v]> l | _ => l end.
(** The keys of the maps are [int]s. *)
Definition key_of (m : rpc_buffer) : Z := to_i32 m.(ioproxy_rpc_buffer.id).

(** [write] between its locks. The number is taken just before the lock, and the two are
    one step here: nobody knows the number in between, except a call of [block_on_op] for
    the last one, which then finds no future and returns at once. *)
Definition ask (buffer : rpc_buffer) (tb : tables) : rpc_buffer * tables :=
  let buffer := ioproxy_rpc_buffer.set_id tb.(seq_n) buffer in
  let key := key_of buffer in
  let n := length tb.(states) in
  let states := match tb.(ready_promises) !! key with Some old => settle old Broken tb.(states) | None => tb.(states) end in
  (buffer, Tables (to_u64 (tb.(seq_n) + 1)) (<[key := n]> tb.(futures)) (<[key := n]> tb.(ready_promises))
             tb.(auto_handler) tb.(handlers) (states ++ [Pending]) tb.(called) (tb.(history) ++ [Asked buffer])).
Definition registe_handler (id f : Z) (tb : tables) : tables :=
  Tables tb.(seq_n) tb.(futures) tb.(ready_promises) ({[id]} ∪ tb.(auto_handler))
    (match tb.(handlers) !! id with Some _ => tb.(handlers) | None => <[id := f]> tb.(handlers) end)
    tb.(states) tb.(called) (tb.(history) ++ [Marked id (Some f)]).
Definition auto_handle (id : Z) (tb : tables) : tables :=
  Tables tb.(seq_n) tb.(futures) tb.(ready_promises) ({[id]} ∪ tb.(auto_handler)) tb.(handlers)
    tb.(states) tb.(called) (tb.(history) ++ [Marked id None]).

(** [do_read] with a message. The callback is called with the lock held. *)
Definition handle (buf : rpc_buffer) (tb : tables) : tables :=
  let key := key_of buf in
  let history := tb.(history) ++ [Heard buf] in
  match tb.(ready_promises) !! key with
  | None => Tables tb.(seq_n) tb.(futures) tb.(ready_promises) tb.(auto_handler) tb.(handlers) tb.(states) tb.(called) history
  | Some n =>
      if decide (key ∈ tb.(auto_handler)) then
        Tables tb.(seq_n) (delete key tb.(futures)) (delete key tb.(ready_promises)) tb.(auto_handler) tb.(handlers)
          (settle n Broken tb.(states))
          (match tb.(handlers) !! key with Some f => tb.(called) ++ [(key, f)] | None => tb.(called) end) history
      else
        Tables tb.(seq_n) tb.(futures) (delete key tb.(ready_promises)) tb.(auto_handler) tb.(handlers)
          (settle n (Value buf) tb.(states)) tb.(called) history
  end.

(** [wait_op] takes the future out, and its result once the wait ends, at the latest
    after ten seconds; [None]: the broken promise is thrown. *)
Definition take_future (id : Z) (tb : tables) : option nat * tables :=
  (tb.(futures) !! id,
   Tables tb.(seq_n) (delete id tb.(futures)) tb.(ready_promises) tb.(auto_handler) tb.(handlers) tb.(states) tb.(called) tb.(history)).
Definition wait_result (ft : option nat) (tb : tables) : option (option rpc_buffer) :=
  match ft ≫= λ n, tb.(states) !! n with
  | None | Some Pending => Some None
  | Some (Value res) => Some (Some res)
  | Some Broken => None
  end.
(** [block_on_op], when the wait ends. *)
Definition block_on_op (id : Z) (tb : tables) : Z :=
  let id := if id =? -1 then to_i32 (to_u64 (tb.(seq_n) - 1)) else id in
  match tb.(futures) !! id ≫= λ n, tb.(states) !! n with
  | Some Pending => - ETIMEDOUT
  | _ => 0
  end.

(** The session; [leaving] are the messages on their way to the writer, which is gone
    when [attached] is not set. *)
Record t : Type := mk {
  tab : tables;
  leaving : list string;
  writer : UDTWriter.t;
  attached : bool;
  inbox : Inbox.t;
}.
(** A session that was started. *)
Definition start : t := mk no_requests [] UDTWriter.start true Inbox.open.

Section session.
Context `{Msgpack}.
Implicit Types (s : t).
Definition set_tab (tb : tables) s : t := mk tb s.(leaving) s.(writer) s.(attached) s.(inbox).
Definition set_writer (w : UDTWriter.t) s : t := mk s.(tab) s.(leaving) w s.(attached) s.(inbox).
Definition set_inbox (i : Inbox.t) s : t := mk s.(tab) s.(leaving) s.(writer) s.(attached) i.

(** [write] up to its call of [writer->write], with what it will return; [None]: the
    writer is gone. *)
Definition write (buffer : rpc_buffer) s : option (Z * t) :=
  if negb s.(attached) then None
  else if UDTWriter.error_stat s.(writer) then Some (- ECONNRESET, s)
  else
    let '(buffer, tb) := ask buffer s.(tab) in
    Some (key_of buffer, mk tb (s.(leaving) ++ [pack buffer]) s.(writer) s.(attached) s.(inbox)).
(** And the call. *)
Definition hand_over (n : nat) s : option t :=
  f ← s.(leaving) !! n;
  Some (mk s.(tab) (UDTWriter.take_out n s.(leaving)) (UDTWriter.write f s.(writer)) s.(attached) s.(inbox)).
Definition close s : t := mk s.(tab) s.(leaving) (UDTWriter.close s.(writer)) false (Inbox.stop s.(inbox)).

Inductive action : Type :=
| Write (m : rpc_buffer)
| Hand_over (n : nat)
| Writer (a : UDTWriter.action)
| Registe_handler (id f : Z)
| Auto_handle (id : Z)
| Wait_op (id : Z)
| Recv (r : option string)
| Next
| Close.
(** A step of the writer thread, or of a thread that waits in the writer. *)
Definition by_writer (a : UDTWriter.action) : bool := match a with UDTWriter.Write _ | UDTWriter.Close => false | _ => true end.
Definition act (a : action) s : option t :=
  match a with
  | Write m => snd <$> write m s
  | Hand_over n => hand_over n s
  | Writer a => if by_writer a then w ← UDTWriter.act a s.(writer); Some (set_writer w s) else None
  | Registe_handler id f => Some (set_tab (registe_handler id f s.(tab)) s)
  | Auto_handle id => Some (set_tab (auto_handle id s.(tab)) s)
  | Wait_op id => Some (set_tab (take_future id s.(tab)).2 s)
  | Recv r => i ← Inbox.recv r s.(inbox); Some (set_inbox i s)
  | Next =>
      '(i, o) ← Inbox.next s.(inbox);
      Some (match o with Some m => set_tab (handle m s.(tab)) (set_inbox i s) | None => set_inbox i s end)
  | Close => Some (close s)
  end.
Fixpoint run (l : list action) s : option t :=
  match l with
  | [] => Some s
  | a :: l => s ← act a s; run l s
  end.
End session.

(** *** What becomes of a request

    Read off the history: the first answer with its number after it was asked, and
    whether the number was marked, and with which callback, when the answer came. *)
Record fate : Type := Fate {
  f_asked : bool;
  f_marked : option (option Z);
  f_outcome : option (rpc_buffer * option (option Z));
}.
Definition step_fate (id : Z) (f : fate) (e : event) : fate :=
  match e with
  | Asked m => if decide (key_of m = id) then Fate true f.(f_marked) f.(f_outcome) else f
  | Marked id' c =>
      if decide (id' = id) then
        Fate f.(f_asked) (match f.(f_marked) with Some (Some c) => Some (Some c) | _ => Some c end) f.(f_outcome)
      else f
  | Heard m =>
      if decide (key_of m = id) then
        match f.(f_asked), f.(f_outcome) with
        | true, None => Fate true f.(f_marked) (Some (m, f.(f_marked)))
        | _, _ => f
        end
      else f
  end.
Definition fate_of (id : Z) (h : list event) : fate := foldl (step_fate id) (Fate false None None) h.
Lemma fate_snoc id h e : fate_of id (h ++ [e]) = step_fate id (fate_of id h) e.
Proof. unfold fate_of. by rewrite foldl_app. Qed.

(** The state of the promise, and the callback that is called. *)
Definition verdict (f : fate) : shared :=
  match f.(f_outcome) with None => Pending | Some (m, None) => Value m | Some (_, Some _) => Broken end.
Definition calls (f : fate) : option Z := '(_, marked) ← f.(f_outcome); mjoin marked.

Definition marked_in (tb : tables) (id : Z) : option (option Z) :=
  if decide (id ∈ tb.(auto_handler)) then Some (tb.(handlers) !! id) else None.
Definition id_of (n : nat) : Z := Z.of_nat n.
Record tables_ok (tb : tables) : Prop := {
  ok_seq : tb.(seq_n) = id_of (length tb.(states));
  ok_ready id n : tb.(ready_promises) !! id = Some n → id = id_of n ∧ tb.(states) !! n = Some Pending;
  ok_futures id n : tb.(futures) !! id = Some n → id = id_of n;
  ok_handlers id c : tb.(handlers) !! id = Some c → id ∈ tb.(auto_handler);
  ok_marked id : (fate_of id tb.(history)).(f_marked) = marked_in tb id;
  ok_asked id : (fate_of id tb.(history)).(f_asked) = bool_decide (0 ≤ id < id_of (length tb.(states)));
  ok_unasked id : (fate_of id tb.(history)).(f_asked) = false → (fate_of id tb.(history)).(f_outcome) = None;
  ok_states n v : tb.(states) !! n = Some v → v = verdict (fate_of (id_of n) tb.(history)) ∧
    (v = Pending → tb.(ready_promises) !! id_of n = Some n);
  ok_called id c : (id, c) ∈ tb.(called) ↔ calls (fate_of id tb.(history)) = Some c;
  ok_once : NoDup tb.(called).*1;
}.
Arguments id_of : simpl never.

Lemma no_requests_ok : tables_ok no_requests.
Proof.
  split; try done.
  - intros id. rewrite bool_decide_false; [done|]. unfold id_of. cbn. lia.
  - intros id c. cbn. split; [|done]. intros Hc. by apply not_elem_of_nil in Hc.
  - constructor.
Qed.
Lemma settle_pending n v l : l !! n = Some Pending → settle n v l = <[n := v]> l.
Proof. unfold settle. by intros ->. Qed.
Lemma length_settle n v l : length (settle n v l) = length l.
Proof. unfold settle. destruct (l !! n) as [[|m|]|]; by rewrite ?length_insert. Qed.

(** Numbers below 2^31 are their own keys. *)
Lemma key_small n m : id_of n < 2 ^ 31 → key_of (ioproxy_rpc_buffer.set_id (id_of n) m) = id_of n.
Proof. intros Hn. unfold key_of. cbn. apply to_i32_id. unfold in_i32, id_of in *. lia. Qed.

Lemma ask_ok m tb : tables_ok tb → id_of (length tb.(states)) < 2 ^ 31 →
  tables_ok (ask m tb).2 ∧ (ask m tb).1 = ioproxy_rpc_buffer.set_id (id_of (length tb.(states))) m.
Proof.
  intros Hok Hn. unfold ask. rewrite (ok_seq _ Hok). split; [|done]. set (N := length (states tb)) in *.
  rewrite key_small by done.
  assert (Hfresh : ready_promises tb !! id_of N = None).
  { destruct (ready_promises tb !! id_of N) as [k|] eqn:Hk; [|done]. apply (ok_ready _ Hok) in Hk as [Hk Hs].
    apply lookup_lt_Some in Hs. unfold id_of, N in *. lia. }
  rewrite Hfresh. cbn [snd]. assert (Hst : ∀ n v, (states tb ++ [Pending]) !! n = Some v → states tb !! n = Some v ∨ n = N ∧ v = Pending).
  { intros n v. rewrite lookup_app. destruct (states tb !! n) eqn:Hs; [intros [= ->]; by left|].
    intros Hl. right. apply lookup_ge_None in Hs. destruct (n - length (states tb))%nat eqn:Hd; [|done]. injection Hl as <-. unfold N. split; [lia|done]. }
  assert (HfN : fate_of (id_of N) (history tb) = Fate false (marked_in tb (id_of N)) None).
  { pose proof (ok_asked _ Hok (id_of N)) as Ha. rewrite bool_decide_false in Ha by (unfold N; lia).
    pose proof (ok_unasked _ Hok _ Ha) as Ho. rewrite <-(ok_marked _ Hok). destruct (fate_of _ _). cbn in *. by subst. }
  assert (Hstep : ∀ id, fate_of id (history tb ++ [Asked (ioproxy_rpc_buffer.set_id (id_of N) m)]) =
    if decide (id = id_of N) then Fate true (marked_in tb (id_of N)) None else fate_of id (history tb)).
  { intros id. rewrite fate_snoc. cbn [step_fate]. rewrite key_small by done. destruct (decide (id = id_of N)) as [->|Hne]; [|by rewrite decide_False].
    rewrite decide_True by done. by rewrite HfN. }
  split; cbn; try setoid_rewrite Hstep.
  - rewrite length_app. unfold to_u64, id_of in *. rewrite Z.mod_small by (fold N; lia). cbn. fold N. lia.
  - intros id n. rewrite lookup_insert_Some. intros [[<- <-]|[_ Hr]]; [split; [done|]|].
    + by rewrite lookup_app_r, Nat.sub_diag by done.
    + apply (ok_ready _ Hok) in Hr as [-> Hs]. split; [done|]. rewrite lookup_app_l; [done|]. by eapply lookup_lt_Some.
  - intros id n. rewrite lookup_insert_Some. intros [[<- <-]|[_ Hf]]; [done|]. by apply (ok_futures _ Hok).
  - apply (ok_handlers _ Hok).
  - intros id. case_decide as Hid; [by subst|]. rewrite (ok_marked _ Hok). done.
  - intros id. rewrite length_app. cbn. case_decide as Hid; [subst; symmetry; apply bool_decide_true; fold N; unfold id_of; lia|].
    rewrite (ok_asked _ Hok). apply bool_decide_ext. fold N. unfold id_of in *. lia.
  - intros id. case_decide; [done|]. apply (ok_unasked _ Hok).
  - intros n v Hs. destruct (Hst n v Hs) as [Hs'|[-> ->]].
    + assert (n ≠ N) by (apply lookup_lt_Some in Hs'; unfold N; lia). rewrite decide_False by (unfold id_of; lia).
      destruct (ok_states _ Hok n v Hs') as [-> Hp]. split; [done|]. intros Hpend. rewrite lookup_insert_ne by (unfold id_of; lia). by apply Hp.
    + rewrite decide_True by done. split; [done|]. intros _. by rewrite lookup_insert_eq.
  - intros id c. rewrite (ok_called _ Hok). case_decide as Hid; [subst|done]. by rewrite HfN.
  - apply (ok_once _ Hok).
Qed.

(** Marking a number: with a callback, or without. *)
Definition mark (id : Z) (f : option Z) (tb : tables) : tables :=
  match f with Some f => registe_handler id f tb | None => auto_handle id tb end.
Lemma mark_ok id f tb : tables_ok tb → tables_ok (mark id f tb).
Proof.
  intros Hok.
  assert (Hstep : ∀ id', let F := fate_of id' (history tb ++ [Marked id f]) in
    F.(f_asked) = (fate_of id' (history tb)).(f_asked) ∧ F.(f_outcome) = (fate_of id' (history tb)).(f_outcome) ∧
    F.(f_marked) = if decide (id = id') then Some (match (fate_of id' (history tb)).(f_marked) with Some (Some c) => Some c | _ => f end)
                   else (fate_of id' (history tb)).(f_marked)).
  { intros id'. cbn zeta. rewrite fate_snoc. cbn [step_fate]. case_decide; [|done]. destruct (fate_of id' _) as [a [[c|]|] o]; by cbn. }
  assert (Hh : history (mark id f tb) = history tb ++ [Marked id f]) by by destruct f.
  assert (Heq : states (mark id f tb) = states tb ∧ seq_n (mark id f tb) = seq_n tb ∧ ready_promises (mark id f tb) = ready_promises tb ∧
    futures (mark id f tb) = futures tb ∧ called (mark id f tb) = called tb ∧ auto_handler (mark id f tb) = {[id]} ∪ auto_handler tb) by by destruct f.
  destruct Heq as (Hs & Hq & Hr & Hf & Hc & Ha).
  assert (Hv : ∀ n, verdict (fate_of n (history tb ++ [Marked id f])) = verdict (fate_of n (history tb)) ∧
    calls (fate_of n (history tb ++ [Marked id f])) = calls (fate_of n (history tb))).
  { intros n. destruct (Hstep n) as (_ & Ho & _). unfold verdict, calls. by rewrite Ho. }
  split; rewrite ?Hh, ?Hs, ?Hq, ?Hr, ?Hf, ?Hc, ?Ha.
  - apply (ok_seq _ Hok).
  - apply (ok_ready _ Hok).
  - apply (ok_futures _ Hok).
  - intros id' c. destruct f as [g|]; cbn; [|intros Hl%(ok_handlers _ Hok); set_solver].
    destruct (handlers tb !! id) eqn:Hid; [intros Hl%(ok_handlers _ Hok); set_solver|].
    rewrite lookup_insert_Some. intros [[<- _]|[_ Hl%(ok_handlers _ Hok)]]; set_solver.
  - intros id'. destruct (Hstep id') as (_ & _ & ->). rewrite (ok_marked _ Hok). unfold marked_in. rewrite Ha.
    destruct (decide (id = id')) as [<-|Hne].
    + rewrite (decide_True (P := id ∈ {[id]} ∪ _)) by set_solver.
      assert (Hn : id ∉ auto_handler tb → handlers tb !! id = None).
      { intros Hid. destruct (handlers tb !! id) eqn:Hl; [|done]. by apply (ok_handlers _ Hok) in Hl. }
      destruct f as [g|]; cbn.
      * case_decide as Hid; [destruct (handlers tb !! id) as [c|] eqn:Hl; [by rewrite Hl|by rewrite lookup_insert_eq]|].
        rewrite (Hn Hid). by rewrite lookup_insert_eq.
      * case_decide as Hid; [by destruct (handlers tb !! id)|]. by rewrite (Hn Hid).
    + assert (Hl : handlers (mark id f tb) !! id' = handlers tb !! id').
      { destruct f as [g|]; cbn; [|done]. destruct (handlers tb !! id); [done|]. by rewrite lookup_insert_ne. }
      rewrite Hl. destruct (decide (id' ∈ auto_handler tb)); [rewrite decide_True by set_solver|rewrite decide_False by set_solver]; done.
  - intros id'. destruct (Hstep id') as (-> & _). apply (ok_asked _ Hok).
  - intros id'. destruct (Hstep id') as (-> & -> & _). apply (ok_unasked _ Hok).
  - intros n v Hl. destruct (Hv (id_of n)) as [-> _]. by apply (ok_states _ Hok).
  - intros id' c. destruct (Hv id') as [_ ->]. apply (ok_called _ Hok).
  - apply (ok_once _ Hok).
Qed.
Lemma take_future_ok id tb : tables_ok tb → tables_ok (take_future id tb).2.
Proof.
  intros Hok. split; cbn; try by apply Hok. intros id' n. rewrite lookup_delete_Some. intros [_ Hl]. by apply (ok_futures _ Hok).
Qed.

Lemma handle_ok m tb : tables_ok tb → tables_ok (handle m tb).
Proof.
  intros Hok. unfold handle. set (key := key_of m) in *. destruct (ready_promises tb !! key) as [n|] eqn:Hr.
  2: { assert (Hsame : ∀ id, fate_of id (history tb ++ [Heard m]) = fate_of id (history tb)).
       { intros id. rewrite fate_snoc. cbn [step_fate]. destruct (decide (key_of m = id)) as [Hid|]; [|done]. fold key in Hid. subst id.
         destruct (f_asked _) eqn:Ha; [|done]. destruct (f_outcome _) eqn:Ho; [done|]. exfalso.
         rewrite (ok_asked _ Hok) in Ha. apply bool_decide_eq_true in Ha.
         destruct (lookup_lt_is_Some_2 (states tb) (Z.to_nat key)) as [v Hv]; [unfold id_of in Ha; lia|].
         destruct (ok_states _ Hok _ _ Hv) as [-> Hp]. assert (Hk : id_of (Z.to_nat key) = key) by (unfold id_of; lia).
         rewrite Hk in Hp. unfold verdict in Hp. rewrite Ho in Hp. rewrite Hp in Hr by done. done. }
       split; cbn; try setoid_rewrite Hsame; apply Hok. }
  destruct (ok_ready _ Hok _ _ Hr) as [Hkey Hn]. assert (Hlt : (n < length (states tb))%nat) by by eapply lookup_lt_Some.
  assert (Hfate : fate_of key (history tb) = Fate true (marked_in tb key) None).
  { pose proof (ok_asked _ Hok key) as Ha. rewrite bool_decide_true in Ha by (rewrite Hkey; unfold id_of; lia).
    pose proof (ok_marked _ Hok key) as Hm. destruct (ok_states _ Hok _ _ Hn) as [Hv _]. rewrite <-Hkey in Hv. unfold verdict in Hv.
    destruct (fate_of key (history tb)) as [a mk o]. cbn in *. subst. by destruct o as [[? [?|]]|]. }
  assert (Hstep : ∀ id, fate_of id (history tb ++ [Heard m]) =
    if decide (id = key) then Fate true (marked_in tb key) (Some (m, marked_in tb key)) else fate_of id (history tb)).
  { intros id. rewrite fate_snoc. cbn [step_fate]. fold key. destruct (decide (id = key)) as [->|Hne]; [|by rewrite decide_False].
    rewrite decide_True by done. by rewrite Hfate. }
  assert (Hcall : ∀ cs : list (Z * Z), (∀ id c, (id, c) ∈ cs ↔ (id = key ∧ mjoin (marked_in tb key) = Some c) ∨ (id, c) ∈ called tb) →
    ∀ id c, (id, c) ∈ cs ↔ calls (fate_of id (history tb ++ [Heard m])) = Some c).
  { intros cs Hcs id c. rewrite Hcs, Hstep, (ok_called _ Hok). case_decide as Hid; [subst id|naive_solver].
    rewrite Hfate. cbn. naive_solver. }
  assert (Honce : ∀ f, NoDup (called tb ++ [(key, f)]).*1).
  { intros f. rewrite fmap_app. apply NoDup_app. split_and!; [apply (ok_once _ Hok)| |apply NoDup_singleton].
    intros id Hid ->%list_elem_of_singleton. apply list_elem_of_fmap in Hid as ([id c] & Hid & Hc). cbn in Hid. subst id.
    apply (ok_called _ Hok) in Hc. by rewrite Hfate in Hc. }
  assert (Hst : ∀ v, v = verdict (Fate true (marked_in tb key) (Some (m, marked_in tb key))) →
    ∀ k u, settle n v (states tb) !! k = Some u → u = verdict (fate_of (id_of k) (history tb ++ [Heard m])) ∧
      (u = Pending → delete key (ready_promises tb) !! id_of k = Some k)).
  { intros v -> k u. rewrite (settle_pending _ _ _ Hn), Hstep. destruct (decide (k = n)) as [->|Hne].
    - rewrite list_lookup_insert_eq by done. intros [= <-]. rewrite decide_True by done. split; [done|]. unfold verdict. cbn. by destruct (marked_in tb key).
    - rewrite list_lookup_insert_ne by done. intros Hu. rewrite decide_False by (rewrite Hkey; unfold id_of; lia).
      destruct (ok_states _ Hok _ _ Hu) as [-> Hp]. split; [done|]. intros Hpend. rewrite lookup_delete_ne by (rewrite Hkey; unfold id_of; lia). by apply Hp. }
  assert (Hready : ∀ v id k, delete key (ready_promises tb) !! id = Some k → id = id_of k ∧ settle n v (states tb) !! k = Some Pending).
  { intros v id k. rewrite lookup_delete_Some. intros [Hne Hk]. destruct (ok_ready _ Hok _ _ Hk) as [-> Hp]. split; [done|].
    rewrite (settle_pending _ _ _ Hn), list_lookup_insert_ne; [done|]. intros ->. by rewrite Hkey in Hne. }
  assert (Hask : ∀ id, f_asked (fate_of id (history tb ++ [Heard m])) = bool_decide (0 ≤ id < id_of (length (states tb)))).
  { intros id. rewrite Hstep. case_decide as Hid; [|apply (ok_asked _ Hok)]. subst id. symmetry. apply bool_decide_true. rewrite Hkey. unfold id_of. lia. }
  assert (Hunask : ∀ id, f_asked (fate_of id (history tb ++ [Heard m])) = false → f_outcome (fate_of id (history tb ++ [Heard m])) = None).
  { intros id. rewrite Hstep. case_decide; [done|]. apply (ok_unasked _ Hok). }
  assert (Hmark : ∀ id, f_marked (fate_of id (history tb ++ [Heard m])) = marked_in tb id).
  { intros id. rewrite Hstep. case_decide; [by subst|]. apply (ok_marked _ Hok). }
  unfold marked_in in Hcall. destruct (decide (key ∈ auto_handler tb)) as [Hin|Hin]; split; cbn; rewrite ?length_settle;
    try first [exact (ok_seq _ Hok)|exact (ok_handlers _ Hok)|exact (ok_futures _ Hok)|exact (ok_once _ Hok)|exact Hask|exact Hunask|exact Hmark|apply Hready].
  - intros id k. rewrite lookup_delete_Some. intros [_ Hk]. by apply (ok_futures _ Hok).
  - apply Hst. unfold verdict, marked_in. cbn. by rewrite decide_True.
  - apply Hcall. intros id c. cbn. destruct (handlers tb !! key) as [f|]; [rewrite elem_of_app, list_elem_of_singleton|]; naive_solver.
  - destruct (handlers tb !! key); [apply Honce|apply (ok_once _ Hok)].
  - apply Hst. unfold verdict, marked_in. cbn. by rewrite decide_False.
  - apply Hcall. intros id c. cbn. naive_solver.
Qed.

(** *** The session *)
Section session_props.
Context `{Msgpack}.
Implicit Types (s : t).

(** What a step does to the tables. *)
Inductive touches : tables → tables → Prop :=
| touch_none tb : touches tb tb
| touch_ask m tb : touches tb (ask m tb).2
| touch_mark id f tb : touches tb (mark id f tb)
| touch_take id tb : touches tb (take_future id tb).2
| touch_handle m tb : touches tb (handle m tb).
Lemma act_touches a s s' : act a s = Some s' → touches s.(tab) s'.(tab).
Proof.
  destruct a as [m|n|a|id f|id|id|r| |]; cbn [act].
  - unfold write. destruct (negb _); [done|]. destruct (UDTWriter.error_stat _); [intros [= <-]; constructor|].
    destruct (ask m (tab s)) as [m' tb] eqn:Ha. intros [= <-]. cbn. change tb with (m', tb).2. rewrite <-Ha. constructor.
  - unfold hand_over, mbind, option_bind. destruct (leaving s !! n); [|done]. intros [= <-]. constructor.
  - destruct (by_writer a); [|done]. unfold mbind, option_bind. destruct (UDTWriter.act a _); [|done]. intros [= <-]. constructor.
  - intros [= <-]. apply (touch_mark id (Some f)).
  - intros [= <-]. apply (touch_mark id None).
  - intros [= <-]. constructor.
  - unfold mbind, option_bind. destruct (Inbox.recv r _); [|done]. intros [= <-]. constructor.
  - unfold mbind, option_bind. destruct (Inbox.next _) as [[i [m|]]|]; [..|done]; intros [= <-]; constructor.
  - intros [= <-]. constructor.
Qed.
Lemma touches_grow tb tb' : touches tb tb' → (length tb.(states) ≤ length tb'.(states))%nat ∧ tb.(history) `prefix_of` tb'.(history).
Proof.
  intros [tb'0|m tb0|id [f|] tb0|id tb0|m tb0]; (split; [|first [done|by eexists|idtac]]); try done.
  - unfold ask. cbn. rewrite length_app. destruct (ready_promises tb0 !! _); rewrite ?length_settle; lia.
  - unfold handle. destruct (ready_promises tb0 !! _); [|done]. case_decide; cbn; by rewrite length_settle.
  - unfold handle. destruct (ready_promises tb0 !! _); [case_decide|]; by eexists.
Qed.
Lemma touches_ok tb tb' : touches tb tb' → id_of (length tb'.(states)) ≤ 2 ^ 31 → tables_ok tb → tables_ok tb'.
Proof.
  intros [tb0|m tb0|id f tb0|id tb0|m tb0] Hn Hok; [done| |by apply mark_ok|by apply take_future_ok|by apply handle_ok].
  apply ask_ok; [done|]. unfold ask in Hn. cbn in Hn. rewrite length_app in Hn. unfold id_of in *.
  destruct (ready_promises tb0 !! _); rewrite ?length_settle in Hn; cbn in Hn; lia.
Qed.
Lemma run_tables l s s' : run l s = Some s' → id_of (length s'.(tab).(states)) ≤ 2 ^ 31 → tables_ok s.(tab) →
  tables_ok s'.(tab) ∧ s.(tab).(history) `prefix_of` s'.(tab).(history).
Proof.
  revert s. induction l as [|a l IH]; intros s; cbn [run]; [by intros [= <-]|]. destruct (act a s) as [s1|] eqn:Ha; [|done].
  change (run l s1 = Some s' → id_of (length s'.(tab).(states)) ≤ 2 ^ 31 → tables_ok s.(tab) →
    tables_ok s'.(tab) ∧ s.(tab).(history) `prefix_of` s'.(tab).(history)).
  intros Hr Hn Hok. apply act_touches in Ha. destruct (touches_grow _ _ Ha) as [Hl Hh].
  assert (Hn1 : id_of (length s1.(tab).(states)) ≤ 2 ^ 31).
  { clear -Hr Hn. revert s1 Hr. induction l as [|a l IH]; intros s1; cbn [run]; [by intros [= <-]|]. destruct (act a s1) as [s2|] eqn:Ha; [|done].
    intros Hr. change (run l s2 = Some s') in Hr. specialize (IH s2 Hr). apply act_touches, touches_grow in Ha as [Ha _]. unfold id_of in *. lia. }
  destruct (IH s1 Hr Hn (touches_ok _ _ Ha Hn1 Hok)) as [Hok' Hh']. split; [done|]. by etrans.
Qed.

(** C7: the answers find their requests. Up to 2^31 requests of a session, whatever order the
    answers come in, what its threads do meanwhile and whatever else arrives: a request is
    numbered by its place; its promise is kept by the first answer with that number that
    comes after it, and by no other; where the number was marked before, the promise is given
    up and the callback it was marked with is called; and no number's callback is called
    twice. *)
Theorem answers_find_requests l s : run l start = Some s → id_of (length s.(tab).(states)) ≤ 2 ^ 31 →
  (∀ n v, s.(tab).(states) !! n = Some v → v = verdict (fate_of (id_of n) s.(tab).(history))) ∧
  (∀ id f, (id, f) ∈ s.(tab).(called) ↔ calls (fate_of id s.(tab).(history)) = Some f) ∧
  NoDup s.(tab).(called).*1 ∧
  ∀ m, s.(attached) = true → UDTWriter.error_stat s.(writer) = false → id_of (length s.(tab).(states)) < 2 ^ 31 →
    fst <$> write m s = Some (id_of (length s.(tab).(states))).
Proof.
  intros Hr Hn. destruct (run_tables l start s Hr Hn no_requests_ok) as [Hok _]. split_and!.
  - intros n v Hv. by apply (ok_states _ Hok).
  - apply (ok_called _ Hok).
  - apply (ok_once _ Hok).
  - intros m Ha He Hlt. unfold write. rewrite Ha, He. cbn [negb]. destruct (ask_ok m _ Hok Hlt) as [_ Hm].
    destruct (ask m (tab s)) as [m' tb]. cbn in *. by rewrite Hm, key_small.
Qed.

Lemma fate_settled id h e f : f_outcome (fate_of id h) = Some f → f_outcome (fate_of id (h ++ e)) = Some f.
Proof.
  revert h. induction e as [|x e IH]; intros h Ho; [by rewrite app_nil_r|]. rewrite (cons_middle x h e), (assoc_L (++)). apply IH.
  rewrite fate_snoc. destruct x as [m|id' c|m]; cbn [step_fate]; case_decide; try exact Ho.
  rewrite Ho. by destruct (f_asked (fate_of id h)).
Qed.

(** C18: an answer that comes before its number is marked is kept for a call of [wait_op] that
    will not come, and the callback registered for it afterwards is never called: the worker
    that writes over UDT registers it after the write, and waits for ever. *)
Theorem late_callback_is_lost l s id m l' s' : run l start = Some s → f_outcome (fate_of id s.(tab).(history)) = Some (m, None) →
  run l' s = Some s' → id_of (length s'.(tab).(states)) ≤ 2 ^ 31 → ∀ f, (id, f) ∉ s'.(tab).(called).
Proof.
  intros Hr Ho Hr' Hn f. assert (Hboth : run (l ++ l') start = Some s').
  { clear -Hr Hr'. revert Hr. generalize start. induction l as [|a l IH]; intros s0; cbn [run app]; [by intros [= ->]|].
    destruct (act a s0) as [s1|]; [|done]. apply IH. }
  destruct (run_tables _ _ _ Hboth Hn no_requests_ok) as [Hok _]. rewrite (ok_called _ Hok).
  assert (Hsub : s.(tab).(history) `prefix_of` s'.(tab).(history)).
  { clear -Hr'. revert s Hr'. induction l' as [|a l IH]; intros s; cbn [run]; [by intros [= <-]|].
    destruct (act a s) as [s1|] eqn:Ha; [|done]. intros Hr. etrans; [|by apply IH]. by apply act_touches, touches_grow in Ha as [_ Ha]. }
  destruct Hsub as [e ->]. unfold calls. by rewrite (fate_settled _ _ _ _ Ho).
Qed.
End session_props.
End ClientSession.

(** ** The server *)
Module ServerSession.

(** [queued] are the operations the session has given to the proxy; [results] what they
    came to, by their place: error code, block and size. *)
Record t : Type := mk {
  queued : list data_op;
  results : gmap nat (Z * option (Z * string) * Z);
  leaving : list string;
  writer : UDTWriter.t;
  attached : bool;
  inbox : Inbox.t;
}.
Definition open : t := mk [] ∅ [] UDTWriter.start true Inbox.open.

Section server.
Context `{Msgpack}.
(** The data path of the proxy, and what a constructor leaves as it was. *)
Variables (data_path : string) (junk : rpc_buffer).
Implicit Types (s : t) (op : data_op).

Definition absolute_path (path_rel : string) : string := data_path +:+ path_rel.
(** The operation of a message. *)
Definition op_of (buf : rpc_buffer) : data_op :=
  let path := absolute_path buf.(ioproxy_rpc_buffer.path) in
  let base := OP.mk buf.(ioproxy_rpc_buffer.id) buf.(ioproxy_rpc_buffer.fid) buf.(ioproxy_rpc_buffer.flags) (-1) buf.(ioproxy_rpc_buffer.is_read) in
  let offset := to_i64 buf.(ioproxy_rpc_buffer.offset) in
  if buf.(ioproxy_rpc_buffer.is_read) then
    IOProxyDataOP.mk base IOProxyDataOP.read path None "" buf.(ioproxy_rpc_buffer.read_size) offset 0 "" ""
  else
    let data := buf.(ioproxy_rpc_buffer.buf) in
    IOProxyDataOP.mk base IOProxyDataOP.write path None data (CxxString.size data) offset 0 "" "".
(** The operation when it is done. *)
Definition finish (r : Z * option (Z * string) * Z) op : data_op :=
  let '(error_code, obuf, size) := r in
  IOProxyDataOP.set_error_code error_code (IOProxyDataOP.set_size size (IOProxyDataOP.set_obuf obuf op)).

(** The completion callback. The size of a read goes through [int] to 32 bits without a
    sign; [None]: more is read than the block holds. *)
Definition block_bytes (n : Z) (obuf : option (Z * string)) : option string :=
  match obuf with
  | Some (_, bytes) => if CxxString.size bytes <? n then None else Some (str_take (Z.to_nat n) bytes)
  | None => if n =? 0 then Some "" else None
  end.
Definition reply_of op : option rpc_buffer :=
  let id := op.(IOProxyDataOP.base).(OP.id) in
  match op.(IOProxyDataOP.operation) with
  | IOProxyDataOP.read =>
      data ← block_bytes (to_u32 (to_i32 op.(IOProxyDataOP.size))) op.(IOProxyDataOP.obuf);
      let rb := ioproxy_rpc_buffer.for_write junk "" data op.(IOProxyDataOP.offset) in
      Some (ioproxy_rpc_buffer.set_id id (ioproxy_rpc_buffer.set_error_code (IOProxyDataOP.error_code op) rb))
  | _ => Some (ioproxy_rpc_buffer.set_id id (ioproxy_rpc_buffer.of_error junk (IOProxyDataOP.error_code op)))
  end.
(** A worker calls it, once, and then hands the answer to the writer; [None] also when
    the session is gone. *)
Definition complete (k : nat) (r : Z * option (Z * string) * Z) s : option t :=
  op ← s.(queued) !! k;
  match s.(results) !! k with
  | Some _ => None
  | None =>
      if negb s.(attached) then None
      else
        rb ← reply_of (finish r op);
        Some (mk s.(queued) (<[k := r]> s.(results)) (s.(leaving) ++ [pack rb]) s.(writer) s.(attached) s.(inbox))
  end.
Definition hand_over (n : nat) s : option t :=
  f ← s.(leaving) !! n;
  Some (mk s.(queued) s.(results) (UDTWriter.take_out n s.(leaving)) (UDTWriter.write f s.(writer)) s.(attached) s.(inbox)).
Definition set_inbox (i : Inbox.t) s : t := mk s.(queued) s.(results) s.(leaving) s.(writer) s.(attached) i.
Definition queue_op op s : t := mk (s.(queued) ++ [op]) s.(results) s.(leaving) s.(writer) s.(attached) s.(inbox).
Definition close s : t := mk s.(queued) s.(results) s.(leaving) (UDTWriter.close s.(writer)) false (Inbox.stop s.(inbox)).

Inductive action : Type :=
| Complete (k : nat) (r : Z * option (Z * string) * Z)
| Hand_over (n : nat)
| Writer (a : UDTWriter.action)
| Recv (r : option string)
| Next
| Close.
Definition act (a : action) s : option t :=
  match a with
  | Complete k r => complete k r s
  | Hand_over n => hand_over n s
  | Writer a =>
      if ClientSession.by_writer a then
        w ← UDTWriter.act a s.(writer); Some (mk s.(queued) s.(results) s.(leaving) w s.(attached) s.(inbox))
      else None
  | Recv r => i ← Inbox.recv r s.(inbox); Some (set_inbox i s)
  | Next =>
      '(i, o) ← Inbox.next s.(inbox);
      Some (match o with Some m => queue_op (op_of m) (set_inbox i s) | None => set_inbox i s end)
  | Close => Some (close s)
  end.
End server.
End ServerSession.

(** ** A connection

    UDT brings the bytes it has accepted at one end to the other, in order and in pieces of
    any size, as far as it brings them. *)
Section connection.
Context `{MsgpackLaws}.
Variables (data_path : string) (junk : rpc_buffer).

Record connection : Type := Connection {
  client : ClientSession.t;
  server : ServerSession.t;
  up : nat;     (** the bytes the server has taken *)
  down : nat;
}.
Implicit Types (c : connection).

Inductive step : Type :=
| Client (a : ClientSession.action)
| Server (a : ServerSession.action)
| Up (k : nat)
| Down (k : nat).
(** The next bytes of a stream, which a reader that was not stopped takes. *)
Definition bytes_ahead (k taken : nat) (w : UDTWriter.t) : string := str_take k (str_drop taken w.(UDTWriter.wire)).
Definition taken_by (bytes : string) (i : Inbox.t) : nat := if i.(Inbox.m_stop) then 0 else String.length bytes.
Definition act (a : step) c : option connection :=
  match a with
  | Client (ClientSession.Recv (Some _)) | Server (ServerSession.Recv (Some _)) => None
  | Client a => s ← ClientSession.act a c.(client); Some (Connection s c.(server) c.(up) c.(down))
  | Server a => s ← ServerSession.act data_path junk a c.(server); Some (Connection c.(client) s c.(up) c.(down))
  | Up k =>
      let bytes := bytes_ahead k c.(up) c.(client).(ClientSession.writer) in
      s ← ServerSession.act data_path junk (ServerSession.Recv (Some bytes)) c.(server);
      Some (Connection c.(client) s (c.(up) + taken_by bytes c.(server).(ServerSession.inbox)) c.(down))
  | Down k =>
      let bytes := bytes_ahead k c.(down) c.(server).(ServerSession.writer) in
      s ← ClientSession.act (ClientSession.Recv (Some bytes)) c.(client);
      Some (Connection s c.(server) c.(up) (c.(down) + taken_by bytes c.(client).(ClientSession.inbox)))
  end.
Fixpoint run (l : list step) c : option connection :=
  match l with
  | [] => Some c
  | a :: l => c ← act a c; run l c
  end.



Implicit Types (src : rpc_buffer → Prop) (w : UDTWriter.t) (i : Inbox.t) (hs : list rpc_buffer).




Notation server_act := (ServerSession.act data_path junk).




End connection.

(** ** A run: a write and a read, done and answered in the other order *)
Module SessionRuns.
Export ToyPack.
Definition junk : rpc_buffer := ioproxy_rpc_buffer.mk (-7) false 99 "" 77 66 "" 55 44.
Definition wr : rpc_buffer := ioproxy_rpc_buffer.for_write junk "/f" "hi" 10.
Definition rd : rpc_buffer := ioproxy_rpc_buffer.for_read junk "/g" 0 4.
Definition ask : list step :=
  Client <$> [ClientSession.Write wr; ClientSession.Write rd; ClientSession.Hand_over 0; ClientSession.Hand_over 0].
Definition finish : list step :=
  Server <$> [ServerSession.Complete 1 (0, Some (4, "data"), 4); ServerSession.Complete 0 (2, None, 2); ServerSession.Hand_over 0; ServerSession.Hand_over 0].
Notation states_of c := (ClientSession.states (ClientSession.tab (client c))).
End SessionRuns.
Import SessionRuns.


(** The answer to an asynchronous write overtakes the registration of its callback. *)
Module ClientRuns.
Import ClientSession.
Definition reply (id : Z) : rpc_buffer := ioproxy_rpc_buffer.set_id id (ioproxy_rpc_buffer.of_error junk 2).
Definition early : list action := [Write wr; Hand_over 0; Write wr; Recv (Some (pack (reply 0))); Next].
Definition late : list action := [Registe_handler 0 7; Registe_handler 1 8; Next; Recv (Some (pack (reply 0) +:+ pack (reply 1))); Next; Next].
Definition client_after (l : list action) : t := default start (run l start).
End ClientRuns.
Import ClientRuns.

Lemma late_callback_is_lost_witness :
  (client_after (early ++ late)).(ClientSession.tab).(ClientSession.called) = [(1, 8)] ∧
  ∀ f, (0, f) ∉ (client_after (early ++ late)).(ClientSession.tab).(ClientSession.called).
Proof.
  split; [vm_compute; reflexivity|].
  apply (ClientSession.late_callback_is_lost early (client_after early) 0 (reply 0) late); [vm_compute; reflexivity..|vm_compute; discriminate].
Defined.

Lemma answers_find_requests_witness :
  (client_after (early ++ late)).(ClientSession.tab).(ClientSession.states) !! 0%nat = Some (ClientSession.Value (reply 0)) ∧
  (1, 8) ∈ (client_after (early ++ late)).(ClientSession.tab).(ClientSession.called) ∧
  NoDup (client_after (early ++ late)).(ClientSession.tab).(ClientSession.called).*1.
Proof.
  destruct (ClientSession.answers_find_requests (early ++ late) (client_after (early ++ late))) as (H & Hc & Honce & _);
    [vm_compute; reflexivity|vm_compute; discriminate|].
  split_and!; [|apply Hc; vm_compute; reflexivity|exact Honce].
  destruct (_ !! 0%nat) as [v|] eqn:Hv; [|vm_compute in Hv; discriminate].
  rewrite (H 0%nat v Hv). vm_compute. reflexivity.
Defined.
