(* ===== verification/UdtServer.v ===== *)
(** * The UDT server (msg/udt_server.cc)

    [UDTServer] waits for sockets that are readable: at the one it listens on it accepts
    a connection and makes a session for it (UdtSession.v), at the others it lets the
    session read. *)
From S2P Require Import Prelude CxxString Records Lru FdManager Op Files SyncIo UdtMessage UdtWriter UdtSession.

Module UDTServer.

(** What [epoll_wait] and the calls of a round of the loop come to: the sockets that are
    readable, the new socket, whether the epoll takes it, and what is received. *)
Record readiness : Type := mk_readiness {
  readfds : list Z;
  accepted : option Z;
  add_usock_ret : Z;
  received : Z → option string;
}.
(** [epoll_wait] returned: sockets; a timeout; an error, and whether it is one of the two
    that end the loop. *)
Inductive event : Type := Ready (r : readiness) | Timeout | Error (fatal : bool).

Record t : Type := mk {
  sessions : gmap Z ServerSession.t;
  watched : gset Z;
  m_stop : bool;
}.
(** [NoSession]: the end of the map is dereferenced; [Threw]: an exception ends the process. *)
Inductive outcome : Type := Went (s : t) | NoSession | Threw.

Section server.
Context `{Msgpack}.
Variables (data_path : string) (listen_sock : Z) (junk : rpc_buffer).
Implicit Types (s : t) (ses : ServerSession.t).

(** *** A session reads *)
Notation act_session := (ServerSession.act data_path junk).
Fixpoint take_messages (fuel : nat) ses : ServerSession.t :=
  match fuel with
  | O => ses
  | S fuel => match act_session ServerSession.Next ses with Some ses => take_messages fuel ses | None => ses end
  end.
(** A message is taken off in each round but the last. *)
Definition do_read (r : option string) ses : ServerSession.t :=
  match act_session (ServerSession.Recv r) ses with
  | Some ses => take_messages (S (String.length ses.(ServerSession.inbox).(Inbox.unpacker))) ses
  | None => ses
  end.
Definition is_stop ses : bool := ses.(ServerSession.inbox).(Inbox.m_stop).

Arguments do_read : simpl never.

(** *** The loop *)
Definition start : t := mk ∅ {[listen_sock]} false.
Definition accept (r : readiness) s : t :=
  match r.(accepted) with
  | None => s
  | Some new_sock =>
      if r.(add_usock_ret) <? 0 then s
      else mk (<[new_sock := ServerSession.open]> s.(sessions)) ({[new_sock]} ∪ s.(watched)) s.(m_stop)
  end.
Definition handle_fd (r : readiness) (cur_sock : Z) s : outcome :=
  if decide (cur_sock = listen_sock) then Went (accept r s)
  else
    match s.(sessions) !! cur_sock with
    | None => NoSession
    | Some ses =>
        let ses := do_read (r.(received) cur_sock) ses in
        match ses.(ServerSession.inbox).(Inbox.reading) with
        | Inbox.Crashed => Threw
        | _ =>
            Went (if is_stop ses then mk (delete cur_sock s.(sessions)) (s.(watched) ∖ {[cur_sock]}) s.(m_stop)
                  else mk (<[cur_sock := ses]> s.(sessions)) s.(watched) s.(m_stop))
        end
    end.
Fixpoint handleReadFds (r : readiness) (l : list Z) s : outcome :=
  match l with
  | [] => Went s
  | cur_sock :: l => match handle_fd r cur_sock s with Went s => handleReadFds r l s | o => o end
  end.
Definition stop s : t := mk s.(sessions) s.(watched) false.
(** A round of [entry]. *)
Definition entry_round (e : event) s : outcome :=
  match e with
  | Ready r => handleReadFds r r.(readfds) s
  | Timeout => Went s
  | Error fatal => Went (if (fatal : bool) then mk s.(sessions) s.(watched) true else s)
  end.
(** The rounds of the loop, with calls of [stop] between them; [inl]: it goes on. *)
Inductive step : Type := Round (e : event) | Stop.
Fixpoint entry (l : list step) s : outcome :=
  match l with
  | [] => Went s
  | Stop :: l => entry l (stop s)
  | Round e :: l => if s.(m_stop) then Went s else match entry_round e s with Went s => entry l s | o => o end
  end.
End server.

(** ** Proofs *)
Section proofs.
Context `{MsgpackLaws}.
Variables (data_path : string) (listen_sock : Z) (junk : rpc_buffer).
Implicit Types (s : t) (ses : ServerSession.t) (r : readiness).

(** [do_read] takes out all there is, and is ready for the next round. *)
Lemma take_messages_settled fuel ses : (String.length ses.(ServerSession.inbox).(Inbox.unpacker) < fuel)%nat →
  (take_messages data_path junk fuel ses).(ServerSession.inbox).(Inbox.reading) ≠ Inbox.Parsing.
Proof.
  revert ses. induction fuel as [|fuel IH]; intros ses Hf; [lia|]. cbn [take_messages ServerSession.act].
  destruct ses as [q rs lv wr at_ [u ph st]]. unfold Inbox.next. cbn in *. destruct ph; try done.
  destruct (unpack u) as [|o rest|] eqn:Hu; cbn.
  - by destruct fuel.
  - apply unpack_shorter in Hu. destruct st; [destruct fuel; [lia|done]|].
    destruct o; apply IH; cbn; lia.
  - by destruct fuel.
Qed.
Definition at_rest ses : Prop := ses.(ServerSession.inbox).(Inbox.reading) ≠ Inbox.Parsing.
Lemma do_read_settled rc ses : at_rest ses → at_rest (do_read data_path junk rc ses).
Proof.
  intros Hr. unfold do_read. destruct (ServerSession.act _ _ _ ses) as [ses'|]; [|done].
  apply take_messages_settled. lia.
Qed.

(** The epoll watches the listening socket and those of the sessions. *)
Definition served s : Prop := s.(watched) = {[listen_sock]} ∪ dom s.(sessions) ∧ s.(sessions) !! listen_sock = None.
Lemma start_served : served (start listen_sock).
Proof. split; cbn; [set_solver|done]. Qed.

(** What a session becomes in a round. *)
Definition read_round r (k : Z) ses : option ServerSession.t :=
  let ses := do_read data_path junk (r.(received) k) ses in if is_stop ses then None else Some ses.
(** A new socket is one that is not in use. *)
Definition new_socket r s : Prop := ∀ k, r.(accepted) = Some k → k ∉ s.(watched).

Lemma handle_fd_ok r k s : served s → k = listen_sock ∨ is_Some (s.(sessions) !! k) →
  (k = listen_sock → r.(accepted) ≠ Some listen_sock) →
  match handle_fd data_path listen_sock junk r k s with
  | Went s' => served s' ∧ s'.(m_stop) = s.(m_stop) ∧
      ∀ j, (k = listen_sock → r.(accepted) ≠ Some j) →
        s'.(sessions) !! j = if decide (j = k) then s.(sessions) !! j ≫= read_round r j else s.(sessions) !! j
  | NoSession => False
  | Threw => True
  end.
Proof.
  intros [Hw Hl] Hk Ha. unfold handle_fd. destruct (decide (k = listen_sock)) as [->|Hne].
  - specialize (Ha eq_refl). unfold accept.
    assert (Hsame : ∀ j, s.(sessions) !! j = if decide (j = listen_sock) then s.(sessions) !! j ≫= read_round r j else s.(sessions) !! j)
      by (intros j; case_decide; [subst; by rewrite Hl|done]).
    destruct (r.(accepted)) as [n|]; [destruct (_ <? 0)|]; [done| |done]. assert (n ≠ listen_sock) by congruence.
    split_and!; [split; cbn; [rewrite Hw; set_solver|by rewrite lookup_insert_ne]|done|]. intros j Hj.
    cbn. rewrite lookup_insert_ne by (intros ->; by apply Hj). apply Hsame.
  - destruct Hk as [->|[ses Hses]]; [done|]. rewrite Hses. unfold read_round, is_stop.
    destruct (Inbox.reading _); try done; destruct (Inbox.m_stop _) eqn:Hst; cbn; (split_and!; [split; cbn|done|]);
      rewrite ?Hw, ?dom_delete_L, ?lookup_delete_ne, ?lookup_insert_ne by done;
      try done; try (rewrite dom_insert_lookup_L; [done|by eexists]);
      try (apply set_eq; intros x; destruct (decide (x = k)); set_solver);
      (intros j _; case_decide; [subst; rewrite Hses; unfold mbind, option_bind; rewrite Hst|];
       by rewrite ?lookup_delete_eq, ?lookup_insert_eq, ?lookup_delete_ne, ?lookup_insert_ne).
Qed.

Lemma handle_fds_ok r l s : served s → NoDup l → (∀ k, k ∈ l → k = listen_sock ∨ is_Some (s.(sessions) !! k)) →
  (∀ n, r.(accepted) = Some n → n ∉ l ∧ n ≠ listen_sock) →
  match handleReadFds data_path listen_sock junk r l s with
  | Went s' => served s' ∧ s'.(m_stop) = s.(m_stop) ∧
      ∀ j, r.(accepted) ≠ Some j →
        s'.(sessions) !! j = if decide (j ∈ l) then s.(sessions) !! j ≫= read_round r j else s.(sessions) !! j
  | NoSession => False
  | Threw => True
  end.
Proof.
  revert s. induction l as [|k l IH]; intros s Hs Hnd Hin Hacc; cbn [handleReadFds]; [done|].
  apply NoDup_cons in Hnd as [Hk Hnd].
  assert (Hnl : k = listen_sock → r.(accepted) ≠ Some listen_sock) by (intros _ Ha; by destruct (Hacc _ Ha)).
  pose proof (handle_fd_ok r k s Hs (Hin k ltac:(set_solver)) Hnl) as Hone.
  destruct (handle_fd _ _ _ _ _ _) as [s1| |]; [|done..]. destruct Hone as (Hs1 & Hm1 & Hone).
  assert (Hsame : ∀ j, r.(accepted) ≠ Some j → j ≠ k → s1.(sessions) !! j = s.(sessions) !! j)
    by (intros j Ha Hj; rewrite Hone by done; by rewrite decide_False).
  assert (Hna : ∀ j, j ∈ k :: l → r.(accepted) ≠ Some j) by (intros j Hj Ha; by destruct (Hacc _ Ha)).
  specialize (IH s1 Hs1 Hnd). destruct (handleReadFds _ _ _ _ _ _) as [s2| |].
  - destruct IH as (Hs2 & Hm2 & He).
    + intros j Hj. rewrite Hsame by set_solver. apply Hin. set_solver.
    + intros n Hn. destruct (Hacc n Hn). set_solver.
    + split_and!; [done|congruence|]. intros j Hja. rewrite He by done. destruct (decide (j = k)) as [->|Hjk].
      * rewrite decide_False, decide_True by set_solver. rewrite Hone by done. by rewrite decide_True.
      * rewrite Hsame by done. destruct (decide (j ∈ l)), (decide (j ∈ k :: l)); set_solver.
  - apply IH.
    + intros j Hj. rewrite Hsame by set_solver. apply Hin. set_solver.
    + intros n Hn. destruct (Hacc n Hn). set_solver.
  - done.
Qed.

(** What the epoll can report of a state: sockets it watches, each once; a new socket is
    not one in use. *)
Definition reports (e : event) s : Prop :=
  match e with
  | Ready r => NoDup r.(readfds) ∧ (∀ k, k ∈ r.(readfds) → k ∈ s.(watched)) ∧ (∀ n, r.(accepted) = Some n → n ∉ s.(watched))
  | _ => True
  end.
Fixpoint allowed (l : list step) s : Prop :=
  match l with
  | [] => True
  | Stop :: l => allowed l (stop s)
  | Round e :: l =>
      reports e s ∧ match entry_round data_path listen_sock junk e s with Went s => allowed l s | _ => True end
  end.

Lemma ready_ok r s : served s → reports (Ready r) s →
  match handleReadFds data_path listen_sock junk r r.(readfds) s with
  | Went s' => served s' ∧ s'.(m_stop) = s.(m_stop) ∧
      ∀ j, r.(accepted) ≠ Some j →
        s'.(sessions) !! j = if decide (j ∈ r.(readfds)) then s.(sessions) !! j ≫= read_round r j else s.(sessions) !! j
  | NoSession => False
  | Threw => True
  end.
Proof.
  intros Hs (Hnd & Hin & Hacc). destruct Hs as [Hw Hl]. apply handle_fds_ok; [done..| |].
  - intros k Hk%Hin. rewrite Hw, elem_of_union, elem_of_singleton, elem_of_dom in Hk. done.
  - intros n Hn%Hacc. split; [intros Hr; by apply Hn, Hin|intros ->; apply Hn; set_solver].
Qed.
Lemma round_ok e s : served s → reports e s →
  match entry_round data_path listen_sock junk e s with Went s' => served s' | NoSession => False | Threw => True end.
Proof.
  intros Hs Hr. destruct e as [r| |[|]]; [|by destruct Hs..]. cbn. pose proof (ready_ok r s Hs Hr) as Ho.
  by destruct (handleReadFds _ _ _ _ _ _); [apply Ho|..].
Qed.

(** C15: the server never looks for a session that is not there, which it does without a test:
    as long as the epoll reports sockets it watches, these are at all times the listening one
    and those of the sessions, through connections that come, break and are refused by the
    epoll, errors and calls of [stop]. *)
Theorem every_socket_has_its_session l : allowed l (start listen_sock) →
  entry data_path listen_sock junk l (start listen_sock) ≠ NoSession ∧
  ∀ s, entry data_path listen_sock junk l (start listen_sock) = Went s → served s.
Proof.
  generalize start_served. generalize (start listen_sock) as s. induction l as [|[e|] l IH]; intros s Hs Hall; cbn [entry].
  - split; [done|]. by intros s' [= <-].
  - destruct Hall as [Hr Hall]. destruct (m_stop s); [split; [done|by intros s' [= <-]]|]. pose proof (round_ok e s Hs Hr) as Ho.
    destruct (entry_round _ _ _ _ _) as [s1| |]; [by apply IH|done..].
  - by apply IH.
Qed.

(** A round touches the sessions whose sockets are readable, each with what its own socket
    received, in whatever order they come; one whose socket failed is forgotten; and none is
    left in the middle of what it received. *)
Theorem rounds_keep_apart r s s' : served s → (∀ k ses, s.(sessions) !! k = Some ses → at_rest ses) → reports (Ready r) s →
  entry_round data_path listen_sock junk (Ready r) s = Went s' →
  (∀ k ses, r.(accepted) ≠ Some k → s.(sessions) !! k = Some ses →
     s'.(sessions) !! k = if decide (k ∈ r.(readfds)) then read_round r k ses else Some ses) ∧
  (∀ k ses, r.(accepted) ≠ Some k → s'.(sessions) !! k = Some ses → at_rest ses).
Proof.
  intros Hs Hrest Hr He. pose proof (ready_ok r s Hs Hr) as Ho. cbn in He. rewrite He in Ho. destruct Ho as (_ & _ & Ho). split.
  - intros k ses Ha Hk. rewrite Ho, Hk by done. by case_decide.
  - intros k ses Ha. rewrite Ho by done. destruct (s.(sessions) !! k) as [ses0|] eqn:Hk; case_decide; unfold mbind, option_bind; try done.
    + unfold read_round. destruct (is_stop _); [done|]. intros [= <-]. by apply do_read_settled, (Hrest k).
    + intros [= <-]. by apply (Hrest k).
Qed.

Lemma round_goes_on e s s' : e ≠ Error true → s.(m_stop) = false → entry_round data_path listen_sock junk e s = Went s' → s'.(m_stop) = false.
Proof.
  intros He Hm. destruct e as [r| |[|]]; [|by intros [= <-]|done|by intros [= <-]]. cbn. generalize (readfds r) as l. intros l. revert s Hm.
  induction l as [|k l IH]; intros s Hm; cbn [handleReadFds]; [by intros [= <-]|]. unfold handle_fd.
  destruct (decide _); [apply IH; unfold accept; by destruct (accepted r); [destruct (_ <? 0)|]|].
  destruct (sessions s !! k); [|done]. destruct (Inbox.reading _); try done; apply IH; by destruct (is_stop _).
Qed.
Definition rounds_of : list step → list event := omap (λ a, if a is Round e then Some e else None).
(** While the epoll works [stop] has no effect at all: it sets the flag to what it is. *)
Theorem stop_is_ignored l s : Round (Error true) ∉ l → s.(m_stop) = false →
  entry data_path listen_sock junk l s = entry data_path listen_sock junk (Round <$> rounds_of l) s.
Proof.
  revert s. induction l as [|[e|] l IH]; intros s Hl Hm; [done| |].
  - change (rounds_of (Round e :: l)) with (e :: rounds_of l). cbn [fmap list_fmap entry]. rewrite Hm. destruct (entry_round _ _ _ _ _) as [s'| |] eqn:Hr; [|done..].
    apply IH; [set_solver|]. apply (round_goes_on e s s'); [intros ->; set_solver|done..].
  - change (rounds_of (Stop :: l)) with (rounds_of l). cbn [entry]. replace (stop s) with s by (destruct s; cbn in *; by subst). apply IH; [set_solver|done].
Qed.
End proofs.
End UDTServer.

(** ** Runs: two clients, one of which hangs up while its operation is under way *)
Module ServerRuns.
Export ToyPack UDTServer.
Definition no_data (k : Z) : option string := None.
Definition ready (l : list Z) (new : option Z) (received : Z → option string) : step := Round (Ready (mk_readiness l new 0 received)).
Definition hello (k : Z) : option string := if k =? 7 then Some (pack SessionRuns.wr) else Some (pack SessionRuns.rd).
Definition two_clients : list step :=
  [ready [3] (Some 7) no_data; Stop; ready [7; 3] (Some 8) hello; Round Timeout; ready [8] None hello; ready [7] None no_data].
Notation served_by l := (entry "/data" 3 SessionRuns.junk l (start 3)).
Definition left_over (o : outcome) : list (Z * nat) :=
  match o with Went s => (λ '(k, ses), (k, length ses.(ServerSession.queued))) <$> map_to_list s.(sessions) | _ => [] end.

(** The session of the first client is gone, and the callback of its operation points to it. *)
Example hang_up_forgets : left_over (served_by (take 5 two_clients)) = [(7, 1%nat); (8, 1%nat)] ∧ left_over (served_by two_clients) = [(8, 1%nat)].
Proof. by vm_compute. Qed.
End ServerRuns.
Import ServerRuns.

Lemma every_socket_has_its_session_witness : served_by two_clients ≠ NoSession.
Proof.
  apply (UDTServer.every_socket_has_its_session "/data" 3 SessionRuns.junk two_clients).
  vm_compute. repeat split; try done; repeat constructor; set_solver.
Defined.

(** A round in which one of two sessions gets its first message. *)
Lemma rounds_keep_apart_witness :
  ∃ ses, UDTServer.read_round "/data" SessionRuns.junk (UDTServer.mk_readiness [7] None 0 hello) 7 ServerSession.open = Some ses ∧
    length ses.(ServerSession.queued) = 1%nat ∧
  ∀ s', entry_round "/data" 3 SessionRuns.junk (Ready (UDTServer.mk_readiness [7] None 0 hello))
          (UDTServer.mk {[7 := ServerSession.open]} {[3; 7]} false) = Went s' → s'.(sessions) !! 7 = Some ses.
Proof.
  eexists. split; [vm_compute; reflexivity|]. split; [reflexivity|]. intros s' He.
  destruct (UDTServer.rounds_keep_apart "/data" 3 SessionRuns.junk (UDTServer.mk_readiness [7] None 0 hello)
    (UDTServer.mk {[7 := ServerSession.open]} {[3; 7]} false) s') as [H _].
  - split; cbn; [rewrite dom_singleton_L; set_solver|done].
  - cbn [sessions]. intros k ses (_ & <-)%lookup_singleton_Some. done.
  - cbn [reports readfds watched accepted]. split_and!; [apply NoDup_singleton| |done].
    intros k ->%list_elem_of_singleton. apply elem_of_union_r, elem_of_singleton. reflexivity.
  - exact He.
  - rewrite (H 7 ServerSession.open); [|done|apply lookup_singleton_eq]. vm_compute. reflexivity.
Defined.
