(* ===== verification/UdtChannel.v ===== *)
(** * Channels over UDT (client/msg_mod.cc, client/client_worker.cc)

    [ClientRpc] keeps a session per proxy and reads and writes data through it, and makes
    it anew when it breaks. The sessions themselves (UdtSession.v) are behind the
    interface [UdtSessions]. *)
From S2P Require Import Prelude CxxString Records Op UdtMessage.

(** ** The client *)

(** The sessions of the client by socket: [UDT::connect] may fail; [ses_write] and
    [ses_wait] are [ClientSession::write] and [wait_op], which may throw. *)
Class UdtSessions (W : Type) : Type := {
  udt_connect : string → Z → W → option Z * W;
  ses_write : Z → rpc_buffer → W → Z * W;
  ses_wait : Z → Z → M W (option rpc_buffer);
  ses_auto_handle : Z → Z → W → W;
  ses_registe_handler : Z → Z → Z → W → W;
  ses_close : Z → W → W;
}.

Module ClientRpc.
Section rpc.
Context {W : Type} `{UdtSessions W}.
(** [udt_clients], by the uuid of the proxy; a session may be null. *)
Notation clients := (gmap string (option Z)).
Implicit Types (rpc : clients) (node : IOProxyNode.t) (buf : rpc_buffer).

Definition create_session node : M W (option Z) :=
  extern (udt_connect node.(IOProxyNode.ip) (node.(IOProxyNode.data_port) mod 2 ^ 16)).
Definition udt_channel node (reconnect : bool) rpc : M W (option Z * clients) :=
  match rpc !! node.(IOProxyNode.uuid) with
  | Some udtc_old =>
      if reconnect then
        old ← deref udtc_old;
        _ ← extern (λ w, (tt, ses_close old w));
        new_con ← create_session node;
        mret (new_con, <[node.(IOProxyNode.uuid) := new_con]> rpc)
      else mret (udtc_old, rpc)
  | None =>
      udtp ← create_session node;
      match udtp with
      | None => mret (None, rpc)
      | Some s => mret (Some s, <[node.(IOProxyNode.uuid) := Some s]> rpc)
      end
  end.
(** [udtc->write(buf)]. *)
Definition call_write (udtc : option Z) buf : M W Z := s ← deref udtc; extern (ses_write s buf).

Definition write_data node buf rpc : M W (Z * clients) :=
  '(udtc, rpc) ← udt_channel node false rpc;
  match udtc with
  | None => mret (- ETIMEDOUT, rpc)
  | Some _ =>
      id ← call_write udtc buf;
      '(udtc, id, rpc) ← (if id =? - ECONNRESET then
                            '(udtc, rpc) ← udt_channel node true rpc;
                            id ← call_write udtc buf;
                            mret (udtc, id, rpc)
                          else mret (udtc, id, rpc));
      if id <? 0 then mret (- ECONNREFUSED, rpc)
      else
        s ← deref udtc;
        res ← ses_wait s id;
        mret (match res with Some res => res.(ioproxy_rpc_buffer.error_code) | None => - ETIMEDOUT end, rpc)
  end.

Definition write_data_async node buf rpc : M W (Z * clients) :=
  '(udtc, rpc) ← udt_channel node false rpc;
  match udtc with
  | None => mret (- ETIMEDOUT, rpc)
  | Some _ =>
      id ← call_write udtc buf;
      '(udtc, id, rpc) ← (if id =? - ECONNRESET then
                            '(udtc, rpc) ← udt_channel node true rpc;
                            match udtc with
                            | None => mret (None, 0, rpc)
                            | Some _ => id ← call_write udtc buf; mret (udtc, id, rpc)
                            end
                          else mret (udtc, id, rpc));
      match udtc with
      | None => mret (- ETIMEDOUT, rpc)
      | Some s =>
          if id <? 0 then mret (- ECONNREFUSED, rpc)
          else
            _ ← extern (λ w, (tt, ses_auto_handle s id w));
            mret (to_i32 (CxxString.size buf.(ioproxy_rpc_buffer.buf)), rpc)
      end
  end.

Definition read_data node buf rpc : M W (option rpc_buffer * clients) :=
  '(udtc, rpc) ← udt_channel node false rpc;
  match udtc with
  | None => mret (None, rpc)
  | Some _ =>
      id ← call_write udtc buf;
      '(udtc, id, rpc) ← (if id <? 0 then
                            '(udtc, rpc) ← udt_channel node true rpc;
                            id ← call_write udtc buf;
                            mret (udtc, id, rpc)
                          else mret (udtc, id, rpc));
      if id <? 0 then mret (None, rpc)
      else s ← deref udtc; res ← ses_wait s id; mret (res, rpc)
  end.

(** A worker of the write queue with UDT: the buffer as a message, and the callback [f] for
    its answer. *)
Definition send_buffer node buf (f : Z) rpc : M W clients :=
  '(udtc, rpc) ← udt_channel node false rpc;
  id ← call_write udtc buf;
  '(udtc, id, rpc) ← (if id =? - ECONNRESET then
                        '(udtc, rpc) ← udt_channel node true rpc;
                        id ← call_write udtc buf;
                        mret (udtc, id, rpc)
                      else mret (udtc, id, rpc));
  s ← deref udtc;
  _ ← extern (λ w, (tt, ses_registe_handler s id f w));
  mret rpc.

(** ** Proofs *)

(** The session of a proxy is there, or is to be made, and the connection succeeds. *)
Definition reachable node rpc w (s : Z) w' : Prop :=
  rpc !! node.(IOProxyNode.uuid) = Some (Some s) ∧ w' = w ∨
  rpc !! node.(IOProxyNode.uuid) = None ∧ udt_connect node.(IOProxyNode.ip) (node.(IOProxyNode.data_port) mod 2 ^ 16) w = (Some s, w').
Lemma channel_reachable {B} node rpc w s w' (k : option Z * clients → M W B) : reachable node rpc w s w' →
  (udt_channel node false rpc ≫= k) w = k (Some s, <[node.(IOProxyNode.uuid) := Some s]> rpc) w'.
Proof.
  intros Hr. unfold udt_channel, create_session, mbind, M_bind. destruct Hr as [[Hl ->]|[Hl Hc]]; rewrite Hl.
  - unfold mret, M_ret. by rewrite insert_id.
  - unfold extern. by rewrite Hc.
Qed.
Lemma channel_again {B} node rpc w s (r : option Z) w' (k : option Z * clients → M W B) :
  rpc !! node.(IOProxyNode.uuid) = Some (Some s) →
  udt_connect node.(IOProxyNode.ip) (node.(IOProxyNode.data_port) mod 2 ^ 16) (ses_close s w) = (r, w') →
  (udt_channel node true rpc ≫= k) w = k (r, <[node.(IOProxyNode.uuid) := r]> rpc) w'.
Proof. intros Hl Hc. unfold udt_channel, create_session, mbind, M_bind. rewrite Hl. cbn [deref]. unfold mret, M_ret, extern. by rewrite Hc. Qed.
Lemma channel_null {B} node rpc w (k : option Z * clients → M W B) : rpc !! node.(IOProxyNode.uuid) = Some None →
  (udt_channel node false rpc ≫= k) w = k (None, rpc) w.
Proof. intros Hl. unfold udt_channel, mbind, M_bind. by rewrite Hl. Qed.
Lemma call_write_some {B} s buf w id w' (k : Z → M W B) : ses_write s buf w = (id, w') → (call_write (Some s) buf ≫= k) w = k id w'.
Proof. intros Hs. unfold call_write, mbind, M_bind. cbn [deref]. unfold mret, M_ret, extern. by rewrite Hs. Qed.

(** C19: a connection that breaks and cannot be made again is fatal, or is lost for good. A read,
    a write that waits for its answer and a worker of the write queue dereference a null
    session; an asynchronous write reports a timeout and leaves the null session behind: from
    then on every call to that proxy reports a timeout, none of them tries to connect, and a
    worker that has a buffer for it ends the process. *)
Theorem failed_reconnect node buf rpc w s w1 w2 w3 :
  reachable node rpc w s w1 → ses_write s buf w1 = (- ECONNRESET, w2) →
  udt_connect node.(IOProxyNode.ip) (node.(IOProxyNode.data_port) mod 2 ^ 16) (ses_close s w2) = (None, w3) →
  read_data node buf rpc w = (UB, w3) ∧ write_data node buf rpc w = (UB, w3) ∧ (∀ f, send_buffer node buf f rpc w = (UB, w3)) ∧
  ∃ rpc', write_data_async node buf rpc w = (Val (- ETIMEDOUT, rpc'), w3) ∧
    ∀ buf w, read_data node buf rpc' w = (Val (None, rpc'), w) ∧ write_data node buf rpc' w = (Val (- ETIMEDOUT, rpc'), w) ∧
      write_data_async node buf rpc' w = (Val (- ETIMEDOUT, rpc'), w) ∧ ∀ f, send_buffer node buf f rpc' w = (UB, w).
Proof.
  intros Hr Hw Hc. assert (Hl : <[node.(IOProxyNode.uuid) := Some s]> rpc !! node.(IOProxyNode.uuid) = Some (Some s)) by apply lookup_insert_eq.
  split_and!; [| | |exists (<[node.(IOProxyNode.uuid) := None]> (<[node.(IOProxyNode.uuid) := Some s]> rpc)); split].
  - unfold read_data. rewrite (channel_reachable _ _ _ _ _ _ Hr), (call_write_some _ _ _ _ _ _ Hw). cbn beta.
    change (- ECONNRESET <? 0) with true. cbn iota. unfold mbind at 1, M_bind at 1. by rewrite (channel_again _ _ _ _ _ _ _ Hl Hc).
  - unfold write_data. rewrite (channel_reachable _ _ _ _ _ _ Hr), (call_write_some _ _ _ _ _ _ Hw). cbn beta.
    rewrite Z.eqb_refl. unfold mbind at 1, M_bind at 1. by rewrite (channel_again _ _ _ _ _ _ _ Hl Hc).
  - intros f. unfold send_buffer. rewrite (channel_reachable _ _ _ _ _ _ Hr), (call_write_some _ _ _ _ _ _ Hw). cbn beta.
    rewrite Z.eqb_refl. unfold mbind at 1, M_bind at 1. by rewrite (channel_again _ _ _ _ _ _ _ Hl Hc).
  - unfold write_data_async. rewrite (channel_reachable _ _ _ _ _ _ Hr), (call_write_some _ _ _ _ _ _ Hw). cbn beta.
    rewrite Z.eqb_refl. unfold mbind at 1, M_bind at 1. by rewrite (channel_again _ _ _ _ _ _ _ Hl Hc).
  - intros buf' w'. unfold read_data, write_data, write_data_async. rewrite !channel_null by apply lookup_insert_eq.
    split_and!; [done..|]. intros f. unfold send_buffer. by rewrite channel_null by apply lookup_insert_eq.
Qed.

(** And while the sessions work the outcome of a call is that of waiting for its number. *)
Theorem data_through_session node buf rpc w s w1 id w2 :
  reachable node rpc w s w1 → ses_write s buf w1 = (id, w2) → 0 ≤ id →
  let rpc' := <[node.(IOProxyNode.uuid) := Some s]> rpc in
  read_data node buf rpc w = (res ← ses_wait s id; mret (res, rpc')) w2 ∧
  write_data node buf rpc w =
    (res ← ses_wait s id; mret (match res with Some res => res.(ioproxy_rpc_buffer.error_code) | None => - ETIMEDOUT end, rpc')) w2 ∧
  write_data_async node buf rpc w = (Val (to_i32 (CxxString.size buf.(ioproxy_rpc_buffer.buf)), rpc'), ses_auto_handle s id w2).
Proof.
  intros Hr Hw Hid rpc'. assert (Hneg : id <? 0 = false) by lia. assert (Hne : id =? - ECONNRESET = false) by (unfold ECONNRESET; lia). split_and!.
  - unfold read_data. rewrite (channel_reachable _ _ _ _ _ _ Hr), (call_write_some _ _ _ _ _ _ Hw). cbn beta. rewrite Hneg.
    unfold mbind at 1, M_bind at 1. unfold mret at 1, M_ret at 1. by rewrite Hneg.
  - unfold write_data. rewrite (channel_reachable _ _ _ _ _ _ Hr), (call_write_some _ _ _ _ _ _ Hw). cbn beta. rewrite Hne.
    unfold mbind at 1, M_bind at 1. unfold mret at 1, M_ret at 1. by rewrite Hneg.
  - unfold write_data_async. rewrite (channel_reachable _ _ _ _ _ _ Hr), (call_write_some _ _ _ _ _ _ Hw). cbn beta. rewrite Hne.
    unfold mbind at 1, M_bind at 1. unfold mret at 1, M_ret at 1. by rewrite Hneg.
Qed.
End rpc.
End ClientRpc.

(** ** Runs

    The connections and the writes come to what the two lists say, in this order. *)
Module ChannelRuns.
Export ClientRpc.
Definition world : Type := list (option Z) * list Z.
#[export] Instance scripted : UdtSessions world := {|
  udt_connect _ _ w := match w.1 with c :: cs => (c, (cs, w.2)) | [] => (None, w) end;
  ses_write _ _ w := match w.2 with id :: ids => (id, (w.1, ids)) | [] => (-1, w) end;
  ses_wait _ _ := mret None;
  ses_auto_handle _ _ w := w;
  ses_registe_handler _ _ _ w := w;
  ses_close _ w := w;
|}.
Definition proxy : IOProxyNode.t := IOProxyNode.mk 9092 9095 "10.0.0.1" "" IOProxyNode.Running "p" "c".
Definition message : rpc_buffer := ioproxy_rpc_buffer.mk 0 false 0 "hi" 0 0 "/f" 0 0.
End ChannelRuns.
Import ChannelRuns.

Lemma failed_reconnect_witness :
  read_data proxy message ∅ ([Some 5; None; Some 6], [- ECONNRESET; 0]) = (UB, ([Some 6], [0])) ∧
  ∃ rpc', ∀ w, read_data proxy message rpc' w = (Val (None, rpc'), w).
Proof.
  destruct (ClientRpc.failed_reconnect proxy message ∅ ([Some 5; None; Some 6], [- ECONNRESET; 0]) 5
    ([None; Some 6], [- ECONNRESET; 0]) ([None; Some 6], [0]) ([Some 6], [0])) as (Hr & _ & _ & rpc' & _ & Hl); [right; split; reflexivity|reflexivity..|].
  split; [exact Hr|]. exists rpc'. intros w. apply Hl.
Defined.

Lemma data_through_session_witness :
  write_data_async proxy message ∅ ([Some 5], [3]) = (Val (2, {["p" := Some 5]}), ([], [])).
Proof.
  destruct (ClientRpc.data_through_session proxy message ∅ ([Some 5], [3]) 5 ([], [3]) 3 ([], [])) as (_ & _ & Ha); [right; split; reflexivity|reflexivity|lia|].
  exact Ha.
Defined.
